(* ===== verification/_CoqProject ===== *)
-Q . S2P
Prelude.v
GoStrings.v
Json.v
Types.v
Matching.v
Event.v
Lifecycle.v
Demo.v
Memory.v
MemoryEffect.v
MemoryInv.v
MemoryOps.v
MemoryRuns.v
MemoryRecover.v
MemorySystem.v
Scenario.v
MemoryProps.v
MemoryCalls.v
Service.v
ServiceProps.v
Artifacts.v
Capability.v
CapabilityProps.v
Fs.v
Instructions.v
Engine.v
EngineProps.v
Outbox.v
NodeDemo.v
OutboxProps.v
Worker.v
WorkerProps.v
Pool.v
Postgres.v
PostgresProps.v
PostgresSystem.v
Codec.v
Wire.v
WireProps.v
Url.v
Http.v
Stream.v
Handler.v
HttpClient.v
HttpServed.v
HttpProps.v
HttpErrors.v
HttpAccess.v
HttpStream.v
HttpDemo.v
Workspace.v
WorkspaceProps.v
Process.v
FileBlob.v
Binding.v
BindingProps.v
Runs.v
ToolBridge.v
ToolBridgeProps.v
Sdk.v
ProcessGroup.v
Terminal.v
CommandRuntime.v
CommandProps.v
Codex.v
AppServer.v
Models.v
RuntimeProps.v
RuntimeDemo.v
NodeMain.v
NodeMainProps.v
RelayCtl.v
RelayCtlProps.v
RelayCtlHttp.v
S3Blob.v
ServerMain.v
Examples.v
Migrations.v
Leases.v
Delivered.v
