(* ===== verification/Prelude.v ===== *)
(** * Relay: a verification development of the distributed agent executor

    Relay (src/, Go) lets business applications run agents on machines they do not
    manage.  A host submits a run to the control plane; a node claims it under a
    lease, prepares a workspace and instructions, starts a runtime (a command line
    agent), relays its capability calls to the providers of the node's operator,
    and reports events, artifacts and the result.  This library models that
    program and proves what its parts promise each other.

    ** Reading guide

    Go code is translated function by function and keeps its names ([c_] and [h_]
    prefix the operations of the HTTP client and the handlers of the server,
    [sdk_] those of the SDK).  Code that changes state is a function in the monad
    [M S] of this file: it reads and writes a store, may fail, and consults the
    host ([Host]: clock, random bytes, the order of a map's range, hashes), whose
    n-th answer is an argument, so an execution is a function of its host.
    Failures of the operating system are [Faults], the time calls take
    [Durations], what a connection loses a [Link]; all are arbitrary.  Errors are values [Res], known by their
    sentinels and texts as [errors.Is] and [Error()] see them.  Time is [Z]
    nanoseconds, Go's [int] is [Z] (64 bits on the wire, Codec), strings are bytes.
    Interleaving is a step relation or a play of explicit moves.  Theorems that are
    claims of the development carry a number [C<n>]; each with a hypothesis has a
    witness, a run of the model on concrete data (at the end of its file, or in a
    file whose name ends in Demo).

    ** Parts and files

    - Shared: Prelude (errors, monad, records, [wp] reasoning, tactics), GoStrings
      and Url (strings, net/url), Json and Codec (encoding/json by struct fields
      and tags; text is a parameter with laws), Fs (os, path/filepath), Types
      (types.go, controlplane/types.go), Wire and WireProps (each struct on the
      wire and its round trip), Event (controlplane/event.go), Matching
      ([RuntimeMatches], [nodeMatches]).
    - Control plane storage: Memory (controlplane/memory.go) is one atomic step per
      method, with its invariant in MemoryEffect, MemoryInv, MemoryOps, MemoryRuns
      and MemoryRecover; MemorySystem makes histories of it.  Postgres
      (controlplane/postgres/store.go) is the same interface over tables and
      transactions.  Lifecycle is the abstract state machine of a run that both
      refine (MemoryProps, PostgresProps, PostgresSystem).  MemoryCalls says what
      single calls return.  Migrations is how that database is opened and its schema
      made (Open, Migrate, the scripts of migrations/).  FileBlob
      (controlplane/file_blob.go) keeps artifacts on disk and refines the store in
      memory; S3Blob (s3_blob.go) keeps them in an object store, whose failed calls
      may have taken effect.
    - Service (controlplane/service.go, access.go, blob.go): scopes and validation
      over any [Storage] and [BlobStore], two classes with instances from above.
      Artifacts follows one upload through histories of the service over any blob
      store that keeps what it accepted ([BlobLaws]).
    - Transport (transport/httpapi): Http, Handler and Stream the server, HttpClient
      the client; HttpServed, HttpProps and HttpErrors connect the two, HttpAccess
      is about authentication, HttpStream about event streams.
    - Capability (capability.go): granted, idempotent calls, any number of callers.
      Binding (binding/) routes them to commands, services and RPC clients;
      ToolBridge (runtime/toolbridge/file.go) carries them out of a sandbox through
      files, CommandRuntime (bridge.go, cmd/relay-tool) over HTTP.
    - Node (node/): Outbox delivers events and final reports, Worker executes one
      assignment, Pool repeats that in parallel until it is told to stop.  The
      control plane is a class ([ControlPlane]); an executor is a tree of acts
      ([Work]), and Runs are its behaviours.  Workspace (workspace/manager.go) and
      Instructions (instructions.go) prepare a run.  NodeMain (cmd/relay-node)
      configures, starts, advertises and ends the whole.
    - Runtimes (runtime/): Process has child processes (trees of what a child
      prints, calls, reads and touches) and environments; Codex and AppServer the
      two protocols of codex and trae, Models their discovery, CommandRuntime any
      other command.  All are executors of the Worker.  ProcessGroup
      (process_unix.go) is how a cancelled process tree ends.
    - Engine (engine.go, store.go): the embedded kernel without a control plane,
      over any [RunStore]; its theorems are about the store in memory.
    - Sdk (sdk/, adapter/multica): the client of a host application.
    - Commands: Terminal has the packages flag and tabwriter; RelayCtl is relayctl,
      command by command, over any client (RelayCtlProps) and over HTTP
      (RelayCtlHttp); ServerMain starts relay-server.
    - The whole: Delivered puts the worker, its outbox and a runtime of the node's
      file before the service and the storage, over a connection that loses
      requests and answers, beside other callers; Leases says what these calls do
      to the log of a run whose lease they do not know.  Examples (examples/, the
      smoke tests of cmd/) connects every layer over HTTP and runs the programs.

    ** What the theorems show

    - Every reachable state of the storage is well formed; runs move along the
      lifecycle only, terminal runs never change, a superseded lease or token gets
      nothing accepted, logs only grow and are numbered without gaps, attempts are
      bounded, and a cancellation can be stranded by a late call; the lifecycle and
      the fencing also for the tables of PostgreSQL.
    - Calls: submission is idempotent, claims hand out what fits, reports and
      producer events count once, recovery is total and bounded.
    - Service and transport: data out of scope is absent; an artifact once
      uploaded is opened with the bytes that were sent; over HTTP an operation
      does and answers what it does directly; nothing is reached without the right
      token; a stream delivers each event once and in order.
    - Node: one final report per execution, bounded retries, whole records and an
      answered recovery of the outbox; workspaces of attempts do not meet; text of
      an owner in an instruction file survives; a node can run what it offers and
      shuts down in order, draining its pool.
    - Capabilities run once per key within their grants; through the mailbox the
      bridge serves exactly the calls of holders of the token and mixes up no
      answers; providers outside the process compute what they would inside.
    - Runtimes: success only for a turn reported completed, with the summary that
      was spoken in the events; a command is told exactly its execution; a child
      sees listed variables only and the bridge of its own execution.
    - The whole: a success is delivered whole.  When a node returns a run as
      succeeded, the run is stored with the result of its executor, its log has
      every reported event once and in order, and the summary is what the log has
      as the words of the agent.
    - The database: each migration runs once and whole, in order, whatever versions
      open it and whatever fails; the schema accepts the statements of the store.
    - Processes: a cancelled tree is gone after three seconds, [Wait] returns in
      four, and no other process is signalled while the group lives.
    - Commands: a watch shows a prefix of the log once and in order and ends well
      only with a run that did; a command line submits what it says; the doctor
      finds nothing well that is not; a server with tokens admits nobody else.

    ** Bounds and fuel

    Loops that the code ends by time carry a count: [event_calls] = 7 and
    [report_calls] = 10 are the most calls that fit into the deadlines of 5 and 10
    seconds with doubling delays (OutboxProps proves the loop ends within them);
    [keepLease], [Request_], [await] and event streams take the number of rounds
    their context lasts, for which theorems quantify over every number.  Plays and
    histories have any length.  Children are finite trees: what a process does
    before it ends or is killed.

    ** Parameters

    Laws are classes of their own, stated where the parameter is declared and
    proved for a concrete instance beside a witness: [HostLaws], [IDLaws], [MonotoneClock],
    [FaultLaws], [DurationLaws], [EncoderLaws], [ParserLaws], [LineText], [TimeLaws],
    the git command of Workspace, [ObjectLaws] (the client library of S3: a call
    that succeeds took effect, one that fails may have), [BlobLaws] (any blob store),
    [Semver] (a third-party library, without laws).
    [Environment], [Floats], [Pipes], [Web], [Waiting], [Zone], [Line], [Link] and the
    database server [Postgres.Server] have none.

    ** Not modelled

    The pool of PostgreSQL connections and the locks below its transactions, which
    are atomic steps; the types and indices of its columns; the static console;
    logging; the Windows files, which do nothing.  Data races inside one
    lock-protected method, memory limits, and the bytes of HTTP below requests and
    answers are outside the model.  The renewals of the lease keeper are not in
    the trace of [RunOnce], which sees the answer the keeper stops with; a process
    that changed its user can refuse the signals of ProcessGroup; whoever can write
    the response directory of ToolBridge is trusted, as its answers carry no token.
    What is left
    of the sources without a definition are imports, interfaces (the classes here)
    and code that two packages repeat ([nodeMatches], [newID] of store.go).

    ** Where to go on

    Delivered calls the service directly; its steps over HTTP would use
    [http_transparent] for each of them, under bounds on names and answers, and the
    same over the tables of PostgreSQL.  The summary of a run of the exec protocol
    is a file the agent wrote, and nothing ties it to the events. *)

From stdpp Require Export base gmap strings list fin_maps sorting relations pretty.
From Stdlib Require Export ZArith Lia.


(** ** Record update

    Go mutates one field of a struct through a pointer.  [r <| f := v |>] is
    the struct after the assignment [r.f = v]; the other fields are those of
    [r].  A record takes part by an [Eta] instance that rebuilds it from its
    projections; the setter of a projection is derived from it. *)
Class Eta (R : Type) := eta : R → R.
Class Setter {R T : Type} (proj : R → T) := upd : (T → T) → R → R.
Arguments upd {R T} proj {_} _ _ /.

Ltac derive_setter :=
  match goal with
  | |- @Setter ?R ?T ?proj =>
      let inst := constr:(_ : Eta R) in
      let e := eval hnf in inst in
      match eval pattern proj in e with
      | ?f _ => exact (λ g, f (λ x, g (proj x)))
      end
  end.
#[export] Hint Extern 1 (Setter _) => derive_setter : typeclass_instances.

Declare Scope relay_scope.
Delimit Scope relay_scope with relay.
Open Scope relay_scope.

Notation "r <| f := v |>" := (upd f (λ _, v) r)
  (at level 1, left associativity, format "r  <| f  :=  v |>") : relay_scope.


(** The line feed and the NUL byte of Go's ["\n"] and ["\x00"]. *)
Definition nl : string := String (Ascii.ascii_of_nat 10) EmptyString.
Definition nul : string := String (Ascii.ascii_of_nat 0) EmptyString.

(** ** Zero values

    A Go map lookup of an absent key yields the zero value of its type. *)
Class Zero (A : Type) := zero : A.
#[export] Instance zero_string : Zero string := "".
#[export] Instance zero_Z : Zero Z := 0%Z.
#[export] Instance zero_bool : Zero bool := false.
#[export] Instance zero_option A : Zero (option A) := None.
#[export] Instance zero_list A : Zero (list A) := [].

Definition map_get {A} `{Zero A} (m : gmap string A) (k : string) : A := default zero (m !! k).

(** ** Errors

    A Go error is observed through [Error()] and through [errors.Is]; it is
    modelled by its message and the sentinels [errors.Is] finds in its chain. *)
Inductive Sentinel :=
  | ErrNotFound | ErrNoAssignment | ErrInvalidLease | ErrInvalidTransition
  | ErrRunCancelled | ErrIncompatibleProtocol
  | ErrCapabilityProviderMissing | ErrCapabilityNotGranted | ErrResourceOutOfScope
  | ErrIdempotencyConflict | ErrRunNotFound | ErrLeaseLost
  | ErrContextDone | ErrNotExist.
#[export] Instance sentinel_eq_dec : EqDecision Sentinel.
Proof. solve_decision. Defined.

Record Error := mkError { err_is : list Sentinel; err_msg : string }.
#[export] Instance error_eq_dec : EqDecision Error.
Proof. solve_decision. Defined.

Inductive Res (A : Type) := Ok (a : A) | Err (e : Error).
Arguments Ok {A} _.
Arguments Err {A} _.

Definition is_ok {A} (r : Res A) : bool := match r with Ok _ => true | Err _ => false end.

Definition errors_New (msg : string) : Error := mkError [] msg.
Definition errors_Is (e : Error) (s : Sentinel) : bool := bool_decide (s ∈ err_is e).
Definition errors_Join (e1 e2 : Error) : Error :=
  mkError (err_is e1 ++ err_is e2) (err_msg e1 +:+ nl +:+ err_msg e2).

(** ** The host

    What the code takes from outside itself: the readings of the clock, the
    draws of the random source (already hex encoded), the order in which
    [range] visits a map, the digest, the duration parser, and the texts
    of a time and of a quoted string ([%q]).  The [n]-th interaction with the host gets the
    [n]-th answer, so an execution is a function of its host. *)
Class Host := {
  now_at : nat → Z;
  rand_at : nat → string;
  range_at : nat → list string → list string;
  sha256_hex : string → string;
  parse_duration : string → option Z;
  fmt_time : Z → string;
  fmt_quote : string → string
}.

Class HostLaws `{Host} : Prop := {
  rand_inj : ∀ i j, rand_at i = rand_at j → i = j;
  range_perm : ∀ n l, range_at n l ≡ₚ l
}.

(** Readings of the clock never go back: an assumption of the theorems that
    compare two readings, and of no other. *)
Class MonotoneClock `{Host} : Prop :=
  now_mono : ∀ i j, i ≤ j → (now_at i ≤ now_at j)%Z.

(** ** Stateful, fallible code

    A method on a store of type [S] reads and writes the store, consults the
    host and returns a value or an error.  Writes made before an error stay,
    as they do in Go. *)
Record World (S : Type) := mkWorld { w_tick : nat; w_st : S }.
Arguments mkWorld {S} _ _.
Arguments w_tick {S} _.
Arguments w_st {S} _.

Definition M (S A : Type) : Type := World S → Res A * World S.

Section monad.
Context {S : Type}.

#[export] Instance M_ret : MRet (M S) := λ A a w, (Ok a, w).
#[export] Instance M_bind : MBind (M S) := λ A B k m w,
  match m w with
  | (Ok a, w') => k a w'
  | (Err e, w') => (Err e, w')
  end.

Definition raise {A} (e : Error) : M S A := λ w, (Err e, w).
Definition try {A} (m : M S A) : M S (Res A) := λ w, let '(r, w') := m w in (Ok r, w').
Definition gets {A} (f : S → A) : M S A := λ w, (Ok (f (w_st w)), w).
Definition modify (f : S → S) : M S () := λ w, (Ok (), mkWorld (w_tick w) (f (w_st w))).
Definition lift_res {A} (r : Res A) : M S A := λ w, (r, w).

Definition host {A} (answer : nat → A) : M S A :=
  λ w, (Ok (answer (w_tick w)), mkWorld (w_tick w + 1) (w_st w)).

Definition time_now `{Host} : M S Z := host now_at.

(** [for _, x := range xs { body }] over a slice or an already chosen order. *)
Fixpoint for_each {A} (body : A → M S ()) (xs : list A) : M S () :=
  match xs with
  | [] => mret ()
  | x :: xs => body x ;; for_each body xs
  end.
End monad.

(** [range m] over a map with string keys: some order of its keys. *)
Definition range_map {S V} `{Host} (f : S → gmap string V) : M S (list string) :=
  m ← gets f;
  host (λ n, range_at n (elements (dom m))).

(** ** Reasoning about stateful code

    [wp m Q w]: running [m] from [w] gives a result and a world satisfying [Q]. *)
Definition wp {S A} (m : M S A) (Q : Res A → World S → Prop) (w : World S) : Prop :=
  Q (m w).1 (m w).2.

Section wp.
Context {S : Type}.
Implicit Types w : World S.

Lemma wp_ret {A} (a : A) Q w : Q (Ok a) w → wp (mret a : M S A) Q w.
Proof. done. Qed.
Lemma wp_raise {A} e (Q : Res A → World S → Prop) w : Q (Err e) w → wp (raise e) Q w.
Proof. done. Qed.
Lemma wp_lift_res {A} (r : Res A) (Q : Res A → World S → Prop) w : Q r w → wp (lift_res r) Q w.
Proof. done. Qed.
Lemma wp_gets {A} (f : S → A) Q w : Q (Ok (f (w_st w))) w → wp (gets f) Q w.
Proof. done. Qed.
Lemma wp_modify f Q w : Q (Ok ()) (mkWorld (w_tick w) (f (w_st w))) → wp (modify f) Q w.
Proof. done. Qed.
Lemma wp_host {A} (f : nat → A) Q w :
  Q (Ok (f (w_tick w))) (mkWorld (w_tick w + 1) (w_st w)) → wp (host f) Q w.
Proof. done. Qed.
Lemma wp_bind {A B} (m : M S A) (k : A → M S B) Q w :
  wp m (λ r w', match r with Ok a => wp (k a) Q w' | Err e => Q (Err e) w' end) w →
  wp (m ≫= k) Q w.
Proof. unfold wp, mbind, M_bind. destruct (m w) as [[a|e] w']; done. Qed.
Lemma wp_try {A} (m : M S A) Q w : wp m (λ r w', Q (Ok r) w') w → wp (try m) Q w.
Proof. unfold wp, try. destruct (m w); done. Qed.
Lemma wp_mono {A} (m : M S A) (Q Q' : Res A → World S → Prop) w :
  wp m Q w → (∀ r w', Q r w' → Q' r w') → wp m Q' w.
Proof. unfold wp. eauto. Qed.
Lemma wp_run {A} (m : M S A) Q w : wp m Q w ↔ Q (m w).1 (m w).2.
Proof. done. Qed.

(** The rule of loops: [I] holds before, each iteration keeps it and returns. *)
Lemma wp_for_each {A} (body : A → M S ()) xs (I : list A → World S → Prop) w :
  I xs w →
  (∀ x xs' w', I (x :: xs') w' → wp (body x) (λ r w'', r = Ok () ∧ I xs' w'') w') →
  wp (for_each body xs) (λ r w', r = Ok () ∧ I [] w') w.
Proof.
  revert w. induction xs as [|x xs IH]; intros w HI Hbody; simpl; [by apply wp_ret|].
  apply wp_bind. eapply wp_mono; [by apply Hbody|].
  intros r w' [-> HI']. by apply IH.
Qed.
End wp.

(** One step of symbolic execution. *)
Ltac wp_step :=
  lazymatch goal with
  | |- wp (mbind _ _) _ _ => apply wp_bind
  | |- wp (mret _) _ _ => apply wp_ret
  | |- wp (raise _) _ _ => apply wp_raise
  | |- wp (lift_res _) _ _ => apply wp_lift_res
  | |- wp (gets _) _ _ => apply wp_gets
  | |- wp (modify _) _ _ => apply wp_modify
  | |- wp (host _) _ _ => apply wp_host
  | |- wp time_now _ _ => apply wp_host
  | |- wp (try _) _ _ => apply wp_try
  | |- wp (if ?b then _ else _) _ _ => let E := fresh "E" in destruct b eqn:E
  end; cbn beta iota.
Ltac wp_steps := repeat (wp_step; simpl).

(** The lemmas that automate the common cases of the development. *)
Create HintDb relay.

(** ** Preorders kept by code

    [respects R m]: whatever [m] returns, it takes the state along [R]. *)
Definition respects {S A} (R : relation S) (m : M S A) : Prop := ∀ w, R (w_st w) (w_st (m w).2).

Section respects.
Context {S : Type} (R : relation S) `{!PreOrder R}.

Lemma respects_lift_res {A} (r : Res A) : respects R (lift_res r).
Proof. intros w. by simpl. Qed.
Lemma respects_ret {A} (a : A) : respects R (mret a).
Proof. intros w. by simpl. Qed.
Lemma respects_raise {A} e : respects R (raise e : M S A).
Proof. intros w. by simpl. Qed.
Lemma respects_gets {A} (f : S → A) : respects R (gets f).
Proof. intros w. by simpl. Qed.
Lemma respects_host {A} (f : nat → A) : respects R (host f).
Proof. intros w. by simpl. Qed.
Lemma respects_try {A} (m : M S A) : respects R m → respects R (try m).
Proof. intros Hm w. specialize (Hm w). unfold try. by destruct (m w). Qed.
Lemma respects_bind {A B} (m : M S A) (k : A → M S B) :
  respects R m → (∀ a, respects R (k a)) → respects R (m ≫= k).
Proof.
  intros Hm Hk w. specialize (Hm w). unfold mbind, M_bind. destruct (m w) as [[a|e] w']; simpl in *; [|done].
  transitivity (w_st w'); [exact Hm|apply Hk].
Qed.
End respects.
#[export] Hint Resolve respects_lift_res respects_ret respects_raise respects_gets respects_host
  respects_try : relay.

(** The same with a relation that also sees the time. *)
Definition steps {S A} (R : relation (World S)) (m : M S A) : Prop := ∀ w, R w (m w).2.
Class Ticking {S} (R : relation (World S)) : Prop :=
  ticking : ∀ w k, R w (mkWorld (w_tick w + k) (w_st w)).

Section steps.
Context {S : Type} (R : relation (World S)) `{!PreOrder R}.

Lemma steps_lift_res {A} (r : Res A) : steps R (lift_res r).
Proof. intros w. by simpl. Qed.
Lemma steps_ret {A} (a : A) : steps R (mret a).
Proof. intros w. by simpl. Qed.
Lemma steps_raise {A} e : steps R (raise e : M S A).
Proof. intros w. by simpl. Qed.
Lemma steps_gets {A} (f : S → A) : steps R (gets f).
Proof. intros w. by simpl. Qed.
Lemma steps_host `{!Ticking R} {A} (f : nat → A) : steps R (host f).
Proof. intros w. apply ticking. Qed.
Lemma steps_try {A} (m : M S A) : steps R m → steps R (try m).
Proof. intros Hm w. specialize (Hm w). unfold try. by destruct (m w). Qed.
Lemma steps_bind {A B} (m : M S A) (k : A → M S B) : steps R m → (∀ a, steps R (k a)) → steps R (m ≫= k).
Proof.
  intros Hm Hk w. specialize (Hm w). unfold mbind, M_bind. destruct (m w) as [[a|e] w']; [|exact Hm].
  transitivity w'; [exact Hm|apply Hk].
Qed.
(** A postcondition of the first part. *)
Definition returns {A} (P : A → Prop) (m : M S A) : Prop := ∀ w, match (m w).1 with Ok a => P a | Err _ => True end.
Lemma returns_ret {A} (P : A → Prop) (a : A) : P a → returns P (mret a).
Proof. by intros Hp w. Qed.
Lemma returns_raise {A} (P : A → Prop) err : returns P (raise err).
Proof. done. Qed.
Lemma returns_bind {A B} (P : B → Prop) (m : M S A) (k : A → M S B) : (∀ a, returns P (k a)) → returns P (m ≫= k).
Proof. intros Hk w. unfold mbind, M_bind. destruct (m w) as [[a|e] w']; [apply Hk|done]. Qed.
Lemma steps_bind_returns {A B} (P : A → Prop) (m : M S A) (k : A → M S B) :
  steps R m → returns P m → (∀ a, P a → steps R (k a)) → steps R (m ≫= k).
Proof.
  intros Hm Hp Hk w. specialize (Hm w). specialize (Hp w). unfold mbind, M_bind.
  destruct (m w) as [[a|e] w']; [|exact Hm]. transitivity w'; [exact Hm|by apply Hk].
Qed.
Lemma steps_host_bind `{!Ticking R} {A B} (f : nat → A) (k : A → M S B) :
  (∀ n, steps R (k (f n))) → steps R (host f ≫= k).
Proof. intros Hk w. etrans; [apply (ticking w 1)|]. exact (Hk (w_tick w) (mkWorld (w_tick w + 1) (w_st w))). Qed.
End steps.
#[export] Hint Resolve steps_lift_res steps_ret steps_raise steps_gets steps_host steps_try : relay.

(** [reads m]: [m] leaves the state alone, and time does not go back. *)
Definition reads {S A} (m : M S A) : Prop := ∀ w, w_tick w ≤ w_tick (m w).2 ∧ w_st (m w).2 = w_st w.

Section reads.
Context {S : Type}.

Lemma reads_lift_res {A} (r : Res A) : reads (lift_res r : M S A).
Proof. intros w. simpl. auto with lia. Qed.
Lemma reads_ret {A} (a : A) : reads (mret a : M S A).
Proof. intros w. simpl. auto with lia. Qed.
Lemma reads_raise {A} e : reads (raise e : M S A).
Proof. intros w. simpl. auto with lia. Qed.
Lemma reads_gets {A} (f : S → A) : reads (gets f).
Proof. intros w. simpl. auto with lia. Qed.
Lemma reads_host {A} (f : nat → A) : reads (host f : M S A).
Proof. intros w. simpl. auto with lia. Qed.
Lemma reads_try {A} (m : M S A) : reads m → reads (try m).
Proof. intros Hm w. specialize (Hm w). unfold try. by destruct (m w). Qed.
Lemma reads_bind {A B} (m : M S A) (k : A → M S B) : reads m → (∀ a, reads (k a)) → reads (m ≫= k).
Proof.
  intros Hm Hk w. destruct (Hm w) as [Ht Hs]. unfold mbind, M_bind. destruct (m w) as [[a|e] w1]; simpl in *; [|done].
  destruct (Hk a w1) as [Ht' Hs']. split; [lia|congruence].
Qed.
Lemma reads_range {V} `{Host} (f : S → gmap string V) : reads (range_map f).
Proof. unfold range_map. apply reads_bind; [apply reads_gets|]. intros m. apply reads_host. Qed.
Lemma reads_wp {A} (m : M S A) w : reads m → wp m (λ _ w', w_st w' = w_st w ∧ w_tick w ≤ w_tick w') w.
Proof. intros Hm. by destruct (Hm w). Qed.
End reads.
#[export] Hint Resolve reads_lift_res reads_ret reads_raise reads_gets reads_host reads_try reads_range : relay.

(** ** Booleans used as Go conditions *)
Notation "x =s y" := (bool_decide (x = y)) (at level 70, only parsing) : relay_scope.

(** ** Counting the entries of a map *)
Section count.
Context {V : Type}.

Definition map_count (P : V → bool) (m : gmap string V) : nat :=
  size (filter (λ kv, P kv.2 = true) m).

Lemma map_count_empty P : map_count P ∅ = 0.
Proof. unfold map_count. by rewrite map_filter_empty, map_size_empty. Qed.

Lemma map_count_insert_None P m k v :
  m !! k = None → map_count P (<[k:=v]> m) = (if P v then 1 else 0) + map_count P m.
Proof.
  intros Hk. unfold map_count. destruct (P v) eqn:HP.
  - rewrite map_filter_insert_True by done.
    rewrite map_size_insert_None; [done|]. by apply map_lookup_filter_None_2; left.
  - rewrite map_filter_insert_not'; simpl; [done|by rewrite HP|by rewrite Hk].
Qed.

Lemma map_count_delete P m k v :
  m !! k = Some v → map_count P m = (if P v then 1 else 0) + map_count P (delete k m).
Proof.
  intros Hk. rewrite <- (insert_id m k v Hk) at 1. rewrite <- insert_delete_eq.
  apply map_count_insert_None. apply lookup_delete_eq.
Qed.

(** Overwriting an entry moves the count by the difference of the two values. *)
Lemma map_count_insert P m k v0 v :
  m !! k = Some v0 →
  map_count P (<[k:=v]> m) + (if P v0 then 1 else 0) = map_count P m + (if P v then 1 else 0).
Proof.
  intros Hk. rewrite <- insert_delete_eq.
  rewrite map_count_insert_None by apply lookup_delete_eq.
  rewrite (map_count_delete P m k v0 Hk). lia.
Qed.

Lemma map_count_pos P m k v : m !! k = Some v → P v = true → 0 < map_count P m.
Proof. intros Hk HP. rewrite (map_count_delete P m k v Hk), HP. lia. Qed.

Lemma map_count_none m : map_count (λ _, false) m = 0.
Proof.
  induction m as [|k v m Hk Hf IH] using map_first_key_ind; [apply map_count_empty|].
  rewrite map_count_insert_None by done. exact IH.
Qed.

Lemma map_count_ext P P' m :
  (∀ k v, m !! k = Some v → P v = P' v) → map_count P m = map_count P' m.
Proof.
  intros H. unfold map_count. f_equal. apply map_filter_ext.
  intros k v Hk. simpl. by rewrite (H k v Hk).
Qed.
End count.
