(* ===== verification/GoStrings.v ===== *)
(** * GoStrings: the string functions of Go's library the code uses

    A Go string is its bytes.  [TrimSpace] removes the encodings of the Unicode
    white space, [Index] finds the first occurrence, [str_take] and [str_drop]
    are the slices [s[:n]] and [s[n:]]. *)

From S2P Require Import Prelude.

Definition byte_of (n : nat) : Ascii.ascii := Ascii.ascii_of_nat n.
Definition code (c : Ascii.ascii) : nat := Ascii.nat_of_ascii c.

(** ** White space

    [unicode.IsSpace] by the bytes of the UTF-8 encoding: the ASCII blanks,
    U+0085 and U+00A0; U+1680, U+2000 to U+200A, U+2028, U+2029, U+202F, U+205F
    and U+3000. *)
Definition space1 (a : Ascii.ascii) : bool :=
  let n := code a in ((9 <=? n) && (n <=? 13) || (n =? 32))%nat.
Definition space2 (a b : Ascii.ascii) : bool :=
  ((code a =? 194) && ((code b =? 133) || (code b =? 160)))%nat.
Definition space3 (a b c : Ascii.ascii) : bool :=
  let x := code a in let y := code b in let z := code c in
  ((x =? 225) && (y =? 154) && (z =? 128) ||
   (x =? 226) && (y =? 128) &&
     ((128 <=? z) && (z <=? 138) || (z =? 168) || (z =? 169) || (z =? 175)) ||
   (x =? 226) && (y =? 129) && (z =? 159) ||
   (x =? 227) && (y =? 128) && (z =? 128))%nat.

Section trim.
Context (sp1 : Ascii.ascii → bool) (sp2 : Ascii.ascii → Ascii.ascii → bool)
  (sp3 : Ascii.ascii → Ascii.ascii → Ascii.ascii → bool).

(** Drop leading blanks of one, two or three bytes. *)
Fixpoint strip (s : string) : string :=
  match s with
  | EmptyString => s
  | String a s1 =>
      if sp1 a then strip s1
      else match s1 with
           | EmptyString => s
           | String b s2 =>
               if sp2 a b then strip s2
               else match s2 with
                    | EmptyString => s
                    | String c s3 => if sp3 a b c then strip s3 else s
                    end
           end
  end.
End trim.

Fixpoint str_rev_app (s acc : string) : string :=
  match s with EmptyString => acc | String c s => str_rev_app s (String c acc) end.
Definition str_rev (s : string) : string := str_rev_app s "".

Definition TrimLeftSpace (s : string) : string := strip space1 space2 space3 s.
Definition TrimRightSpace (s : string) : string :=
  str_rev (strip space1 (λ a b, space2 b a) (λ a b c, space3 c b a) (str_rev s)).
Definition TrimSpace (s : string) : string := TrimRightSpace (TrimLeftSpace s).

(** [strings.TrimRight(s, cutset)] for a one-byte cutset. *)
Definition TrimRightByte (c : Ascii.ascii) (s : string) : string :=
  str_rev (strip (λ a, bool_decide (a = c)) (λ _ _, false) (λ _ _ _, false) (str_rev s)).
Definition newline : Ascii.ascii := byte_of 10.

(** ** Searching and slicing *)
Fixpoint str_take (n : nat) (s : string) : string :=
  match n, s with S n, String c s => String c (str_take n s) | _, _ => "" end.
Fixpoint str_drop (n : nat) (s : string) : string :=
  match n, s with S n, String _ s => str_drop n s | O, _ => s | _, EmptyString => "" end.

(** [strings.Index]: the position of the first occurrence, -1 as [None]. *)
Fixpoint Index (s sub : string) : option nat :=
  if String.prefix sub s then Some 0
  else match s with EmptyString => None | String _ s => S <$> Index s sub end.

(** [strings.HasPrefix], [strings.HasSuffix], [strings.TrimPrefix], [strings.Contains]. *)
Definition HasPrefix (s pre : string) : bool := String.prefix pre s.
Definition HasSuffix (s suf : string) : bool :=
  (String.length suf <=? String.length s)%nat &&
  (str_drop (String.length s - String.length suf) s =s suf).
Definition TrimPrefix (s pre : string) : string :=
  if HasPrefix s pre then str_drop (String.length pre) s else s.
Definition Contains (s sub : string) : bool := negb (Index s sub =s None).

(** [strings.Split(s, sep)] for a one-byte separator. *)
Fixpoint split_byte (sep : Ascii.ascii) (s cur : string) : list string :=
  match s with
  | EmptyString => [str_rev cur]
  | String c s => if bool_decide (c = sep) then str_rev cur :: split_byte sep s "" else split_byte sep s (String c cur)
  end.
Definition Split (s : string) (sep : Ascii.ascii) : list string := split_byte sep s "".

(** [strings.Join]. *)
Fixpoint Join (l : list string) (sep : string) : string :=
  match l with [] => "" | [x] => x | x :: l => x +:+ sep +:+ Join l sep end.

(** ** Laws *)
Lemma str_cons_app x a b : String x a +:+ b = String x (a +:+ b).
Proof. done. Qed.
Lemma str_nil_app b : "" +:+ b = b.
Proof. done. Qed.

Lemma str_app_assoc (a b c : string) : (a +:+ b) +:+ c = a +:+ b +:+ c.
Proof. induction a as [|x a IH]; rewrite ?str_cons_app; simpl; [done|by rewrite ?IH]. Qed.

Lemma str_app_nil_r (a : string) : a +:+ "" = a.
Proof. induction a as [|x a IH]; rewrite ?str_cons_app; simpl; [done|by rewrite ?IH]. Qed.

Lemma str_length_app (a b : string) : String.length (a +:+ b) = String.length a + String.length b.
Proof. induction a as [|x a IH]; rewrite ?str_cons_app; simpl; [done|by rewrite ?IH]. Qed.

Lemma str_take_app a b : str_take (String.length a) (a +:+ b) = a.
Proof. induction a as [|x a IH]; [by destruct b|]. rewrite str_cons_app. simpl. by rewrite IH. Qed.

Lemma str_drop_app a b : str_drop (String.length a) (a +:+ b) = b.
Proof. induction a as [|x a IH]; [by destruct b|]. rewrite str_cons_app. exact IH. Qed.

Lemma str_length_take n s : String.length (str_take n s) = n `min` String.length s.
Proof. revert n. induction s as [|c s IH]; intros [|n]; simpl; try done. by rewrite IH. Qed.
Lemma str_take_ge n s : String.length s ≤ n → str_take n s = s.
Proof. revert n. induction s as [|c s IH]; intros [|n] Hn; simpl in *; try done; [lia|]. rewrite IH by lia. done. Qed.
Lemma str_take_take m n s : m ≤ n → str_take m (str_take n s) = str_take m s.
Proof.
  revert m n. induction s as [|c s IH]; intros [|m] [|n] Hm; simpl; try done; [lia|]. by rewrite IH by lia.
Qed.
Lemma str_take_drop n s : str_take n s +:+ str_drop n s = s.
Proof.
  revert s. induction n as [|n IH]; intros [|c s]; simpl; try done. rewrite str_cons_app. by rewrite IH.
Qed.
(** Two ways to cut one text. *)
Lemma str_app_split a b c d :
  a +:+ b = c +:+ d →
  (∃ u, c = a +:+ u ∧ b = u +:+ d) ∨ (∃ u, u ≠ "" ∧ a = c +:+ u ∧ d = u +:+ b).
Proof.
  revert c. induction a as [|x a IH]; intros [|y c]; rewrite ?str_nil_app, ?str_cons_app; intros He.
  - left. by exists "".
  - left. exists (String y c). by rewrite str_cons_app.
  - right. exists (String x a). by rewrite str_cons_app.
  - injection He as -> He. destruct (IH c He) as [(u & -> & ->)|(u & Hu & -> & ->)]; [left|right];
      exists u; by rewrite ?str_cons_app.
Qed.

Lemma prefix_cons c p d s :
  String.prefix (String c p) (String d s) = if Ascii.ascii_dec c d then String.prefix p s else false.
Proof. done. Qed.

Lemma prefix_app a b : String.prefix a (a +:+ b) = true.
Proof.
  induction a as [|c a IH]; [by destruct b|]. rewrite str_cons_app, prefix_cons.
  by destruct (Ascii.ascii_dec c c).
Qed.

Lemma prefix_spec p s : String.prefix p s = true → ∃ t, s = p +:+ t.
Proof.
  revert s. induction p as [|c p IH]; intros s; [by exists s|].
  destruct s as [|d s]; [done|]. rewrite prefix_cons. destruct (Ascii.ascii_dec c d) as [->|]; [|done].
  intros Hp. destruct (IH s Hp) as [t ->]. by exists t.
Qed.

Lemma Index_nil sub : Index "" sub = if String.prefix sub "" then Some 0 else None.
Proof. done. Qed.
Lemma Index_cons c s sub :
  Index (String c s) sub = if String.prefix sub (String c s) then Some 0 else S <$> Index s sub.
Proof. done. Qed.

Lemma Index_Some s sub n :
  Index s sub = Some n → ∃ t, s = str_take n s +:+ sub +:+ t ∧ String.length (str_take n s) = n.
Proof.
  revert n. induction s as [|c s IH]; intros n; rewrite ?Index_nil, ?Index_cons.
  - destruct (String.prefix sub "") eqn:E; [|done]. intros [= <-]. apply prefix_spec in E as [t E].
    exists t. done.
  - destruct (String.prefix sub (String c s)) eqn:E.
    + intros [= <-]. apply prefix_spec in E as [t E]. exists t. done.
    + intros (m & Hm & ->)%fmap_Some. destruct (IH m Hm) as (t & Ht & Hl). exists t.
      split; [|simpl; by f_equal]. change (str_take (S m) (String c s)) with (String c (str_take m s)).
      rewrite str_cons_app, <- Ht. done.
Qed.

(** ** Separators

    [a ++ NUL ++ b] determines [a] and [b] when [a] holds no NUL. *)
Fixpoint has_char (c : Ascii.ascii) (s : string) : bool :=
  match s with
  | EmptyString => false
  | String d s => bool_decide (c = d) || has_char c s
  end.
Definition nul_free (s : string) : Prop := has_char (Ascii.ascii_of_nat 0) s = false.

Lemma sep_inj c (a b a' b' : string) :
  has_char c a = false → has_char c a' = false →
  a +:+ String c b = a' +:+ String c b' → a = a' ∧ b = b'.
Proof.
  revert a'. induction a as [|x a IH]; intros [|x' a'] Ha Ha' He; simpl in *.
  - by injection He as ->.
  - injection He as -> ->. by rewrite bool_decide_eq_true_2 in Ha'.
  - injection He as -> He. by rewrite bool_decide_eq_true_2 in Ha.
  - injection He as -> He. apply orb_false_iff in Ha as [_ Ha], Ha' as [_ Ha'].
    by destruct (IH a' Ha Ha' He) as [-> ->].
Qed.

Lemma nul_sep_inj (a b a' b' : string) :
  nul_free a → nul_free a' → a +:+ nul +:+ b = a' +:+ nul +:+ b' → a = a' ∧ b = b'.
Proof. apply sep_inj. Qed.

(** ** First occurrences *)
Lemma has_char_app c a b : has_char c (a +:+ b) = has_char c a || has_char c b.
Proof.
  induction a as [|x a IH]; [done|]. rewrite str_cons_app. simpl. by rewrite IH, orb_assoc.
Qed.

Lemma prefix_split p a b :
  String.prefix p (a +:+ b) = true →
  String.prefix p a = true ∨ ∃ q, p = a +:+ q ∧ q ≠ "" ∧ String.prefix q b = true.
Proof.
  revert p. induction a as [|x a IH]; intros p; [rewrite str_nil_app|rewrite str_cons_app].
  - intros Hp. destruct p as [|c p]; [by left|]. right. by exists (String c p).
  - destruct p as [|c p]; [by left|]. rewrite !prefix_cons.
    destruct (Ascii.ascii_dec c x) as [->|]; [|done]. intros Hp.
    destruct (IH p Hp) as [?|(q & -> & ? & ?)]; [by left|]. right. by exists q.
Qed.

(** A byte outside the pattern separates the searches before and after it. *)
Lemma Index_sep c sub a b :
  has_char c sub = false → Index a sub = None → Index b sub = None → Index (a +:+ String c b) sub = None.
Proof.
  intros Hc. assert (Hsep : ∀ a', String.prefix sub (a' +:+ String c b) = true → String.prefix sub a' = true).
  { intros a' Hp. apply prefix_split in Hp as [?|(q & -> & Hq & Hp)]; [done|].
    destruct q as [|d q]; [done|]. rewrite prefix_cons in Hp.
    destruct (Ascii.ascii_dec d c) as [->|]; [|done].
    rewrite has_char_app in Hc. simpl in Hc. rewrite bool_decide_eq_true_2 in Hc by done.
    by rewrite orb_true_r in Hc. }
  intros Ha Hb. induction a as [|x a IH].
  - rewrite str_nil_app, Index_cons. rewrite Index_nil in Ha.
    destruct (String.prefix sub (String c b)) eqn:E; [|by rewrite Hb].
    rewrite (Hsep "" E) in Ha. done.
  - rewrite str_cons_app, Index_cons in *. destruct (String.prefix sub (String x a)) eqn:E; [done|].
    destruct (String.prefix sub (String x (a +:+ String c b))) eqn:E'.
    + rewrite (Hsep (String x a) E') in E. done.
    + rewrite IH; [done|]. by destruct (Index a sub).
Qed.

(** A pattern whose first byte occurs once in it is found right behind a text
    that does not contain it. *)
Lemma Index_first c t a b :
  has_char c t = false → Index a (String c t) = None →
  Index (a +:+ String c t +:+ b) (String c t) = Some (String.length a).
Proof.
  intros Hc Ha. induction a as [|x a IH].
  - rewrite str_nil_app, str_cons_app, Index_cons, <- str_cons_app. by rewrite prefix_app.
  - rewrite (str_cons_app x), Index_cons. rewrite Index_cons in Ha.
    destruct (String.prefix (String c t) (String x a)) eqn:E; [done|].
    destruct (String.prefix _ (String x (a +:+ _))) eqn:E'.
    + rewrite <- str_cons_app in E'. apply prefix_split in E' as [E'|(q & Hq & Hne & Hp)]; [congruence|].
      rewrite str_cons_app in Hq. injection Hq as <- ->. destruct q as [|d q]; [done|].
      rewrite str_cons_app, prefix_cons in Hp. destruct (Ascii.ascii_dec d c) as [->|]; [|done].
      rewrite has_char_app in Hc. simpl in Hc. rewrite bool_decide_eq_true_2 in Hc by done.
      by rewrite orb_true_r in Hc.
    + rewrite IH; [done|]. by destruct (Index a (String c t)).
Qed.
