(* ===== verification/Json.v ===== *)
(** * Json: the JSON values of the protocol

    [encoding/json] turns Go values into text and back.  A document is
    modelled by its tree; numbers keep their literal, as [UseNumber] does.  The
    text of a tree is the encoder's ([json_text]); decoding an object into a Go
    map and encoding it again sorts the keys and keeps the last of duplicates,
    which is [canon].  The comparisons of controlplane/event.go are in Event. *)

From S2P Require Import Prelude.

Inductive Json :=
  | JNull
  | JBool (b : bool)
  | JNum (literal : string)
  | JStr (s : string)
  | JArr (l : list Json)
  | JObj (l : list (string * Json)).

(** The encoder's text of a tree, and its law: distinct trees, distinct texts. *)
Class Encoder := json_text : Json → string.
Class EncoderLaws `{Encoder} : Prop := json_text_inj : ∀ a b, json_text a = json_text b → a = b.

(** [any]: an interface value handed to [json.Marshal].  [AnyBad] is a value the
    encoder refuses (a channel, a cyclic value, an invalid [RawMessage]). *)
Inductive Any :=
  | AnyNil
  | AnyJson (j : Json)
  | AnyBad (message : string).

(** [json.Marshal], up to the text. *)
Definition marshal (v : Any) : Res Json :=
  match v with
  | AnyNil => Ok JNull
  | AnyJson j => Ok j
  | AnyBad msg => Err (errors_New msg)
  end.

(** The members of an object decoded into a Go map: a later duplicate wins. *)
Definition obj_map (l : list (string * Json)) : gmap string Json := list_to_map (reverse l).

(** A Go map encoded as an object: the keys in increasing order. *)
Definition obj_members (m : gmap string Json) : list (string * Json) :=
  map (λ k, (k, default JNull (m !! k))) (merge_sort String.le (elements (dom m))).

(** Decode into [any] with [UseNumber], then encode. *)
Fixpoint canon (j : Json) : Json :=
  match j with
  | JArr l => JArr (map canon l)
  | JObj l => JObj (obj_members (obj_map (map (λ kv, (kv.1, canon kv.2)) l)))
  | _ => j
  end.

(** Two documents that differ by the order of object members, anywhere. *)
Inductive json_equiv : Json → Json → Prop :=
  | je_refl j : json_equiv j j
  | je_trans a b c : json_equiv a b → json_equiv b c → json_equiv a c
  | je_arr l l' : Forall2 json_equiv l l' → json_equiv (JArr l) (JArr l')
  | je_obj l l' :
      Forall2 (λ p q, p.1 = q.1 ∧ json_equiv p.2 q.2) l l' → json_equiv (JObj l) (JObj l')
  | je_perm l l' : NoDup l.*1 → l ≡ₚ l' → json_equiv (JObj l) (JObj l').

Lemma obj_map_perm l l' : NoDup l.*1 → l ≡ₚ l' → obj_map l = obj_map l'.
Proof.
  intros Hnd Hp. unfold obj_map. apply list_to_map_proper.
  - by rewrite (reverse_Permutation l).
  - by rewrite (reverse_Permutation l), Hp, (reverse_Permutation l').
Qed.

Lemma fmap_fst_map {A B} (f : A → B) (l : list (string * A)) :
  (map (λ kv, (kv.1, f kv.2)) l).*1 = l.*1.
Proof. induction l as [|[k v] l IH]; csimpl; [done|by rewrite IH]. Qed.

(** Members in another order give the same canonical document. *)
Lemma canon_equiv : ∀ a b, json_equiv a b → canon a = canon b.
Proof.
  fix IH 3. intros a b H.
  destruct H as [j|a b c H1 H2|l l' H|l l' H|l l' Hnd Hp].
  - done.
  - rewrite (IH _ _ H1). exact (IH _ _ H2).
  - simpl. f_equal. revert l l' H. fix IHl 3. intros l l' [|x y l1 l2 Hxy H]; [done|].
    simpl. f_equal; [exact (IH _ _ Hxy)|exact (IHl _ _ H)].
  - simpl. do 3 f_equal. revert l l' H. fix IHl 3. intros l l' [|x y l1 l2 Hxy H]; [done|].
    simpl. f_equal; [|exact (IHl _ _ H)]. destruct Hxy as [He Hj].
    rewrite (IH _ _ Hj), He. reflexivity.
  - simpl. do 2 f_equal. apply obj_map_perm.
    + by rewrite fmap_fst_map.
    + by apply Permutation_map.
Qed.

(** A document lists its members by what a lookup finds, so encoding a decoded
    map and decoding it again gives the same map. *)
Lemma obj_map_members m : obj_map (obj_members m) = m.
Proof.
  unfold obj_map, obj_members. set (ks := merge_sort String.le (elements (dom m))).
  assert (Hks : ∀ k, k ∈ ks ↔ is_Some (m !! k)).
  { intros k. unfold ks. rewrite merge_sort_Permutation, elem_of_elements. apply elem_of_dom. }
  assert (Hnd : NoDup ks).
  { unfold ks. rewrite merge_sort_Permutation. apply NoDup_elements. }
  assert (Hfst : (map (λ k, (k, default JNull (m !! k))) ks).*1 = ks).
  { clear. induction ks as [|k ks IH]; csimpl; [done|by rewrite IH]. }
  apply map_eq. intros k. destruct (m !! k) as [v|] eqn:Hk.
  - apply elem_of_list_to_map_1.
    + rewrite fmap_reverse, Hfst. by rewrite reverse_Permutation.
    + rewrite elem_of_reverse. apply list_elem_of_In, in_map_iff. exists k.
      rewrite Hk. split; [done|]. apply list_elem_of_In, Hks. eauto.
  - apply not_elem_of_list_to_map_1. rewrite fmap_reverse, Hfst, elem_of_reverse, Hks.
    rewrite Hk. by intros [? ?].
Qed.
