(* ===== verification/Types.v ===== *)
(** * Types: the data of Relay

    The structs of types.go and controlplane/types.go, field for field, the
    sentinel errors with their texts, the JSON forms of the structs that end up
    in event payloads, and the version constants of version.go.

    Times and durations are nanoseconds ([Z]); a [*time.Time] is an [option Z].
    A [json.RawMessage] is an [option Json], [None] for nil: the decoder and the
    encoder accept no other content than a valid document.  A Go string used as
    an enumeration is the inductive type of its constants. *)

From S2P Require Import Prelude Json.

(** ** Statuses *)
Inductive RunStatus :=
  RunQueued | RunRunning | RunCancelling | RunCancelled | RunSucceeded | RunFailed.
Inductive AttemptStatus :=
  | AttemptQueued | AttemptLeased | AttemptRunning | AttemptSucceeded
  | AttemptFailed | AttemptLost | AttemptCancelled.
#[export] Instance run_status_eq_dec : EqDecision RunStatus.
Proof. solve_decision. Defined.
#[export] Instance attempt_status_eq_dec : EqDecision AttemptStatus.
Proof. solve_decision. Defined.

Definition RunStatus_text (s : RunStatus) : string :=
  match s with
  | RunQueued => "queued" | RunRunning => "running" | RunCancelling => "cancelling"
  | RunCancelled => "cancelled" | RunSucceeded => "succeeded" | RunFailed => "failed"
  end.

Inductive InteractionKind := InteractionInput | InteractionApproval | InteractionOther (s : string).
#[export] Instance interaction_kind_eq_dec : EqDecision InteractionKind.
Proof. solve_decision. Defined.

Definition InteractionKind_text (k : InteractionKind) : string :=
  match k with
  | InteractionInput => "input" | InteractionApproval => "approval" | InteractionOther s => s
  end.

(** ** Requests *)
Record WorkspaceSpec := mkWorkspaceSpec {
  ws_Kind : string; ws_Source : string; ws_Ref : string; ws_Subdir : string; ws_Ephemeral : bool }.
Record RetryPolicy := mkRetryPolicy { retry_MaxAttempts : Z; retry_Backoff : string }.
Record RuntimeRequirement := mkRuntimeRequirement {
  rr_ID : string; rr_Provider : string; rr_Model : string; rr_Version : string;
  rr_Labels : gmap string string }.
Record Source := mkSource {
  src_Kind : string; src_ExternalID : string; src_URL : string; src_Metadata : option Json }.
Record Input := mkInput {
  in_Type : string; in_Version : string; in_Prompt : string; in_Data : option Json }.
Record InstructionFragment := mkFragment {
  frag_ID : string; frag_Version : string; frag_Title : string; frag_Content : string }.
Record InstructionBundle := mkBundle {
  ib_Runtime : list InstructionFragment; ib_Host : list InstructionFragment;
  ib_Workspace : list InstructionFragment; ib_Agent : list InstructionFragment;
  ib_Turn : list InstructionFragment }.
Record CompiledInstructions := mkCompiled { ci_Stable : string; ci_Prompt : string }.
Record ContextItem := mkContextItem {
  ctx_Type : string; ctx_Version : string; ctx_ExternalID : string; ctx_Revision : string;
  ctx_CapturedAt : Z; ctx_Data : option Json }.
Record Principal := mkPrincipal { pr_Type : string; pr_ID : string; pr_AccountableID : string }.
Record CapabilityGrant := mkGrant {
  gr_Name : string; gr_Version : string; gr_Effect : string; gr_Resources : list string }.

Record Request := mkRequest {
  req_TenantID : string; req_ProjectID : string; req_SessionID : string; req_AgentID : string;
  req_IdempotencyKey : string; req_Runtime : RuntimeRequirement; req_Source : Source;
  req_Input : Input; req_Instructions : InstructionBundle; req_Context : list ContextItem;
  req_Capabilities : list CapabilityGrant; req_Principal : Principal; req_Retry : RetryPolicy;
  req_Timeout : string; req_Workspace : WorkspaceSpec }.

(** ** Capability calls *)
Record CapabilityCall := mkCall {
  call_Name : string; call_Version : string; call_IdempotencyKey : string;
  call_Resource : string; call_Input : option Json }.
Record CapabilityRequest := mkCapRequest {
  cr_CallID : string; cr_RunID : string; cr_AgentID : string; cr_Principal : Principal;
  cr_Name : string; cr_Version : string; cr_Effect : string; cr_Resource : string;
  cr_Input : option Json }.
Record CapabilityResult := mkCapResult { cres_CallID : string; cres_Output : option Json }.
Record CapabilityReservation := mkReservation {
  rsv_CallID : string; rsv_Execute : bool; rsv_Result : option CapabilityResult; rsv_Error : string }.

(** ** Results, runs, events *)
Record Artifact := mkArtifact {
  art_ID : string; art_RunID : string; art_Type : string; art_Ref : string; art_Name : string;
  art_ContentType : string; art_Size : Z; art_SHA256 : string }.
Record Result := mkResult {
  res_Summary : string; res_Output : option Json; res_Artifacts : list Artifact }.
Record Attempt := mkAttempt {
  att_ID : string; att_Number : Z; att_NodeID : string; att_LeaseToken : string;
  att_LeaseExpiresAt : option Z; att_AvailableAt : option Z; att_Status : AttemptStatus;
  att_StartedAt : option Z; att_CompletedAt : option Z }.
Record Run := mkRun {
  run_ID : string; run_TenantID : string; run_ProjectID : string; run_SessionID : string;
  run_AgentID : string; run_IdempotencyKey : string; run_Runtime : RuntimeRequirement;
  run_Source : Source; run_Status : RunStatus; run_Attempt : Attempt; run_Result : option Result;
  run_Error : string; run_CreatedAt : Z; run_StartedAt : option Z; run_CompletedAt : option Z;
  run_DeadlineAt : option Z; run_CancelRequestedAt : option Z; run_CancelReason : string;
  run_CancelledAt : option Z }.
Record Event := mkEvent {
  ev_ID : string; ev_RunID : string; ev_AttemptID : string; ev_Sequence : Z; ev_Type : string;
  ev_Data : option Json; ev_CreatedAt : Z }.

Record InteractionRequest := mkInteractionRequest {
  ir_Kind : InteractionKind; ir_Prompt : string; ir_Data : option Json }.
Record Interaction := mkInteraction {
  ia_ID : string; ia_RunID : string; ia_AttemptID : string; ia_Kind : InteractionKind;
  ia_State : string; ia_Prompt : string; ia_Data : option Json; ia_Response : option Json;
  ia_CreatedAt : Z; ia_ResolvedAt : option Z }.

(** ** Nodes and the node protocol (controlplane/types.go) *)
Record RuntimeModel := mkRuntimeModel {
  rm_ID : string; rm_DisplayName : string; rm_Description : string; rm_Default : bool }.
Record Runtime := mkRuntime {
  rt_ID : string; rt_Provider : string; rt_Version : string; rt_State : string;
  rt_Message : string; rt_DefaultModel : string; rt_Models : list string;
  rt_ModelCatalog : list RuntimeModel; rt_CheckedAt : option Z }.
Record Capability := mkCapability { cap_Name : string; cap_Version : string; cap_Kind : string }.
Record NodeRegistration := mkRegistration {
  reg_ID : string; reg_Version : string; reg_ProtocolVersion : string;
  reg_Labels : gmap string string; reg_Runtimes : list Runtime;
  reg_Capabilities : list Capability; reg_Capacity : Z }.
Record Node := mkNode {
  node_Registration : NodeRegistration; node_Active : Z; node_LastSeen : Z; node_State : string }.
Definition NodeOnline : string := "online".
Definition NodeOffline : string := "offline".
Record Assignment := mkAssignment {
  asg_RunID : string; asg_AttemptID : string; asg_LeaseToken : string; asg_LeaseExpiresAt : Z;
  asg_Request : Request }.
Record LeaseUpdate := mkLeaseUpdate {
  lu_LeaseExpiresAt : Z; lu_CancelRequested : bool; lu_CancelReason : string }.
Record CancelRequest := mkCancelRequest { cancel_Reason : string; cancel_RequestedBy : string }.

(** ** Assignable structs *)
#[export] Instance eta_Attempt : Eta Attempt := λ a,
  mkAttempt (att_ID a) (att_Number a) (att_NodeID a) (att_LeaseToken a) (att_LeaseExpiresAt a)
    (att_AvailableAt a) (att_Status a) (att_StartedAt a) (att_CompletedAt a).
#[export] Instance eta_Run : Eta Run := λ r,
  mkRun (run_ID r) (run_TenantID r) (run_ProjectID r) (run_SessionID r) (run_AgentID r)
    (run_IdempotencyKey r) (run_Runtime r) (run_Source r) (run_Status r) (run_Attempt r)
    (run_Result r) (run_Error r) (run_CreatedAt r) (run_StartedAt r) (run_CompletedAt r)
    (run_DeadlineAt r) (run_CancelRequestedAt r) (run_CancelReason r) (run_CancelledAt r).
#[export] Instance eta_Event : Eta Event := λ e,
  mkEvent (ev_ID e) (ev_RunID e) (ev_AttemptID e) (ev_Sequence e) (ev_Type e) (ev_Data e)
    (ev_CreatedAt e).
#[export] Instance eta_Interaction : Eta Interaction := λ i,
  mkInteraction (ia_ID i) (ia_RunID i) (ia_AttemptID i) (ia_Kind i) (ia_State i) (ia_Prompt i)
    (ia_Data i) (ia_Response i) (ia_CreatedAt i) (ia_ResolvedAt i).
#[export] Instance eta_Node : Eta Node := λ n,
  mkNode (node_Registration n) (node_Active n) (node_LastSeen n) (node_State n).
#[export] Instance eta_NodeRegistration : Eta NodeRegistration := λ r,
  mkRegistration (reg_ID r) (reg_Version r) (reg_ProtocolVersion r) (reg_Labels r)
    (reg_Runtimes r) (reg_Capabilities r) (reg_Capacity r).
#[export] Instance eta_Runtime : Eta Runtime := λ r,
  mkRuntime (rt_ID r) (rt_Provider r) (rt_Version r) (rt_State r) (rt_Message r)
    (rt_DefaultModel r) (rt_Models r) (rt_ModelCatalog r) (rt_CheckedAt r).
#[export] Instance eta_Request : Eta Request := λ q,
  mkRequest (req_TenantID q) (req_ProjectID q) (req_SessionID q) (req_AgentID q)
    (req_IdempotencyKey q) (req_Runtime q) (req_Source q) (req_Input q) (req_Instructions q)
    (req_Context q) (req_Capabilities q) (req_Principal q) (req_Retry q) (req_Timeout q)
    (req_Workspace q).
#[export] Instance eta_RetryPolicy : Eta RetryPolicy := λ p,
  mkRetryPolicy (retry_MaxAttempts p) (retry_Backoff p).
#[export] Instance eta_Artifact : Eta Artifact := λ a,
  mkArtifact (art_ID a) (art_RunID a) (art_Type a) (art_Ref a) (art_Name a) (art_ContentType a)
    (art_Size a) (art_SHA256 a).
#[export] Instance eta_Reservation : Eta CapabilityReservation := λ r,
  mkReservation (rsv_CallID r) (rsv_Execute r) (rsv_Result r) (rsv_Error r).
#[export] Instance eta_CapRequest : Eta CapabilityRequest := λ r,
  mkCapRequest (cr_CallID r) (cr_RunID r) (cr_AgentID r) (cr_Principal r) (cr_Name r)
    (cr_Version r) (cr_Effect r) (cr_Resource r) (cr_Input r).
#[export] Instance eta_Assignment : Eta Assignment := λ a,
  mkAssignment (asg_RunID a) (asg_AttemptID a) (asg_LeaseToken a) (asg_LeaseExpiresAt a)
    (asg_Request a).

(** ** Zero values *)
#[export] Instance zero_Request : Zero Request :=
  mkRequest "" "" "" "" "" (mkRuntimeRequirement "" "" "" "" ∅) (mkSource "" "" "" None)
    (mkInput "" "" "" None) (mkBundle [] [] [] [] []) [] [] (mkPrincipal "" "" "")
    (mkRetryPolicy 0 "") "" (mkWorkspaceSpec "" "" "" "" false).
#[export] Instance zero_Artifact : Zero Artifact := mkArtifact "" "" "" "" "" "" 0 "".
#[export] Instance zero_Attempt : Zero Attempt :=
  mkAttempt "" 0 "" "" None None AttemptQueued None None.

(** ** Sentinel errors *)
Definition sentinel_text (s : Sentinel) : string :=
  match s with
  | ErrNotFound => "relay control plane: not found"
  | ErrNoAssignment => "relay control plane: no matching assignment"
  | ErrInvalidLease => "relay control plane: invalid lease"
  | ErrInvalidTransition => "relay control plane: invalid transition"
  | ErrRunCancelled => "relay control plane: run cancelled"
  | ErrIncompatibleProtocol => "relay control plane: incompatible protocol"
  | ErrCapabilityProviderMissing => "relay: capability provider is not configured"
  | ErrCapabilityNotGranted => "relay: capability not granted"
  | ErrResourceOutOfScope => "relay: capability resource out of scope"
  | ErrIdempotencyConflict => "relay: idempotency key reused for a different capability call"
  | ErrRunNotFound => "relay: run not found"
  | ErrLeaseLost => "relay node: assignment lease lost"
  | ErrContextDone => "context canceled"
  | ErrNotExist => "file does not exist"
  end.
Definition sentinel (s : Sentinel) : Error := mkError [s] (sentinel_text s).

(** [fmt.Errorf("%w: ...", sentinel, ...)] *)
Definition wrapf (s : Sentinel) (detail : string) : Error :=
  mkError [s] (sentinel_text s +:+ ": " +:+ detail).

Lemma errors_Is_sentinel s s' : errors_Is (sentinel s) s' = (s =s s').
Proof.
  unfold errors_Is, sentinel. simpl. apply bool_decide_ext. rewrite list_elem_of_singleton.
  split; congruence.
Qed.
Lemma errors_Is_wrapf s d s' : errors_Is (wrapf s d) s' = (s =s s').
Proof. apply errors_Is_sentinel. Qed.

(** ** JSON forms

    [omitempty] drops an empty string, a zero number, a nil message, an empty
    list; [RunID] of an artifact is tagged ["-"]. *)
Definition member_str (k v : string) : list (string * Json) := [(k, JStr v)].
Definition omit_str (k v : string) : list (string * Json) :=
  if v =s "" then [] else [(k, JStr v)].
Definition omit_raw (k : string) (v : option Json) : list (string * Json) :=
  match v with Some j => [(k, j)] | None => [] end.

Section json_forms.
Context `{Host}.

Definition json_int (z : Z) : Json := JNum (pretty z).
Definition json_time (z : Z) : Json := JStr (fmt_time z).

Definition json_Artifact (a : Artifact) : Json :=
  JObj (omit_str "id" (art_ID a) ++ member_str "type" (art_Type a) ++
        member_str "ref" (art_Ref a) ++ omit_str "name" (art_Name a) ++
        omit_str "content_type" (art_ContentType a) ++
        (if art_Size a =s 0%Z then [] else [("size", json_int (art_Size a))]) ++
        omit_str "sha256" (art_SHA256 a)).

Definition json_Result (r : Result) : Json :=
  JObj (member_str "summary" (res_Summary r) ++ omit_raw "output" (res_Output r) ++
        (if res_Artifacts r is [] then []
         else [("artifacts", JArr (map json_Artifact (res_Artifacts r)))])).

Definition json_CancelRequest (c : CancelRequest) : Json :=
  JObj (omit_str "reason" (cancel_Reason c) ++ omit_str "requested_by" (cancel_RequestedBy c)).

Definition json_Interaction (i : Interaction) : Json :=
  JObj ([("id", JStr (ia_ID i)); ("run_id", JStr (ia_RunID i));
         ("attempt_id", JStr (ia_AttemptID i)); ("kind", JStr (InteractionKind_text (ia_Kind i)));
         ("state", JStr (ia_State i)); ("prompt", JStr (ia_Prompt i))] ++
        omit_raw "data" (ia_Data i) ++ omit_raw "response" (ia_Response i) ++
        [("created_at", json_time (ia_CreatedAt i))] ++
        (if ia_ResolvedAt i is Some t then [("resolved_at", json_time t)] else [])).
End json_forms.

(** ** Versions and identifiers *)
Definition ProtocolVersion : string := "1".
(** [VersionLine], of a binary built as [Version]. *)
Definition VersionLine (Version component : string) : string :=
  component +:+ " " +:+ Version +:+ " (protocol " +:+ ProtocolVersion +:+ ")".

(** [newID] and [newControlPlaneID]: twelve random bytes, hex encoded. *)
Definition newControlPlaneID `{Host} {S} (prefix : string) : M S string :=
  host (λ n, prefix +:+ "_" +:+ rand_at n).
