(* ===== verification/Matching.v ===== *)
(** * Matching: which node may run which request

    [RuntimeMatches] and [RuntimeInstanceID] of controlplane/types.go and
    [nodeMatches] of controlplane/memory.go (controlplane/postgres/store.go has
    the same function).  The semantic-version package is a third-party library:
    a parser of versions, a parser of constraints and a check, left abstract. *)

From S2P Require Import Prelude Json Types.

Class Semver := {
  sv_version : Type;
  sv_constraint : Type;
  NewVersion : string → option sv_version;
  NewConstraint : string → option sv_constraint;
  constraint_Check : sv_constraint → sv_version → bool
}.

Section matching.
Context `{Semver}.

Definition RuntimeMatches (runtime : Runtime) (requirement : RuntimeRequirement) : bool :=
  if negb (rr_ID requirement =s "") && negb (rt_ID runtime =s rr_ID requirement) then false
  else if negb (rt_Provider runtime =s rr_Provider requirement) || (rt_State runtime =s "unhealthy")
  then false
  else
    let modelMissing :=
      negb (rr_Model requirement =s "") && negb (length (rt_Models runtime) =s 0) &&
      negb (foldl (λ available model, available || (model =s rr_Model requirement))
              (rt_DefaultModel runtime =s rr_Model requirement) (rt_Models runtime)) in
    if modelMissing then false
    else if rr_Version requirement =s "" then true
    else match NewVersion (rt_Version runtime) with
         | None => rt_Version runtime =s rr_Version requirement
         | Some actual =>
             match NewConstraint (rr_Version requirement) with
             | None => false
             | Some constraint => constraint_Check constraint actual
             end
         end.

Definition nodeMatches (node : Node) (request : Request) : bool :=
  let reg := node_Registration node in
  existsb (λ runtime, RuntimeMatches runtime (req_Runtime request)) (reg_Runtimes reg) &&
  forallb (λ kv, map_get (reg_Labels reg) kv.1 =s kv.2)
    (map_to_list (rr_Labels (req_Runtime request))) &&
  forallb (λ grant,
      existsb (λ available, (cap_Name available =s gr_Name grant) &&
                            (cap_Version available =s gr_Version grant))
        (reg_Capabilities reg))
    (req_Capabilities request).

(** What a match promises of the runtime. *)
Record runtime_suits (runtime : Runtime) (requirement : RuntimeRequirement) : Prop := {
  suits_id : rr_ID requirement = "" ∨ rt_ID runtime = rr_ID requirement;
  suits_provider : rt_Provider runtime = rr_Provider requirement;
  suits_healthy : rt_State runtime ≠ "unhealthy";
  suits_model : rr_Model requirement = "" ∨ rt_Models runtime = [] ∨
                rr_Model requirement = rt_DefaultModel runtime ∨
                rr_Model requirement ∈ rt_Models runtime;
  suits_version :
    rr_Version requirement = "" ∨
    (NewVersion (rt_Version runtime) = None ∧ rt_Version runtime = rr_Version requirement) ∨
    (∃ v c, NewVersion (rt_Version runtime) = Some v ∧
            NewConstraint (rr_Version requirement) = Some c ∧ constraint_Check c v = true)
}.

Lemma foldl_model (b : bool) (m : string) ms :
  foldl (λ available model, available || (model =s m)) b ms = true ↔ b = true ∨ m ∈ ms.
Proof.
  revert b. induction ms as [|x ms IH]; intros b; simpl.
  - rewrite elem_of_nil. tauto.
  - rewrite IH, elem_of_cons, orb_true_iff, bool_decide_eq_true. naive_solver.
Qed.

(** [RuntimeMatches] decides [runtime_suits]. *)
Lemma RuntimeMatches_suits runtime requirement :
  RuntimeMatches runtime requirement = true ↔ runtime_suits runtime requirement.
Proof.
  unfold RuntimeMatches.
  destruct (decide (rr_ID requirement = "" ∨ rt_ID runtime = rr_ID requirement)) as [Hid|Hid];
    [rewrite (proj2 (andb_false_iff _ _)) by
       (destruct Hid as [->| ->]; [left|right]; by rewrite bool_decide_eq_true_2)
    |rewrite (proj2 (andb_true_iff _ _)) by
       (rewrite !negb_true_iff, !bool_decide_eq_false; naive_solver);
     split; [done|intros []; tauto]].
  destruct (decide (rt_Provider runtime = rr_Provider requirement)) as [Hp|Hp];
    [rewrite (bool_decide_eq_true_2 _ Hp)
    |rewrite (bool_decide_eq_false_2 _ Hp); simpl; split; [done|intros []; tauto]].
  simpl. case_bool_decide as Hs; [split; [done|intros []; tauto]|].
  set (missing := negb (rr_Model requirement =s "") && _ && _).
  assert (Hm : missing = false ↔ rr_Model requirement = "" ∨ rt_Models runtime = [] ∨
                rr_Model requirement = rt_DefaultModel runtime ∨
                rr_Model requirement ∈ rt_Models runtime).
  { unfold missing. rewrite !andb_false_iff, !negb_false_iff, !bool_decide_eq_true, foldl_model,
      bool_decide_eq_true. destruct (rt_Models runtime); simpl; naive_solver. }
  destruct missing; [split; [done|intros []; naive_solver]|].
  destruct Hm as [Hm _]. specialize (Hm eq_refl).
  case_bool_decide as Hv; [split; [by constructor; auto|done]|].
  destruct (NewVersion (rt_Version runtime)) as [v|] eqn:Ev.
  - destruct (NewConstraint (rr_Version requirement)) as [c|] eqn:Ec.
    + split; [intros Hc; constructor; eauto 10|intros []; naive_solver].
    + split; [done|intros []; naive_solver].
  - rewrite bool_decide_eq_true. split; [intros He; constructor; auto|intros []; naive_solver].
Qed.

(** What a match promises of the node. *)
Record node_suits (reg : NodeRegistration) (request : Request) : Prop := {
  suits_runtime : ∃ runtime, runtime ∈ reg_Runtimes reg ∧
                             runtime_suits runtime (req_Runtime request);
  suits_labels : ∀ k v, rr_Labels (req_Runtime request) !! k = Some v →
                        map_get (reg_Labels reg) k = v;
  suits_capabilities : ∀ g, g ∈ req_Capabilities request →
    ∃ c, c ∈ reg_Capabilities reg ∧ cap_Name c = gr_Name g ∧ cap_Version c = gr_Version g
}.

(** [nodeMatches] decides [node_suits]. *)
Lemma nodeMatches_suits node request :
  nodeMatches node request = true ↔ node_suits (node_Registration node) request.
Proof.
  unfold nodeMatches. rewrite !andb_true_iff, existsb_exists, !forallb_forall.
  split.
  - intros [[(rt & Hin & Hrt) Hl] Hc]. constructor.
    + exists rt. by rewrite list_elem_of_In, <- RuntimeMatches_suits.
    + intros k v Hkv. specialize (Hl (k, v)). rewrite <- list_elem_of_In in Hl.
      by apply elem_of_map_to_list, Hl, bool_decide_eq_true in Hkv.
    + intros g Hg. apply list_elem_of_In, Hc, existsb_exists in Hg as (c & Hcin & He).
      apply andb_true_iff in He as [?%bool_decide_eq_true ?%bool_decide_eq_true].
      exists c. by rewrite list_elem_of_In.
  - intros [(rt & Hin & Hrt) Hl Hc]. split_and!.
    + exists rt. by rewrite <- list_elem_of_In, RuntimeMatches_suits.
    + intros [k v] Hkv. apply bool_decide_eq_true, Hl.
      by apply elem_of_map_to_list, list_elem_of_In.
    + intros g Hg. apply existsb_exists.
      destruct (Hc g) as (c & Hcin & Hn & Hv); [by apply list_elem_of_In|].
      exists c. rewrite <- list_elem_of_In. split; [done|].
      by rewrite andb_true_iff, !bool_decide_eq_true.
Qed.
End matching.
