(* ===== verification/Event.v ===== *)
(** * Event: producer identities and content comparison (controlplane/event.go)

    [EventIdentity] names an event after the attempt and lease that produced it;
    [SameEvent] and [SameValue] compare contents as JSON documents, so that a
    repeated report is recognised however its object keys are ordered. *)

From S2P Require Import Prelude GoStrings Json Types.

Section event.
Context `{Host} `{Encoder}.

Definition EventIdentity (attempt lease : string) (ids : list string) : string :=
  match ids with
  | [] => ""
  | id :: _ =>
      if id =s "" then ""
      else "producer_" +:+ sha256_hex (attempt +:+ nul +:+ lease +:+ nul +:+ id)
  end.

Definition SameEvent (oldType : string) (oldData : option Json) (newType : string) (data : Any)
    : Res () :=
  match marshal data with
  | Err e => Err e
  | Ok encoded =>
      let old := default JNull oldData in
      let a := json_text (canon old) in
      let b := json_text (canon encoded) in
      if negb (oldType =s newType) || negb (a =s b)
      then Err (wrapf ErrInvalidTransition "event identity reused with different content")
      else Ok ()
  end.

Definition SameValue (previous current : Any) : bool :=
  match marshal previous, marshal current with
  | Ok oldData, Ok newData => json_text (canon oldData) =s json_text (canon newData)
  | _, _ => false
  end.

Definition AnyResult (r : Result) : Any := AnyJson (json_Result r).

(** Comparison decides equality of the canonical documents. *)
Lemma SameValue_true `{!EncoderLaws} a b :
  SameValue (AnyJson a) (AnyJson b) = true ↔ canon a = canon b.
Proof.
  unfold SameValue. simpl. rewrite bool_decide_eq_true. split; [apply json_text_inj|by intros ->].
Qed.

Lemma SameValue_refl j : SameValue (AnyJson j) (AnyJson j) = true.
Proof. unfold SameValue. simpl. by apply bool_decide_eq_true. Qed.

Lemma SameEvent_ok `{!EncoderLaws} ty d ty' j :
  SameEvent ty d ty' (AnyJson j) = Ok () ↔ ty = ty' ∧ canon (default JNull d) = canon j.
Proof.
  unfold SameEvent. simpl.
  destruct (decide (ty = ty')) as [->|Hne].
  - rewrite (bool_decide_eq_true_2 (ty' = ty')) by done. simpl.
    destruct (decide (json_text (canon (default JNull d)) = json_text (canon j))) as [He|He].
    + rewrite bool_decide_eq_true_2 by done. simpl. split; [|done]. intros _. split; [done|].
      by apply json_text_inj.
    + rewrite bool_decide_eq_false_2 by done. simpl. split; [done|]. intros [_ Hc].
      by rewrite Hc in He.
  - rewrite (bool_decide_eq_false_2 _ Hne). simpl. split; [done|]. by intros [? _].
Qed.

(** The answer is nil, or wraps [ErrInvalidTransition], whenever the new
    content encodes. *)
Lemma SameEvent_cases ty d ty' j :
  SameEvent ty d ty' (AnyJson j) = Ok () ∨
  SameEvent ty d ty' (AnyJson j) =
    Err (wrapf ErrInvalidTransition "event identity reused with different content").
Proof. unfold SameEvent. simpl. case_match; eauto. Qed.
End event.
