(* ===== verification/Lifecycle.v ===== *)
(** * Lifecycle: the abstract state machine of a run

    What the control plane promises of a run, whatever store keeps it: the pair
    of the run's status and its current attempt's status is one of the coherent
    phases, and moves only along [transition].  A terminal phase has no way out,
    so a result once committed stays. *)

From S2P Require Import Prelude Json Types.

Definition phase : Type := RunStatus * AttemptStatus.

Inductive transition : phase → phase → Prop :=
  | t_lease : transition (RunQueued, AttemptQueued) (RunQueued, AttemptLeased)
  | t_requeue : transition (RunQueued, AttemptLeased) (RunQueued, AttemptQueued)
  | t_requeue_cancelling :
      transition (RunCancelling, AttemptLeased) (RunCancelling, AttemptQueued)
  | t_start : transition (RunQueued, AttemptLeased) (RunRunning, AttemptRunning)
  | t_succeed : transition (RunRunning, AttemptRunning) (RunSucceeded, AttemptSucceeded)
  | t_fail : transition (RunRunning, AttemptRunning) (RunFailed, AttemptFailed)
  | t_fail_leased : transition (RunQueued, AttemptLeased) (RunFailed, AttemptFailed)
  | t_retry : transition (RunRunning, AttemptRunning) (RunQueued, AttemptQueued)
  | t_lost : transition (RunRunning, AttemptRunning) (RunFailed, AttemptLost)
  | t_cancel_queued : transition (RunQueued, AttemptQueued) (RunCancelled, AttemptCancelled)
  | t_cancel_leased : transition (RunQueued, AttemptLeased) (RunCancelling, AttemptLeased)
  | t_cancel_running : transition (RunRunning, AttemptRunning) (RunCancelling, AttemptRunning)
  | t_finalize_leased : transition (RunCancelling, AttemptLeased) (RunCancelled, AttemptCancelled)
  | t_finalize_running :
      transition (RunCancelling, AttemptRunning) (RunCancelled, AttemptCancelled).
#[export] Hint Constructors transition : relay.

(** The phases that occur. *)
Definition coherent (p : phase) : bool :=
  match p with
  | (RunQueued, (AttemptQueued | AttemptLeased)) => true
  | (RunRunning, AttemptRunning) => true
  | (RunCancelling, (AttemptQueued | AttemptLeased | AttemptRunning)) => true
  | (RunCancelled, AttemptCancelled) => true
  | (RunSucceeded, AttemptSucceeded) => true
  | (RunFailed, (AttemptFailed | AttemptLost)) => true
  | _ => false
  end.

Definition terminal_phase (p : phase) : bool :=
  match p.1 with RunSucceeded | RunFailed | RunCancelled => true | _ => false end.

Definition run_phase (r : Run) : phase := (run_Status r, att_Status (run_Attempt r)).

Lemma transition_coherent p q : transition p q → coherent p = true ∧ coherent q = true.
Proof. by destruct 1. Qed.

Lemma transition_not_terminal p q : transition p q → terminal_phase p = false.
Proof. by destruct 1. Qed.

Lemma steps_coherent p q : rtc transition p q → coherent p = true → coherent q = true.
Proof. induction 1 as [|p q r Hpq _ IH]; [done|]. intros _. apply IH. by apply transition_coherent in Hpq as []. Qed.

Lemma steps_terminal p q : rtc transition p q → terminal_phase p = true → q = p.
Proof.
  destruct 1 as [|p q r Hpq _]; [done|]. intros Ht. by rewrite (transition_not_terminal _ _ Hpq) in Ht.
Qed.

(** Nothing leaves a cancelling run whose attempt has been put back in the queue. *)
Lemma steps_stuck q : rtc transition (RunCancelling, AttemptQueued) q → q = (RunCancelling, AttemptQueued).
Proof.
  intros H. remember (RunCancelling, AttemptQueued) as p eqn:Hp.
  destruct H as [|p q r Hpq _]; [done|]. subst. inversion Hpq.
Qed.

(** ** Identifiers issued by the host *)
Definition issued `{Host} (prefix : string) (lo hi : nat) (id : string) : Prop :=
  ∃ n, lo ≤ n < hi ∧ id = prefix +:+ "_" +:+ rand_at n.

Section issued.
Context `{HostLaws}.

Lemma issued_mono prefix lo hi lo' hi' id :
  issued prefix lo hi id → lo' ≤ lo → hi ≤ hi' → issued prefix lo' hi' id.
Proof. intros (n & Hn & ->) ??. exists n. split; [lia|done]. Qed.

(** Identifiers issued in disjoint periods differ. *)
Lemma issued_disjoint prefix lo mid hi id id' :
  issued prefix lo mid id → issued prefix mid hi id' → id ≠ id'.
Proof.
  intros (n & Hn & ->) (n' & Hn' & ->) Heq.
  apply (inj (String.app prefix)), (inj (String.app "_")), rand_inj in Heq. lia.
Qed.

Lemma issued_not_empty prefix lo hi id : prefix ≠ "" → issued prefix lo hi id → id ≠ "".
Proof. intros Hp (n & _ & ->). by destruct prefix. Qed.
End issued.

(** ** How a run may change over time *)
Section change.
Context `{HostLaws}.

Definition identity (r : Run) :=
  (run_ID r, run_TenantID r, run_ProjectID r, run_SessionID r, run_AgentID r,
   run_IdempotencyKey r, run_Runtime r, run_Source r, run_CreatedAt r, run_DeadlineAt r).

(** From [r] to [r'] while the host answered interactions [lo .. hi - 1]. *)
Record run_change (lo hi : nat) (r r' : Run) : Prop := {
  rc_identity : identity r' = identity r;
  rc_phase : rtc transition (run_phase r) (run_phase r');
  rc_terminal : terminal_phase (run_phase r) = true → r' = r;
  rc_token : att_LeaseToken (run_Attempt r') = att_LeaseToken (run_Attempt r) ∨
             att_LeaseToken (run_Attempt r') = "" ∨
             issued "lease" lo hi (att_LeaseToken (run_Attempt r'));
  rc_attempt :
    (att_ID (run_Attempt r') = att_ID (run_Attempt r) ∧
     att_Number (run_Attempt r') = att_Number (run_Attempt r)) ∨
    (issued "attempt" lo hi (att_ID (run_Attempt r')) ∧
     (att_Number (run_Attempt r) < att_Number (run_Attempt r'))%Z);
  rc_cancel : is_Some (run_CancelRequestedAt r) →
    run_CancelRequestedAt r' = run_CancelRequestedAt r ∧ run_CancelReason r' = run_CancelReason r
}.

Lemma run_change_refl lo hi r : run_change lo hi r r.
Proof. constructor; auto. constructor. Qed.

Lemma run_change_trans lo mid hi r1 r2 r3 :
  lo ≤ mid → mid ≤ hi → run_change lo mid r1 r2 → run_change mid hi r2 r3 → run_change lo hi r1 r3.
Proof.
  intros Hl Hh [I1 P1 T1 K1 A1 C1] [I2 P2 T2 K2 A2 C2]. constructor.
  - congruence.
  - by etrans.
  - intros Ht. rewrite (T1 Ht) in *. by apply T2.
  - destruct K2 as [->|[->|K2]]; [|by auto|].
    + destruct K1 as [->|[->|K1]]; [by auto..|]. right; right. by eapply issued_mono.
    + right; right. by eapply issued_mono.
  - destruct A2 as [[-> ->]|[A2 N2]].
    + destruct A1 as [?|[A1 N1]]; [by auto|]. right. split; [|done]. by eapply issued_mono.
    + right. split; [by eapply issued_mono|]. destruct A1 as [[_ ?]|[_ ?]]; lia.
  - intros Hc. destruct (C1 Hc) as [E1 E2]. rewrite <- E1 in Hc. destruct (C2 Hc). split; congruence.
Qed.

(** A lease token that was superseded never comes back. *)
Lemma token_never_returns lo mid hi (r1 r2 : Run) tok :
  issued "lease" 0 lo tok → att_LeaseToken (run_Attempt r1) ≠ tok → lo ≤ mid →
  run_change mid hi r1 r2 → att_LeaseToken (run_Attempt r2) ≠ tok.
Proof.
  intros Htok Hne Hlm [_ _ _ Hk _ _] Heq. destruct Hk as [Hk|[Hk|Hk]].
  - congruence.
  - eapply issued_not_empty in Htok; [|done]. congruence.
  - rewrite Heq in Hk.
    assert (Hm : issued "lease" 0 mid tok) by (eapply issued_mono; [exact Htok|lia|lia]).
    by apply (issued_disjoint _ _ _ _ _ _ Hm Hk).
Qed.
End change.
