(* ===== verification/Demo.v ===== *)
(** * Demo: one concrete host, encoder and version library

    The theorems hold for any host, encoder and version library that obey the
    stated laws.  This file has one of each, so that the model runs: a clock
    that ticks once per reading, a random source that counts, [range] in key
    order, an injective text for documents, and exact version matching. *)

From S2P Require Import Prelude GoStrings Json Types Matching.

(** [parse_duration] reads a number of seconds ("30s"); a real one reads more. *)
Fixpoint read_digits (acc : Z) (s : string) : option Z :=
  match s with
  | EmptyString => None
  | String c rest =>
      let n := Z.of_nat (Ascii.nat_of_ascii c) in
      if s =s "s" then Some (acc * 1000000000)%Z
      else if ((48 <=? n) && (n <=? 57))%Z then read_digits (acc * 10 + (n - 48)) rest else None
  end.

#[export] Instance demo_host : Host := {|
  now_at n := Z.of_nat n;
  rand_at n := pretty n;
  range_at _ l := l;
  sha256_hex s := s;
  parse_duration s := if s =s "" then None else read_digits 0 s;
  fmt_time t := pretty t;
  fmt_quote s := String (Ascii.ascii_of_nat 34) s +:+ String (Ascii.ascii_of_nat 34) EmptyString
|}.

#[export] Instance demo_host_laws : HostLaws.
Proof. constructor; simpl; [intros i j Heq; by apply (inj pretty) in Heq|done]. Qed.

#[export] Instance demo_clock : MonotoneClock.
Proof. intros i j Hij. simpl. lia. Qed.

#[export] Instance demo_semver : Semver := {|
  sv_version := string;
  sv_constraint := string;
  NewVersion s := Some s;
  NewConstraint s := Some s;
  constraint_Check c v := c =s v
|}.

(** An injective text: the tree of the document, numbered, in binary. *)
Fixpoint json_tree (j : Json) : gen_tree (bool + (string + string)) :=
  match j with
  | JNull => GenNode 0 []
  | JBool b => GenLeaf (inl b)
  | JNum s => GenLeaf (inr (inl s))
  | JStr s => GenLeaf (inr (inr s))
  | JArr l => GenNode 1 (map json_tree l)
  | JObj l => GenNode 2 (map (λ kv, GenNode 3 [GenLeaf (inr (inr kv.1)); json_tree kv.2]) l)
  end.

Lemma json_tree_inj : ∀ a b, json_tree a = json_tree b → a = b.
Proof.
  fix IH 1. intros [|x|x|x|l|l] [|y|y|y|l'|l']; simpl; try done; try congruence; intros [= He]; f_equal;
    revert l' He.
  - revert l. fix IHl 1. intros [|x l] [|y l'] He; try done.
    injection He as H1 H2. rewrite (IH _ _ H1). by rewrite (IHl _ _ H2).
  - revert l. fix IHl 1. intros [|[k x] l] [|[k' y] l'] He; try done.
    simpl in He. injection He as H0 H1 H2. subst. rewrite (IH _ _ H1). by rewrite (IHl _ _ H2).
Qed.

Fixpoint digits (p : positive) : string :=
  match p with xH => "" | xO p => "0" +:+ digits p | xI p => "1" +:+ digits p end.

(** Reading stops at the first character that is no bit. *)
Fixpoint bits (s : string) : positive :=
  match s with
  | EmptyString => xH
  | String c s => if bool_decide (c = byte_of 48) then xO (bits s)
                  else if bool_decide (c = byte_of 49) then xI (bits s) else xH
  end.
Lemma bits_digits p s : bits (digits p +:+ "}" +:+ s) = p.
Proof. induction p as [p IH|p IH|]; [exact (f_equal xI IH)|exact (f_equal xO IH)|reflexivity]. Qed.

(** In braces, as the text of an object is. *)
#[export] Instance demo_encoder : Encoder := λ j, "{" +:+ digits (encode (json_tree j)) +:+ "}".
#[export] Instance demo_encoder_laws : EncoderLaws.
Proof.
  intros a b He. apply json_tree_inj, (inj encode).
  rewrite <- (bits_digits (encode (json_tree a)) ""), <- (bits_digits (encode (json_tree b)) "").
  exact (f_equal (λ s, bits (str_drop 1 s)) He).
Qed.
