(* ===== verification/Memory.v ===== *)
(** * Memory: the in-memory control-plane storage (controlplane/memory.go)

    [MemoryStorage] with one definition per method.  Each method holds the
    mutex from entry to exit, so a method is one atomic step on the store.  The
    maps of pointers hold the pointees: the pointer to a run is its ID, and
    every helper that writes through [run] writes the entry of [run.ID] and
    hands back the struct as it then is.  A map lookup that the code dereferences
    without a check ([run_at]) panics when the entry is absent. *)

From S2P Require Import Prelude Json Types Matching Event.

Record memoryCapabilityCall := mkCapCall { mcc_hash : string; mcc_reservation : CapabilityReservation }.

Record MemoryStorage := mkMemory {
  ms_nodes : gmap string Node;
  ms_runs : gmap string Run;
  ms_requests : gmap string Request;
  ms_events : gmap string (list Event);
  ms_byIdempotency : gmap string string;
  ms_artifacts : gmap string Artifact;
  ms_artifactRuns : gmap string (list string);
  ms_capabilityCalls : gmap string memoryCapabilityCall;
  ms_attemptHistory : gmap string (list Attempt);
  ms_interactions : gmap string Interaction }.

#[export] Instance eta_MemoryStorage : Eta MemoryStorage := λ s,
  mkMemory (ms_nodes s) (ms_runs s) (ms_requests s) (ms_events s) (ms_byIdempotency s)
    (ms_artifacts s) (ms_artifactRuns s) (ms_capabilityCalls s) (ms_attemptHistory s)
    (ms_interactions s).

Definition NewMemoryStorage : MemoryStorage := mkMemory ∅ ∅ ∅ ∅ ∅ ∅ ∅ ∅ ∅ ∅.

Abbreviation MM := (M MemoryStorage).

Definition panic_nil : Error := errors_New "invalid memory address or nil pointer dereference".
Definition panic_index : Error := errors_New "index out of range".

(** [now.Before(t)], and [t != nil && !now.Before( *t)]. *)
Definition before (now t : Z) : bool := (now <? t)%Z.
Definition reached (now : Z) (t : option Z) : bool :=
  match t with Some t => negb (before now t) | None => false end.

Definition terminalRun (status : RunStatus) : bool :=
  (status =s RunSucceeded) || (status =s RunFailed) || (status =s RunCancelled).

Definition idempotencyScope (tenant project key : string) : string :=
  tenant +:+ nul +:+ project +:+ nul +:+ key.

Definition json_of_strings (l : list (string * string)) : Any :=
  AnyJson (JObj (map (λ kv, (kv.1, JStr kv.2)) l)).

Section memory.
Context `{Host} `{Encoder} `{Semver}.

(** ** Pointers *)
Definition find_run (id : string) : MM (option Run) := gets (λ s, ms_runs s !! id).
Definition run_at (id : string) : MM Run :=
  r ← find_run id;
  match r with Some run => mret run | None => raise panic_nil end.
Definition put_run (run : Run) : MM () :=
  modify (λ s, s <| ms_runs := <[run_ID run := run]> (ms_runs s) |>).
Definition find_node (id : string) : MM (option Node) := gets (λ s, ms_nodes s !! id).
Definition put_node (id : string) (node : Node) : MM () :=
  modify (λ s, s <| ms_nodes := <[id := node]> (ms_nodes s) |>).

(** ** Unexported helpers *)
Definition appendEvent_as (id : string) (run : Run) (eventType : string) (data : option Json)
    (now : Z) : MM () :=
  modify (λ s,
    let es := map_get (ms_events s) (run_ID run) in
    s <| ms_events := <[run_ID run :=
           es ++ [mkEvent id (run_ID run) (att_ID (run_Attempt run))
                    (Z.of_nat (length es) + 1) eventType data now]]> (ms_events s) |>).

Definition event_data (value : Any) : option Json :=
  match value with
  | AnyNil => None
  | _ => match marshal value with Ok j => Some j | Err _ => None end
  end.

Definition appendEvent (run : Run) (eventType : string) (value : Any) : MM () :=
  id ← newControlPlaneID "event";
  now ← time_now;
  appendEvent_as id run eventType (event_data value) now.

Definition releaseNode (nodeID : string) : MM () :=
  n ← find_node nodeID;
  match n with
  | Some node =>
      if (0 <? node_Active node)%Z
      then put_node nodeID (node <| node_Active := (node_Active node - 1)%Z |>)
      else mret ()
  | None => mret ()
  end.

Definition requeueExpired (run : Run) (now : Z) : MM Run :=
  let a := run_Attempt run in
  if negb (att_Status a =s AttemptLeased) || negb (reached now (att_LeaseExpiresAt a))
  then mret run
  else
    releaseNode (att_NodeID a) ;;
    appendEvent run "attempt.lease_expired" (json_of_strings [("node_id", att_NodeID a)]) ;;
    let run := run <| run_Attempt := a <| att_Status := AttemptQueued |>
                      <| att_NodeID := "" |> <| att_LeaseToken := "" |>
                      <| att_LeaseExpiresAt := None |> |> in
    put_run run ;;
    mret run.

Definition finalizeCancellation (run : Run) (now : Z) : MM Run :=
  if run_Status run =s RunCancelled then mret run
  else
    let a := run_Attempt run in
    releaseNode (att_NodeID a) ;;
    let run := run <| run_Attempt := a <| att_Status := AttemptCancelled |>
                                       <| att_CompletedAt := Some now |> |>
                   <| run_Status := RunCancelled |>
                   <| run_CancelledAt := Some now |>
                   <| run_CompletedAt := Some now |> in
    put_run run ;;
    appendEvent run "attempt.cancelled" (json_of_strings [("reason", run_CancelReason run)]) ;;
    appendEvent run "run.cancelled" (json_of_strings [("reason", run_CancelReason run)]) ;;
    mret run.

Definition cancelRunLocked (run : Run) (request : CancelRequest) (now : Z) : MM Run :=
  if terminalRun (run_Status run) || negb (run_CancelRequestedAt run =s None) then mret run
  else
    let run := run <| run_CancelRequestedAt := Some now |>
                   <| run_CancelReason := cancel_Reason request |> in
    put_run run ;;
    appendEvent run "run.cancel_requested" (AnyJson (json_CancelRequest request)) ;;
    if att_Status (run_Attempt run) =s AttemptQueued
    then finalizeCancellation run now
    else
      let run := run <| run_Status := RunCancelling |> in
      put_run run ;;
      mret run.

Definition lease_matches (run : Run) (attemptID lease : string) : bool :=
  (att_ID (run_Attempt run) =s attemptID) && negb (lease =s "") &&
  (att_LeaseToken (run_Attempt run) =s lease).

(** [authorize]: the run whose current lease the caller holds.  An expired
    lease is answered with [ErrInvalidLease], after requeueing. *)
Definition authorize (runID attemptID lease : string) : MM Run :=
  r ← find_run runID;
  match r with
  | None => raise (sentinel ErrNotFound)
  | Some run =>
      if negb (lease_matches run attemptID lease) then raise (sentinel ErrInvalidLease)
      else
        match att_LeaseExpiresAt (run_Attempt run) with
        | None =>
            now ← time_now;
            requeueExpired run now ;;
            raise (sentinel ErrInvalidLease)
        | Some expires =>
            now ← time_now;
            if negb (before now expires) then
              later ← time_now;
              requeueExpired run later ;;
              raise (sentinel ErrInvalidLease)
            else mret run
        end
  end.

Definition authorize_assignment (a : Assignment) : MM Run :=
  authorize (asg_RunID a) (asg_AttemptID a) (asg_LeaseToken a).

(** ** Nodes *)
Definition RegisterNode (registration : NodeRegistration) : MM Node :=
  now ← time_now;
  existing ← find_node (reg_ID registration);
  let node := match existing with
              | Some old => old <| node_Registration := registration |> <| node_LastSeen := now |>
              | None => mkNode registration 0 now ""
              end in
  put_node (reg_ID registration) node ;;
  mret node.

Definition Heartbeat (nodeID : string) : MM Node :=
  n ← find_node nodeID;
  match n with
  | None => raise (sentinel ErrNotFound)
  | Some node =>
      now ← time_now;
      let node := node <| node_LastSeen := now |> in
      put_node nodeID node ;;
      mret node
  end.

Definition Nodes : MM (list Node) :=
  ids ← range_map ms_nodes;
  gets (λ s, omap (λ id, ms_nodes s !! id) ids).

(** ** Submission *)
Definition new_run (request : Request) (id attempt : string) (now : Z) : Run :=
  let deadline := match parse_duration (req_Timeout request) with
                  | Some timeout => if (0 <? timeout)%Z then Some (now + timeout)%Z else None
                  | None => None
                  end in
  mkRun id (req_TenantID request) (req_ProjectID request) (req_SessionID request)
    (req_AgentID request) (req_IdempotencyKey request) (req_Runtime request)
    (req_Source request) RunQueued
    (mkAttempt attempt 1 "" "" None (Some now) AttemptQueued None None)
    None "" now None None deadline None "" None.

Definition request_scope (request : Request) : string :=
  idempotencyScope (req_TenantID request) (req_ProjectID request) (req_IdempotencyKey request).

Definition Submit (request : Request) : MM Run :=
  existing ← gets (λ s, map_get (ms_byIdempotency s) (request_scope request));
  if negb (existing =s "") then run_at existing
  else
    now ← time_now;
    id ← newControlPlaneID "run";
    attempt ← newControlPlaneID "attempt";
    let run := new_run request id attempt now in
    put_run run ;;
    modify (λ s, s <| ms_attemptHistory := <[id := [run_Attempt run]]> (ms_attemptHistory s) |>) ;;
    modify (λ s, s <| ms_requests := <[id := request]> (ms_requests s) |>) ;;
    modify (λ s, s <| ms_byIdempotency :=
              <[request_scope request := id]> (ms_byIdempotency s) |>) ;;
    appendEvent run "run.created" (json_of_strings [("status", RunStatus_text (run_Status run))]) ;;
    appendEvent run "attempt.queued" (AnyJson (JObj [("number", JNum "1")])) ;;
    mret run.

(** ** Claiming *)
Definition timeout_request : CancelRequest := mkCancelRequest "run timeout exceeded" "relay".

Definition holds_lease (status : AttemptStatus) : bool :=
  (status =s AttemptLeased) || (status =s AttemptRunning).

(** The first loop of [Claim]: deadlines, finished cancellations, expired leases. *)
Definition claim_sweep (now : Z) (id : string) : MM () :=
  run ← run_at id;
  run ← (if reached now (run_DeadlineAt run) && (run_CancelRequestedAt run =s None)
         then cancelRunLocked run timeout_request now else mret run);
  if (run_Status run =s RunCancelling) && holds_lease (att_Status (run_Attempt run)) &&
     reached now (att_LeaseExpiresAt (run_Attempt run))
  then finalizeCancellation run now ;; mret ()
  else requeueExpired run now ;; mret ().

Definition claimable (now : Z) (run : Run) : bool :=
  (run_Status run =s RunQueued) && (att_Status (run_Attempt run) =s AttemptQueued) &&
  match att_AvailableAt (run_Attempt run) with Some t => negb (before now t) | None => true end.

(** The body of the second loop once a run is chosen. *)
Definition grant_lease (nodeID : string) (leaseTTL now : Z) (run : Run) (request : Request)
    : MM Assignment :=
  token ← newControlPlaneID "lease";
  node ← find_node nodeID;
  match node with
  | None => raise panic_nil
  | Some node =>
      let expires := (now + leaseTTL)%Z in
      let run := run <| run_Attempt := (run_Attempt run) <| att_Status := AttemptLeased |>
                        <| att_NodeID := nodeID |> <| att_LeaseToken := token |>
                        <| att_LeaseExpiresAt := Some expires |> |> in
      put_node nodeID (node <| node_Active := (node_Active node + 1)%Z |>) ;;
      put_run run ;;
      appendEvent run "attempt.leased"
        (AnyJson (JObj [("lease_expires_at", json_time expires); ("node_id", JStr nodeID)])) ;;
      mret (mkAssignment (run_ID run) (att_ID (run_Attempt run)) token expires request)
  end.

Fixpoint claim_scan (nodeID : string) (leaseTTL now : Z) (ids : list string) : MM Assignment :=
  match ids with
  | [] => raise (sentinel ErrNoAssignment)
  | id :: ids =>
      run ← run_at id;
      request ← gets (λ s, map_get (ms_requests s) (run_ID run));
      node ← find_node nodeID;
      match node with
      | None => raise panic_nil
      | Some node =>
          if negb (claimable now run) || negb (nodeMatches node request)
          then claim_scan nodeID leaseTTL now ids
          else grant_lease nodeID leaseTTL now run request
      end
  end.

Definition Claim (nodeID : string) (leaseTTL : Z) : MM Assignment :=
  n ← find_node nodeID;
  match n with
  | None => raise (sentinel ErrNotFound)
  | Some node =>
      if (reg_Capacity (node_Registration node) <=? node_Active node)%Z
      then raise (sentinel ErrNoAssignment)
      else
        now ← time_now;
        ids ← range_map ms_runs;
        for_each (claim_sweep now) ids ;;
        ids ← range_map ms_runs;
        claim_scan nodeID leaseTTL now ids
  end.

(** ** The life of a lease *)
Definition Renew (assignment : Assignment) (leaseTTL : Z) : MM LeaseUpdate :=
  run ← authorize_assignment assignment;
  if negb (holds_lease (att_Status (run_Attempt run))) then raise (sentinel ErrInvalidTransition)
  else
    now ← time_now;
    match att_LeaseExpiresAt (run_Attempt run) with
    | None => raise (sentinel ErrInvalidLease)
    | Some old =>
        if negb (before now old) then raise (sentinel ErrInvalidLease)
        else
          let expires := (now + leaseTTL)%Z in
          put_run (run <| run_Attempt := (run_Attempt run) <| att_LeaseExpiresAt := Some expires |> |>) ;;
          mret (mkLeaseUpdate expires (negb (run_CancelRequestedAt run =s None)) (run_CancelReason run))
    end.

Definition Start (assignment : Assignment) : MM () :=
  run ← authorize_assignment assignment;
  if negb (att_Status (run_Attempt run) =s AttemptLeased)
  then raise (sentinel ErrInvalidTransition)
  else if run_Status run =s RunCancelling then
    now ← time_now;
    finalizeCancellation run now ;;
    raise (sentinel ErrRunCancelled)
  else
    expired ← match att_LeaseExpiresAt (run_Attempt run) with
              | Some t => now ← time_now; mret (negb (before now t))
              | None => mret false
              end;
    if (expired : bool) then
      now ← time_now;
      requeueExpired run now ;;
      raise (sentinel ErrInvalidLease)
    else
      now ← time_now;
      let run := run <| run_Status := RunRunning |> <| run_StartedAt := Some now |>
                     <| run_Attempt := (run_Attempt run) <| att_Status := AttemptRunning |>
                                                       <| att_StartedAt := Some now |> |> in
      put_run run ;;
      appendEvent run "attempt.started"
        (json_of_strings [("node_id", att_NodeID (run_Attempt run))]) ;;
      appendEvent run "run.started" AnyNil.

(** ** Terminal reports *)
Definition conflict (what : string) : Error := wrapf ErrInvalidTransition what.

(** [run.Attempt.LeaseExpiresAt == nil || !time.Now().Before( *expiry)]: the
    clock is read only when there is an expiry. *)
Definition lease_over (run : Run) : MM bool :=
  match att_LeaseExpiresAt (run_Attempt run) with
  | None => mret true
  | Some t => now ← time_now; mret (negb (before now t))
  end.

Definition Complete (assignment : Assignment) (result : Result) : MM () :=
  r ← find_run (asg_RunID assignment);
  match r with
  | None => raise (sentinel ErrNotFound)
  | Some run =>
      if negb (lease_matches run (asg_AttemptID assignment) (asg_LeaseToken assignment))
      then raise (sentinel ErrInvalidLease)
      else if (run_Status run =s RunSucceeded) && (att_Status (run_Attempt run) =s AttemptSucceeded)
      then
        match run_Result run with
        | Some old =>
            if SameValue (AnyResult old) (AnyResult result) then mret ()
            else raise (conflict "completion result differs from the committed result")
        | None => raise (conflict "completion result differs from the committed result")
        end
      else
        over ← lease_over run;
        if (over : bool) then raise (sentinel ErrInvalidLease)
        else if negb (att_Status (run_Attempt run) =s AttemptRunning)
        then raise (sentinel ErrInvalidTransition)
        else if run_Status run =s RunCancelling then raise (sentinel ErrRunCancelled)
        else
          now ← time_now;
          let run := run <| run_Status := RunSucceeded |> <| run_Result := Some result |>
                         <| run_CompletedAt := Some now |>
                         <| run_Attempt := (run_Attempt run) <| att_Status := AttemptSucceeded |>
                                                           <| att_CompletedAt := Some now |> |> in
          put_run run ;;
          releaseNode (att_NodeID (run_Attempt run)) ;;
          appendEvent run "attempt.succeeded" AnyNil ;;
          appendEvent run "run.succeeded" (AnyResult result)
  end.

Definition Fail (assignment : Assignment) (cause : string) : MM () :=
  r ← find_run (asg_RunID assignment);
  match r with
  | None => raise (sentinel ErrNotFound)
  | Some run =>
      if negb (lease_matches run (asg_AttemptID assignment) (asg_LeaseToken assignment))
      then raise (sentinel ErrInvalidLease)
      else if (run_Status run =s RunFailed) && (att_Status (run_Attempt run) =s AttemptFailed)
      then if run_Error run =s cause then mret ()
           else raise (conflict "failure cause differs from the committed cause")
      else
        over ← lease_over run;
        if (over : bool) then raise (sentinel ErrInvalidLease)
        else if negb (holds_lease (att_Status (run_Attempt run)))
        then raise (sentinel ErrInvalidTransition)
        else if run_Status run =s RunCancelling then
          now ← time_now;
          finalizeCancellation run now ;;
          raise (sentinel ErrRunCancelled)
        else
          now ← time_now;
          let run := run <| run_Status := RunFailed |> <| run_Error := cause |>
                         <| run_CompletedAt := Some now |>
                         <| run_Attempt := (run_Attempt run) <| att_Status := AttemptFailed |>
                                                           <| att_CompletedAt := Some now |> |> in
          put_run run ;;
          releaseNode (att_NodeID (run_Attempt run)) ;;
          appendEvent run "attempt.failed" (json_of_strings [("error", cause)]) ;;
          appendEvent run "run.failed" (json_of_strings [("error", cause)])
  end.

(** ** Recovery *)
Definition retryBackoff (policy : RetryPolicy) : Z :=
  default 0%Z (parse_duration (retry_Backoff policy)).

Definition reconcile_deadline (now recovered : Z) (id : string) : MM Z :=
  run ← run_at id;
  if reached now (run_DeadlineAt run) && negb (terminalRun (run_Status run)) &&
     (run_CancelRequestedAt run =s None)
  then cancelRunLocked run timeout_request now ;; mret (recovered + 1)%Z
  else mret recovered.

Definition expired_attempt (now : Z) (run : Run) : bool :=
  ((run_Status run =s RunRunning) || (run_Status run =s RunCancelling)) &&
  ((att_Status (run_Attempt run) =s AttemptRunning) ||
   ((run_Status run =s RunCancelling) && (att_Status (run_Attempt run) =s AttemptLeased))) &&
  reached now (att_LeaseExpiresAt (run_Attempt run)).

(** The retry: the lost attempt is closed in the history, a fresh one opens. *)
Definition retry_attempt (run : Run) (request : Request) (now : Z) : MM () :=
  let next := (now + retryBackoff (req_Retry request))%Z in
  history ← gets (λ s, map_get (ms_attemptHistory s) (run_ID run));
  if length history =s 0 then raise panic_index
  else
    let history := <[length history - 1 := run_Attempt run]> history in
    id ← newControlPlaneID "attempt";
    let run := run <| run_Attempt := mkAttempt id (att_Number (run_Attempt run) + 1) "" "" None
                                       (Some next) AttemptQueued None None |> in
    modify (λ s, s <| ms_attemptHistory :=
              <[run_ID run := history ++ [run_Attempt run]]> (ms_attemptHistory s) |>) ;;
    let run := run <| run_Status := RunQueued |> <| run_Error := "" |>
                   <| run_StartedAt := None |> <| run_CompletedAt := None |> in
    put_run run ;;
    appendEvent run "attempt.queued"
      (AnyJson (JObj [("available_at", json_time next);
                      ("number", json_int (att_Number (run_Attempt run)));
                      ("reason", JStr "retry")])).

Definition lose_attempt (run : Run) (now : Z) : MM () :=
  releaseNode (att_NodeID (run_Attempt run)) ;;
  let run := run <| run_Attempt := (run_Attempt run) <| att_Status := AttemptLost |>
                                                   <| att_CompletedAt := Some now |> |> in
  put_run run ;;
  appendEvent run "attempt.lost"
    (json_of_strings [("node_id", att_NodeID (run_Attempt run)); ("reason", "lease_expired")]) ;;
  request ← gets (λ s, map_get (ms_requests s) (run_ID run));
  if (retry_MaxAttempts (req_Retry request) <=? att_Number (run_Attempt run))%Z then
    let run := run <| run_Status := RunFailed |> <| run_Error := "attempt lease expired" |>
                   <| run_CompletedAt := Some now |> in
    put_run run ;;
    appendEvent run "run.failed" (json_of_strings [("error", run_Error run)])
  else retry_attempt run request now.

Definition reconcile_attempt (now limit recovered : Z) (id : string) : MM Z :=
  run ← run_at id;
  if (limit <=? recovered)%Z || negb (expired_attempt now run) then mret recovered
  else if run_Status run =s RunCancelling
  then finalizeCancellation run now ;; mret (recovered + 1)%Z
  else lose_attempt run now ;; mret (recovered + 1)%Z.

(** The first loop breaks at the limit; the second skips what is left. *)
Fixpoint reconcile_deadlines (now limit recovered : Z) (ids : list string) : MM Z :=
  match ids with
  | [] => mret recovered
  | id :: ids =>
      if (limit <=? recovered)%Z then mret recovered
      else recovered ← reconcile_deadline now recovered id;
           reconcile_deadlines now limit recovered ids
  end.

Fixpoint reconcile_attempts (now limit recovered : Z) (ids : list string) : MM Z :=
  match ids with
  | [] => mret recovered
  | id :: ids =>
      recovered ← reconcile_attempt now limit recovered id;
      reconcile_attempts now limit recovered ids
  end.

Definition Reconcile (now limit : Z) : MM Z :=
  ids ← range_map ms_runs;
  recovered ← reconcile_deadlines now limit 0 ids;
  ids ← range_map ms_runs;
  reconcile_attempts now limit recovered ids.

(** ** Cancellation *)
Definition CancelRun (runID : string) (request : CancelRequest) : MM Run :=
  r ← find_run runID;
  match r with
  | None => raise (sentinel ErrNotFound)
  | Some run => now ← time_now; cancelRunLocked run request now
  end.

Definition AcknowledgeCancellation (assignment : Assignment) : MM () :=
  run ← authorize_assignment assignment;
  if run_Status run =s RunCancelled then mret ()
  else if negb (run_Status run =s RunCancelling) then raise (sentinel ErrInvalidTransition)
  else
    now ← time_now;
    finalizeCancellation run now ;;
    mret ().

(** ** Events *)
Definition AppendEvent (runID attemptID lease eventType : string) (data : Any)
    (eventIDs : list string) : MM () :=
  run ← authorize runID attemptID lease;
  if negb (att_Status (run_Attempt run) =s AttemptRunning)
  then raise (sentinel ErrInvalidTransition)
  else
    let id := EventIdentity attemptID lease eventIDs in
    es ← gets (λ s, map_get (ms_events s) runID);
    match (if id =s "" then None else List.find (λ e, ev_ID e =s id) es) with
    | Some event => lift_res (SameEvent (ev_Type event) (ev_Data event) eventType data)
    | None =>
        match marshal data with
        | Err e => raise e
        | Ok _ =>
            fresh ← newControlPlaneID "event";
            now ← time_now;
            appendEvent_as (if id =s "" then fresh else id) run eventType (event_data data) now
        end
    end.

Definition GetRun (runID : string) : MM Run :=
  r ← find_run runID;
  match r with Some run => mret run | None => raise (sentinel ErrNotFound) end.

(** [index] stops at the first event after the cursor. *)
Fixpoint drop_until (after : Z) (es : list Event) : list Event :=
  match es with
  | [] => []
  | e :: es' => if (ev_Sequence e <=? after)%Z then drop_until after es' else es
  end.

Definition EventsAfter (runID : string) (after : Z) : MM (list Event) :=
  r ← find_run runID;
  match r with
  | None => raise (sentinel ErrNotFound)
  | Some _ => es ← gets (λ s, map_get (ms_events s) runID); mret (drop_until after es)
  end.

Definition Events (runID : string) : MM (list Event) := EventsAfter runID 0.

(** ** Artifacts *)
Definition AddArtifact (assignment : Assignment) (artifact : Artifact) : MM () :=
  run ← authorize_assignment assignment;
  if negb (att_Status (run_Attempt run) =s AttemptRunning)
  then raise (sentinel ErrInvalidTransition)
  else
    modify (λ s, s <| ms_artifacts := <[art_ID artifact := artifact]> (ms_artifacts s) |>) ;;
    modify (λ s, s <| ms_artifactRuns :=
              <[run_ID run := map_get (ms_artifactRuns s) (run_ID run) ++ [art_ID artifact]]>
                (ms_artifactRuns s) |>) ;;
    appendEvent run "artifact.created" (AnyJson (json_Artifact artifact)).

Definition Artifacts (runID : string) : MM (list Artifact) :=
  r ← find_run runID;
  match r with
  | None => raise (sentinel ErrNotFound)
  | Some _ =>
      gets (λ s, map (map_get (ms_artifacts s)) (map_get (ms_artifactRuns s) runID))
  end.

Definition Artifact_ (artifactID : string) : MM Artifact :=
  v ← gets (λ s, ms_artifacts s !! artifactID);
  match v with Some value => mret value | None => raise (sentinel ErrNotFound) end.

(** ** Capability calls *)
Definition capability_key (runID key : string) : string := runID +:+ nul +:+ key.

Definition ReserveCapability (a : Assignment) (key hash : string) (_ : CapabilityRequest)
    : MM CapabilityReservation :=
  run ← authorize_assignment a;
  if negb (att_Status (run_Attempt run) =s AttemptRunning)
  then raise (sentinel ErrInvalidTransition)
  else
    let mapKey := capability_key (asg_RunID a) key in
    old ← gets (λ s, ms_capabilityCalls s !! mapKey);
    match old with
    | Some old =>
        if negb (mcc_hash old =s hash) then raise (sentinel ErrIdempotencyConflict)
        else mret (mcc_reservation old)
    | None =>
        id ← newControlPlaneID "call";
        let reservation := mkReservation id true None "" in
        modify (λ s, s <| ms_capabilityCalls :=
                  <[mapKey := mkCapCall hash reservation]> (ms_capabilityCalls s) |>) ;;
        mret reservation
    end.

(** The first key, in the order of [range], whose call has the wanted ID. *)
Definition find_call (callID : string) (m : gmap string memoryCapabilityCall) (keys : list string)
    : option (string * memoryCapabilityCall) :=
  head (omap (λ k, c ← m !! k;
                   if rsv_CallID (mcc_reservation c) =s callID then Some (k, c) else None) keys).

Definition FinishCapability (a : Assignment) (reservation : CapabilityReservation)
    (result : CapabilityResult) (cause : string) : MM () :=
  run ← authorize_assignment a;
  keys ← range_map ms_capabilityCalls;
  found ← gets (λ s, find_call (rsv_CallID reservation) (ms_capabilityCalls s) keys);
  match found with
  | None => raise (sentinel ErrNotFound)
  | Some (key, value) =>
      let r := (mcc_reservation value) <| rsv_Execute := false |> <| rsv_Result := Some result |>
                                       <| rsv_Error := cause |> in
      modify (λ s, s <| ms_capabilityCalls :=
                <[key := mkCapCall (mcc_hash value) r]> (ms_capabilityCalls s) |>) ;;
      appendEvent run "capability.recorded"
        (json_of_strings [("call_id", rsv_CallID reservation)])
  end.

(** ** Listings *)
Definition in_scope (want have : string) : bool := (want =s "") || (have =s want).

Definition newer (a b : Run) : Prop := (run_CreatedAt b ≤ run_CreatedAt a)%Z.
#[local] Instance newer_dec : RelDecision newer := λ a b, decide ((run_CreatedAt b ≤ run_CreatedAt a)%Z).
Definition older (a b : Interaction) : Prop := (ia_CreatedAt a ≤ ia_CreatedAt b)%Z.
#[local] Instance older_dec : RelDecision older := λ a b, decide ((ia_CreatedAt a ≤ ia_CreatedAt b)%Z).

Definition list_limit (limit : Z) : nat :=
  if (limit <=? 0)%Z || (200 <? limit)%Z then 50 else Z.to_nat limit.

Definition ListRuns (tenant project session : string) (limit : Z) : MM (list Run) :=
  ids ← range_map ms_runs;
  values ← gets (λ s,
    List.filter (λ r, in_scope tenant (run_TenantID r) && in_scope project (run_ProjectID r) &&
                      in_scope session (run_SessionID r))
      (omap (λ id, ms_runs s !! id) ids));
  mret (take (list_limit limit) (merge_sort newer values)).

Definition Attempts (runID : string) : MM (list Attempt) :=
  r ← find_run runID;
  match r with
  | None => raise (sentinel ErrNotFound)
  | Some run =>
      values ← gets (λ s, map_get (ms_attemptHistory s) runID);
      mret (<[length values - 1 := run_Attempt run]> values)
  end.

(** ** Interactions *)
Definition CreateInteraction (a : Assignment) (request : InteractionRequest) : MM Interaction :=
  run ← authorize_assignment a;
  if negb (att_Status (run_Attempt run) =s AttemptRunning)
  then raise (sentinel ErrInvalidTransition)
  else
    id ← newControlPlaneID "interaction";
    now ← time_now;
    let value := mkInteraction id (run_ID run) (att_ID (run_Attempt run)) (ir_Kind request)
                   "pending" (ir_Prompt request) (ir_Data request) None now None in
    modify (λ s, s <| ms_interactions := <[id := value]> (ms_interactions s) |>) ;;
    appendEvent run "interaction.requested" (AnyJson (json_Interaction value)) ;;
    mret value.

Definition GetInteraction (a : Assignment) (id : string) : MM Interaction :=
  _ ← authorize_assignment a;
  v ← gets (λ s, ms_interactions s !! id);
  match v with
  | Some value => if ia_RunID value =s asg_RunID a then mret value else raise (sentinel ErrNotFound)
  | None => raise (sentinel ErrNotFound)
  end.

Definition Interactions (runID : string) : MM (list Interaction) :=
  r ← find_run runID;
  match r with
  | None => raise (sentinel ErrNotFound)
  | Some _ =>
      ids ← range_map ms_interactions;
      values ← gets (λ s, List.filter (λ i, ia_RunID i =s runID)
                            (omap (λ id, ms_interactions s !! id) ids));
      mret (merge_sort older values)
  end.

(** The host resolves; no lease is involved.  The run is reached through the
    unchecked pointer of the map. *)
Definition ResolveInteraction (id : string) (response : option Json) (tenant project : string)
    : MM Interaction :=
  v ← gets (λ s, ms_interactions s !! id);
  match v with
  | None => raise (sentinel ErrNotFound)
  | Some value =>
      run ← run_at (ia_RunID value);
      if negb (in_scope tenant (run_TenantID run)) || negb (in_scope project (run_ProjectID run))
      then raise (sentinel ErrNotFound)
      else if negb (ia_State value =s "pending") then raise (sentinel ErrInvalidTransition)
      else
        now ← time_now;
        let value := value <| ia_State := "resolved" |> <| ia_Response := response |>
                           <| ia_ResolvedAt := Some now |> in
        modify (λ s, s <| ms_interactions := <[id := value]> (ms_interactions s) |>) ;;
        appendEvent run "interaction.resolved" (json_of_strings [("interaction_id", id)]) ;;
        mret value
  end.
End memory.
