(* ===== verification/MemoryEffect.v ===== *)
(** * MemoryEffect: what one step of the storage does to one run

    Every transition of [MemoryStorage] changes the entry of a single run,
    possibly gives back the slot of the node that held it, and appends events
    to that run's log.  [effect] says exactly that; effects compose, and each
    helper of Memory has one. *)

From S2P Require Import Prelude Json Types Matching Event Lifecycle Memory.

(** [releaseNode] as a function on the nodes. *)
Definition release (nodeID : string) (nodes : gmap string Node) : gmap string Node :=
  match nodes !! nodeID with
  | Some node =>
      if (0 <? node_Active node)%Z
      then <[nodeID := node <| node_Active := (node_Active node - 1)%Z |>]> nodes
      else nodes
  | None => nodes
  end.

(** A log numbers its events 1, 2, 3, ... and holds only its run's. *)
Definition events_ok (id : string) (es : list Event) : Prop :=
  ∀ i e, es !! i = Some e → ev_Sequence e = (Z.of_nat i + 1)%Z ∧ ev_RunID e = id.

Lemma events_ok_nil id : events_ok id [].
Proof. by intros i e. Qed.

Lemma events_ok_snoc id es e :
  events_ok id es → ev_Sequence e = (Z.of_nat (length es) + 1)%Z → ev_RunID e = id →
  events_ok id (es ++ [e]).
Proof.
  intros Hok Hs Hr i x. rewrite lookup_app_Some. intros [Hi|[Hi Hx]]; [by apply Hok|].
  apply list_lookup_singleton_Some in Hx as [Hi' <-].
  assert (i = length es) as -> by lia. done.
Qed.

Definition world_eq_but_logs (s s' : MemoryStorage) : Prop :=
  ms_requests s' = ms_requests s ∧ ms_byIdempotency s' = ms_byIdempotency s ∧
  ms_interactions s' = ms_interactions s ∧ ms_artifacts s' = ms_artifacts s ∧
  ms_artifactRuns s' = ms_artifactRuns s ∧ ms_capabilityCalls s' = ms_capabilityCalls s.

(** The log of [id] grows by events of types [tys]; other logs stay. *)
Definition log_grows (id : string) (tys : list string) (s s' : MemoryStorage) : Prop :=
  (∀ j, j ≠ id → ms_events s' !! j = ms_events s !! j) ∧
  ∃ extra, map_get (ms_events s') id = map_get (ms_events s) id ++ extra ∧
           ev_Type <$> extra = tys ∧
           (events_ok id (map_get (ms_events s) id) → events_ok id (map_get (ms_events s') id)).

(** From [w] to [w']: the run at [id] becomes [r'] (it was [r]), a slot of node
    [n] is given back when [rel] is [Some n], the log grows by [tys], the
    attempt history becomes [hist], and nothing else changes. *)
Record effect (id : string) (r' : Run) (rel : option string) (tys : list string)
    (w w' : World MemoryStorage) : Prop := {
  eff_tick : w_tick w ≤ w_tick w';
  eff_runs : ms_runs (w_st w') = <[id := r']> (ms_runs (w_st w));
  eff_nodes : ms_nodes (w_st w') =
    match rel with Some n => release n (ms_nodes (w_st w)) | None => ms_nodes (w_st w) end;
  eff_log : log_grows id tys (w_st w) (w_st w');
  eff_history : ms_attemptHistory (w_st w') = ms_attemptHistory (w_st w);
  eff_rest : world_eq_but_logs (w_st w) (w_st w')
}.

Lemma log_grows_refl id s s' : ms_events s' = ms_events s → log_grows id [] s s'.
Proof. intros He. split; [by rewrite He|]. exists []. rewrite He, app_nil_r. done. Qed.

Lemma log_grows_trans id tys1 tys2 s1 s2 s3 :
  log_grows id tys1 s1 s2 → log_grows id tys2 s2 s3 → log_grows id (tys1 ++ tys2) s1 s3.
Proof.
  intros [Ho1 (x1 & He1 & Ht1 & Hk1)] [Ho2 (x2 & He2 & Ht2 & Hk2)]. split.
  - intros j Hj. rewrite Ho2, Ho1; done.
  - exists (x1 ++ x2). rewrite He2, He1, app_assoc, fmap_app, Ht1, Ht2.
    split_and!; [done|done|]. intros H0. specialize (Hk2 (Hk1 H0)). by rewrite He2, He1 in Hk2.
Qed.

Lemma world_eq_but_logs_refl s : world_eq_but_logs s s.
Proof. by split_and!. Qed.

Lemma world_eq_but_logs_trans s1 s2 s3 :
  world_eq_but_logs s1 s2 → world_eq_but_logs s2 s3 → world_eq_but_logs s1 s3.
Proof. unfold world_eq_but_logs. intuition congruence. Qed.

Lemma effect_trans id r1 r2 rel1 rel2 tys1 tys2 w1 w2 w3 :
  effect id r1 rel1 tys1 w1 w2 → effect id r2 rel2 tys2 w2 w3 →
  rel1 = None ∨ rel2 = None →
  effect id r2 (match rel1 with Some n => Some n | None => rel2 end) (tys1 ++ tys2) w1 w3.
Proof.
  intros [Ht1 Hr1 Hn1 Hl1 Hh1 He1] [Ht2 Hr2 Hn2 Hl2 Hh2 He2] Hrel. constructor.
  - lia.
  - by rewrite Hr2, Hr1, insert_insert_eq.
  - rewrite Hn2, Hn1. destruct Hrel as [->| ->]; [done|by destruct rel1].
  - by eapply log_grows_trans.
  - congruence.
  - by eapply world_eq_but_logs_trans.
Qed.

(** ** Effects of the primitives *)
Section primitives.
Context `{Host} `{Encoder} `{Semver}.

Lemma effect_refl id r w : ms_runs (w_st w) !! id = Some r → effect id r None [] w w.
Proof.
  intros Hr. constructor; [done|by rewrite insert_id|done|by apply log_grows_refl|done|].
  apply world_eq_but_logs_refl.
Qed.

Lemma wp_put_run r Q w :
  (∀ w', effect (run_ID r) r None [] w w' → w_tick w' = w_tick w → Q (Ok ()) w') →
  wp (put_run r) Q w.
Proof.
  intros HQ. unfold put_run. apply wp_modify, HQ; [|done].
  constructor; simpl; [done|done|done|by apply log_grows_refl|done|by split_and!].
Qed.

Lemma wp_releaseNode n (Q : Res () → World MemoryStorage → Prop) w :
  (∀ w', w_tick w' = w_tick w → w_st w' = (w_st w) <| ms_nodes := release n (ms_nodes (w_st w)) |> →
         Q (Ok ()) w') →
  wp (releaseNode n) Q w.
Proof.
  intros HQ. unfold releaseNode. wp_step. apply wp_gets.
  assert (Hid : (w_st w) <| ms_nodes := ms_nodes (w_st w) |> = w_st w) by (by destruct (w_st w)).
  unfold release in HQ. destruct (ms_nodes (w_st w) !! n) as [node|].
  - destruct (0 <? node_Active node)%Z.
    + apply wp_modify, HQ; done.
    + apply wp_ret, HQ; [done|by rewrite Hid].
  - apply wp_ret, HQ; [done|by rewrite Hid].
Qed.

Lemma wp_release_effect id r n (Q : Res () → World MemoryStorage → Prop) w :
  ms_runs (w_st w) !! id = Some r →
  (∀ w', effect id r (Some n) [] w w' → w_tick w' = w_tick w → Q (Ok ()) w') →
  wp (releaseNode n) Q w.
Proof.
  intros Hr HQ. apply wp_releaseNode. intros w' Ht Hs. apply HQ; [|done].
  constructor; rewrite ?Ht, ?Hs; simpl; [done|by rewrite insert_id|done| |done|].
  - by apply log_grows_refl.
  - by split_and!.
Qed.

Lemma wp_appendEvent_as id0 r ty d now (Q : Res () → World MemoryStorage → Prop) w :
  ms_runs (w_st w) !! run_ID r = Some r →
  (∀ w', effect (run_ID r) r None [ty] w w' → w_tick w' = w_tick w →
     (∃ e, map_get (ms_events (w_st w')) (run_ID r) =
             map_get (ms_events (w_st w)) (run_ID r) ++ [e] ∧ ev_ID e = id0 ∧ ev_Type e = ty ∧
           ev_Data e = d) → Q (Ok ()) w') →
  wp (appendEvent_as id0 r ty d now) Q w.
Proof.
  intros Hr HQ. unfold appendEvent_as. apply wp_modify.
  set (es := map_get (ms_events (w_st w)) (run_ID r)).
  set (e := mkEvent _ _ _ _ _ _ _).
  assert (He : map_get (<[run_ID r := es ++ [e]]> (ms_events (w_st w))) (run_ID r) = es ++ [e]).
  { unfold map_get. by rewrite lookup_insert_eq. }
  apply HQ; simpl; [|done|by exists e]. constructor; simpl; [done|by rewrite insert_id|done| |done|].
  - split; simpl.
    + intros j Hj. by rewrite lookup_insert_ne.
    + exists [e]. rewrite He. split_and!; [done|done|]. intros Hok.
      by apply events_ok_snoc.
  - by split_and!.
Qed.

Lemma wp_appendEvent r ty v (Q : Res () → World MemoryStorage → Prop) w :
  ms_runs (w_st w) !! run_ID r = Some r →
  (∀ w', effect (run_ID r) r None [ty] w w' → Q (Ok ()) w') →
  wp (appendEvent r ty v) Q w.
Proof.
  intros Hr HQ. unfold appendEvent, newControlPlaneID. wp_step. wp_step. wp_step. wp_step.
  apply wp_appendEvent_as; [done|]. intros w' [Ht Hru Hn Hl Hh He] _ _. apply HQ.
  simpl in *. constructor; [lia|done..].
Qed.
End primitives.

(** The run after each of the internal transitions. *)
Definition finalized (r : Run) (now : Z) : Run :=
  r <| run_Attempt := (run_Attempt r) <| att_Status := AttemptCancelled |>
                                      <| att_CompletedAt := Some now |> |>
    <| run_Status := RunCancelled |> <| run_CancelledAt := Some now |>
    <| run_CompletedAt := Some now |>.
Definition requeued (r : Run) : Run :=
  r <| run_Attempt := (run_Attempt r) <| att_Status := AttemptQueued |> <| att_NodeID := "" |>
                                      <| att_LeaseToken := "" |> <| att_LeaseExpiresAt := None |> |>.
Definition cancel_marked (r : Run) (reason : string) (now : Z) : Run :=
  r <| run_CancelRequestedAt := Some now |> <| run_CancelReason := reason |>.
Definition cancelling (r : Run) (reason : string) (now : Z) : Run :=
  (cancel_marked r reason now) <| run_Status := RunCancelling |>.

(** Compose the two most recent effects. *)
Ltac eff_compose :=
  match goal with
  | H1 : effect ?id _ _ _ ?w1 ?w2, H2 : effect ?id _ _ _ ?w2 ?w3 |- _ =>
      let H := fresh "He" in
      pose proof (effect_trans _ _ _ _ _ _ _ _ _ _ H1 H2 ltac:(first [by left|by right])) as H;
      clear H1 H2; simpl in H
  end.

Lemma effect_lookup id r rel tys w w' : effect id r rel tys w w' → ms_runs (w_st w') !! id = Some r.
Proof. intros []. rewrite eff_runs0. apply lookup_insert_eq. Qed.

#[export] Hint Resolve effect_lookup events_ok_nil log_grows_refl world_eq_but_logs_refl : relay.

Section helpers.
Context `{Host} `{Encoder} `{Semver}.

Lemma wp_finalizeCancellation r now (Q : Res Run → World MemoryStorage → Prop) w :
  ms_runs (w_st w) !! run_ID r = Some r → run_Status r ≠ RunCancelled →
  (∀ w', effect (run_ID r) (finalized r now) (Some (att_NodeID (run_Attempt r)))
           ["attempt.cancelled"; "run.cancelled"] w w' →
         Q (Ok (finalized r now)) w') →
  wp (finalizeCancellation r now) Q w.
Proof.
  intros Hr Hs HQ. unfold finalizeCancellation. rewrite bool_decide_eq_false_2 by done.
  wp_step. apply (wp_release_effect (run_ID r) r); [done|]. intros w1 E1 _.
  wp_step. apply (wp_put_run (finalized r now)). intros w2 E2 _.
  wp_step. apply (wp_appendEvent (finalized r now)); [by eauto with relay|]. intros w3 E3.
  wp_step. apply (wp_appendEvent (finalized r now)); [by eauto with relay|]. intros w4 E4.
  apply wp_ret, HQ. change (run_ID (finalized r now)) with (run_ID r) in *.
  do 3 eff_compose. done.
Qed.

(** The attempt whose lease has run out before it was started, and every other. *)
Lemma wp_requeue_due r now (Q : Res Run → World MemoryStorage → Prop) w :
  ms_runs (w_st w) !! run_ID r = Some r → att_Status (run_Attempt r) = AttemptLeased →
  reached now (att_LeaseExpiresAt (run_Attempt r)) = true →
  (∀ w', effect (run_ID r) (requeued r) (Some (att_NodeID (run_Attempt r)))
           ["attempt.lease_expired"] w w' →
         Q (Ok (requeued r)) w') →
  wp (requeueExpired r now) Q w.
Proof.
  intros Hr E1 E2 HQ. unfold requeueExpired. rewrite E1, E2. simpl.
  wp_step. apply (wp_release_effect (run_ID r) r); [done|]. intros w1 F1 _.
  wp_step. apply (wp_appendEvent r); [by eauto with relay|]. intros w2 F2.
  wp_step. apply (wp_put_run (requeued r)). intros w3 F3 _.
  apply wp_ret, HQ. change (run_ID (requeued r)) with (run_ID r) in *.
  do 2 eff_compose. done.
Qed.

Lemma wp_requeueExpired r now (Q : Res Run → World MemoryStorage → Prop) w :
  ms_runs (w_st w) !! run_ID r = Some r →
  (att_Status (run_Attempt r) = AttemptLeased →
   reached now (att_LeaseExpiresAt (run_Attempt r)) = true →
   ∀ w', effect (run_ID r) (requeued r) (Some (att_NodeID (run_Attempt r)))
           ["attempt.lease_expired"] w w' →
         Q (Ok (requeued r)) w') →
  Q (Ok r) w →
  wp (requeueExpired r now) Q w.
Proof.
  intros Hr HQ HQ0.
  destruct (negb (att_Status (run_Attempt r) =s AttemptLeased) ||
            negb (reached now (att_LeaseExpiresAt (run_Attempt r)))) eqn:E.
  - unfold requeueExpired. rewrite E. by apply wp_ret.
  - apply orb_false_iff in E as [E1%negb_false_iff%bool_decide_eq_true E2%negb_false_iff].
    apply wp_requeue_due; auto.
Qed.

Lemma wp_cancelRunLocked r c now (Q : Res Run → World MemoryStorage → Prop) w :
  ms_runs (w_st w) !! run_ID r = Some r →
  (∀ w', terminalRun (run_Status r) = true ∨ is_Some (run_CancelRequestedAt r) → w' = w →
         Q (Ok r) w') →
  (∀ w', terminalRun (run_Status r) = false → run_CancelRequestedAt r = None →
         att_Status (run_Attempt r) = AttemptQueued →
         effect (run_ID r) (finalized (cancel_marked r (cancel_Reason c) now) now)
           (Some (att_NodeID (run_Attempt r)))
           ["run.cancel_requested"; "attempt.cancelled"; "run.cancelled"] w w' →
         Q (Ok (finalized (cancel_marked r (cancel_Reason c) now) now)) w') →
  (∀ w', terminalRun (run_Status r) = false → run_CancelRequestedAt r = None →
         att_Status (run_Attempt r) ≠ AttemptQueued →
         effect (run_ID r) (cancelling r (cancel_Reason c) now) None
           ["run.cancel_requested"] w w' →
         Q (Ok (cancelling r (cancel_Reason c) now)) w') →
  wp (cancelRunLocked r c now) Q w.
Proof.
  intros Hr HQ0 HQ1 HQ2. unfold cancelRunLocked. set (m := cancel_marked r (cancel_Reason c) now).
  wp_step.
  { apply wp_ret, HQ0; [|done]. apply orb_true_iff in E as [E|E%negb_true_iff]; [by left|right].
    apply bool_decide_eq_false in E. by destruct (run_CancelRequestedAt r). }
  apply orb_false_iff in E as [Et Ec%negb_false_iff%bool_decide_eq_true].
  wp_step. apply (wp_put_run m). intros w1 F1 _.
  wp_step. apply (wp_appendEvent m); [by eauto with relay|]. intros w2 F2.
  wp_step.
  - apply bool_decide_eq_true in E.
    apply (wp_finalizeCancellation m); [by eauto with relay|..].
    { intros Hc. simpl in Hc. unfold terminalRun in Et. by rewrite Hc in Et. }
    intros w3 F3. apply HQ1; [done..|]. change (run_ID m) with (run_ID r) in *.
    do 2 eff_compose. done.
  - apply bool_decide_eq_false in E. wp_step.
    apply (wp_put_run (cancelling r (cancel_Reason c) now)). intros w3 F3 _.
    apply wp_ret, HQ2; [done..|]. change (run_ID m) with (run_ID r) in *.
    change (run_ID (cancelling _ _ _)) with (run_ID r) in *. do 2 eff_compose. done.
Qed.
End helpers.
