(* ===== verification/MemoryInv.v ===== *)
(** * MemoryInv: the invariant of the in-memory storage, and what every method keeps

    [inv] is the well-formedness of the store: coherent run and attempt
    statuses, leases that go with held attempts, gapless logs, a history for
    every run, idempotency keys that find their run, and node loads equal to
    the number of attempts held.  [evolves] relates two worlds in time: every
    run changes along the lifecycle, logs grow, nothing is forgotten.
    [inv_change] is the one place where both are re-established after a change
    of a single run; the methods are instances. *)

From S2P Require Import Prelude Json Types Matching Event Lifecycle Memory MemoryEffect.

Definition run_scope (r : Run) : string :=
  idempotencyScope (run_TenantID r) (run_ProjectID r) (run_IdempotencyKey r).

Definition held_by (n : string) (r : Run) : bool :=
  holds_lease (att_Status (run_Attempt r)) && (att_NodeID (run_Attempt r) =s n).

Definition terminal_event (status : RunStatus) : string :=
  match status with
  | RunSucceeded => "run.succeeded" | RunFailed => "run.failed" | _ => "run.cancelled"
  end.

Record run_ok `{Host} (tick : nat) (r : Run) : Prop := {
  ok_status : coherent (run_phase r) = true;
  ok_held : holds_lease (att_Status (run_Attempt r)) = true →
            att_NodeID (run_Attempt r) ≠ "" ∧ att_LeaseToken (run_Attempt r) ≠ "" ∧
            is_Some (att_LeaseExpiresAt (run_Attempt r));
  ok_queued : att_Status (run_Attempt r) = AttemptQueued →
              att_LeaseToken (run_Attempt r) = "" ∧ att_LeaseExpiresAt (run_Attempt r) = None;
  ok_queued_node : att_Status (run_Attempt r) = AttemptQueued → att_NodeID (run_Attempt r) = "";
  ok_token : att_LeaseToken (run_Attempt r) = "" ∨
             issued "lease" 0 tick (att_LeaseToken (run_Attempt r));
  ok_id : issued "run" 0 tick (run_ID r);
  ok_attempt : issued "attempt" 0 tick (att_ID (run_Attempt r));
  ok_result : is_Some (run_Result r) ↔ run_Status r = RunSucceeded;
  ok_cancel : is_Some (run_CancelRequestedAt r) ↔
              run_Status r = RunCancelling ∨ run_Status r = RunCancelled
}.

Definition history_ok (r : Run) (h : list Attempt) : Prop :=
  Z.of_nat (length h) = att_Number (run_Attempt r) ∧
  ∃ a, last h = Some a ∧ att_ID a = att_ID (run_Attempt r).

Record inv `{Host} (w : World MemoryStorage) : Prop := {
  inv_runs : ∀ id r, ms_runs (w_st w) !! id = Some r → run_ID r = id ∧ run_ok (w_tick w) r;
  inv_history : ∀ id r, ms_runs (w_st w) !! id = Some r →
    ∃ h, ms_attemptHistory (w_st w) !! id = Some h ∧ history_ok r h;
  inv_request : ∀ id r, ms_runs (w_st w) !! id = Some r →
    ∃ q, ms_requests (w_st w) !! id = Some q ∧ request_scope q = run_scope r ∧
         (att_Number (run_Attempt r) ≤ Z.max 1 (retry_MaxAttempts (req_Retry q)))%Z;
  inv_scope : ∀ id r, ms_runs (w_st w) !! id = Some r →
    ms_byIdempotency (w_st w) !! run_scope r = Some id;
  inv_index : ∀ k id, ms_byIdempotency (w_st w) !! k = Some id →
    ∃ r, ms_runs (w_st w) !! id = Some r ∧ run_scope r = k;
  inv_events : ∀ id, events_ok id (map_get (ms_events (w_st w)) id);
  inv_terminal : ∀ id r, ms_runs (w_st w) !! id = Some r → terminal_phase (run_phase r) = true →
    terminal_event (run_Status r) ∈ ev_Type <$> map_get (ms_events (w_st w)) id;
  inv_nodes : ∀ n nd, ms_nodes (w_st w) !! n = Some nd →
    n ≠ "" ∧ reg_ID (node_Registration nd) = n ∧
    node_Active nd = Z.of_nat (map_count (held_by n) (ms_runs (w_st w)));
  inv_holder : ∀ id r, ms_runs (w_st w) !! id = Some r →
    holds_lease (att_Status (run_Attempt r)) = true →
    att_NodeID (run_Attempt r) ∈ dom (ms_nodes (w_st w));
  inv_known : ∀ id, is_Some (ms_requests (w_st w) !! id) ∨ is_Some (ms_attemptHistory (w_st w) !! id) →
    is_Some (ms_runs (w_st w) !! id);
  inv_interactions : ∀ id i, ms_interactions (w_st w) !! id = Some i →
    is_Some (ms_runs (w_st w) !! ia_RunID i)
}.

Record evolves `{Host} (w w' : World MemoryStorage) : Prop := {
  evo_tick : w_tick w ≤ w_tick w';
  evo_runs : ∀ id r, ms_runs (w_st w) !! id = Some r →
    ∃ r', ms_runs (w_st w') !! id = Some r' ∧ run_change (w_tick w) (w_tick w') r r';
  evo_events : ∀ id, map_get (ms_events (w_st w)) id `prefix_of` map_get (ms_events (w_st w')) id;
  evo_requests : ms_requests (w_st w) ⊆ ms_requests (w_st w');
  evo_index : ms_byIdempotency (w_st w) ⊆ ms_byIdempotency (w_st w');
  evo_nodes : dom (ms_nodes (w_st w)) ⊆ dom (ms_nodes (w_st w'));
  evo_history : ∀ id h, ms_attemptHistory (w_st w) !! id = Some h →
    ∃ h', ms_attemptHistory (w_st w') !! id = Some h' ∧ att_ID <$> h `prefix_of` att_ID <$> h'
}.

(** Nodes keep their registrations. *)
Definition same_nodes (w w' : World MemoryStorage) : Prop :=
  ∀ n, node_Registration <$> ms_nodes (w_st w') !! n = node_Registration <$> ms_nodes (w_st w) !! n.

Section inv.
Context `{HostLaws}.

Lemma run_ok_mono t t' r : t ≤ t' → run_ok t r → run_ok t' r.
Proof.
  intros Ht [? ? ? ? Htok Hid Ha ? ?]. constructor; try done; [|by eapply issued_mono..].
  destruct Htok as [?|Htok]; [by left|right]. by eapply issued_mono.
Qed.

Lemma inv_empty tick : inv (mkWorld tick NewMemoryStorage).
Proof.
  constructor; simpl; try (intros *; rewrite ?lookup_empty; done).
  intros id. rewrite !lookup_empty. intros [[? ?]|[? ?]]; done.
Qed.

Lemma evolves_refl w : evolves w w.
Proof.
  constructor; try done; eauto using run_change_refl.
Qed.

Lemma evolves_trans w1 w2 w3 : evolves w1 w2 → evolves w2 w3 → evolves w1 w3.
Proof.
  intros [T1 R1 E1 Q1 I1 N1 H1] [T2 R2 E2 Q2 I2 N2 H2]. constructor.
  - lia.
  - intros id r Hr. destruct (R1 id r Hr) as (r' & Hr' & C1).
    destruct (R2 id r' Hr') as (r'' & Hr'' & C2). exists r''. split; [done|].
    by eapply run_change_trans.
  - intros id. etrans; [apply E1|apply E2].
  - by etrans.
  - by etrans.
  - by etrans.
  - intros id h Hh. destruct (H1 id h Hh) as (h' & Hh' & P1).
    destruct (H2 id h' Hh') as (h'' & Hh'' & P2). exists h''. split; [done|]. by etrans.
Qed.

(** A change of the run at [id] from [r] to [r']. *)
Lemma inv_change id r r' tys w w' :
  inv w → ms_runs (w_st w) !! id = Some r →
  w_tick w ≤ w_tick w' →
  ms_runs (w_st w') = <[id := r']> (ms_runs (w_st w)) →
  (∀ n nd', ms_nodes (w_st w') !! n = Some nd' →
     ∃ nd, ms_nodes (w_st w) !! n = Some nd ∧ node_Registration nd' = node_Registration nd ∧
           (n ≠ "" → node_Active nd + Z.b2z (held_by n r') = node_Active nd' + Z.b2z (held_by n r))%Z) →
  dom (ms_nodes (w_st w)) ⊆ dom (ms_nodes (w_st w')) →
  log_grows id tys (w_st w) (w_st w') →
  world_eq_but_logs (w_st w) (w_st w') →
  (∀ j, j ≠ id → ms_attemptHistory (w_st w') !! j = ms_attemptHistory (w_st w) !! j) →
  (∀ h, ms_attemptHistory (w_st w) !! id = Some h → history_ok r h →
     ∃ h', ms_attemptHistory (w_st w') !! id = Some h' ∧ history_ok r' h' ∧
           att_ID <$> h `prefix_of` att_ID <$> h') →
  (∀ q, ms_requests (w_st w) !! id = Some q →
     (att_Number (run_Attempt r) ≤ Z.max 1 (retry_MaxAttempts (req_Retry q)) →
      att_Number (run_Attempt r') ≤ Z.max 1 (retry_MaxAttempts (req_Retry q)))%Z) →
  run_change (w_tick w) (w_tick w') r r' →
  run_ok (w_tick w') r' →
  (r' = r ∨ (terminal_phase (run_phase r') = true → terminal_event (run_Status r') ∈ tys)) →
  (holds_lease (att_Status (run_Attempt r')) = true →
   att_NodeID (run_Attempt r') ∈ dom (ms_nodes (w_st w))) →
  inv w' ∧ evolves w w'.
Proof.
  intros Hinv Hr Ht Hruns Hnodes Hdom [Hlo (extra & Hle & Hlt & Hlk)] (Rq & Rb & Ri & _)
    Hho Hhi Hnum Hch Hok Hterm Hhold.
  assert (Hid : run_ID r' = id).
  { assert (run_ID r' = run_ID r) as -> by (pose proof (rc_identity _ _ _ _ Hch) as E; unfold identity in E; congruence).
    by destruct (inv_runs _ Hinv id r Hr). }
  assert (Hsc : run_scope r' = run_scope r).
  { pose proof (rc_identity _ _ _ _ Hch) as E. unfold identity in E. unfold run_scope. congruence. }
  assert (Hinc : ∀ k l, l = map_get (ms_events (w_st w)) k →
            l `prefix_of` map_get (ms_events (w_st w')) k).
  { intros k l ->. destruct (decide (k = id)) as [->|Hk].
    - rewrite Hle. by apply prefix_app_r.
    - unfold map_get. by rewrite Hlo. }
  split; constructor; rewrite ?Hruns, ?Rq, ?Rb, ?Ri; try done.
  - intros k x. destruct (decide (k = id)) as [->|Hk].
    + rewrite lookup_insert_eq. intros [= <-]. done.
    + rewrite lookup_insert_ne by done. intros Hx. destruct (inv_runs _ Hinv k x Hx).
      split; [done|]. by eapply run_ok_mono.
  - intros k x. destruct (decide (k = id)) as [->|Hk].
    + rewrite lookup_insert_eq. intros [= <-]. destruct (inv_history _ Hinv id r Hr) as (h & Hh & Hhok).
      destruct (Hhi h Hh Hhok) as (h' & ? & ? & _). eauto.
    + rewrite lookup_insert_ne by done. intros Hx. rewrite Hho by done. by apply (inv_history _ Hinv).
  - intros k x. destruct (decide (k = id)) as [->|Hk].
    + rewrite lookup_insert_eq. intros [= <-].
      destruct (inv_request _ Hinv id r Hr) as (q & Hq & Hs & Hn). exists q. rewrite Hsc. auto.
    + rewrite lookup_insert_ne by done. apply (inv_request _ Hinv).
  - intros k x. destruct (decide (k = id)) as [->|Hk].
    + rewrite lookup_insert_eq. intros [= <-]. rewrite Hsc. by apply (inv_scope _ Hinv).
    + rewrite lookup_insert_ne by done. apply (inv_scope _ Hinv).
  - intros s k Hk. destruct (inv_index _ Hinv s k Hk) as (x & Hx & Hxs).
    destruct (decide (k = id)) as [->|Hne].
    + exists r'. rewrite lookup_insert_eq. split; [done|]. congruence.
    + exists x. by rewrite lookup_insert_ne.
  - intros k. destruct (decide (k = id)) as [->|Hk].
    + apply Hlk, (inv_events _ Hinv).
    + unfold map_get. rewrite Hlo by done. apply (inv_events _ Hinv).
  - intros k x. destruct (decide (k = id)) as [->|Hk].
    + rewrite lookup_insert_eq. intros [= <-] Htp. rewrite Hle, fmap_app, Hlt. apply elem_of_app.
      destruct Hterm as [->|Hterm]; [left; by apply (inv_terminal _ Hinv)|by right; apply Hterm].
    + rewrite lookup_insert_ne by done. intros Hx Htp.
      assert (map_get (ms_events (w_st w')) k = map_get (ms_events (w_st w)) k) as ->.
      { unfold map_get. by rewrite Hlo. }
      by apply (inv_terminal _ Hinv).
  - intros n nd' Hnd'. destruct (Hnodes n nd' Hnd') as (nd & Hnd & Hreg & Hact).
    destruct (inv_nodes _ Hinv n nd Hnd) as (Hn & Hri & Ha). split_and!; [done|congruence|].
    specialize (Hact Hn). pose proof (map_count_insert (held_by n) _ id r r' Hr) as Hc.
    destruct (held_by n r), (held_by n r'); simpl in *; lia.
  - intros k x. destruct (decide (k = id)) as [->|Hk].
    + rewrite lookup_insert_eq. intros [= <-] Hx. by apply Hdom, Hhold.
    + rewrite lookup_insert_ne by done. intros Hx Hx'. by apply Hdom, (inv_holder _ Hinv k x).
  - intros k Hk. destruct (decide (k = id)) as [->|Hne]; [rewrite lookup_insert_eq; eauto|].
    rewrite lookup_insert_ne by done. rewrite Hho in Hk by done. by apply (inv_known _ Hinv).
  - intros k i Hi. destruct (inv_interactions _ Hinv k i Hi) as [x Hx].
    destruct (decide (ia_RunID i = id)) as [->|Hne].
    + rewrite lookup_insert_eq. eauto.
    + rewrite lookup_insert_ne by done. eauto.
  - intros k x Hx. destruct (decide (k = id)) as [->|Hk].
    + rewrite lookup_insert_eq. exists r'. split; [done|]. by assert (x = r) as -> by congruence.
    + rewrite lookup_insert_ne by done. exists x. split; [done|]. apply run_change_refl.
  - intros k. by apply Hinc.
  - intros k h Hh. destruct (decide (k = id)) as [->|Hk].
    + destruct (inv_history _ Hinv id r Hr) as (h0 & Hh0 & Hhok).
      assert (h0 = h) as -> by congruence. destruct (Hhi h Hh Hhok) as (h' & ? & _ & ?). eauto.
    + rewrite Hho by done. eauto.
Qed.

(** Time passes. *)
Lemma inv_tick t t' s : t ≤ t' → inv (mkWorld t s) → inv (mkWorld t' s).
Proof.
  intros Ht [Hr]. constructor; simpl in *; try done.
  intros id r Hi. destruct (Hr id r Hi). split; [done|]. by eapply run_ok_mono.
Qed.

Lemma evolves_tick t t' s : t ≤ t' → evolves (mkWorld t s) (mkWorld t' s).
Proof. intros Ht. constructor; simpl; try done; eauto using run_change_refl. Qed.

(** The slots of nodes follow the run: a release gives back the slot of the
    node that held it; a queued attempt has no node. *)
Definition slot_ok (r r' : Run) (rel : option string) : Prop :=
  match rel with
  | None => ∀ m, held_by m r' = held_by m r
  | Some n => n = att_NodeID (run_Attempt r) ∧ (∀ m, held_by m r' = false) ∧
              (holds_lease (att_Status (run_Attempt r)) = true ∨ n = "")
  end.

Lemma release_slot w id r r' n m nd' :
  inv w → ms_runs (w_st w) !! id = Some r → slot_ok r r' (Some n) →
  release n (ms_nodes (w_st w)) !! m = Some nd' →
  ∃ nd, ms_nodes (w_st w) !! m = Some nd ∧ node_Registration nd' = node_Registration nd ∧
    (node_Active nd + Z.b2z (held_by m r') = node_Active nd' + Z.b2z (held_by m r))%Z.
Proof.
  intros Hinv Hr (-> & Hr' & Hheld) Hm. rewrite Hr'. unfold release in Hm.
  set (n := att_NodeID (run_Attempt r)) in *.
  assert (Hother : m ≠ n → held_by m r = false).
  { intros Hmn. unfold held_by. fold n. rewrite (bool_decide_eq_false_2 (n = m)) by done.
    apply andb_false_r. }
  destruct (ms_nodes (w_st w) !! n) as [nd|] eqn:Hnd.
  - destruct (inv_nodes _ Hinv n nd Hnd) as (Hn & Hreg & Ha).
    destruct Hheld as [Hheld|]; [|done].
    assert (Hhr : held_by n r = true).
    { unfold held_by. by rewrite Hheld, bool_decide_eq_true_2. }
    pose proof (map_count_pos _ _ _ _ Hr Hhr).
    rewrite (proj2 (Z.ltb_lt 0 (node_Active nd))) in Hm by lia.
    destruct (decide (m = n)) as [->|Hmn].
    + rewrite lookup_insert_eq in Hm. injection Hm as <-. exists nd. rewrite Hhr. simpl.
      split_and!; [done|done|lia].
    + rewrite lookup_insert_ne in Hm by done. exists nd'. rewrite (Hother Hmn). simpl. auto with lia.
  - destruct (decide (m = n)) as [->|Hmn]; [congruence|].
    exists nd'. rewrite (Hother Hmn). simpl. auto with lia.
Qed.

Lemma release_dom n nodes : dom (release n nodes) = dom nodes.
Proof.
  unfold release. destruct (nodes !! n) as [nd|] eqn:Hn; [|done]. destruct (0 <? node_Active nd)%Z; [|done].
  rewrite dom_insert_L. assert (n ∈ dom nodes) by (apply elem_of_dom; eauto). set_solver.
Qed.

Lemma release_same n nodes m :
  node_Registration <$> release n nodes !! m = node_Registration <$> nodes !! m.
Proof.
  unfold release. destruct (nodes !! n) as [nd|] eqn:Hn; [|done]. destruct (0 <? node_Active nd)%Z; [|done].
  destruct (decide (m = n)) as [->|?]; [by rewrite lookup_insert_eq, Hn|by rewrite lookup_insert_ne].
Qed.

(** An effect that follows the lifecycle keeps the invariant. *)
Lemma effect_inv id r r' rel tys w w' :
  inv w → ms_runs (w_st w) !! id = Some r → effect id r' rel tys w w' →
  run_change (w_tick w) (w_tick w') r r' → run_ok (w_tick w') r' →
  att_ID (run_Attempt r') = att_ID (run_Attempt r) →
  att_Number (run_Attempt r') = att_Number (run_Attempt r) →
  slot_ok r r' rel →
  (r' = r ∨ (terminal_phase (run_phase r') = true → terminal_event (run_Status r') ∈ tys)) →
  inv w' ∧ evolves w w' ∧ same_nodes w w'.
Proof.
  intros Hinv Hr [Ht Hru Hn Hl Hh He] Hch Hok Hai Han Hslot Hterm.
  cut ((inv w' ∧ evolves w w') ∧ same_nodes w w'); [tauto|]. split.
  - eapply (inv_change id r r'); try done.
    + intros n nd' Hnd'. rewrite Hn in Hnd'. destruct rel as [n0|].
      * destruct (release_slot w id r r' n0 n nd' Hinv Hr Hslot Hnd') as (nd & ? & ? & ?).
        exists nd. auto.
      * exists nd'. rewrite Hslot. auto with lia.
    + rewrite Hn. destruct rel; [by rewrite release_dom|done].
    + intros j _. by rewrite Hh.
    + intros h Hhi [Hlen (a & Hla & Hida)]. exists h. rewrite Hh.
      split_and!; [done| |done]. split; [by rewrite Han|]. exists a. by rewrite Hai.
    + intros q Hq. by rewrite Han.
    + intros Hx. destruct rel as [n|].
      * destruct Hslot as (_ & Hno & _). specialize (Hno (att_NodeID (run_Attempt r'))).
        unfold held_by in Hno. by rewrite Hx, bool_decide_eq_true_2 in Hno.
      * specialize (Hslot (att_NodeID (run_Attempt r'))). unfold held_by in Hslot.
        rewrite Hx, bool_decide_eq_true_2 in Hslot by done.
        symmetry in Hslot. apply andb_true_iff in Hslot as [Hx' Hnn%bool_decide_eq_true].
        rewrite <- Hnn. by apply (inv_holder _ Hinv id r).
  - intros n. rewrite Hn. destruct rel; [apply release_same|done].
Qed.

Lemma same_nodes_trans w1 w2 w3 : same_nodes w1 w2 → same_nodes w2 w3 → same_nodes w1 w3.
Proof. intros H1 H2 n. by rewrite H2. Qed.
End inv.

(** [stays w w']: the invariant is kept and time went forward from [w] to [w']. *)
Definition stays `{Host} (w w' : World MemoryStorage) : Prop :=
  inv w' ∧ evolves w w' ∧ same_nodes w w'.

Section stays.
Context `{HostLaws}.

Lemma stays_refl w : inv w → stays w w.
Proof. intros Hi. split_and!; [done|apply evolves_refl|done]. Qed.

Lemma stays_trans w1 w2 w3 : stays w1 w2 → stays w2 w3 → stays w1 w3.
Proof.
  intros (I1 & E1 & N1) (I2 & E2 & N2).
  split_and!; [done|by eapply evolves_trans|by eapply same_nodes_trans].
Qed.

Lemma stays_tick w k : inv w → stays w (mkWorld (w_tick w + k) (w_st w)).
Proof.
  intros Hi. destruct w as [t s]. split_and!; [eapply inv_tick; [|done]; simpl; lia| |done].
  apply evolves_tick. simpl. lia.
Qed.

Lemma stays_inv w w' : stays w w' → inv w'.
Proof. by intros []. Qed.
End stays.
#[export] Hint Resolve stays_refl stays_inv stays_tick : relay.
