(* ===== verification/MemoryOps.v ===== *)
(** * MemoryOps: every method of the in-memory storage keeps the invariant

    For each method, [stays]: from a well-formed world it leads to a
    well-formed world, with every run further along its lifecycle. *)

From S2P Require Import Prelude Json Types Matching Event Lifecycle Memory MemoryEffect MemoryInv.

(** Case analysis on the fields of a run, the assumptions on its statuses substituted. *)
Ltac run_cases r :=
  let a := fresh "a" in
  destruct r as [? ? ? ? ? ? ? ? ? a ? ? ? ? ? ? ? ? ?]; destruct a;
  unfold run_phase, holds_lease, held_by in *; simpl in *; simplify_eq/=.

Ltac solve_change :=
  constructor; simpl; auto; try done;
  try (apply rtc_once; unfold run_phase; simpl; constructor);
  try (intros [? ?]; simplify_eq/=; done).

Lemma holds_lease_spec s : holds_lease s = true ↔ s = AttemptLeased ∨ s = AttemptRunning.
Proof. unfold holds_lease. rewrite orb_true_iff, !bool_decide_eq_true. done. Qed.

Lemma lease_matches_spec r a l :
  lease_matches r a l = true ↔
  att_ID (run_Attempt r) = a ∧ l ≠ "" ∧ att_LeaseToken (run_Attempt r) = l.
Proof.
  unfold lease_matches. rewrite !andb_true_iff, negb_true_iff, !bool_decide_eq_true,
    bool_decide_eq_false. tauto.
Qed.

Section changes.
Context `{HostLaws}.

Lemma finalized_change lo hi r now :
  run_Status r = RunCancelling → holds_lease (att_Status (run_Attempt r)) = true →
  run_change lo hi r (finalized r now).
Proof. intros Hs [Ha|Ha]%holds_lease_spec; run_cases r; solve_change. Qed.

Lemma finalized_ok t r now :
  run_ok t r → run_Status r = RunCancelling → run_ok t (finalized r now).
Proof. intros [? ? ? ? ? ? ? Hres Hc] Hs. run_cases r. constructor; simpl; naive_solver. Qed.

Lemma cancelled_change lo hi r reason now :
  run_phase r = (RunQueued, AttemptQueued) → run_CancelRequestedAt r = None →
  run_change lo hi r (finalized (cancel_marked r reason now) now).
Proof. intros [=] ?. run_cases r. solve_change. Qed.

Lemma cancelled_ok t r reason now :
  run_ok t r → run_Status r = RunQueued → run_ok t (finalized (cancel_marked r reason now) now).
Proof. intros [? ? ? ? ? ? ? Hres Hc] Hs. run_cases r. constructor; simpl; naive_solver. Qed.

Lemma cancelling_change lo hi r reason now :
  run_phase r = (RunQueued, AttemptLeased) ∨ run_phase r = (RunRunning, AttemptRunning) →
  run_CancelRequestedAt r = None → run_change lo hi r (cancelling r reason now).
Proof. intros [[=]|[=]] ?; run_cases r; solve_change. Qed.

Lemma cancelling_ok t r reason now :
  run_ok t r → run_phase r = (RunQueued, AttemptLeased) ∨ run_phase r = (RunRunning, AttemptRunning) →
  run_ok t (cancelling r reason now).
Proof.
  intros [? Hh ? ? ? ? ? Hres Hc] [[=]|[=]]; run_cases r; constructor; simpl; naive_solver.
Qed.

Lemma requeued_change lo hi r :
  run_ok lo r → att_Status (run_Attempt r) = AttemptLeased → run_change lo hi r (requeued r).
Proof.
  intros [Hst ? ? ? ? ? ? Hres Hc] Ha. run_cases r.
  match goal with s : RunStatus |- _ => destruct s; try done end; solve_change.
Qed.

Lemma requeued_ok t r : run_ok t r → att_Status (run_Attempt r) = AttemptLeased → run_ok t (requeued r).
Proof.
  intros [Hst ? ? ? ? ? ? Hres Hc] Ha. run_cases r.
  match goal with s : RunStatus |- _ => destruct s; try done end; constructor; simpl; naive_solver.
Qed.
End changes.

Section helpers.
Context `{HostLaws} `{Encoder} `{Semver}.

Lemma wp_finalize_stays w r now :
  inv w → ms_runs (w_st w) !! run_ID r = Some r → run_Status r = RunCancelling →
  holds_lease (att_Status (run_Attempt r)) = true →
  wp (finalizeCancellation r now)
    (λ res w', res = Ok (finalized r now) ∧ stays w w' ∧
               ms_runs (w_st w') !! run_ID r = Some (finalized r now)) w.
Proof.
  intros Hinv Hr Hs Ha. apply wp_finalizeCancellation; [done|congruence|].
  intros w' E. split_and!; [done| |by eapply effect_lookup].
  destruct (inv_runs _ Hinv _ _ Hr) as [_ Hok].
  eapply (effect_inv (run_ID r) r); try done.
  - by apply finalized_change.
  - apply finalized_ok; [|done]. eapply run_ok_mono; [by apply eff_tick in E|done].
  - simpl. split_and!; [done|by intros|by left].
  - right. intros _. set_solver.
Qed.

Lemma wp_requeue_stays w r now :
  inv w → ms_runs (w_st w) !! run_ID r = Some r →
  wp (requeueExpired r now)
    (λ res w', stays w w' ∧ ∃ r', res = Ok r' ∧ ms_runs (w_st w') !! run_ID r = Some r') w.
Proof.
  intros Hinv Hr. apply wp_requeueExpired; [done| |].
  - intros Ha _ w' E. destruct (inv_runs _ Hinv _ _ Hr) as [_ Hok].
    split; [|by eauto with relay]. eapply (effect_inv (run_ID r) r); try done.
    + by apply requeued_change, Ha; eapply run_ok_mono.
    + apply requeued_ok; [|done]. eapply run_ok_mono; [by apply eff_tick in E|done].
    + simpl. rewrite Ha. split_and!; [done|by intros|by left].
    + right. destruct Hok as [Hst]. unfold run_phase, requeued in *. simpl. rewrite Ha in Hst.
      by destruct (run_Status r).
  - eauto with relay.
Qed.

Lemma wp_cancel_stays w r c now :
  inv w → ms_runs (w_st w) !! run_ID r = Some r →
  wp (cancelRunLocked r c now)
    (λ res w', stays w w' ∧ ∃ r', res = Ok r' ∧ ms_runs (w_st w') !! run_ID r = Some r' ∧
                                  run_ID r' = run_ID r) w.
Proof.
  intros Hinv Hr. destruct (inv_runs _ Hinv _ _ Hr) as [_ Hok].
  assert (Hph : terminalRun (run_Status r) = false → run_CancelRequestedAt r = None →
            run_phase r = (RunQueued, AttemptQueued) ∨ run_phase r = (RunQueued, AttemptLeased) ∨
            run_phase r = (RunRunning, AttemptRunning)).
  { intros Ht Hc. destruct Hok as [Hst ? ? ? ? ? ? ? Hcc]. unfold run_phase in *.
    rewrite Hc in Hcc. destruct (run_Status r), (att_Status (run_Attempt r)); try done; auto;
      exfalso; destruct Hcc as [_ Hcc]; destruct Hcc as [? ?]; auto; done. }
  apply wp_cancelRunLocked; [done|..].
  - intros w' _ ->. eauto 6 with relay.
  - intros w' Ht Hc Ha E. assert (run_phase r = (RunQueued, AttemptQueued)) as Hp.
    { destruct (Hph Ht Hc) as [?|[?|?]]; [done|unfold run_phase in *; congruence..]. }
    split; [|by eauto with relay]. eapply (effect_inv (run_ID r) r); try done.
    + by apply cancelled_change.
    + apply cancelled_ok; [|by injection Hp]. eapply run_ok_mono; [by apply eff_tick in E|done].
    + simpl. destruct Hok as [_ _ _ Hq _ _ _ _ _]. rewrite Ha. split_and!; [done|by intros|right; auto].
    + right. intros _. set_solver.
  - intros w' Ht Hc Ha E.
    assert (run_phase r = (RunQueued, AttemptLeased) ∨ run_phase r = (RunRunning, AttemptRunning)) as Hp.
    { destruct (Hph Ht Hc) as [?|?]; [unfold run_phase in *; congruence|done]. }
    split; [|by eauto with relay]. eapply (effect_inv (run_ID r) r); try done.
    + by apply cancelling_change.
    + apply cancelling_ok; [|done]. eapply run_ok_mono; [by apply eff_tick in E|done].
    + by right.
Qed.
End helpers.

(** Writes outside the runs: artifacts, capability calls, interactions. *)
Definition core_eq (s s' : MemoryStorage) : Prop :=
  ms_nodes s' = ms_nodes s ∧ ms_runs s' = ms_runs s ∧ ms_requests s' = ms_requests s ∧
  ms_events s' = ms_events s ∧ ms_byIdempotency s' = ms_byIdempotency s ∧
  ms_attemptHistory s' = ms_attemptHistory s.

Ltac use L := eapply wp_mono; [apply L; eauto with relay|].

Section methods.
Context `{HostLaws} `{Encoder} `{Semver}.

Definition keeps {A} (m : MM A) : Prop := ∀ w, inv w → wp m (λ _ w', stays w w') w.

Lemma stays_other w w' :
  inv w → w_tick w ≤ w_tick w' → core_eq (w_st w) (w_st w') →
  (∀ id i, ms_interactions (w_st w') !! id = Some i → is_Some (ms_runs (w_st w) !! ia_RunID i)) →
  stays w w'.
Proof.
  intros Hinv Ht (Hn & Hr & Hq & He & Hb & Hh) Hi. split_and!.
  - destruct Hinv as [Ir]. constructor; rewrite ?Hn, ?Hr, ?Hq, ?He, ?Hb, ?Hh; try done.
    intros id r Hir. destruct (Ir id r Hir). split; [done|]. by eapply run_ok_mono.
  - constructor; rewrite ?Hn, ?Hr, ?Hq, ?He, ?Hb, ?Hh; try done; eauto using run_change_refl.
  - intros n. by rewrite Hn.
Qed.

(** Appending to the log of a run that is not settled by it. *)
Lemma stays_event w w' r tys :
  inv w → ms_runs (w_st w) !! run_ID r = Some r → effect (run_ID r) r None tys w w' → stays w w'.
Proof.
  intros Hinv Hr E. destruct (inv_runs _ Hinv _ _ Hr) as [_ Hok].
  eapply (effect_inv (run_ID r) r); try done.
  - apply run_change_refl.
  - eapply run_ok_mono; [by apply eff_tick in E|done].
  - by left.
Qed.

Lemma wp_event_stays w0 w r ty v :
  stays w0 w → ms_runs (w_st w) !! run_ID r = Some r →
  wp (appendEvent r ty v) (λ _ w', stays w0 w') w.
Proof.
  intros Hs Hr. apply wp_appendEvent; [done|]. intros w' E.
  eapply stays_trans; [done|]. by eapply stays_event; eauto with relay.
Qed.

Lemma wp_authorize w id a l :
  inv w →
  wp (authorize id a l)
    (λ res w', stays w w' ∧
       match res with
       | Ok r => ms_runs (w_st w') !! run_ID r = Some r ∧ run_ID r = id ∧
                 lease_matches r a l = true ∧ w_st w' = w_st w ∧
                 is_Some (att_LeaseExpiresAt (run_Attempt r))
       | Err e => e = sentinel ErrNotFound ∨ e = sentinel ErrInvalidLease
       end) w.
Proof.
  intros Hinv. unfold authorize, find_run. wp_step. apply wp_gets.
  destruct (ms_runs (w_st w) !! id) as [r|] eqn:Hr.
  2:{ apply wp_raise. eauto with relay. }
  destruct (inv_runs _ Hinv _ _ Hr) as [Hid _].
  wp_step; [apply wp_raise; eauto with relay|]. apply negb_false_iff in E.
  destruct (att_LeaseExpiresAt (run_Attempt r)) as [t|] eqn:Ht.
  - wp_step. wp_step. set (w1 := mkWorld _ _).
    assert (S1 : stays w w1) by eauto with relay.
    wp_step.
    + wp_step. wp_step. wp_step.
      assert (S2 : stays w1 (mkWorld (w_tick w1 + 1) (w_st w1))) by eauto with relay.
      use wp_requeue_stays; [by subst|]. intros res w2 (S3 & r' & -> & _). apply wp_raise.
      split; [|by right]. by eapply stays_trans, stays_trans; [exact S1|exact S2|].
    + apply wp_ret. subst id. eauto 10.
  - wp_step. wp_step. wp_step. set (w1 := mkWorld _ _).
    assert (S1 : stays w w1) by eauto with relay.
    use wp_requeue_stays; [by subst|]. intros res w2 (S3 & r' & -> & _). apply wp_raise.
    split; [|by right]. by eapply stays_trans.
Qed.

(** After an authorization: the store is as before, the caller's run is at hand. *)
Lemma wp_authorized {A} w id a l (k : Run → MM A) :
  inv w →
  (∀ r w', stays w w' → ms_runs (w_st w') !! run_ID r = Some r → run_ID r = id →
     lease_matches r a l = true → is_Some (att_LeaseExpiresAt (run_Attempt r)) →
     wp (k r) (λ _ w'', stays w w'') w') →
  wp (authorize id a l ≫= k) (λ _ w', stays w w') w.
Proof.
  intros Hinv Hk. apply wp_bind. use wp_authorize. intros [r|e] w' [Hs Hres]; [|done].
  destruct Hres as (? & ? & ? & ? & ?). by apply Hk.
Qed.

Lemma Heartbeat_keeps n : keeps (Heartbeat n).
Proof.
  intros w Hinv. unfold Heartbeat, find_node. wp_step. apply wp_gets.
  destruct (ms_nodes (w_st w) !! n) as [nd|] eqn:Hn; [|apply wp_raise; eauto with relay].
  wp_step. wp_step. wp_step. apply wp_modify, wp_ret.
  split_and!.
  - destruct (stays_inv _ _ (stays_tick w 1 Hinv)) as [? ? ? ? ? ? ? In Id ? ?].
    constructor; simpl in *; try done.
    + intros m nd'. destruct (decide (m = n)) as [->|?].
      * rewrite lookup_insert_eq. intros [= <-]. exact (In n nd Hn).
      * rewrite lookup_insert_ne by done. apply In.
    + intros id r Hr Hh. specialize (Id id r Hr Hh). set_solver.
  - constructor; simpl; try done; eauto using run_change_refl; [lia|set_solver].
  - intros m. simpl. destruct (decide (m = n)) as [->|?].
    + by rewrite lookup_insert_eq, Hn.
    + by rewrite lookup_insert_ne.
Qed.

(** A registration keeps the load of a known node; a new node starts idle.
    The service refuses an empty node ID before it reaches the storage. *)
Lemma RegisterNode_inv w reg :
  inv w → reg_ID reg ≠ "" → wp (RegisterNode reg) (λ res w', inv w' ∧ evolves w w') w.
Proof.
  intros Hinv Hid. unfold RegisterNode, find_node. wp_step. wp_step. wp_step. wp_step. wp_step.
  apply wp_modify, wp_ret. simpl.
  assert (Hcount : ms_nodes (w_st w) !! reg_ID reg = None →
            map_count (held_by (reg_ID reg)) (ms_runs (w_st w)) = 0).
  { intros Hn. rewrite (map_count_ext _ (λ _, false)); [by apply map_count_none|].
    intros k v Hk. destruct (held_by (reg_ID reg) v) eqn:Hb; [|done].
    apply andb_true_iff in Hb as [Hb He%bool_decide_eq_true].
    apply (inv_holder _ Hinv k v Hk), elem_of_dom in Hb as [? Hb]. congruence. }
  split.
  - destruct (stays_inv _ _ (stays_tick w 1 Hinv)) as [? ? ? ? ? ? ? In Id ? ?].
    constructor; simpl in *; try done.
    + intros m nd'. destruct (decide (m = reg_ID reg)) as [->|?].
      * rewrite lookup_insert_eq. intros [= <-].
        destruct (ms_nodes (w_st w) !! reg_ID reg) as [nd|] eqn:Hn; simpl.
        -- by destruct (In _ _ Hn) as (_ & _ & ?).
        -- by rewrite (Hcount eq_refl).
      * rewrite lookup_insert_ne by done. apply In.
    + intros id r Hr Hh. specialize (Id id r Hr Hh). set_solver.
  - constructor; simpl; try done; eauto using run_change_refl; [lia|set_solver].
Qed.

(** ** Submission *)

(** The store with a new run, before its first events. *)
Definition submitted (request : Request) (run : Run) (s : MemoryStorage) : MemoryStorage :=
  s <| ms_runs := <[run_ID run := run]> (ms_runs s) |>
    <| ms_attemptHistory := <[run_ID run := [run_Attempt run]]> (ms_attemptHistory s) |>
    <| ms_requests := <[run_ID run := request]> (ms_requests s) |>
    <| ms_byIdempotency := <[request_scope request := run_ID run]> (ms_byIdempotency s) |>.

Lemma new_run_ok t request now :
  run_ok (t + 2) (new_run request ("run" +:+ "_" +:+ rand_at t) ("attempt" +:+ "_" +:+ rand_at (t + 1)) now).
Proof.
  constructor; simpl; try done; auto.
  - exists t. split; [lia|done].
  - exists (t + 1). split; [lia|done].
  - split; [by intros [? ?]|intros [[=]|[=]]].
Qed.

Lemma fresh_run w id r t :
  inv w → ms_runs (w_st w) !! id = Some r → w_tick w ≤ t → id ≠ "run" +:+ "_" +:+ rand_at t.
Proof.
  intros Hinv Hr Ht. destruct (inv_runs _ Hinv id r Hr) as [<- Hok].
  eapply (issued_disjoint "run" 0 (w_tick w) (t + 1)); [exact (ok_id _ _ Hok)|]. exists t. split; [lia|done].
Qed.

Lemma inv_submitted w request now :
  inv w → (∀ k, ms_byIdempotency (w_st w) !! request_scope request = Some k → k = "") →
  let t := w_tick w + 1 in
  let run := new_run request ("run" +:+ "_" +:+ rand_at t) ("attempt" +:+ "_" +:+ rand_at (t + 1)) now in
  stays w (mkWorld (t + 2) (submitted request run (w_st w))).
Proof.
  intros Hinv Hnone t run. set (id := "run" +:+ "_" +:+ rand_at t).
  assert (Hidn : run_ID run = id) by done.
  assert (Hsc : run_scope run = request_scope request) by done.
  assert (Hfresh : ms_runs (w_st w) !! id = None).
  { destruct (ms_runs (w_st w) !! id) as [r|] eqn:Hr; [|done]. exfalso.
    eapply (fresh_run w id r t); try done; lia. }
  assert (Hempty : ∀ k r, ms_runs (w_st w) !! k = Some r → run_scope r ≠ request_scope request).
  { intros k r Hr He. pose proof (inv_scope _ Hinv k r Hr) as Hs. rewrite He in Hs.
    rewrite (Hnone k Hs) in Hr. destruct (inv_runs _ Hinv "" r Hr) as [Hid Hok].
    by apply (issued_not_empty "run" 0 (w_tick w) (run_ID r)); [done|exact (ok_id _ _ Hok)|]. }
  assert (Hsub : ∀ k r, ms_runs (w_st w) !! k = Some r → k ≠ id) by (intros k r Hr ->; congruence).
  split_and!.
  - destruct Hinv as [Ir Ih Iq Is Ii Ie It In Id Ik Ia]. constructor; simpl; try done.
    + intros k r. destruct (decide (k = id)) as [->|?].
      * rewrite lookup_insert_eq. intros [= <-]. split; [done|]. apply new_run_ok.
      * rewrite lookup_insert_ne by done. intros Hr. destruct (Ir k r Hr). split; [done|].
        eapply run_ok_mono; [|done]. lia.
    + intros k r. destruct (decide (k = id)) as [->|?].
      * rewrite !lookup_insert_eq. intros [= <-]. eexists. split; [done|]. split; [done|]. by eexists.
      * rewrite !lookup_insert_ne by done. apply Ih.
    + intros k r. destruct (decide (k = id)) as [->|?].
      * rewrite !lookup_insert_eq. intros [= <-]. eexists. split_and!; [done|done|]. simpl. lia.
      * rewrite !lookup_insert_ne by done. apply Iq.
    + intros k r. destruct (decide (k = id)) as [->|?].
      * rewrite lookup_insert_eq. intros [= <-]. apply lookup_insert_eq.
      * rewrite lookup_insert_ne by done. intros Hr. rewrite lookup_insert_ne; [by apply Is|].
        intros He. by eapply Hempty.
    + intros k j. destruct (decide (k = request_scope request)) as [->|?].
      * rewrite lookup_insert_eq. intros [= <-]. exists run. by rewrite lookup_insert_eq.
      * rewrite lookup_insert_ne by done. intros Hk. destruct (Ii k j Hk) as (r & Hr & ?).
        exists r. rewrite lookup_insert_ne; [done|]. intros He. by destruct (Hsub j r Hr).
    + intros k r. destruct (decide (k = id)) as [->|?].
      * rewrite lookup_insert_eq. by intros [= <-].
      * rewrite lookup_insert_ne by done. apply It.
    + intros n nd Hn. destruct (In n nd Hn) as (? & ? & Ha). split_and!; [done..|].
      rewrite map_count_insert_None by done. simpl. lia.
    + intros k r. destruct (decide (k = id)) as [->|?].
      * rewrite lookup_insert_eq. by intros [= <-].
      * rewrite lookup_insert_ne by done. apply Id.
    + intros k. destruct (decide (k = id)) as [->|?]; [rewrite !lookup_insert_eq; eauto|].
      rewrite !lookup_insert_ne by done. apply Ik.
    + intros k i Hi. destruct (Ia k i Hi) as [x Hx]. rewrite lookup_insert_ne by (by eapply not_eq_sym, Hsub).
      eauto.
  - constructor; simpl; try done.
    + lia.
    + intros k r Hr. exists r. rewrite lookup_insert_ne by (by eapply not_eq_sym, Hsub).
      split; [done|apply run_change_refl].
    + apply insert_subseteq. destruct (ms_requests (w_st w) !! id) eqn:Hq; [|done].
      destruct (inv_known _ Hinv id) as [? ?]; [rewrite Hq; eauto|]. congruence.
    + apply insert_subseteq. destruct (ms_byIdempotency (w_st w) !! request_scope request) as [k|] eqn:Hk; [|done].
      destruct (inv_index _ Hinv _ _ Hk) as (x & Hx & Hxs). by destruct (Hempty k x Hx).
    + intros k h Hh. destruct (inv_known _ Hinv k) as [x Hx]; [rewrite Hh; eauto|].
      exists h. rewrite lookup_insert_ne by (by eapply not_eq_sym, Hsub). done.
  - done.
Qed.
End methods.
