(* ===== verification/MemoryRuns.v ===== *)
(** * MemoryRuns: submission, claiming and the life of a lease keep the invariant

    The methods of the in-memory storage that hand a run to a node and take it
    back: [Submit], [Claim], [Renew], [Start], [Complete], [Fail], [CancelRun],
    [AcknowledgeCancellation].  Each leads from a well-formed world to a
    well-formed world; [Submit] and [Claim] also say what they return. *)

From S2P Require Import Prelude Json Types Matching Event Lifecycle Memory MemoryEffect MemoryInv MemoryOps.

Section stays_rules.
Context `{HostLaws} `{Encoder} `{Semver}.

Lemma stays_next w0 w k : stays w0 w → stays w0 (mkWorld (w_tick w + k) (w_st w)).
Proof. intros Hs. eapply stays_trans; [done|]. eauto with relay. Qed.

Lemma stays_later w0 w w' :
  stays w0 w → w_st w' = w_st w → w_tick w ≤ w_tick w' → stays w0 w'.
Proof.
  destruct w as [t s], w' as [t' s']. simpl. intros Hs -> Ht.
  replace t' with (t + (t' - t)) by lia. exact (stays_next _ _ (t' - t) Hs).
Qed.

(** Continue after a step that kept the invariant. *)
Lemma wp_after {A} (m : MM A) (P : Res A → World MemoryStorage → Prop)
    (Q : Res A → World MemoryStorage → Prop) w0 w :
  stays w0 w → wp m (λ res w', stays w w' ∧ P res w') w →
  (∀ res w', stays w0 w' → P res w' → Q res w') → wp m Q w.
Proof.
  intros Hs Hm HQ. eapply wp_mono; [exact Hm|]. intros res w' [Hw HP].
  apply HQ; [by eapply stays_trans|done].
Qed.

Lemma wp_after_finalize (Q : Res Run → World MemoryStorage → Prop) w0 w r now :
  stays w0 w → ms_runs (w_st w) !! run_ID r = Some r → run_Status r = RunCancelling →
  holds_lease (att_Status (run_Attempt r)) = true →
  (∀ w', stays w0 w' → Q (Ok (finalized r now)) w') → wp (finalizeCancellation r now) Q w.
Proof.
  intros Hs Hr Hc Hh HQ. eapply wp_mono; [by apply wp_finalize_stays; eauto with relay|].
  intros res w' (-> & S & _). apply HQ. by eapply stays_trans.
Qed.

(** A transition of one run, from its effect. *)
Lemma stays_effect w0 w w' r r' rel tys :
  stays w0 w → ms_runs (w_st w) !! run_ID r = Some r → effect (run_ID r) r' rel tys w w' →
  run_change (w_tick w) (w_tick w') r r' → run_ok (w_tick w) r' →
  att_ID (run_Attempt r') = att_ID (run_Attempt r) →
  att_Number (run_Attempt r') = att_Number (run_Attempt r) →
  slot_ok r r' rel →
  (r' = r ∨ (terminal_phase (run_phase r') = true → terminal_event (run_Status r') ∈ tys)) →
  stays w0 w'.
Proof.
  intros Hs Hr E Hch Hok Hid Hn Hslot Ht. eapply stays_trans; [done|].
  eapply (effect_inv (run_ID r) r); eauto with relay. eapply run_ok_mono; [by apply eff_tick in E|done].
Qed.

Lemma stays_run w w' id r :
  stays w w' → ms_runs (w_st w) !! id = Some r →
  ∃ r', ms_runs (w_st w') !! id = Some r' ∧ run_change (w_tick w) (w_tick w') r r'.
Proof. intros (_ & Ev & _). by apply (evo_runs _ _ Ev). Qed.

Lemma inv_run_ok w r : inv w → ms_runs (w_st w) !! run_ID r = Some r → run_ok (w_tick w) r.
Proof. intros Hi Hr. by destruct (inv_runs _ Hi _ _ Hr). Qed.
End stays_rules.

#[export] Hint Resolve stays_next inv_run_ok : relay.

Ltac clock_step := wp_step; wp_step.

Section submit.
Context `{HostLaws} `{Encoder} `{Semver}.

Lemma wp_Submit w q :
  inv w →
  wp (Submit q)
    (λ res w', stays w w' ∧ ∃ r, res = Ok r ∧ ms_runs (w_st w') !! run_ID r = Some r ∧
                                 run_scope r = request_scope q) w.
Proof.
  intros Hinv. unfold Submit. wp_step. apply wp_gets. unfold map_get.
  destruct (ms_byIdempotency (w_st w) !! request_scope q) as [k|] eqn:Hk; simpl.
  - destruct (inv_index _ Hinv _ _ Hk) as (r & Hr & Hsc).
    destruct (inv_runs _ Hinv _ _ Hr) as [Hid Hok].
    assert (Hne : k ≠ "").
    { rewrite <- Hid. eapply issued_not_empty; [|exact (ok_id _ _ Hok)]. done. }
    rewrite (bool_decide_eq_false_2 _ Hne). simpl. unfold run_at, find_run. wp_step. apply wp_gets.
    rewrite Hr. apply wp_ret. rewrite <- Hid in Hr. eauto 6 with relay.
  - unfold newControlPlaneID. change (zero : string) with "". simpl.
    do 6 wp_step. unfold put_run.
    wp_step. apply wp_modify. wp_step. apply wp_modify. wp_step. apply wp_modify.
    wp_step. apply wp_modify. simpl.
    pose proof (inv_submitted w q (now_at (w_tick w)) Hinv ltac:(congruence)) as Hs. simpl in Hs.
    replace (w_tick w + 1 + 2) with (w_tick w + 1 + 1 + 1) in Hs by lia.
    set (run := new_run _ _ _ _) in *. set (w1 := mkWorld _ _) in *.
    assert (Hr : ms_runs (w_st w1) !! run_ID run = Some run) by apply lookup_insert_eq.
    fold run. change (wp (appendEvent run "run.created" (json_of_strings [("status", RunStatus_text (run_Status run))]);;
                 appendEvent run "attempt.queued" (AnyJson (JObj [("number", JNum "1")]));; mret run)
               (λ res w', stays w w' ∧ ∃ r, res = Ok r ∧ ms_runs (w_st w') !! run_ID r = Some r ∧
                                 run_scope r = request_scope q) w1).
    clearbody w1.
    wp_step. apply wp_appendEvent; [done|]. intros w2 E2.
    assert (S2 : stays w w2) by (eapply stays_trans, stays_event; eauto with relay).
    wp_step. apply wp_appendEvent; [eauto with relay|]. intros w3 E3. apply wp_ret.
    split; [|by eauto with relay]. eapply stays_trans, stays_event; eauto with relay.
Qed.
End submit.

Section claim.
Context `{HostLaws} `{Encoder} `{Semver}.

Lemma wp_run_at w id r (Q : Res Run → World MemoryStorage → Prop) :
  ms_runs (w_st w) !! id = Some r → Q (Ok r) w → wp (run_at id) Q w.
Proof.
  intros Hr HQ. unfold run_at, find_run. wp_step. apply wp_gets. rewrite Hr. by apply wp_ret.
Qed.

Definition present (w : World MemoryStorage) (ids : list string) : Prop :=
  Forall (λ id, is_Some (ms_runs (w_st w) !! id)) ids.

Lemma present_stays w w' ids : stays w w' → present w ids → present w' ids.
Proof.
  intros Hs Hp. eapply Forall_impl; [exact Hp|]. intros id [r Hr].
  destruct (stays_run _ _ _ _ Hs Hr) as (r' & ? & _). eauto.
Qed.

(** [range] over the runs visits runs only. *)
Lemma wp_range_runs w (Q : Res (list string) → World MemoryStorage → Prop) :
  inv w →
  (∀ ids, stays w (mkWorld (w_tick w + 1) (w_st w)) →
     present (mkWorld (w_tick w + 1) (w_st w)) ids → ids ≡ₚ elements (dom (ms_runs (w_st w))) →
     Q (Ok ids) (mkWorld (w_tick w + 1) (w_st w))) →
  wp (range_map ms_runs) Q w.
Proof.
  intros Hinv HQ. unfold range_map. wp_step. apply wp_gets, wp_host, HQ.
  - eauto with relay.
  - apply Forall_forall. intros id. rewrite range_perm, elem_of_elements. apply elem_of_dom.
  - apply range_perm.
Qed.

(** The deadline of a run that the sweep or the reconciler finds passed. *)
Lemma wp_maybe_cancel w (b : bool) r c now :
  inv w → ms_runs (w_st w) !! run_ID r = Some r →
  wp (if b then cancelRunLocked r c now else mret r)
    (λ res w', stays w w' ∧ ∃ r', res = Ok r' ∧ ms_runs (w_st w') !! run_ID r = Some r' ∧
                                  run_ID r' = run_ID r) w.
Proof.
  intros Hinv Hr. wp_step; [by apply wp_cancel_stays|]. apply wp_ret. eauto 6 with relay.
Qed.

(** The sweep gives slots back and takes none. *)
Definition calm (w w' : World MemoryStorage) : Prop :=
  stays w w' ∧
  ∀ n nd nd', ms_nodes (w_st w) !! n = Some nd → ms_nodes (w_st w') !! n = Some nd' →
              (node_Active nd' ≤ node_Active nd)%Z.

Lemma calm_refl w : inv w → calm w w.
Proof. intros Hi. split; [eauto with relay|]. intros n nd nd' Hn Hn'. by simplify_eq. Qed.

Lemma calm_trans w1 w2 w3 : calm w1 w2 → calm w2 w3 → calm w1 w3.
Proof.
  intros [S1 L1] [S2 L2]. split; [by eapply stays_trans|]. intros n nd nd' Hn Hn'.
  destruct S1 as (_ & _ & N1). specialize (N1 n). rewrite Hn in N1.
  destruct (ms_nodes (w_st w2) !! n) as [nd2|] eqn:Hn2; [|done].
  specialize (L1 n nd nd2 Hn Hn2). specialize (L2 n nd2 nd' Hn2 Hn'). lia.
Qed.

Lemma effect_calm id r rel tys w w' : effect id r rel tys w w' → stays w w' → calm w w'.
Proof.
  intros E Hs. split; [done|]. intros n nd nd' Hn Hn'. rewrite (eff_nodes _ _ _ _ _ _ E) in Hn'.
  destruct rel as [m|]; [|by simplify_eq]. unfold release in Hn'.
  destruct (ms_nodes (w_st w) !! m) as [x|] eqn:Hm; [|by simplify_eq].
  destruct (0 <? node_Active x)%Z eqn:Hx; [|by simplify_eq].
  destruct (decide (n = m)) as [->|Hne].
  - rewrite lookup_insert_eq in Hn'. simplify_eq/=. lia.
  - rewrite lookup_insert_ne in Hn' by done. by simplify_eq.
Qed.

Lemma wp_conj {A} (m : MM A) P Q w : wp m P w → wp m Q w → wp m (λ res w', P res w' ∧ Q res w') w.
Proof. done. Qed.

Lemma wp_maybe_cancel_calm w (b : bool) r c now :
  inv w → ms_runs (w_st w) !! run_ID r = Some r →
  wp (if b then cancelRunLocked r c now else mret r)
    (λ _ w', stays w w' → calm w w') w.
Proof.
  intros Hinv Hr. wp_step; [|apply wp_ret; intros; by apply calm_refl].
  apply wp_cancelRunLocked; [done|..].
  - intros w' _ -> _. by apply calm_refl.
  - intros w' _ _ _ F Hs. by eapply effect_calm.
  - intros w' _ _ _ F Hs. by eapply effect_calm.
Qed.

Lemma wp_claim_sweep w now id :
  inv w → is_Some (ms_runs (w_st w) !! id) →
  wp (claim_sweep now id) (λ res w', res = Ok () ∧ calm w w') w.
Proof.
  intros Hinv [r Hr]. unfold claim_sweep. wp_step. eapply wp_run_at; [done|].
  destruct (inv_runs _ Hinv id r Hr) as [<- _].
  wp_step. eapply wp_mono; [eapply wp_conj; [by apply wp_maybe_cancel|by apply wp_maybe_cancel_calm]|].
  intros res w1 [(S1 & r1 & -> & Hr1 & Hid) C1]. specialize (C1 S1). rewrite <- Hid in Hr1. wp_step.
  - rewrite !andb_true_iff in E. destruct E as [[Ec%bool_decide_eq_true Eh] _].
    wp_step. eapply wp_mono; [eapply wp_conj; [by apply wp_finalize_stays; eauto with relay|]|].
    { apply (wp_finalizeCancellation _ _ (λ _ w', stays w1 w' → calm w1 w')); [done|congruence|].
      intros w' F Hs. by eapply effect_calm. }
    intros ? w2 ((-> & S2 & _) & C2). apply wp_ret. split; [done|]. by eapply calm_trans, C2.
  - wp_step. eapply wp_mono; [eapply wp_conj; [by apply wp_requeue_stays; eauto with relay|]|].
    { apply (wp_requeueExpired _ _ (λ _ w', stays w1 w' → calm w1 w')); [done| |].
      - intros _ _ w' F Hs. by eapply effect_calm.
      - intros Hs. apply calm_refl. eauto with relay. }
    intros ? w2 ((S2 & r2 & -> & _) & C2). apply wp_ret. split; [done|]. by eapply calm_trans, C2.
Qed.

Lemma wp_sweep_all w now ids :
  inv w → present w ids →
  wp (for_each (claim_sweep now) ids) (λ res w', res = Ok () ∧ calm w w') w.
Proof.
  intros Hinv Hp. eapply wp_mono.
  - apply (wp_for_each _ _ (λ ids w', calm w w' ∧ present w' ids)); [eauto using calm_refl|].
    intros id ids' w1 [C1 Hp1]. apply Forall_cons in Hp1 as [Hid Hp1].
    eapply wp_mono; [apply wp_claim_sweep; [apply C1|done]|].
    intros res w2 [-> C2]. split; [done|]. split; [by eapply calm_trans|].
    eapply present_stays; [apply C2|done].
  - by intros res w' (-> & ? & _).
Qed.

Definition leased (r : Run) (node token : string) (expires : Z) : Run :=
  r <| run_Attempt := (run_Attempt r) <| att_Status := AttemptLeased |> <| att_NodeID := node |>
                        <| att_LeaseToken := token |> <| att_LeaseExpiresAt := Some expires |> |>.

Lemma leased_change lo hi r n tok e :
  run_phase r = (RunQueued, AttemptQueued) → issued "lease" lo hi tok →
  run_change lo hi r (leased r n tok e).
Proof. intros [=] Ht. run_cases r. solve_change. Qed.

Lemma leased_ok t r n tok e :
  run_ok t r → run_phase r = (RunQueued, AttemptQueued) → n ≠ "" → issued "lease" 0 t tok →
  run_ok t (leased r n tok e).
Proof.
  intros [? ? ? ? ? ? ? Hres Hc] [=] Hn Ht.
  assert (tok ≠ "") by (by eapply issued_not_empty; [|exact Ht]).
  run_cases r. constructor; simpl; naive_solver.
Qed.

(** The write of a grant: the run is leased to the node and counted. *)
Definition granted (n : string) (nd : Node) (r' : Run) (s : MemoryStorage) : MemoryStorage :=
  s <| ms_nodes := <[n := nd <| node_Active := (node_Active nd + 1)%Z |>]> (ms_nodes s) |>
    <| ms_runs := <[run_ID r' := r']> (ms_runs s) |>.

Lemma granted_stays w r n nd e :
  inv w → ms_runs (w_st w) !! run_ID r = Some r → run_phase r = (RunQueued, AttemptQueued) →
  ms_nodes (w_st w) !! n = Some nd →
  let r' := leased r n ("lease" +:+ "_" +:+ rand_at (w_tick w)) e in
  stays w (mkWorld (w_tick w + 1) (granted n nd r' (w_st w))).
Proof.
  intros Hinv Hr Hp Hn r'. destruct (inv_nodes _ Hinv n nd Hn) as (Hne & _).
  pose proof (inv_run_ok _ _ Hinv Hr) as Hok.
  assert (Htok : issued "lease" (w_tick w) (w_tick w + 1) (att_LeaseToken (run_Attempt r'))).
  { exists (w_tick w). split; [lia|done]. }
  assert (Hq : ∀ m, m ≠ "" → held_by m r = false).
  { intros m _. unfold held_by. injection Hp as _ ->. done. }
  cut ((inv (mkWorld (w_tick w + 1) (granted n nd r' (w_st w))) ∧
        evolves w (mkWorld (w_tick w + 1) (granted n nd r' (w_st w)))) ∧
       same_nodes w (mkWorld (w_tick w + 1) (granted n nd r' (w_st w)))); [unfold stays; tauto|].
  split; [|intros m; simpl; destruct (decide (m = n)) as [->|?];
           [by rewrite lookup_insert_eq, Hn|by rewrite lookup_insert_ne]].
  eapply (inv_change (run_ID r) r r' []); try done; simpl.
  - lia.
  - intros m nd'. destruct (decide (m = n)) as [->|Hm].
    + rewrite lookup_insert_eq. intros [= <-]. exists nd. split_and!; [done..|]. intros Hm.
      rewrite Hq by done. unfold held_by. simpl. rewrite bool_decide_eq_true_2 by done. simpl. lia.
    + rewrite lookup_insert_ne by done. intros Hnd'. exists nd'. split_and!; [done..|]. intros Hm'.
      rewrite Hq by done. unfold held_by. simpl. rewrite bool_decide_eq_false_2 by done. simpl. lia.
  - set_solver.
  - by apply log_grows_refl.
  - intros h Hh Hhok. by exists h.
  - by apply leased_change.
  - apply leased_ok; [eapply run_ok_mono; [|done]; lia|done..|]. eapply issued_mono; [exact Htok|lia|lia].
  - right. intros Ht. injection Hp as Hp1 Hp2. unfold terminal_phase in Ht. simpl in Ht. by rewrite Hp1 in Ht.
  - intros _. by apply elem_of_dom.
Qed.

(** What a claim promises of the assignment it returns. *)
Record claimed (w w' : World MemoryStorage) (n : string) (ttl now : Z) (a : Assignment) : Prop := {
  cl_run : ∃ r, ms_runs (w_st w') !! asg_RunID a = Some r ∧
    run_phase r = (RunQueued, AttemptLeased) ∧ run_CancelRequestedAt r = None ∧
    att_NodeID (run_Attempt r) = n ∧ att_ID (run_Attempt r) = asg_AttemptID a ∧
    att_LeaseToken (run_Attempt r) = asg_LeaseToken a ∧
    att_LeaseExpiresAt (run_Attempt r) = Some (asg_LeaseExpiresAt a);
  cl_expires : asg_LeaseExpiresAt a = (now + ttl)%Z;
  cl_fresh : issued "lease" (w_tick w) (w_tick w') (asg_LeaseToken a);
  cl_request : ms_requests (w_st w') !! asg_RunID a = Some (asg_Request a);
  cl_match : ∃ nd, ms_nodes (w_st w') !! n = Some nd ∧ nodeMatches nd (asg_Request a) = true ∧
                   (node_Active nd ≤ reg_Capacity (node_Registration nd))%Z
}.

Lemma wp_grant w n ttl now r q nd :
  inv w → ms_runs (w_st w) !! run_ID r = Some r → run_phase r = (RunQueued, AttemptQueued) →
  ms_requests (w_st w) !! run_ID r = Some q → ms_nodes (w_st w) !! n = Some nd →
  nodeMatches nd q = true → (node_Active nd < reg_Capacity (node_Registration nd))%Z →
  wp (grant_lease n ttl now r q)
    (λ res w', stays w w' ∧ ∃ a, res = Ok a ∧ claimed w w' n ttl now a) w.
Proof.
  intros Hinv Hr Hp Hq Hn Hm Hcap. unfold grant_lease, newControlPlaneID, find_node, put_node, put_run.
  clock_step. wp_step. apply wp_gets. simpl. rewrite Hn. wp_step. apply wp_modify. wp_step. apply wp_modify.
  pose proof (granted_stays w r n nd (now + ttl)%Z Hinv Hr Hp Hn) as S1. cbv zeta in S1.
  set (r' := leased r n _ _) in *. simpl w_tick. simpl w_st.
  set (w1 := mkWorld (w_tick w + 1) (granted n nd r' (w_st w))) in *.
  assert (Hr1 : ms_runs (w_st w1) !! run_ID r' = Some r') by apply lookup_insert_eq.
  assert (Hn1 : ms_nodes (w_st w1) !! n = Some (nd <| node_Active := (node_Active nd + 1)%Z |>))
    by apply lookup_insert_eq.
  assert (Hq1 : ms_requests (w_st w1) !! run_ID r' = Some q) by exact Hq.
  change (wp (appendEvent r' "attempt.leased"
            (AnyJson (JObj [("lease_expires_at", json_time (now + ttl)); ("node_id", JStr n)]));;
          mret (mkAssignment (run_ID r') (att_ID (run_Attempt r')) (att_LeaseToken (run_Attempt r')) (now + ttl)%Z q))
          (λ res w', stays w w' ∧ ∃ a, res = Ok a ∧ claimed w w' n ttl now a) w1).
  assert (Ht1 : w_tick w1 = w_tick w + 1) by done. clearbody w1.
  wp_step. apply wp_appendEvent; [done|]. intros w2 E2.
  assert (S2 : stays w1 w2) by (eapply stays_event; eauto with relay). apply wp_ret.
  split; [by eapply stays_trans|]. eexists. split; [done|].
  pose proof (eff_tick _ _ _ _ _ _ E2). pose proof (inv_run_ok _ _ Hinv Hr) as Hok.
  injection Hp as Hp1 Hp2. constructor; simpl.
  - exists r'. split_and!; [by eauto with relay| | |done..].
    + unfold run_phase. simpl. by rewrite Hp1.
    + destruct Hok as [? ? ? ? ? ? ? ? Hc]. destruct (run_CancelRequestedAt r) eqn:Hx; [|done].
      rewrite Hp1 in Hc. destruct Hc as [Hc _]. destruct Hc as [?|?]; [by eexists|done..].
  - done.
  - exists (w_tick w). split; [lia|done].
  - destruct S2 as (_ & Ev & _). eapply lookup_weaken; [done|apply (evo_requests _ _ Ev)].
  - eexists. rewrite (eff_nodes _ _ _ _ _ _ E2). split_and!; [done|done|]. simpl. lia.
Qed.

Lemma claimable_spec now r :
  claimable now r = true ↔
  run_phase r = (RunQueued, AttemptQueued) ∧
  match att_AvailableAt (run_Attempt r) with Some t => (t ≤ now)%Z | None => True end.
Proof.
  unfold claimable, run_phase, before. rewrite !andb_true_iff, !bool_decide_eq_true.
  destruct (att_AvailableAt (run_Attempt r)); rewrite ?negb_true_iff, ?Z.ltb_ge;
    (split; [by intros [[-> ->] ?]|by intros [[= -> ->] ?]]).
Qed.

Lemma wp_claim_scan w n ttl now nd ids :
  inv w → present w ids → ms_nodes (w_st w) !! n = Some nd →
  (node_Active nd < reg_Capacity (node_Registration nd))%Z →
  wp (claim_scan n ttl now ids)
    (λ res w', stays w w' ∧
       match res with
       | Ok a => claimed w w' n ttl now a
       | Err e => e = sentinel ErrNoAssignment ∧ w' = w ∧
           ∀ id r q, id ∈ ids → ms_runs (w_st w) !! id = Some r →
             ms_requests (w_st w) !! id = Some q → claimable now r && nodeMatches nd q = false
       end) w.
Proof.
  intros Hinv Hp Hn Hcap. induction ids as [|id ids IH]; simpl.
  { apply wp_raise. split_and!; [apply stays_refl; done|done|done|]. intros id r q Hid. by apply elem_of_nil in Hid. }
  apply Forall_cons in Hp as [[r Hr] Hp]. wp_step. eapply wp_run_at; [done|].
  destruct (inv_runs _ Hinv id r Hr) as [<- _].
  destruct (inv_request _ Hinv _ r Hr) as (q & Hq & _). unfold find_node.
  wp_step. apply wp_gets. wp_step. apply wp_gets. rewrite Hn. unfold map_get. rewrite Hq. simpl. wp_step.
  - eapply wp_mono; [by apply IH|]. intros [a|e] w'; [done|]. intros (Hs & -> & -> & Hno).
    split_and!; [done..|]. intros id' r' q' [->|Hid]%elem_of_cons Hr' Hq'; [|by eapply Hno].
    simplify_eq. apply orb_true_iff in E as [E|E]; apply negb_true_iff in E; rewrite E; [done|].
    apply andb_false_r.
  - apply orb_false_iff in E as [Ec%negb_false_iff%claimable_spec Em%negb_false_iff].
    destruct Ec as [Ec _]. eapply wp_mono; [by eapply wp_grant|].
    by intros res w' (? & a & -> & ?).
Qed.

(** No run waits that the node could run. *)
Definition nothing_for (s : MemoryStorage) (now : Z) (n : string) : Prop :=
  ∀ id r q nd, ms_runs s !! id = Some r → ms_requests s !! id = Some q → ms_nodes s !! n = Some nd →
    claimable now r && nodeMatches nd q = false.

Lemma wp_Claim w n ttl :
  inv w →
  wp (Claim n ttl)
    (λ res w', stays w w' ∧
       match res with
       | Ok a => ∃ now, claimed w w' n ttl now a
       | Err e => (e = sentinel ErrNotFound ∧ ms_nodes (w_st w) !! n = None) ∨
           e = sentinel ErrNoAssignment ∧ ∃ nd, ms_nodes (w_st w) !! n = Some nd ∧
           ((reg_Capacity (node_Registration nd) ≤ node_Active nd)%Z ∨
            nothing_for (w_st w') (now_at (w_tick w)) n)
       end) w.
Proof.
  intros Hinv. unfold Claim, find_node. wp_step. apply wp_gets.
  destruct (ms_nodes (w_st w) !! n) as [nd|] eqn:Hn; [|apply wp_raise; eauto with relay].
  wp_step; [apply wp_raise; apply Z.leb_le in E; eauto 8 with relay|]. apply Z.leb_gt in E.
  clock_step. set (now := now_at (w_tick w)).
  assert (S0 : stays w (mkWorld (w_tick w + 1) (w_st w))) by eauto with relay.
  set (w0 := mkWorld (w_tick w + 1) (w_st w)) in *.
  wp_step. apply wp_range_runs; [eauto with relay|]. intros ids S1 Hp1 _.
  wp_step. eapply wp_mono; [apply wp_sweep_all; eauto with relay|]. intros ? w2 (-> & S2 & L2).
  wp_step. apply wp_range_runs; [eauto with relay|]. intros ids' S3 Hp3 Hids.
  set (w3 := mkWorld (w_tick w2 + 1) (w_st w2)) in *.
  assert (S : stays w w3) by (repeat (eapply stays_trans; [done|]); by apply stays_refl, (stays_inv w2)).
  assert (∃ nd3, ms_nodes (w_st w3) !! n = Some nd3 ∧
            (node_Active nd3 < reg_Capacity (node_Registration nd3))%Z) as (nd3 & Hn3 & Hc3).
  { destruct S as (_ & _ & HN). specialize (HN n). rewrite Hn in HN.
    destruct (ms_nodes (w_st w3) !! n) as [nd3|] eqn:Hn3; [|done]. injection HN as HN.
    exists nd3. split; [done|]. rewrite HN. specialize (L2 n nd nd3 Hn Hn3). lia. }
  eapply wp_mono; [eapply wp_claim_scan; eauto with relay|].
  intros [a|e] w4 [S4 Hres]; (split; [by eapply stays_trans|]).
  - exists now. destruct Hres as [? ? Hf ? ?]. constructor; try done.
    eapply issued_mono; [exact Hf| |done]. destruct S as (_ & Ev & _). apply (evo_tick _ _ Ev).
  - right. destruct Hres as (-> & -> & Hno). split; [done|]. exists nd. split; [done|]. right.
    intros id r q nd' Hr Hq Hnd'. assert (nd' = nd3) as -> by congruence. eapply Hno; try done.
    rewrite Hids, elem_of_elements. by apply elem_of_dom.
Qed.
End claim.

(** ** The life of a lease *)
Section lease.
Context `{HostLaws} `{Encoder} `{Semver}.

Definition renewed (r : Run) (expires : Z) : Run :=
  r <| run_Attempt := (run_Attempt r) <| att_LeaseExpiresAt := Some expires |> |>.
Definition started (r : Run) (now : Z) : Run :=
  r <| run_Status := RunRunning |> <| run_StartedAt := Some now |>
    <| run_Attempt := (run_Attempt r) <| att_Status := AttemptRunning |>
                                      <| att_StartedAt := Some now |> |>.
Definition succeeded (r : Run) (res : Result) (now : Z) : Run :=
  r <| run_Status := RunSucceeded |> <| run_Result := Some res |> <| run_CompletedAt := Some now |>
    <| run_Attempt := (run_Attempt r) <| att_Status := AttemptSucceeded |>
                                      <| att_CompletedAt := Some now |> |>.
Definition failed (r : Run) (cause : string) (now : Z) : Run :=
  r <| run_Status := RunFailed |> <| run_Error := cause |> <| run_CompletedAt := Some now |>
    <| run_Attempt := (run_Attempt r) <| att_Status := AttemptFailed |>
                                      <| att_CompletedAt := Some now |> |>.

Lemma renewed_change lo hi r e :
  holds_lease (att_Status (run_Attempt r)) = true → coherent (run_phase r) = true →
  run_change lo hi r (renewed r e).
Proof.
  intros Hs Hc. constructor; simpl; auto; [constructor|].
  unfold terminal_phase, run_phase in *. simpl. intros Ht. exfalso.
  apply holds_lease_spec in Hs as [Ha|Ha]; rewrite Ha in Hc; by destruct (run_Status r).
Qed.
Lemma renewed_ok t r e :
  holds_lease (att_Status (run_Attempt r)) = true → run_ok t r → run_ok t (renewed r e).
Proof.
  intros Hs [? Hh Hq ? ? ? ? Hres Hc]. constructor; try done.
  - intros _. destruct (Hh Hs) as (? & ? & ?). by split_and!.
  - simpl. intros Ha. by rewrite Ha in Hs.
Qed.

Lemma started_change lo hi r now :
  run_phase r = (RunQueued, AttemptLeased) → run_change lo hi r (started r now).
Proof. intros [=]. run_cases r. solve_change. Qed.
Lemma started_ok t r now :
  run_ok t r → run_phase r = (RunQueued, AttemptLeased) → run_ok t (started r now).
Proof. intros [? ? ? ? ? ? ? Hres Hc] [=]. run_cases r. constructor; simpl; naive_solver. Qed.

Lemma succeeded_change lo hi r res now :
  run_phase r = (RunRunning, AttemptRunning) → run_change lo hi r (succeeded r res now).
Proof. intros [=]. run_cases r. solve_change. Qed.
Lemma succeeded_ok t r res now :
  run_ok t r → run_phase r = (RunRunning, AttemptRunning) → run_ok t (succeeded r res now).
Proof. intros [? ? ? ? ? ? ? Hres Hc] [=]. run_cases r. constructor; simpl; naive_solver. Qed.

Lemma failed_change lo hi r c now :
  run_phase r = (RunQueued, AttemptLeased) ∨ run_phase r = (RunRunning, AttemptRunning) →
  run_change lo hi r (failed r c now).
Proof. intros [[=]|[=]]; run_cases r; solve_change. Qed.
Lemma failed_ok t r c now :
  run_ok t r → run_phase r = (RunQueued, AttemptLeased) ∨ run_phase r = (RunRunning, AttemptRunning) →
  run_ok t (failed r c now).
Proof.
  intros [? ? ? ? ? ? ? Hres Hc] [[=]|[=]]; run_cases r; constructor; simpl; naive_solver.
Qed.

(** A coherent run whose attempt is held and that is not being cancelled. *)
Lemma held_phase t r :
  run_ok t r → holds_lease (att_Status (run_Attempt r)) = true → run_Status r ≠ RunCancelling →
  run_phase r = (RunQueued, AttemptLeased) ∨ run_phase r = (RunRunning, AttemptRunning).
Proof.
  intros [Hc _ _ _ _ _ _ _ _] Hs Hne. unfold run_phase in *.
  apply holds_lease_spec in Hs as [E|E]; rewrite E in *; destruct (run_Status r); try done; auto.
Qed.

Lemma Renew_keeps a ttl : keeps (Renew a ttl).
Proof.
  intros w Hinv. unfold Renew. apply wp_authorized; [done|]. intros r w1 S1 Hr Hid _ _.
  wp_step; [apply wp_raise; done|]. apply negb_false_iff in E. clock_step.
  destruct (att_LeaseExpiresAt (run_Attempt r)) as [old|] eqn:Ho; [|apply wp_raise; eauto with relay].
  wp_step; [apply wp_raise; eauto with relay|]. wp_step. apply (wp_put_run (renewed r _)).
  intros w2 E2 _. apply wp_ret. set (w1' := mkWorld _ _) in *.
  pose proof (inv_run_ok _ _ (stays_inv _ _ (stays_next _ _ 1 S1)) Hr) as Hok.
  eapply (stays_effect w w1' w2 r); eauto with relay; try done.
  - apply renewed_change; [done|apply Hok].
  - by apply renewed_ok.
  - right. pose proof (ok_status _ _ Hok) as Hc. unfold terminal_phase, run_phase in *. simpl in *.
    apply holds_lease_spec in E as [Ha|Ha]; rewrite Ha in Hc; by destruct (run_Status r).
Qed.

Lemma Start_keeps a : keeps (Start a).
Proof.
  intros w Hinv. unfold Start. apply wp_authorized; [done|]. intros r w1 S1 Hr Hid _ [e He].
  wp_step; [by apply wp_raise|]. apply negb_false_iff, bool_decide_eq_true in E.
  pose proof (inv_run_ok _ _ (stays_inv _ _ S1) Hr) as Hok. wp_step.
  - apply bool_decide_eq_true in E0. clock_step. wp_step.
    apply (wp_after_finalize _ w); [by apply stays_next|done|done|by rewrite E|].
    intros w2 S2. by apply wp_raise.
  - apply bool_decide_eq_false in E0. rewrite He. wp_step. clock_step. wp_step. wp_step.
    + clock_step. wp_step.
      eapply wp_after; [by do 2 apply stays_next|apply wp_requeue_stays; eauto with relay|].
      intros res w2 S2 (r' & -> & _). by apply wp_raise.
    + clock_step. simpl. set (w2 := mkWorld _ _). set (now := now_at _).
      assert (S2 : stays w w2) by (eapply stays_later; [exact S1|done|simpl; lia]).
      wp_step. apply (wp_put_run (started r now)). intros w3 E3 _.
      wp_step. apply (wp_appendEvent (started r now)); [eauto with relay|]. intros w4 E4.
      apply (wp_appendEvent (started r now)); [eauto with relay|]. intros w5 E5.
      change (run_ID (started r now)) with (run_ID r) in *. do 2 eff_compose.
      assert (Hp : run_phase r = (RunQueued, AttemptLeased)).
      { destruct (held_phase _ r Hok) as [?|Hx]; [by rewrite E|done..|]. injection Hx. congruence. }
      eapply (stays_effect w w2 w5 r); try done.
      * by apply started_change.
      * apply started_ok; [|done]. eapply inv_run_ok; eauto with relay.
      * intros m. unfold held_by. simpl. by rewrite E.
      * by right.
Qed.

(** Both terminal reports find the run and check the lease first. *)
Lemma wp_lease_over w r (Q : Res bool → World MemoryStorage → Prop) :
  (∀ b w', stays w w' → w_st w' = w_st w → Q (Ok b) w') → inv w → wp (lease_over r) Q w.
Proof.
  intros HQ Hinv. unfold lease_over. destruct (att_LeaseExpiresAt (run_Attempt r)).
  - clock_step. apply wp_ret, HQ; eauto with relay.
  - apply wp_ret, HQ; eauto with relay.
Qed.

(** Give back the slot after the run has left the node: the run is written
    first, so the count and the load move together. *)
Lemma terminal_slot r r' :
  holds_lease (att_Status (run_Attempt r)) = true →
  holds_lease (att_Status (run_Attempt r')) = false →
  slot_ok r r' (Some (att_NodeID (run_Attempt r))).
Proof. intros Hs Hs'. split_and!; [done| |by left]. intros m. unfold held_by. by rewrite Hs'. Qed.

(** The writes shared by [Complete] and [Fail]. *)
Lemma wp_settle w0 w r r' ty1 v1 ty2 v2 :
  stays w0 w → ms_runs (w_st w) !! run_ID r = Some r →
  run_change (w_tick w) (w_tick w) r r' → run_ok (w_tick w) r' →
  run_ID r' = run_ID r → att_ID (run_Attempt r') = att_ID (run_Attempt r) →
  att_Number (run_Attempt r') = att_Number (run_Attempt r) →
  att_NodeID (run_Attempt r') = att_NodeID (run_Attempt r) →
  holds_lease (att_Status (run_Attempt r)) = true →
  holds_lease (att_Status (run_Attempt r')) = false →
  ty2 = terminal_event (run_Status r') →
  wp (put_run r' ;; releaseNode (att_NodeID (run_Attempt r')) ;;
      appendEvent r' ty1 v1 ;; appendEvent r' ty2 v2) (λ res w', res = Ok () ∧ stays w0 w' ∧
      effect (run_ID r) r' (Some (att_NodeID (run_Attempt r))) [ty1; ty2] w w') w.
Proof.
  intros Hs Hr Hch Hok Hid Ha Hn Hno Hh Hh' ->.
  wp_step. apply (wp_put_run r'). intros w1 E1 _.
  wp_step. apply (wp_release_effect (run_ID r') r'); [eauto with relay|]. intros w2 E2 _.
  wp_step. apply (wp_appendEvent r'); [eauto with relay|]. intros w3 E3.
  apply (wp_appendEvent r'); [eauto with relay|]. intros w4 E4.
  rewrite Hid, Hno in *. do 3 eff_compose. split_and!; [done| |done].
  assert (w_tick w ≤ w_tick w4) by by eapply eff_tick.
  eapply (stays_effect w0 w w4 r); try done.
  - eapply (run_change_trans _ (w_tick w)); [done|done|exact Hch|apply run_change_refl].
  - by apply terminal_slot.
  - right. intros _. set_solver.
Qed.

Lemma Complete_keeps a res : keeps (Complete a res).
Proof.
  intros w Hinv. unfold Complete, find_run. wp_step. apply wp_gets.
  destruct (ms_runs (w_st w) !! asg_RunID a) as [r|] eqn:Hr; [|apply wp_raise; eauto with relay].
  destruct (inv_runs _ Hinv _ _ Hr) as [Hid Hok]. rewrite <- Hid in Hr.
  wp_step; [apply wp_raise; eauto with relay|].
  wp_step; [repeat case_match; first [apply wp_ret|apply wp_raise]; eauto with relay|].
  wp_step. apply wp_lease_over; [|done]. intros b w1 S1 Hst.
  wp_step; [by apply wp_raise|]. wp_step; [by apply wp_raise|].
  apply negb_false_iff, bool_decide_eq_true in E2.
  wp_step; [by apply wp_raise|]. apply bool_decide_eq_false in E3. clock_step.
  set (now := now_at _). set (w2 := mkWorld _ _).
  assert (S2 : stays w w2) by (eapply stays_later; [exact S1|done|simpl; lia]).
  assert (Hr2 : ms_runs (w_st w2) !! run_ID r = Some r) by (simpl; by rewrite Hst).
  assert (Hp : run_phase r = (RunRunning, AttemptRunning)).
  { destruct (held_phase _ r Hok) as [Hx|?]; [by rewrite E2|done| |done]. injection Hx. congruence. }
  eapply wp_mono; [eapply (wp_settle w w2 r (succeeded r res now)); try done|].
  - by apply succeeded_change.
  - apply succeeded_ok; [|done]. eauto with relay.
  - by rewrite E2.
  - by intros ? ? (_ & ? & _).
Qed.

Lemma Fail_keeps a cause : keeps (Fail a cause).
Proof.
  intros w Hinv. unfold Fail, find_run. wp_step. apply wp_gets.
  destruct (ms_runs (w_st w) !! asg_RunID a) as [r|] eqn:Hr; [|apply wp_raise; eauto with relay].
  destruct (inv_runs _ Hinv _ _ Hr) as [Hid Hok]. rewrite <- Hid in Hr.
  wp_step; [apply wp_raise; eauto with relay|].
  wp_step; [case_match; first [apply wp_ret|apply wp_raise]; eauto with relay|].
  wp_step. apply wp_lease_over; [|done]. intros b w1 S1 Hst.
  wp_step; [by apply wp_raise|]. wp_step; [by apply wp_raise|]. apply negb_false_iff in E2. wp_step.
  - apply bool_decide_eq_true in E3. clock_step. wp_step.
    apply (wp_after_finalize _ w); [by apply stays_next|simpl; by rewrite Hst|done..|].
    intros w2 S2. by apply wp_raise.
  - apply bool_decide_eq_false in E3. clock_step. set (now := now_at _). set (w2 := mkWorld _ _).
    assert (S2 : stays w w2) by (eapply stays_later; [exact S1|done|simpl; lia]).
    assert (Hr2 : ms_runs (w_st w2) !! run_ID r = Some r) by (simpl; by rewrite Hst).
    assert (Hp := held_phase _ r Hok E2 E3).
    eapply wp_mono; [eapply (wp_settle w w2 r (failed r cause now)); try done|].
    + by apply failed_change.
    + apply failed_ok; [|done]. eauto with relay.
    + by intros ? ? (_ & ? & _).
Qed.

Lemma CancelRun_keeps id c : keeps (CancelRun id c).
Proof.
  intros w Hinv. unfold CancelRun, find_run. wp_step. apply wp_gets.
  destruct (ms_runs (w_st w) !! id) as [r|] eqn:Hr; [|apply wp_raise; eauto with relay].
  destruct (inv_runs _ Hinv _ _ Hr) as [<- Hok]. clock_step.
  eapply wp_after; [by apply stays_next, stays_refl|apply wp_cancel_stays; eauto with relay|].
  by intros.
Qed.

Lemma AcknowledgeCancellation_keeps a : keeps (AcknowledgeCancellation a).
Proof.
  intros w Hinv. unfold AcknowledgeCancellation. apply wp_authorized; [done|].
  intros r w1 S1 Hr Hid Hl [e He].
  wp_step; [by apply wp_ret|]. wp_step; [by apply wp_raise|].
  apply negb_false_iff, bool_decide_eq_true in E0. clock_step.
  pose proof (inv_run_ok _ _ (stays_inv _ _ S1) Hr) as Hok.
  wp_step. apply (wp_after_finalize _ w); [by apply stays_next|done|done| |].
  - destruct Hok as [Hc _ Hq]. unfold run_phase in Hc. rewrite E0 in Hc.
    destruct (att_Status (run_Attempt r)); try done.
    destruct (Hq eq_refl) as [_ Hx]. congruence.
  - intros w2 S2. by apply wp_ret.
Qed.
End lease.
