(* ===== verification/MemoryRecover.v ===== *)
(** * MemoryRecover: recovery, events, artifacts, capability calls, interactions

    [Reconcile] recovers expired attempts and deadlines; it never fails on a
    well-formed store and stops at its limit.  The remaining methods write
    beside the runs or only append to logs; each keeps the invariant. *)

From S2P Require Import Prelude Json Types Matching Event Lifecycle Memory MemoryEffect MemoryInv MemoryOps MemoryRuns.

Section reconcile.
Context `{HostLaws} `{Encoder} `{Semver}.

Definition lost (r : Run) (now : Z) : Run :=
  r <| run_Attempt := (run_Attempt r) <| att_Status := AttemptLost |>
                                      <| att_CompletedAt := Some now |> |>.
Definition lost_failed (r : Run) (now : Z) : Run :=
  (lost r now) <| run_Status := RunFailed |> <| run_Error := "attempt lease expired" |>
               <| run_CompletedAt := Some now |>.
Definition retried (r : Run) (id : string) (next : Z) : Run :=
  r <| run_Attempt := mkAttempt id (att_Number (run_Attempt r) + 1) "" "" None
                                       (Some next) AttemptQueued None None |>
    <| run_Status := RunQueued |> <| run_Error := "" |>
    <| run_StartedAt := None |> <| run_CompletedAt := None |>.

Lemma lost_failed_change lo hi r now :
  run_phase r = (RunRunning, AttemptRunning) → run_change lo hi r (lost_failed r now).
Proof. intros [=]. run_cases r. solve_change. Qed.
Lemma lost_failed_ok t r now :
  run_ok t r → run_phase r = (RunRunning, AttemptRunning) → run_ok t (lost_failed r now).
Proof. intros [? ? ? ? ? ? ? Hres Hc] [=]. run_cases r. constructor; simpl; naive_solver. Qed.

Lemma retried_change lo hi r now id next :
  run_phase r = (RunRunning, AttemptRunning) → issued "attempt" lo hi id →
  run_change lo hi r (retried (lost r now) id next).
Proof. intros [=] Hi. run_cases r. solve_change. right. split; [done|lia]. Qed.
Lemma retried_ok t r now id next :
  run_ok t r → run_phase r = (RunRunning, AttemptRunning) → issued "attempt" 0 t id →
  run_ok t (retried (lost r now) id next).
Proof. intros [? ? ? ? ? ? ? Hres Hc] [=] Hi. run_cases r. constructor; simpl; naive_solver. Qed.

Lemma retried_history r r' a h :
  history_ok r h → att_ID a = att_ID (run_Attempt r) →
  att_Number (run_Attempt r') = (att_Number (run_Attempt r) + 1)%Z →
  history_ok r' (<[length h - 1 := a]> h ++ [run_Attempt r']) ∧
  att_ID <$> h `prefix_of` att_ID <$> (<[length h - 1 := a]> h ++ [run_Attempt r']).
Proof.
  intros [Hlen (x & Hx & Hid)] Ha Hn. split.
  - split; [rewrite length_app, length_insert; simpl; lia|]. exists (run_Attempt r').
    by rewrite last_snoc.
  - rewrite fmap_app. rewrite list_fmap_insert. rewrite list_insert_id; [by apply prefix_app_r|].
    rewrite list_lookup_fmap. rewrite last_lookup in Hx.
    replace (length h - 1) with (Nat.pred (length h)) by lia. rewrite Hx. simpl. congruence.
Qed.

(** The retry branch, from the world in which the loss has been recorded. *)
Lemma wp_retry w w1 r now q :
  inv w → ms_runs (w_st w) !! run_ID r = Some r → run_phase r = (RunRunning, AttemptRunning) →
  ms_requests (w_st w) !! run_ID r = Some q →
  (att_Number (run_Attempt r) < retry_MaxAttempts (req_Retry q))%Z →
  effect (run_ID r) (lost r now) (Some (att_NodeID (run_Attempt r))) ["attempt.lost"] w w1 →
  wp (retry_attempt (lost r now) q now) (λ res w', res = Ok () ∧ stays w w') w1.
Proof.
  intros Hinv Hr Hp Hq Hmax E1. unfold retry_attempt, newControlPlaneID.
  destruct (inv_history _ Hinv _ _ Hr) as (h & Hh & Hhok).
  pose proof (inv_run_ok _ _ Hinv Hr) as Hok.
  assert (Hh1 : ms_attemptHistory (w_st w1) !! run_ID r = Some h)
    by (by rewrite (eff_history _ _ _ _ _ _ E1)).
  change (run_ID (lost r now)) with (run_ID r). wp_step. apply wp_gets. unfold map_get.
  rewrite Hh1. simpl. wp_step.
  { apply bool_decide_eq_true in E. destruct Hhok as [_ (x & Hx & _)]. by destruct h. }
  do 2 wp_step. wp_step. apply wp_modify. simpl.
  set (id := "attempt" +:+ "_" +:+ _). set (next := (now + _)%Z).
  set (r' := retried (lost r now) id next). wp_step. apply (wp_put_run r'). intros w3 E3 T3.
  apply (wp_appendEvent r'); [eauto with relay|]. intros w4 E4.
  change (run_ID r') with (run_ID r) in *. eff_compose.
  destruct E1 as [T1 R1 N1 L1 H1' V1], He as [T2 R2 N2 L2 H2' V2]. simpl in *.
  split; [done|]. assert (Hid : issued "attempt" (w_tick w) (w_tick w4) id).
  { exists (w_tick w1). split; [lia|done]. }
  destruct (retried_history r r' (run_Attempt (lost r now)) h) as [Hhok' Hpre]; [done..|].
  assert (Hslot : slot_ok r r' (Some (att_NodeID (run_Attempt r)))).
  { apply terminal_slot; [|done]. by injection Hp as _ ->. }
  cut ((inv w4 ∧ evolves w w4) ∧ same_nodes w w4); [unfold stays; tauto|]. split.
  - eapply (inv_change (run_ID r) r r' (["attempt.lost"] ++ ["attempt.queued"])); try done.
    + lia.
    + by rewrite R2, R1, insert_insert_eq.
    + intros n nd' Hn. rewrite N2, N1 in Hn.
      destruct (release_slot _ _ _ _ _ _ _ Hinv Hr Hslot Hn) as (nd & ? & ? & ?). eauto.
    + rewrite N2, N1. by rewrite release_dom.
    + eapply log_grows_trans; [exact L1|exact L2].
    + unfold world_eq_but_logs in *. simpl in *. intuition congruence.
    + intros j Hj. rewrite H2', lookup_insert_ne by done. by rewrite H1'.
    + intros h0 Hh0 _. assert (h0 = h) as -> by congruence. rewrite H2', lookup_insert_eq. eauto.
    + intros q0 Hq0 _. assert (q0 = q) as -> by congruence. simpl. lia.
    + by apply retried_change.
    + apply retried_ok; [|done|eapply issued_mono; [exact Hid|lia|done]].
      eapply run_ok_mono; [|done]. lia.
    + by right.
  - intros n. rewrite N2, N1. apply release_same.
Qed.

Lemma wp_lose_attempt w r now :
  inv w → ms_runs (w_st w) !! run_ID r = Some r → run_phase r = (RunRunning, AttemptRunning) →
  wp (lose_attempt r now) (λ res w', res = Ok () ∧ stays w w') w.
Proof.
  intros Hinv Hr Hp. unfold lose_attempt.
  wp_step. apply (wp_release_effect (run_ID r) r); [done|]. intros w1 E1 _.
  wp_step. apply (wp_put_run (lost r now)). intros w2 E2 _.
  wp_step. apply (wp_appendEvent (lost r now)); [eauto with relay|]. intros w3 E3.
  change (run_ID (lost r now)) with (run_ID r) in *. do 2 eff_compose.
  destruct (inv_request _ Hinv _ _ Hr) as (q & Hq & _ & _).
  assert (Hq3 : ms_requests (w_st w3) !! run_ID r = Some q).
  { destruct (eff_rest _ _ _ _ _ _ He0) as [-> _]. done. }
  wp_step. apply wp_gets. unfold map_get.
  change (run_ID ((r <| run_Attempt := _ |>))) with (run_ID r). rewrite Hq3. simpl. wp_step.
  - wp_step. apply (wp_put_run (lost_failed r now)). intros w4 E4 _.
    apply (wp_appendEvent (lost_failed r now)); [eauto with relay|]. intros w5 E5.
    change (run_ID (lost_failed r now)) with (run_ID r) in *. do 2 eff_compose.
    split; [done|].
    eapply (stays_effect w w w5 r); try done; eauto with relay.
    + by apply lost_failed_change.
    + apply lost_failed_ok; eauto with relay.
    + apply terminal_slot; [by injection Hp as _ ->|done].
    + right. intros _. set_solver.
  - apply Z.leb_gt in E. by eapply wp_retry.
Qed.
End reconcile.

Section reconcile_all.
Context `{HostLaws} `{Encoder} `{Semver}.

Lemma wp_reconcile_deadline w now n id :
  inv w → is_Some (ms_runs (w_st w) !! id) →
  wp (reconcile_deadline now n id)
    (λ res w', stays w w' ∧ ∃ k, res = Ok k ∧ (n ≤ k ≤ n + 1)%Z) w.
Proof.
  intros Hinv [r Hr]. unfold reconcile_deadline. wp_step. eapply wp_run_at; [done|].
  destruct (inv_runs _ Hinv id r Hr) as [<- _]. wp_step.
  - wp_step. eapply wp_mono; [by apply wp_cancel_stays|]. intros res w1 (S1 & r1 & -> & _).
    apply wp_ret. split; [done|]. eexists. split; [done|lia].
  - apply wp_ret. split; [eauto with relay|]. eexists. split; [done|lia].
Qed.

Lemma expired_attempt_spec t now r :
  run_ok t r → expired_attempt now r = true →
  (run_phase r = (RunRunning, AttemptRunning) ∨
   run_Status r = RunCancelling ∧ holds_lease (att_Status (run_Attempt r)) = true) ∧
  reached now (att_LeaseExpiresAt (run_Attempt r)) = true.
Proof.
  intros [Hc _ _ _ _ _ _ _ _]. unfold expired_attempt, run_phase, holds_lease in *.
  rewrite !andb_true_iff, !orb_true_iff, !andb_true_iff, !bool_decide_eq_true.
  intros [[[Hs|Hs] Ha] Hl]; (split; [|done]); rewrite Hs in *.
  - left. destruct Ha as [->|[? _]]; done.
  - right. split; [done|]. destruct Ha as [->|[_ ->]]; auto.
Qed.

Lemma wp_reconcile_attempt w now limit n id :
  inv w → is_Some (ms_runs (w_st w) !! id) →
  wp (reconcile_attempt now limit n id)
    (λ res w', stays w w' ∧
       ∃ k, res = Ok k ∧ (n ≤ k ≤ Z.max n limit)%Z ∧ ((limit ≤ n)%Z → w_st w' = w_st w)) w.
Proof.
  intros Hinv [r Hr]. unfold reconcile_attempt. wp_step. eapply wp_run_at; [done|].
  destruct (inv_runs _ Hinv id r Hr) as [<- Hok]. wp_step.
  { apply wp_ret. split; [eauto with relay|]. eexists. split_and!; [done|lia..|done]. }
  apply orb_false_iff in E as [El%Z.leb_gt Ee%negb_false_iff].
  destruct (expired_attempt_spec _ _ _ Hok Ee) as [Hcase _]. wp_step.
  - apply bool_decide_eq_true in E. wp_step.
    apply (wp_after_finalize _ w); [eauto with relay|done|done| |].
    { destruct Hcase as [Hp|[_ ?]]; [injection Hp; congruence|done]. }
    intros w1 S1. apply wp_ret. split; [done|]. eexists. split_and!; [done|lia..].
  - apply bool_decide_eq_false in E. destruct Hcase as [Hp|[? _]]; [|done].
    wp_step. eapply wp_mono; [by apply wp_lose_attempt|]. intros res w1 [-> S1].
    apply wp_ret. split; [done|]. eexists. split_and!; [done|lia..].
Qed.

Lemma wp_reconcile_deadlines w now limit n ids :
  inv w → present w ids →
  wp (reconcile_deadlines now limit n ids)
    (λ res w', stays w w' ∧
       ∃ k, res = Ok k ∧ (n ≤ k ≤ Z.max n limit)%Z ∧ ((limit ≤ n)%Z → w_st w' = w_st w)) w.
Proof.
  revert w n. induction ids as [|id ids IH]; intros w n Hinv Hp; simpl.
  { apply wp_ret. split; [eauto with relay|]. eexists. split_and!; [done|lia..|done]. }
  apply Forall_cons in Hp as [Hid Hp]. wp_step.
  { apply wp_ret. split; [eauto with relay|]. eexists. split_and!; [done|lia..|done]. }
  apply Z.leb_gt in E. wp_step. eapply wp_mono; [by apply wp_reconcile_deadline|].
  intros res w1 (S1 & k1 & -> & Hk1).
  eapply wp_mono; [apply IH; [eauto with relay|by eapply present_stays]|].
  intros res w2 (S2 & k2 & -> & Hk2 & _). split; [by eapply stays_trans|].
  eexists. split_and!; [done|lia..].
Qed.

Lemma wp_reconcile_attempts w now limit n ids :
  inv w → present w ids →
  wp (reconcile_attempts now limit n ids)
    (λ res w', stays w w' ∧
       ∃ k, res = Ok k ∧ (n ≤ k ≤ Z.max n limit)%Z ∧ ((limit ≤ n)%Z → w_st w' = w_st w)) w.
Proof.
  revert w n. induction ids as [|id ids IH]; intros w n Hinv Hp; simpl.
  { apply wp_ret. split; [eauto with relay|]. eexists. split_and!; [done|lia..|done]. }
  apply Forall_cons in Hp as [Hid Hp]. wp_step. eapply wp_mono; [by apply wp_reconcile_attempt|].
  intros res w1 (S1 & k1 & -> & Hk1 & F1).
  eapply wp_mono; [apply IH; [eauto with relay|by eapply present_stays]|].
  intros res w2 (S2 & k2 & -> & Hk2 & F2). split; [by eapply stays_trans|].
  eexists. split_and!; [done|lia..|]. intros Hl. rewrite F2, F1; [done|lia..].
Qed.

Lemma wp_Reconcile w now limit :
  inv w →
  wp (Reconcile now limit)
    (λ res w', stays w w' ∧
       ∃ k, res = Ok k ∧ (0 ≤ k ≤ Z.max 0 limit)%Z ∧ ((limit ≤ 0)%Z → w_st w' = w_st w)) w.
Proof.
  intros Hinv. unfold Reconcile. wp_step. apply wp_range_runs; [done|]. intros ids S1 Hp1 _.
  wp_step. eapply wp_mono; [apply wp_reconcile_deadlines; eauto with relay|].
  intros res w2 (S2 & k & -> & Hk & F2). wp_step. apply wp_range_runs; [eauto with relay|].
  intros ids' S3 Hp3 _.
  eapply wp_mono; [apply wp_reconcile_attempts; eauto with relay|].
  intros res w4 (S4 & k' & -> & Hk' & F4). split.
  - eapply stays_trans; [exact S1|]. eapply stays_trans; [exact S2|].
    by eapply stays_trans.
  - eexists. split_and!; [done|lia..|]. intros Hl. rewrite F4; [|lia]. simpl. by rewrite F2.
Qed.
End reconcile_all.

(** ** Reads and the writes beside the runs *)
Section beside.
Context `{HostLaws} `{Encoder} `{Semver}.

Lemma reads_keeps {A} (m : MM A) : reads m → keeps m.
Proof.
  intros Hm w Hinv. eapply wp_mono; [by apply reads_wp|]. intros res w' [Hs Ht].
  eapply stays_later; [by apply stays_refl|done..].
Qed.

Ltac reading := apply reads_keeps; repeat (first
  [ apply reads_range | apply reads_gets | apply reads_ret | apply reads_raise
  | apply reads_bind; [|intros ?] | progress case_match ]).

Lemma GetRun_keeps id : keeps (GetRun id).
Proof. unfold GetRun, find_run. reading. Qed.
Lemma Events_keeps id after : keeps (EventsAfter id after).
Proof. unfold EventsAfter, find_run. reading. Qed.
Lemma Nodes_keeps : keeps Nodes.
Proof. unfold Nodes. reading. Qed.
Lemma Artifacts_keeps id : keeps (Artifacts id).
Proof. unfold Artifacts, find_run. reading. Qed.
Lemma Artifact_keeps id : keeps (Artifact_ id).
Proof. unfold Artifact_. reading. Qed.
Lemma ListRuns_keeps t p s l : keeps (ListRuns t p s l).
Proof. unfold ListRuns. reading. Qed.
Lemma Attempts_keeps id : keeps (Attempts id).
Proof. unfold Attempts, find_run. reading. Qed.
Lemma Interactions_keeps id : keeps (Interactions id).
Proof. unfold Interactions, find_run. reading. Qed.
End beside.

Section guarded.
Context `{HostLaws} `{Encoder} `{Semver}.

(** A write to artifacts, capability calls or interactions, then the rest. *)
Lemma stays_write w0 w w' :
  stays w0 w → w_tick w ≤ w_tick w' → core_eq (w_st w) (w_st w') →
  (∀ id i, ms_interactions (w_st w') !! id = Some i → is_Some (ms_runs (w_st w) !! ia_RunID i)) →
  stays w0 w'.
Proof. intros Hs Ht Hc Hi. eapply stays_trans; [done|]. apply stays_other; eauto with relay. Qed.

Lemma stays_interactions w0 w :
  stays w0 w → ∀ id i, ms_interactions (w_st w) !! id = Some i → is_Some (ms_runs (w_st w) !! ia_RunID i).
Proof. intros [Hi _]. apply (inv_interactions _ Hi). Qed.

Lemma AppendEvent_keeps id att lease ty data ids : keeps (AppendEvent id att lease ty data ids).
Proof.
  intros w Hinv. unfold AppendEvent. apply wp_authorized; [done|]. intros r w1 S1 Hr _ _ _.
  wp_step; [by apply wp_raise|]. wp_step. apply wp_gets.
  destruct (if _ =s "" then None else _) as [old|]; [by apply wp_lift_res|].
  destruct (marshal data); [|by apply wp_raise]. unfold newControlPlaneID.
  do 2 wp_step. clock_step. simpl. set (w2 := mkWorld _ _).
  assert (S2 : stays w w2) by (eapply stays_later; [exact S1|done|simpl; lia]).
  apply wp_appendEvent_as; [done|]. intros w3 E3 _ _. eapply stays_trans; [done|].
  by eapply stays_event; eauto with relay.
Qed.

Lemma AddArtifact_keeps a artifact : keeps (AddArtifact a artifact).
Proof.
  intros w Hinv. unfold AddArtifact. apply wp_authorized; [done|]. intros r w1 S1 Hr _ _ _.
  wp_step; [by apply wp_raise|]. wp_step. apply wp_modify. wp_step. apply wp_modify.
  apply wp_event_stays; [|done]. simpl.
  apply (stays_write w w1); [done|done|by split_and!|]. exact (stays_interactions w _ ltac:(done)).
Qed.

Lemma ReserveCapability_keeps a key hash q : keeps (ReserveCapability a key hash q).
Proof.
  intros w Hinv. unfold ReserveCapability. apply wp_authorized; [done|]. intros r w1 S1 Hr _ _ _.
  wp_step; [by apply wp_raise|]. wp_step. apply wp_gets.
  destruct (ms_capabilityCalls (w_st w1) !! _) as [old|].
  - wp_step; [by apply wp_raise|by apply wp_ret].
  - unfold newControlPlaneID. do 2 wp_step. wp_step. apply wp_modify, wp_ret. simpl.
    apply (stays_write w w1); [done|simpl; lia|by split_and!|]. exact (stays_interactions w _ ltac:(done)).
Qed.

Lemma FinishCapability_keeps a rsv res cause : keeps (FinishCapability a rsv res cause).
Proof.
  intros w Hinv. unfold FinishCapability. apply wp_authorized; [done|]. intros r w1 S1 Hr _ _ _.
  wp_step. eapply wp_mono; [apply reads_wp, reads_range|]. intros [ids|e] w2 [Hs Ht].
  2:{ by eapply stays_later. }
  assert (S2 : stays w w2) by by eapply stays_later.
  wp_step. apply wp_gets. destruct (find_call _ _ _) as [[key v]|]; [|by apply wp_raise].
  wp_step. apply wp_modify. apply wp_event_stays; [|simpl; by rewrite Hs].
  apply (stays_write w w2); [done|done|by split_and!|]. exact (stays_interactions w _ ltac:(done)).
Qed.

Lemma CreateInteraction_keeps a q : keeps (CreateInteraction a q).
Proof.
  intros w Hinv. unfold CreateInteraction. apply wp_authorized; [done|]. intros r w1 S1 Hr _ _ _.
  wp_step; [by apply wp_raise|]. unfold newControlPlaneID. do 2 wp_step. clock_step.
  set (w2 := mkWorld _ _). assert (S2 : stays w w2) by (eapply stays_later; [exact S1|done|simpl; lia]).
  wp_step. apply wp_modify. wp_step. eapply wp_mono; [apply (wp_event_stays w); [|done]|].
  - apply (stays_write w w2); [done|simpl; lia|by split_and!|].
    intros id i. simpl. intros Hi. apply lookup_insert_Some in Hi as [[_ <-]|[_ Hi]]; [by eexists|].
    by eapply (stays_interactions w).
  - intros [[]|e] w3 S3; [by apply wp_ret|done].
Qed.

Lemma GetInteraction_keeps a id : keeps (GetInteraction a id).
Proof.
  intros w Hinv. unfold GetInteraction. apply wp_authorized; [done|]. intros r w1 S1 Hr _ _ _.
  wp_step. apply wp_gets. repeat case_match; first [by apply wp_ret|by apply wp_raise].
Qed.

(** A resolution finds the run of its interaction: the unchecked lookup of the
    code cannot fail on a well-formed store. *)
Lemma wp_ResolveInteraction w id response tenant project :
  inv w →
  wp (ResolveInteraction id response tenant project)
    (λ res w', stays w w' ∧
       match res with
       | Ok i => ms_interactions (w_st w') !! id = Some i ∧ ia_State i = "resolved" ∧
                 ia_Response i = response
       | Err e => e = sentinel ErrNotFound ∨ e = sentinel ErrInvalidTransition
       end) w.
Proof.
  intros Hinv. unfold ResolveInteraction. wp_step. apply wp_gets.
  destruct (ms_interactions (w_st w) !! id) as [v|] eqn:Hv; [|apply wp_raise; eauto with relay].
  destruct (inv_interactions _ Hinv _ _ Hv) as [r Hr]. wp_step. eapply wp_run_at; [done|].
  destruct (inv_runs _ Hinv _ _ Hr) as [Hid _].
  wp_step; [apply wp_raise; eauto with relay|]. wp_step; [apply wp_raise; eauto with relay|].
  clock_step. wp_step. apply wp_modify. wp_step. set (w1 := mkWorld _ _).
  assert (S1 : stays w w1).
  { apply (stays_write w w); [by apply stays_refl|simpl; lia|by split_and!|].
    intros j i. simpl. intros Hi. apply lookup_insert_Some in Hi as [[_ <-]|[_ Hi]]; [by eexists|].
    by eapply (inv_interactions _ Hinv). }
  apply wp_appendEvent; [simpl; congruence|]. intros w2 E2.
  assert (S2 : stays w w2).
  { eapply stays_trans; [done|]. eapply stays_event; eauto with relay. simpl. congruence. }
  apply wp_ret. split; [done|]. destruct (eff_rest _ _ _ _ _ _ E2) as (_ & _ & -> & _). simpl.
  by rewrite lookup_insert_eq.
Qed.
End guarded.
