(* ===== verification/MemorySystem.v ===== *)
(** * MemorySystem: the in-memory control plane as a transition system

    [Op] is a call of one storage method, [after] the world it leaves, [play] a
    sequence of calls in the order in which they take the mutex.  [reachable]
    is what any sequence of calls leads to from an empty storage; the
    invariant holds there, and between two points of a sequence every run
    moves along the lifecycle. *)

From S2P Require Import Prelude Json Types Matching Event Lifecycle Memory MemoryEffect MemoryInv MemoryOps MemoryRuns MemoryRecover.

Inductive Op :=
  | OpRegisterNode (registration : NodeRegistration)
  | OpHeartbeat (nodeID : string)
  | OpNodes
  | OpSubmit (request : Request)
  | OpClaim (nodeID : string) (leaseTTL : Z)
  | OpRenew (a : Assignment) (leaseTTL : Z)
  | OpReconcile (now limit : Z)
  | OpCancelRun (runID : string) (request : CancelRequest)
  | OpAcknowledgeCancellation (a : Assignment)
  | OpStart (a : Assignment)
  | OpAppendEvent (runID attemptID lease eventType : string) (data : Any) (eventIDs : list string)
  | OpComplete (a : Assignment) (result : Result)
  | OpFail (a : Assignment) (cause : string)
  | OpGetRun (runID : string)
  | OpEventsAfter (runID : string) (after : Z)
  | OpAddArtifact (a : Assignment) (artifact : Artifact)
  | OpArtifacts (runID : string)
  | OpArtifact (artifactID : string)
  | OpReserveCapability (a : Assignment) (key hash : string) (request : CapabilityRequest)
  | OpFinishCapability (a : Assignment) (reservation : CapabilityReservation)
      (result : CapabilityResult) (cause : string)
  | OpListRuns (tenant project session : string) (limit : Z)
  | OpAttempts (runID : string)
  | OpCreateInteraction (a : Assignment) (request : InteractionRequest)
  | OpGetInteraction (a : Assignment) (id : string)
  | OpInteractions (runID : string)
  | OpResolveInteraction (id : string) (response : option Json) (tenant project : string).

(** The lease an operation is made under. *)
Definition presented (op : Op) : option (string * string * string) :=
  let lease a := Some (asg_RunID a, asg_AttemptID a, asg_LeaseToken a) in
  match op with
  | OpRenew a _ | OpAcknowledgeCancellation a | OpStart a | OpComplete a _ | OpFail a _
  | OpAddArtifact a _ | OpReserveCapability a _ _ _ | OpFinishCapability a _ _ _
  | OpCreateInteraction a _ | OpGetInteraction a _ => lease a
  | OpAppendEvent runID attemptID token _ _ _ => Some (runID, attemptID, token)
  | _ => None
  end.

Section system.
Context `{HostLaws} `{Encoder} `{Semver}.

Definition exec (op : Op) : MM () :=
  match op with
  | OpRegisterNode registration => RegisterNode registration ;; mret ()
  | OpHeartbeat nodeID => Heartbeat nodeID ;; mret ()
  | OpNodes => Nodes ;; mret ()
  | OpSubmit request => Submit request ;; mret ()
  | OpClaim nodeID leaseTTL => Claim nodeID leaseTTL ;; mret ()
  | OpRenew a leaseTTL => Renew a leaseTTL ;; mret ()
  | OpReconcile now limit => Reconcile now limit ;; mret ()
  | OpCancelRun runID request => CancelRun runID request ;; mret ()
  | OpAcknowledgeCancellation a => AcknowledgeCancellation a
  | OpStart a => Start a
  | OpAppendEvent runID attemptID lease eventType data eventIDs =>
      AppendEvent runID attemptID lease eventType data eventIDs
  | OpComplete a result => Complete a result
  | OpFail a cause => Fail a cause
  | OpGetRun runID => GetRun runID ;; mret ()
  | OpEventsAfter runID after => EventsAfter runID after ;; mret ()
  | OpAddArtifact a artifact => AddArtifact a artifact
  | OpArtifacts runID => Artifacts runID ;; mret ()
  | OpArtifact artifactID => Artifact_ artifactID ;; mret ()
  | OpReserveCapability a key hash request => ReserveCapability a key hash request ;; mret ()
  | OpFinishCapability a reservation result cause => FinishCapability a reservation result cause
  | OpListRuns tenant project session limit => ListRuns tenant project session limit ;; mret ()
  | OpAttempts runID => Attempts runID ;; mret ()
  | OpCreateInteraction a request => CreateInteraction a request ;; mret ()
  | OpGetInteraction a id => GetInteraction a id ;; mret ()
  | OpInteractions runID => Interactions runID ;; mret ()
  | OpResolveInteraction id response tenant project =>
      ResolveInteraction id response tenant project ;; mret ()
  end.

Definition after (op : Op) (w : World MemoryStorage) : World MemoryStorage := (exec op w).2.
Definition play (ops : list Op) (w : World MemoryStorage) : World MemoryStorage :=
  foldl (λ w op, after op w) w ops.

(** Service.RegisterNode refuses an empty node ID. *)
Definition op_ok (op : Op) : Prop :=
  match op with OpRegisterNode registration => reg_ID registration ≠ "" | _ => True end.
Definition ops_ok (ops : list Op) : Prop := Forall op_ok ops.

Definition reachable (w : World MemoryStorage) : Prop :=
  ∃ tick ops, ops_ok ops ∧ w = play ops (mkWorld tick NewMemoryStorage).

Lemma keeps_then {A} (m : MM A) : keeps m → keeps (m ;; mret ()).
Proof.
  intros Hm w Hinv. wp_step. eapply wp_mono; [by apply Hm|]. by intros [x|e] w'; [intros; apply wp_ret|].
Qed.

Lemma exec_keeps op : (∀ registration, op ≠ OpRegisterNode registration) → keeps (exec op).
Proof.
  intros Hop. destruct op; simpl;
    try (by eauto using Complete_keeps, Fail_keeps, Start_keeps, AcknowledgeCancellation_keeps,
           AppendEvent_keeps, AddArtifact_keeps, FinishCapability_keeps);
    try (apply keeps_then; eauto using Heartbeat_keeps, Nodes_keeps, Renew_keeps, CancelRun_keeps,
           GetRun_keeps, Events_keeps, Artifacts_keeps, Artifact_keeps, ReserveCapability_keeps,
           ListRuns_keeps, Attempts_keeps, CreateInteraction_keeps, GetInteraction_keeps,
           Interactions_keeps).
  - by destruct (Hop registration).
  - intros w Hinv. use wp_Submit. by intros res w' [? _].
  - intros w Hinv. use wp_Claim. by intros res w' [? _].
  - intros w Hinv. use wp_Reconcile. by intros res w' [? _].
  - intros w Hinv. use wp_ResolveInteraction. by intros res w' [? _].
Qed.

Lemma after_inv op w : op_ok op → inv w → inv (after op w) ∧ evolves w (after op w).
Proof.
  intros Hok Hinv. assert (Hcase : (∃ reg, op = OpRegisterNode reg) ∨ ∀ reg, op ≠ OpRegisterNode reg).
  { destruct op; eauto; right; done. }
  destruct Hcase as [[reg ->]|Hne]; [|by destruct (exec_keeps op Hne w Hinv) as (? & ? & _)].
  change (wp (exec (OpRegisterNode reg)) (λ _ w', inv w' ∧ evolves w w') w). simpl.
  wp_step. eapply wp_mono; [by apply RegisterNode_inv|]. by intros [x|e] w' ?; [apply wp_ret|].
Qed.

Lemma play_inv ops w : ops_ok ops → inv w → inv (play ops w) ∧ evolves w (play ops w).
Proof.
  revert w. induction ops as [|op ops IH]; intros w Hok Hinv; [split; [done|apply evolves_refl]|].
  apply Forall_cons in Hok as [Hop Hok]. destruct (after_inv op w Hop Hinv) as [I1 E1].
  destruct (IH _ Hok I1) as [I2 E2]. split; [done|]. by eapply evolves_trans.
Qed.

Lemma reachable_inv w : reachable w → inv w.
Proof. intros (t & ops & Hok & ->). apply play_inv; [done|apply inv_empty]. Qed.

Lemma reachable_play w ops : reachable w → ops_ok ops → reachable (play ops w).
Proof.
  intros (t & ops0 & Hok0 & ->) Hok. exists t, (ops0 ++ ops). split; [by apply Forall_app|].
  unfold play. by rewrite foldl_app.
Qed.

Lemma play_evolves w ops : reachable w → ops_ok ops → evolves w (play ops w).
Proof. intros Hw Hok. by apply play_inv, reachable_inv. Qed.
End system.
