(* ===== verification/Scenario.v ===== *)
(** * Scenario: small histories of the in-memory control plane

    Concrete sequences of calls on the host of Demo, at which the theorems are
    instantiated: a node with one slot, a request it can run, and the run
    driven to each of its phases. *)

From S2P Require Import Prelude Json Types Matching Event Lifecycle Demo Memory MemoryEffect MemoryInv MemoryOps MemoryRuns MemoryRecover MemorySystem.

Definition demo_runtime : Runtime := mkRuntime "rt" "codex" "1.0.0" "healthy" "" "" [] [] None.
Definition demo_registration : NodeRegistration :=
  mkRegistration "node" "0.1" ProtocolVersion ∅ [demo_runtime] [] 1.
Definition demo_request (key : string) (timeout : string) : Request :=
  (zero : Request) <| req_TenantID := "tenant" |> <| req_ProjectID := "project" |>
    <| req_IdempotencyKey := key |> <| req_Runtime := mkRuntimeRequirement "" "codex" "" "" ∅ |>
    <| req_Timeout := timeout |> <| req_Retry := mkRetryPolicy 2 "" |>.

(** The lease of the run that a history's claim granted, read off the store. *)
Definition lease_of (w : World MemoryStorage) (id : string) : Assignment :=
  match ms_runs (w_st w) !! id with
  | Some r => mkAssignment id (att_ID (run_Attempt r)) (att_LeaseToken (run_Attempt r)) 0 zero
  | None => mkAssignment id "" "" 0 zero
  end.
Definition phase_of (w : World MemoryStorage) (id : string) : option phase :=
  run_phase <$> ms_runs (w_st w) !! id.

Definition start : World MemoryStorage := mkWorld 0 NewMemoryStorage.
Definition queued : World MemoryStorage :=
  play [OpRegisterNode demo_registration; OpSubmit (demo_request "k" "")] start.
(** The only run of these histories. *)
Definition the_run : string := "run_2".
Definition leased_world : World MemoryStorage := play [OpClaim "node" 30] queued.
Definition the_lease : Assignment := lease_of leased_world the_run.
Definition running : World MemoryStorage := play [OpStart the_lease] leased_world.
Definition demo_result : Result := mkResult "done" None [].
Definition succeeded_world : World MemoryStorage := play [OpComplete the_lease demo_result] running.
Definition failed_world : World MemoryStorage := play [OpFail the_lease "boom"] running.

Lemma reachable_start : reachable start.
Proof. exists 0, []. split; [constructor|reflexivity]. Qed.

Ltac demo_ops := repeat constructor; simpl; discriminate.
Ltac demo_reach := repeat (apply reachable_play; [|demo_ops]); apply reachable_start.

Example queued_phase : phase_of queued the_run = Some (RunQueued, AttemptQueued).
Proof. vm_compute. reflexivity. Qed.
Example leased_phase : phase_of leased_world the_run = Some (RunQueued, AttemptLeased).
Proof. vm_compute. reflexivity. Qed.
Example running_phase : phase_of running the_run = Some (RunRunning, AttemptRunning).
Proof. vm_compute. reflexivity. Qed.
Example succeeded_phase : phase_of succeeded_world the_run = Some (RunSucceeded, AttemptSucceeded).
Proof. vm_compute. reflexivity. Qed.
Example failed_phase : phase_of failed_world the_run = Some (RunFailed, AttemptFailed).
Proof. vm_compute. reflexivity. Qed.

(** A cancellation requested while the assignment is leased, and a renewal that
    arrives after the lease has expired. *)
Definition claimed_short : World MemoryStorage := play [OpClaim "node" 3] queued.
Definition short_lease : Assignment := lease_of claimed_short the_run.
Definition late_world : World MemoryStorage :=
  play [OpCancelRun the_run (mkCancelRequest "no longer needed" "user"); OpNodes; OpNodes] claimed_short.
Definition stuck_world : World MemoryStorage := play [OpRenew short_lease 3] late_world.

(** The lease of a running attempt expires and the attempt is retried. *)
Definition retried_world : World MemoryStorage := play [OpReconcile 1000 10] running.

Example stuck_phase : phase_of stuck_world the_run = Some (RunCancelling, AttemptQueued).
Proof. vm_compute. reflexivity. Qed.
Example retried_phase : phase_of retried_world the_run = Some (RunQueued, AttemptQueued).
Proof. vm_compute. reflexivity. Qed.

(** A value known to be present, as a term. *)
Definition run_in (w : World MemoryStorage) (id : string) : Run :=
  default (new_run zero "" "" 0) (ms_runs (w_st w) !! id).
Definition node_in (w : World MemoryStorage) (n : string) : Node :=
  default (mkNode demo_registration 0 0 "") (ms_nodes (w_st w) !! n).

(** A node is registered, nothing is submitted. *)
Definition registered : World MemoryStorage := play [OpRegisterNode demo_registration] start.
(** A node asks its user a question. *)
Definition asking : World MemoryStorage :=
  play [OpCreateInteraction the_lease (mkInteractionRequest InteractionApproval "ok?" None)] running.
Definition the_question : string := default "" (head (elements (dom (ms_interactions (w_st asking))))).
Definition question_in (w : World MemoryStorage) : Interaction :=
  default (mkInteraction "" "" "" InteractionInput "" "" None None 0 None)
    (ms_interactions (w_st w) !! the_question).

(** The value of a call known to succeed, as a term. *)
Definition ok_of {A} (d : A) (r : Res A) : A := match r with Ok a => a | Err _ => d end.
Definition no_run : Run := new_run zero "" "" 0.
