(* ===== verification/MemoryProps.v ===== *)
(** * MemoryProps: what the in-memory control plane guarantees

    The properties of the transition system of MemorySystem: safety across
    whole histories (lifecycle, fencing, final results, node load, logs), then
    the outcome of single calls.  Each theorem with hypotheses is applied to a
    history of Scenario by its witness. *)

From S2P Require Import Prelude Json Types Matching Event Lifecycle Demo Memory MemoryEffect MemoryInv MemoryOps MemoryRuns MemoryRecover MemorySystem Scenario.

Section lemmas.
Context `{HostLaws} `{Encoder} `{Semver}.

Lemma bind_raise {A B} (m : MM A) (k : A → MM B) w w' e :
  m w = (Err e, w') → (m ≫= k) w = (Err e, w').
Proof. intros Hm. unfold mbind, M_bind. by rewrite Hm. Qed.

(** A lease that is not the current one stops the operation before any write. *)
Lemma refused op w id att lease r :
  presented op = Some (id, att, lease) → ms_runs (w_st w) !! id = Some r →
  lease_matches r att lease = false → exec op w = (Err (sentinel ErrInvalidLease), w).
Proof.
  intros Hp Hr Hl.
  assert (Ha : authorize id att lease w = (Err (sentinel ErrInvalidLease), w)).
  { unfold authorize, find_run, gets, mbind, M_bind. by rewrite Hr, Hl. }
  destruct op; simpl in Hp; try done; injection Hp as <- <- <-; simpl;
    try (by repeat first [exact Ha|apply bind_raise]);
    unfold Complete, Fail, find_run, gets, mbind, M_bind; by rewrite Hr, Hl.
Qed.

(** The final reports of a node, Complete and Fail, compare the lease
    themselves; every other call made under a lease begins with [authorize]. *)
Definition final_report (op : Op) : bool :=
  match op with OpComplete _ _ | OpFail _ _ => true | _ => false end.

(** The call that finds its lease expired before the attempt was started. *)
Lemma late_call `{!MonotoneClock} w id r e op :
  inv w → ms_runs (w_st w) !! id = Some r → att_Status (run_Attempt r) = AttemptLeased →
  att_LeaseExpiresAt (run_Attempt r) = Some e → (e ≤ now_at (w_tick w))%Z →
  presented op = Some (id, att_ID (run_Attempt r), att_LeaseToken (run_Attempt r)) →
  final_report op = false →
  (exec op w).1 = Err (sentinel ErrInvalidLease) ∧
  ms_runs (w_st (exec op w).2) !! id = Some (requeued r).
Proof.
  intros Hinv Hr Hs He Hnow Hp Hf. destruct (inv_runs _ Hinv _ _ Hr) as [Hid Hok].
  destruct (ok_held _ _ Hok) as (_ & Hne & _); [by rewrite Hs|].
  assert (Ha : wp (authorize id (att_ID (run_Attempt r)) (att_LeaseToken (run_Attempt r)))
                 (λ res w', res = Err (sentinel ErrInvalidLease) ∧
                            ms_runs (w_st w') !! id = Some (requeued r)) w).
  { unfold authorize, find_run. wp_step. apply wp_gets. rewrite Hr.
    assert (Hm : lease_matches r (att_ID (run_Attempt r)) (att_LeaseToken (run_Attempt r)) = true).
    { unfold lease_matches. rewrite (bool_decide_eq_false_2 _ Hne), !bool_decide_eq_true_2; done. }
    rewrite Hm, He. simpl. do 2 wp_step. wp_step.
    2:{ unfold before in E. apply negb_false_iff, Z.ltb_lt in E. lia. }
    do 3 wp_step. apply wp_requeue_due; [by subst id|done| |].
    - rewrite He. unfold reached, before.
      pose proof (now_mono (w_tick w) (w_tick w + 1) ltac:(lia)). apply negb_true_iff, Z.ltb_ge. simpl. lia.
    - intros w' F. apply wp_raise. split; [done|]. rewrite (eff_runs _ _ _ _ _ _ F), Hid.
      apply lookup_insert_eq. }
  unfold wp in Ha.
  destruct (authorize _ _ _ w) as [res w'] eqn:Hauth. simpl in Ha. destruct Ha as [-> Hq].
  assert (Hexec : exec op w = (Err (sentinel ErrInvalidLease), w')).
  { destruct op; simpl in Hp; try done; injection Hp as <- Hatt Htok; simpl;
      rewrite <- Hatt, <- Htok in Hauth; by repeat first [exact Hauth|apply bind_raise]. }
  by rewrite Hexec.
Qed.

Lemma mismatch r att lease : att_LeaseToken (run_Attempt r) ≠ lease → lease_matches r att lease = false.
Proof. intros Hne. unfold lease_matches. rewrite (bool_decide_eq_false_2 _ Hne). apply andb_false_r. Qed.

(** Tokens in the store were issued before now. *)
Lemma current_token w id r :
  inv w → ms_runs (w_st w) !! id = Some r → att_LeaseToken (run_Attempt r) ≠ "" →
  issued "lease" 0 (w_tick w) (att_LeaseToken (run_Attempt r)).
Proof.
  intros Hinv Hr Hne. destruct (inv_runs _ Hinv _ _ Hr) as [_ Hok]. by destruct (ok_token _ _ Hok).
Qed.

Lemma terminal_stays w ops id r :
  reachable w → ops_ok ops → ms_runs (w_st w) !! id = Some r → terminal_phase (run_phase r) = true →
  ms_runs (w_st (play ops w)) !! id = Some r.
Proof.
  intros Hw Hok Hr Ht. destruct (play_evolves w ops Hw Hok) as [_ HR _ _ _ _ _].
  destruct (HR id r Hr) as (r' & Hr' & Hch). by rewrite (rc_terminal _ _ _ _ Hch Ht) in Hr'.
Qed.
End lemmas.

Section history.
Context `{HostLaws} `{Encoder} `{Semver}.

(** C1: whatever calls reach the storage, in whatever order, its state is
    well formed: coherent statuses, leases exactly on held attempts, gapless
    logs with their terminal events, an index entry and a history for every
    run, and node loads that count the attempts held. *)
Theorem reachable_well_formed w : reachable w → inv w.
Proof. apply reachable_inv. Qed.

(** C2: a superseded lease never comes back.  If a run held token [tok] and
    later, after [ops], holds another one, then after any further calls an
    operation presented under [tok] is refused with ErrInvalidLease and
    writes nothing. *)
Theorem superseded_lease_refused w id r ops1 r1 ops2 op att :
  reachable w → ops_ok ops1 → ops_ok ops2 →
  ms_runs (w_st w) !! id = Some r → att_LeaseToken (run_Attempt r) ≠ "" →
  ms_runs (w_st (play ops1 w)) !! id = Some r1 →
  att_LeaseToken (run_Attempt r1) ≠ att_LeaseToken (run_Attempt r) →
  presented op = Some (id, att, att_LeaseToken (run_Attempt r)) →
  exec op (play ops2 (play ops1 w)) = (Err (sentinel ErrInvalidLease), play ops2 (play ops1 w)).
Proof.
  intros Hw Ho1 Ho2 Hr Hne Hr1 Hd Hp.
  pose proof (current_token _ _ _ (reachable_inv _ Hw) Hr Hne) as Htok.
  destruct (play_evolves _ _ Hw Ho1) as [T1 _ _ _ _ _ _].
  destruct (play_evolves _ _ (reachable_play _ _ Hw Ho1) Ho2) as [T2 R2 _ _ _ _ _].
  destruct (R2 _ _ Hr1) as (r2 & Hr2 & Hch). eapply refused; [done..|].
  apply mismatch. by eapply token_never_returns.
Qed.

(** C3: a terminal run never changes: not its status, its result, its error,
    nor any other field, whatever calls follow. *)
Theorem terminal_run_final w ops id r :
  reachable w → ops_ok ops → ms_runs (w_st w) !! id = Some r → terminalRun (run_Status r) = true →
  ms_runs (w_st (play ops w)) !! id = Some r.
Proof.
  intros Hw Hok Hr Ht. eapply terminal_stays; try done. unfold terminal_phase, run_phase, terminalRun in *.
  simpl. destruct (run_Status r); done.
Qed.

(** C4: refinement of the abstract lifecycle.  Between any two points of a
    history a run is still there under its ID, its submission data are
    untouched, its pair of statuses has moved along the abstract machine, and
    its attempt number has not decreased. *)
Theorem runs_follow_lifecycle w ops id r :
  reachable w → ops_ok ops → ms_runs (w_st w) !! id = Some r →
  ∃ r', ms_runs (w_st (play ops w)) !! id = Some r' ∧ identity r' = identity r ∧
        rtc transition (run_phase r) (run_phase r') ∧
        (att_Number (run_Attempt r) ≤ att_Number (run_Attempt r'))%Z.
Proof.
  intros Hw Hok Hr. destruct (play_evolves _ _ Hw Hok) as [_ R _ _ _ _ _].
  destruct (R _ _ Hr) as (r' & Hr' & Hch). exists r'.
  destruct Hch as [Hi Hp _ _ Ha _]. split_and!; [done..|]. destruct Ha as [[_ Ha]|[_ Ha]]; lia.
Qed.

(** C26: logs are append-only and numbered 1, 2, 3, ... without gaps. *)
Theorem logs_append_only w ops id :
  reachable w → ops_ok ops →
  map_get (ms_events (w_st w)) id `prefix_of` map_get (ms_events (w_st (play ops w))) id ∧
  ∀ i e, map_get (ms_events (w_st (play ops w))) id !! i = Some e →
         ev_Sequence e = (Z.of_nat i + 1)%Z ∧ ev_RunID e = id.
Proof.
  intros Hw Hok. split; [apply (play_evolves _ _ Hw Hok)|].
  apply (inv_events _ (reachable_inv _ (reachable_play _ _ Hw Hok))).
Qed.

(** A run that reached its end says so in its log, with the event of the
    outcome it has. *)
Theorem terminal_event_logged w id r :
  reachable w → ms_runs (w_st w) !! id = Some r → terminalRun (run_Status r) = true →
  ∃ e, e ∈ map_get (ms_events (w_st w)) id ∧ ev_Type e = terminal_event (run_Status r).
Proof.
  intros Hw Hr Ht. pose proof (inv_terminal _ (reachable_inv _ Hw) id r Hr) as Hlog.
  assert (Htp : terminal_phase (run_phase r) = true).
  { unfold terminal_phase, run_phase, terminalRun in *. simpl. by destruct (run_Status r). }
  apply Hlog, list_elem_of_fmap in Htp as (e & He & Hin). eauto.
Qed.

(** C34: a run has at most as many attempts as its retry policy allows (one
    when the policy allows fewer), and its history has one entry for each. *)
Theorem attempts_bounded w id r :
  reachable w → ms_runs (w_st w) !! id = Some r →
  ∃ q h, ms_requests (w_st w) !! id = Some q ∧ ms_attemptHistory (w_st w) !! id = Some h ∧
    Z.of_nat (length h) = att_Number (run_Attempt r) ∧
    (1 ≤ att_Number (run_Attempt r) ≤ Z.max 1 (retry_MaxAttempts (req_Retry q)))%Z.
Proof.
  intros Hw Hr. pose proof (reachable_inv _ Hw) as Hi.
  destruct (inv_request _ Hi _ _ Hr) as (q & Hq & _ & Hn).
  destruct (inv_history _ Hi _ _ Hr) as (h & Hh & Hlen & (a & Ha & _)).
  exists q, h. split_and!; try done. destruct h; [done|simpl in *; lia].
Qed.

(** C35: the late call that strands a cancellation.  A run is being cancelled
    while its assignment is leased and not started, and the lease has expired.
    A call of the node under that lease (any but its final report; even the
    acknowledgement of the cancellation) is refused, but puts the attempt back
    in the queue; from then on the run stays [cancelling], and its attempt
    queued, whatever calls follow: nothing settles the run or reports it. *)
Theorem late_call_strands_cancellation `{!MonotoneClock} w id r e op ops :
  reachable w → ms_runs (w_st w) !! id = Some r → run_phase r = (RunCancelling, AttemptLeased) →
  att_LeaseExpiresAt (run_Attempt r) = Some e → (e ≤ now_at (w_tick w))%Z →
  presented op = Some (id, att_ID (run_Attempt r), att_LeaseToken (run_Attempt r)) →
  final_report op = false → ops_ok ops →
  (exec op w).1 = Err (sentinel ErrInvalidLease) ∧
  ∃ r', ms_runs (w_st (play ops (after op w))) !! id = Some r' ∧
        run_phase r' = (RunCancelling, AttemptQueued).
Proof.
  intros Hw Hr Hp He Hnow Hop Hf Hok. injection Hp as Hs Ha.
  destruct (late_call _ _ _ _ op (reachable_inv _ Hw) Hr Ha He Hnow Hop Hf) as [Hres Hq]. split; [done|].
  assert (Hw' : reachable (after op w)).
  { apply (reachable_play w [op]); [done|]. constructor; [by destruct op|constructor]. }
  destruct (play_evolves _ _ Hw' Hok) as [_ R _ _ _ _ _].
  destruct (R _ _ Hq) as (r' & Hr' & Hch). exists r'. split; [done|].
  apply steps_stuck. replace (RunCancelling, AttemptQueued) with (run_phase (requeued r)); [apply Hch|].
  unfold run_phase. simpl. by rewrite Hs.
Qed.
End history.

(** ** The histories of Scenario *)
Lemma reachable_well_formed_witness : reachable running ∧ inv running.
Proof. assert (Hr : reachable running) by demo_reach. split; [exact Hr|exact (reachable_well_formed running Hr)]. Defined.

Lemma superseded_lease_refused_witness :
  exec (OpComplete the_lease demo_result) (play [OpNodes] retried_world) =
  (Err (sentinel ErrInvalidLease), play [OpNodes] retried_world).
Proof.
  apply (superseded_lease_refused running the_run (run_in running the_run) [OpReconcile 1000 10]
           (run_in retried_world the_run) [OpNodes] (OpComplete the_lease demo_result)
           (asg_AttemptID the_lease)); [demo_reach|demo_ops|demo_ops| | | | |];
    vm_compute; first [reflexivity|discriminate].
Defined.

Lemma terminal_run_final_witness :
  ms_runs (w_st (play [OpCancelRun the_run (mkCancelRequest "" ""); OpReconcile 1000 10] succeeded_world)) !! the_run =
  Some (run_in succeeded_world the_run).
Proof.
  apply (terminal_run_final succeeded_world); [demo_reach|demo_ops|vm_compute; reflexivity..].
Defined.

Lemma runs_follow_lifecycle_witness :
  ∃ r', ms_runs (w_st (play [OpStart the_lease] leased_world)) !! the_run = Some r' ∧
        identity r' = identity (run_in leased_world the_run) ∧
        rtc transition (run_phase (run_in leased_world the_run)) (run_phase r') ∧
        (att_Number (run_Attempt (run_in leased_world the_run)) ≤ att_Number (run_Attempt r'))%Z.
Proof.
  apply (runs_follow_lifecycle leased_world); [demo_reach|demo_ops|vm_compute; reflexivity].
Defined.

Lemma logs_append_only_witness :
  map_get (ms_events (w_st leased_world)) the_run `prefix_of`
    map_get (ms_events (w_st (play [OpStart the_lease] leased_world))) the_run ∧
  ∀ i e, map_get (ms_events (w_st (play [OpStart the_lease] leased_world))) the_run !! i = Some e →
         ev_Sequence e = (Z.of_nat i + 1)%Z ∧ ev_RunID e = the_run.
Proof. apply (logs_append_only leased_world); [demo_reach|demo_ops]. Defined.

Lemma terminal_event_logged_witness :
  ∃ e, e ∈ map_get (ms_events (w_st failed_world)) the_run ∧ ev_Type e = "run.failed".
Proof.
  apply (terminal_event_logged failed_world the_run (run_in failed_world the_run));
    [demo_reach|vm_compute; reflexivity..].
Defined.

Lemma attempts_bounded_witness :
  ∃ q h, ms_requests (w_st retried_world) !! the_run = Some q ∧
    ms_attemptHistory (w_st retried_world) !! the_run = Some h ∧
    Z.of_nat (length h) = att_Number (run_Attempt (run_in retried_world the_run)) ∧
    (1 ≤ att_Number (run_Attempt (run_in retried_world the_run)) ≤
     Z.max 1 (retry_MaxAttempts (req_Retry q)))%Z.
Proof. apply (attempts_bounded retried_world); [demo_reach|vm_compute; reflexivity]. Defined.

Lemma late_call_strands_cancellation_witness :
  (exec (OpAcknowledgeCancellation short_lease) late_world).1 = Err (sentinel ErrInvalidLease) ∧
  ∃ r', ms_runs (w_st (play [OpReconcile 1000 10; OpClaim "node" 30]
                         (after (OpAcknowledgeCancellation short_lease) late_world))) !! the_run = Some r' ∧
        run_phase r' = (RunCancelling, AttemptQueued).
Proof.
  apply (late_call_strands_cancellation late_world the_run (run_in late_world the_run)
           (default 0%Z (att_LeaseExpiresAt (run_Attempt (run_in late_world the_run)))));
    [demo_reach| | | | | | |demo_ops]; vm_compute; first [reflexivity|discriminate].
Defined.

(** Swept before any such call, the same run is cancelled. *)
Example swept_in_time :
  phase_of (play [OpReconcile 1000 10] late_world) the_run = Some (RunCancelled, AttemptCancelled).
Proof. vm_compute. reflexivity. Qed.
