(* ===== verification/MemoryCalls.v ===== *)
(** * MemoryCalls: what single calls of the in-memory storage return

    Idempotence of submissions and reports, producer-identified events,
    claims, cancellation, recovery, reading from a cursor, listings. *)

From S2P Require Import Prelude GoStrings Json Types Matching Event Lifecycle Demo Memory MemoryEffect MemoryInv MemoryOps MemoryRuns MemoryRecover MemorySystem Scenario.

Section lemmas.
Context `{HostLaws} `{Encoder} `{Semver}.

(** From a triple to the equation of the call. *)
Lemma wp_world {A} (m : MM A) Q w : wp m Q w → ∃ res w', m w = (res, w') ∧ Q res w'.
Proof. unfold wp. destruct (m w) as [res w']. eauto. Qed.

Lemma marshal_data v j : marshal v = Ok j → default JNull (event_data v) = j.
Proof. destruct v; simpl; intros [=]; by subst. Qed.

Lemma find_prefix {A} (P : A → bool) l l' x :
  l `prefix_of` l' → List.find P l = Some x → List.find P l' = Some x.
Proof. intros [k ->]. induction l as [|y l IH]; simpl; [done|]. destruct (P y); [done|apply IH]. Qed.

Lemma find_snoc {A} (P : A → bool) l x : List.find P l = None → P x = true → List.find P (l ++ [x]) = Some x.
Proof.
  induction l as [|y l IH]; simpl; [by intros _ ->|]. destruct (P y); [done|apply IH].
Qed.

Lemma identity_not_empty att lease pid : pid ≠ "" → EventIdentity att lease [pid] ≠ "".
Proof. intros Hp. unfold EventIdentity. by rewrite bool_decide_eq_false_2. Qed.

(** In a log numbered from [k + 1], the first event behind a cursor is found by position. *)
Lemma drop_until_seq es k n :
  (∀ i e, es !! i = Some e → ev_Sequence e = (Z.of_nat i + 1 + k)%Z) →
  drop_until (n + k) es = drop (Z.to_nat n) es.
Proof.
  revert k n. induction es as [|e es IH]; intros k n Hes; simpl; [by rewrite drop_nil|].
  pose proof (Hes 0 e eq_refl) as Hseq. destruct (Z.leb_spec (ev_Sequence e) (n + k)).
  - assert (Z.to_nat n = S (Z.to_nat (n - 1))) as -> by lia. simpl.
    rewrite <- (IH (k + 1)%Z (n - 1)%Z); [f_equal; lia|].
    intros i x Hx. pose proof (Hes (S i) x Hx). lia.
  - by assert (Z.to_nat n = 0) as -> by lia.
Qed.

(** Comparison with an event recorded with the same content. *)
Lemma SameEvent_replay ty d ty0 d0 ty' v v' :
  marshal v = Ok d → SameEvent ty0 d0 ty v = Ok () →
  SameEvent ty0 d0 ty' v' = SameEvent ty (event_data v) ty' v'.
Proof.
  intros Hv. unfold SameEvent. rewrite Hv. rewrite (marshal_data _ _ Hv). intros Hs.
  destruct (_ || _) eqn:E in Hs; [done|].
  apply orb_false_iff in E as [E1%negb_false_iff%bool_decide_eq_true E2%negb_false_iff%bool_decide_eq_true].
  subst ty0. destruct (marshal v'); [|done]. by rewrite E2.
Qed.

(** An accepted producer event is in the log, under its identity, with its content. *)
Lemma appended w id att lease ty v pid :
  inv w → pid ≠ "" → (AppendEvent id att lease ty v [pid] w).1 = Ok () →
  let w1 := (AppendEvent id att lease ty v [pid] w).2 in
  ∃ e d, List.find (λ e, ev_ID e =s EventIdentity att lease [pid]) (map_get (ms_events (w_st w1)) id) = Some e ∧
         marshal v = Ok d ∧ SameEvent (ev_Type e) (ev_Data e) ty v = Ok ().
Proof.
  intros Hinv Hpid. set (i := EventIdentity att lease [pid]).
  assert (Hi : i ≠ "") by by apply identity_not_empty.
  change (wp (AppendEvent id att lease ty v [pid])
    (λ res w1, res = Ok () → ∃ e d,
       List.find (λ e, ev_ID e =s i) (map_get (ms_events (w_st w1)) id) = Some e ∧
       marshal v = Ok d ∧ SameEvent (ev_Type e) (ev_Data e) ty v = Ok ()) w).
  unfold AppendEvent. apply wp_bind. use wp_authorize. intros [r|e] w1 [S1 Ha]; [|done].
  destruct Ha as (Hr & Hid & _ & _ & _). wp_step; [by apply wp_raise|]. wp_step. apply wp_gets. fold i.
  rewrite (bool_decide_eq_false_2 _ Hi).
  destruct (List.find _ _) as [old|] eqn:Hf.
  { apply wp_lift_res. intros Hs. exists old. unfold SameEvent in *.
    destruct (marshal v) as [d|]; [|done]. exists d. done. }
  destruct (marshal v) as [d|] eqn:Hv; [|by apply wp_raise]. unfold newControlPlaneID.
  do 2 wp_step. clock_step. simpl. apply wp_appendEvent_as; [done|].
  intros w3 _ _ (e & He & Hei & Het & Hed) _. simpl in He. exists e, d. rewrite Hid in He.
  rewrite He. split_and!; [|done|].
  - apply find_snoc; [done|]. by apply bool_decide_eq_true.
  - rewrite Het, Hed. unfold SameEvent. rewrite Hv, (marshal_data _ _ Hv).
    by rewrite !bool_decide_eq_true_2.
Qed.

(** What a successful report leaves in the store. *)
Lemma completed w a res :
  inv w → (Complete a res w).1 = Ok () →
  let w1 := (Complete a res w).2 in
  ∃ r old, ms_runs (w_st w1) !! asg_RunID a = Some r ∧ run_phase r = (RunSucceeded, AttemptSucceeded) ∧
    run_Result r = Some old ∧ (old = res ∨ SameValue (AnyResult old) (AnyResult res) = true) ∧
    lease_matches r (asg_AttemptID a) (asg_LeaseToken a) = true.
Proof.
  intros Hinv.
  change (wp (Complete a res) (λ out w1, out = Ok () → ∃ r old,
    ms_runs (w_st w1) !! asg_RunID a = Some r ∧ run_phase r = (RunSucceeded, AttemptSucceeded) ∧
    run_Result r = Some old ∧ (old = res ∨ SameValue (AnyResult old) (AnyResult res) = true) ∧
    lease_matches r (asg_AttemptID a) (asg_LeaseToken a) = true) w).
  unfold Complete, find_run. wp_step. apply wp_gets.
  destruct (ms_runs (w_st w) !! asg_RunID a) as [r|] eqn:Hr; [|by apply wp_raise].
  destruct (inv_runs _ Hinv _ _ Hr) as [Hid Hok].
  wp_step; [by apply wp_raise|]. apply negb_false_iff in E. wp_step.
  { apply andb_true_iff in E0 as [E1%bool_decide_eq_true E2%bool_decide_eq_true].
    destruct (run_Result r) as [old|] eqn:Hres; [|by apply wp_raise].
    destruct (SameValue _ _) eqn:Hsv; [|by apply wp_raise]. apply wp_ret. intros _. exists r, old.
    unfold run_phase. rewrite E1, E2. by split_and!; auto. }
  wp_step. apply wp_lease_over; [|done]. intros b w1 S1 Hst.
  wp_step; [by apply wp_raise|]. wp_step; [by apply wp_raise|]. wp_step; [by apply wp_raise|].
  apply negb_false_iff, bool_decide_eq_true in E2. apply bool_decide_eq_false in E3.
  clock_step. set (now := now_at _). set (w2 := mkWorld _ _).
  assert (S2 : stays w w2) by (eapply stays_later; [exact S1|done|simpl; lia]).
  rewrite <- Hid in Hr.
  assert (Hr2 : ms_runs (w_st w2) !! run_ID r = Some r) by (simpl; by rewrite Hst).
  assert (Hp : run_phase r = (RunRunning, AttemptRunning)).
  { destruct (held_phase _ r Hok) as [Hx|?]; [by rewrite E2|done| |done]. injection Hx. congruence. }
  eapply wp_mono; [eapply (wp_settle w w2 r (succeeded r res now)); try done|].
  - by apply succeeded_change.
  - apply succeeded_ok; [|done]. eauto with relay.
  - by rewrite E2.
  - intros out w3 (_ & _ & E4) _. exists (succeeded r res now), res. rewrite <- Hid.
    split_and!; [by eauto with relay|done|done|by left|done].
Qed.

Lemma failed_report w a cause :
  inv w → (Fail a cause w).1 = Ok () →
  let w1 := (Fail a cause w).2 in
  ∃ r, ms_runs (w_st w1) !! asg_RunID a = Some r ∧ run_phase r = (RunFailed, AttemptFailed) ∧
    run_Error r = cause ∧ lease_matches r (asg_AttemptID a) (asg_LeaseToken a) = true.
Proof.
  intros Hinv.
  change (wp (Fail a cause) (λ out w1, out = Ok () → ∃ r,
    ms_runs (w_st w1) !! asg_RunID a = Some r ∧ run_phase r = (RunFailed, AttemptFailed) ∧
    run_Error r = cause ∧ lease_matches r (asg_AttemptID a) (asg_LeaseToken a) = true) w).
  unfold Fail, find_run. wp_step. apply wp_gets.
  destruct (ms_runs (w_st w) !! asg_RunID a) as [r|] eqn:Hr; [|by apply wp_raise].
  destruct (inv_runs _ Hinv _ _ Hr) as [Hid Hok].
  wp_step; [by apply wp_raise|]. apply negb_false_iff in E. wp_step.
  { apply andb_true_iff in E0 as [E1%bool_decide_eq_true E2%bool_decide_eq_true].
    case_bool_decide as Hc; [|by apply wp_raise]. apply wp_ret. intros _. exists r.
    unfold run_phase. rewrite E1, E2. by split_and!; auto. }
  wp_step. apply wp_lease_over; [|done]. intros b w1 S1 Hst.
  wp_step; [by apply wp_raise|]. wp_step; [by apply wp_raise|]. apply negb_false_iff in E2. wp_step.
  { clock_step. wp_step. apply bool_decide_eq_true in E3. rewrite <- Hid in Hr.
    apply (wp_after_finalize _ w); [by apply stays_next|simpl; by rewrite Hst|done..|].
    intros w2 S2. by apply wp_raise. }
  apply bool_decide_eq_false in E3. clock_step. set (now := now_at _). set (w2 := mkWorld _ _).
  assert (S2 : stays w w2) by (eapply stays_later; [exact S1|done|simpl; lia]).
  rewrite <- Hid in Hr.
  assert (Hr2 : ms_runs (w_st w2) !! run_ID r = Some r) by (simpl; by rewrite Hst).
  assert (Hp := held_phase _ r Hok E2 E3).
  eapply wp_mono; [eapply (wp_settle w w2 r (failed r cause now)); try done|].
  - by apply failed_change.
  - apply failed_ok; [|done]. eauto with relay.
  - intros out w3 (_ & _ & E4) _. exists (failed r cause now). rewrite <- Hid.
    split_and!; [by eauto with relay|done|done|done].
Qed.

Lemma SameValue_replay a b c : SameValue a b = true → SameValue a c = SameValue b c.
Proof.
  unfold SameValue. destruct (marshal a); [|done]. destruct (marshal b); [|done].
  intros E%bool_decide_eq_true. by rewrite E.
Qed.

Lemma play_terminal w ops id r :
  inv w → ops_ok ops → ms_runs (w_st w) !! id = Some r → terminal_phase (run_phase r) = true →
  ms_runs (w_st (play ops w)) !! id = Some r.
Proof.
  intros Hi Hok Hr Ht. destruct (play_inv ops w Hok Hi) as [_ [_ HR _ _ _ _ _]].
  destruct (HR id r Hr) as (r' & Hr' & Hch). by rewrite (rc_terminal _ _ _ _ Hch Ht) in Hr'.
Qed.

Lemma after_complete w a res : inv w → inv (Complete a res w).2.
Proof. intros Hi. exact (stays_inv _ _ (Complete_keeps a res w Hi)). Qed.
Lemma after_fail w a c : inv w → inv (Fail a c w).2.
Proof. intros Hi. exact (stays_inv _ _ (Fail_keeps a c w Hi)). Qed.
End lemmas.

Section calls.
Context `{HostLaws} `{Encoder} `{Semver}.

(** C36: a claim hands out a queued run the node is able to run, under a
    fresh lease token and with the TTL asked for, together with the submitted
    request, and the node stays within its capacity.  Otherwise it answers
    ErrNotFound for an unknown node, and ErrNoAssignment only when the node is
    full or no run that is due matches it. *)
Theorem claim_outcome w n ttl :
  reachable w →
  match (Claim n ttl w).1 with
  | Ok a => ∃ now, claimed w (Claim n ttl w).2 n ttl now a
  | Err e =>
      (e = sentinel ErrNotFound ∧ ms_nodes (w_st w) !! n = None) ∨
      e = sentinel ErrNoAssignment ∧ ∃ nd, ms_nodes (w_st w) !! n = Some nd ∧
        ((reg_Capacity (node_Registration nd) ≤ node_Active nd)%Z ∨
         nothing_for (w_st (Claim n ttl w).2) (now_at (w_tick w)) n)
  end.
Proof.
  intros Hw. destruct (wp_Claim w n ttl (reachable_inv _ Hw)) as [_ Hc]. exact Hc.
Qed.

(** C37: submitting again under the same tenant, project and key returns the
    run of the first submission, as it then is, and writes nothing. *)
Theorem submit_idempotent w q r ops q' :
  reachable w → (Submit q w).1 = Ok r → ops_ok ops → request_scope q' = request_scope q →
  let w' := play ops (Submit q w).2 in
  ∃ r', ms_runs (w_st w') !! run_ID r = Some r' ∧ Submit q' w' = (Ok r', w').
Proof.
  intros Hw Hs Hok Hsc w'.
  destruct (wp_Submit w q (reachable_inv _ Hw)) as (S1 & r0 & Hr0 & Hin & Hscr).
  rewrite Hs in Hr0. injection Hr0 as <-. set (w1 := (Submit q w).2) in *.
  destruct (play_inv ops w1 Hok (stays_inv _ _ S1)) as [I2 [_ R2 _ _ IX2 _ _]].
  destruct (R2 _ _ Hin) as (r' & Hr' & Hch). exists r'. split; [done|].
  pose proof (inv_scope _ (stays_inv _ _ S1) _ _ Hin) as Hidx.
  assert (Hidx2 : ms_byIdempotency (w_st w') !! run_scope r = Some (run_ID r))
    by exact (lookup_weaken _ _ _ _ Hidx IX2).
  destruct (inv_runs _ I2 _ _ Hr') as [Hid' Hok'].
  assert (Hne : run_ID r ≠ "").
  { rewrite <- Hid'. eapply issued_not_empty; [|exact (ok_id _ _ Hok')]. done. }
  unfold Submit, gets, mbind, M_bind, map_get. simpl. rewrite Hsc, <- Hscr.
  rewrite Hidx2. simpl. rewrite (bool_decide_eq_false_2 _ Hne). simpl.
  change (ms_runs (w_st w') !! run_ID r = Some r') in Hr'.
  unfold run_at, find_run, gets, mbind, M_bind. by rewrite Hr'.
Qed.

(** Submissions whose tenant, project or key differ get different runs,
    provided the tenants and projects hold no NUL byte, the separator of the
    scope. *)
Theorem submit_separate w q1 r1 ops q2 r2 :
  reachable w → ops_ok ops →
  nul_free (req_TenantID q1) → nul_free (req_ProjectID q1) →
  nul_free (req_TenantID q2) → nul_free (req_ProjectID q2) →
  (Submit q1 w).1 = Ok r1 → (Submit q2 (play ops (Submit q1 w).2)).1 = Ok r2 →
  run_ID r1 = run_ID r2 →
  req_TenantID q1 = req_TenantID q2 ∧ req_ProjectID q1 = req_ProjectID q2 ∧
  req_IdempotencyKey q1 = req_IdempotencyKey q2.
Proof.
  intros Hw Hok N1 N2 N3 N4 Hs1 Hs2 He.
  destruct (wp_Submit w q1 (reachable_inv _ Hw)) as (S1 & r0 & Hr0 & Hin1 & Hsc1).
  rewrite Hs1 in Hr0. injection Hr0 as <-. set (w1 := (Submit q1 w).2) in *.
  destruct (play_inv ops w1 Hok (stays_inv _ _ S1)) as [I2 [_ R2 _ _ _ _ _]].
  destruct (wp_Submit _ q2 I2) as (S3 & r0 & Hr0 & Hin2 & Hsc2).
  rewrite Hs2 in Hr0. injection Hr0 as <-.
  destruct (R2 _ _ Hin1) as (r1' & Hr1' & Hc1).
  destruct (stays_run _ _ _ _ S3 Hr1') as (r1'' & Hr1'' & Hc2).
  rewrite He in Hr1''. assert (r1'' = r2) as -> by congruence.
  pose proof (rc_identity _ _ _ _ Hc1) as E1. pose proof (rc_identity _ _ _ _ Hc2) as E2.
  assert (Hscope : request_scope q1 = request_scope q2).
  { rewrite <- Hsc1, <- Hsc2. unfold run_scope. unfold identity in *. congruence. }
  unfold request_scope, idempotencyScope in Hscope.
  apply nul_sep_inj in Hscope as [-> Hscope]; [|done..].
  by apply nul_sep_inj in Hscope as [-> ->].
Qed.

(** An event that a producer identified and delivered is recorded once.
    Delivering the identifier again under the same lease leaves the store as
    the authorization left it; the answer compares the new content with the
    recorded one. *)
Theorem producer_event_once w id att lease ty v pid ops ty' v' :
  reachable w → pid ≠ "" → (AppendEvent id att lease ty v [pid] w).1 = Ok () → ops_ok ops →
  let w' := play ops (AppendEvent id att lease ty v [pid] w).2 in
  match (authorize id att lease w').1 with
  | Ok r => att_Status (run_Attempt r) = AttemptRunning →
      AppendEvent id att lease ty' v' [pid] w' =
        (SameEvent ty (event_data v) ty' v', (authorize id att lease w').2) ∧
      w_st (authorize id att lease w').2 = w_st w'
  | Err e => (AppendEvent id att lease ty' v' [pid] w').1 = Err e
  end.
Proof.
  intros Hw Hpid Ha Hok w'. pose proof (reachable_inv _ Hw) as Hinv.
  destruct (appended _ _ _ _ _ _ _ Hinv Hpid Ha) as (e & d & Hf & Hv & Hsame).
  set (w1 := (AppendEvent id att lease ty v [pid] w).2) in *.
  assert (I1 : inv w1) by exact (stays_inv _ _ (AppendEvent_keeps id att lease ty v [pid] w Hinv)).
  destruct (play_inv ops w1 Hok I1) as [I2 [_ _ E2 _ _ _ _]]. fold w' in I2, E2.
  pose proof (wp_authorize w' id att lease I2) as Hauth. unfold wp in Hauth.
  unfold AppendEvent, mbind, M_bind.
  destruct (authorize id att lease w') as [[r|err] w2]; cbn [fst snd] in *; [|done].
  destruct Hauth as (_ & _ & _ & _ & Hst & _). intros Hrun.
  rewrite (bool_decide_eq_true_2 _ Hrun). cbn [negb]. unfold gets. cbn zeta. rewrite Hst.
  rewrite (bool_decide_eq_false_2 _ (identity_not_empty att lease pid Hpid)).
  rewrite (find_prefix _ _ _ _ (E2 id) Hf). split; [|done].
  unfold lift_res. by rewrite (SameEvent_replay ty d _ _ _ v).
Qed.

(** A committed result is reported once.  A second report under the same
    lease, at any later time, writes nothing; it succeeds when its result is
    the committed one up to the order of object members, and is refused with
    ErrInvalidTransition when it differs. *)
Theorem completion_once w a res ops res' :
  reachable w → (Complete a res w).1 = Ok () → ops_ok ops →
  let w' := play ops (Complete a res w).2 in
  Complete a res' w' =
    (if SameValue (AnyResult res) (AnyResult res') then Ok ()
     else Err (conflict "completion result differs from the committed result"), w').
Proof.
  intros Hw Hc Hok w'. pose proof (reachable_inv _ Hw) as Hinv.
  destruct (completed _ _ _ Hinv Hc) as (r & old & Hr & Hp & Hres & Hold & Hl).
  assert (Hr' : ms_runs (w_st w') !! asg_RunID a = Some r).
  { apply play_terminal; [by apply after_complete|done|done|by rewrite Hp]. }
  unfold Complete, find_run, gets, mbind, M_bind. rewrite Hr', Hl. cbn [negb].
  injection Hp as H1' H2'. rewrite H1', H2', Hres, !bool_decide_eq_true_2 by done. cbn [andb].
  assert (SameValue (AnyResult old) (AnyResult res') = SameValue (AnyResult res) (AnyResult res')) as ->.
  { destruct Hold as [->|Hold]; [done|by apply SameValue_replay]. }
  by destruct (SameValue (AnyResult res) _).
Qed.

(** A committed failure is reported once: the same cause again is
    accepted without a write, another cause is refused. *)
Theorem failure_once w a cause ops cause' :
  reachable w → (Fail a cause w).1 = Ok () → ops_ok ops →
  let w' := play ops (Fail a cause w).2 in
  Fail a cause' w' =
    (if cause =s cause' then Ok () else Err (conflict "failure cause differs from the committed cause"), w').
Proof.
  intros Hw Hc Hok w'. pose proof (reachable_inv _ Hw) as Hinv.
  destruct (failed_report _ _ _ Hinv Hc) as (r & Hr & Hp & He & Hl).
  assert (Hr' : ms_runs (w_st w') !! asg_RunID a = Some r).
  { apply play_terminal; [by apply after_fail|done|done|by rewrite Hp]. }
  unfold Fail, find_run, gets, mbind, M_bind. rewrite Hr', Hl. simpl.
  injection Hp as H1' H2'. rewrite H1', H2', He. simpl. by destruct (bool_decide _).
Qed.

(** Recovery never fails, recovers no more than its limit, and a limit
    of zero or less changes nothing. *)
Theorem reconcile_total w now limit :
  reachable w →
  ∃ k, (Reconcile now limit w).1 = Ok k ∧ (0 ≤ k ≤ Z.max 0 limit)%Z ∧
       ((limit ≤ 0)%Z → w_st (Reconcile now limit w).2 = w_st w).
Proof. intros Hw. by destruct (wp_Reconcile w now limit (reachable_inv _ Hw)) as [_ ?]. Qed.

Lemma read_log w id r n :
  inv w → ms_runs (w_st w) !! id = Some r →
  EventsAfter id n w = (Ok (drop (Z.to_nat n) (map_get (ms_events (w_st w)) id)), w).
Proof.
  intros Hw Hr. unfold EventsAfter, find_run, gets, mbind, M_bind. rewrite Hr. unfold mret, M_ret.
  do 2 f_equal. pose proof (inv_events _ Hw id) as He. revert He.
  generalize (map_get (ms_events (w_st w)) id). intros es He. unfold events_ok in He.
  replace n with (n + 0)%Z at 1 by lia. apply drop_until_seq. intros i e Hi.
  destruct (He i e Hi). lia.
Qed.

(** Reading the log after a cursor returns exactly the events behind it,
    so a reader that resumes from the last sequence it saw misses nothing and
    sees nothing twice. *)
Theorem events_resume w id r n :
  reachable w → ms_runs (w_st w) !! id = Some r →
  EventsAfter id n w = (Ok (drop (Z.to_nat n) (map_get (ms_events (w_st w)) id)), w).
Proof. intros Hw. by apply read_log, reachable_inv. Qed.

(** A cancellation request.  A run that is terminal or already asked to
    stop is returned as it is and nothing is written; a queued run is
    cancelled at once; a run held by a node is marked [cancelling], with the
    reason of the request, until the node acknowledges. *)
Theorem cancel_outcome w id c r :
  reachable w → ms_runs (w_st w) !! id = Some r →
  ∃ r', (CancelRun id c w).1 = Ok r' ∧ ms_runs (w_st (CancelRun id c w).2) !! id = Some r' ∧
    if terminalRun (run_Status r) || negb (run_CancelRequestedAt r =s None)
    then r' = r ∧ w_st (CancelRun id c w).2 = w_st w
    else run_CancelReason r' = cancel_Reason c ∧ is_Some (run_CancelRequestedAt r') ∧
         run_phase r' = match att_Status (run_Attempt r) with
                        | AttemptQueued => (RunCancelled, AttemptCancelled)
                        | s => (RunCancelling, s)
                        end.
Proof.
  intros Hw Hr. pose proof (reachable_inv _ Hw) as Hinv. destruct (inv_runs _ Hinv _ _ Hr) as [<- Hok].
  change (wp (CancelRun (run_ID r) c) (λ res w1,
    ∃ r', res = Ok r' ∧ ms_runs (w_st w1) !! run_ID r = Some r' ∧
    if terminalRun (run_Status r) || negb (run_CancelRequestedAt r =s None)
    then r' = r ∧ w_st w1 = w_st w
    else run_CancelReason r' = cancel_Reason c ∧ is_Some (run_CancelRequestedAt r') ∧
         run_phase r' = match att_Status (run_Attempt r) with
                        | AttemptQueued => (RunCancelled, AttemptCancelled)
                        | s => (RunCancelling, s)
                        end) w).
  unfold CancelRun, find_run. wp_step. apply wp_gets. rewrite Hr. clock_step.
  apply wp_cancelRunLocked; [done|..].
  - intros w1 Ho ->. exists r. split_and!; [done..|].
    rewrite (proj2 (orb_true_iff _ _)); [done|]. destruct Ho as [?|[x Hx]]; [by left|right].
    by rewrite Hx.
  - intros w1 Ht Hc Ha E. eexists. split_and!; [done|by eauto with relay|].
    rewrite Ht, Hc, Ha. simpl. eauto.
  - intros w1 Ht Hc Ha E. eexists. split_and!; [done|by eauto with relay|].
    rewrite Ht, Hc. simpl. split_and!; [done|eauto|].
    unfold run_phase. simpl. by destruct (att_Status (run_Attempt r)).
Qed.

(** An interaction is answered once: after a resolution, another one
    changes nothing and is refused, by ErrInvalidTransition in its scope. *)
Theorem interaction_resolved_once w id response tenant project i response' tenant' project' :
  reachable w → (ResolveInteraction id response tenant project w).1 = Ok i →
  let w' := (ResolveInteraction id response tenant project w).2 in
  ms_interactions (w_st w') !! id = Some i ∧ ia_Response i = response ∧
  ∃ e, ResolveInteraction id response' tenant' project' w' = (Err e, w') ∧
       (e = sentinel ErrInvalidTransition ∨ e = sentinel ErrNotFound).
Proof.
  intros Hw Hi. pose proof (reachable_inv _ Hw) as Hinv.
  destruct (wp_ResolveInteraction w id response tenant project Hinv) as [S1 Hres].
  rewrite Hi in Hres. destruct Hres as (Hin & Hst & Hresp). intros w'.
  split_and!; [done..|]. destruct (inv_interactions _ (stays_inv _ _ S1) _ _ Hin) as [r Hr].
  unfold ResolveInteraction, run_at, find_run, gets, mbind, M_bind. fold w' in Hin, Hr.
  rewrite Hin, Hr. unfold mret, M_ret, raise.
  destruct (negb _ || _); [eauto|]. rewrite Hst. simpl. eauto.
Qed.

(** A listing shows the runs of the asked tenant, project and session
    and no others, newest first, at most [list_limit] of them; no run in
    scope is left out for another reason. *)
Theorem list_runs_scoped w tenant project session limit :
  ∃ all, (ListRuns tenant project session limit w).1 = Ok (take (list_limit limit) all) ∧
    StronglySorted newer all ∧
    (∀ r, r ∈ all ↔ ∃ id, ms_runs (w_st w) !! id = Some r ∧
       (tenant = "" ∨ run_TenantID r = tenant) ∧ (project = "" ∨ run_ProjectID r = project) ∧
       (session = "" ∨ run_SessionID r = session)) ∧
    w_st (ListRuns tenant project session limit w).2 = w_st w.
Proof.
  unfold ListRuns, range_map, gets, host, mbind, M_bind, mret, M_ret. simpl.
  set (ids := range_at _ _). set (P := λ r : Run, _ && _).
  eexists. split_and!; [done| | |done].
  - apply Sorted_StronglySorted; [intros a b c; unfold newer; lia|].
    apply Sorted_merge_sort. intros a b. unfold newer. lia.
  - intros r. rewrite merge_sort_Permutation, list_elem_of_In, filter_In, <- list_elem_of_In,
      list_elem_of_omap.
    assert (HP : P r = true ↔ (tenant = "" ∨ run_TenantID r = tenant) ∧
               (project = "" ∨ run_ProjectID r = project) ∧ (session = "" ∨ run_SessionID r = session)).
    { unfold P, in_scope. rewrite !andb_true_iff, !orb_true_iff, !bool_decide_eq_true. tauto. }
    rewrite HP. split.
    + intros [(id & _ & Hid) Hr]. eauto.
    + intros (id & Hid & Hr). split; [|done]. exists id. split; [|done].
      unfold ids. rewrite range_perm, elem_of_elements. by apply elem_of_dom.
Qed.
End calls.

(** ** The histories of Scenario *)
Lemma claim_outcome_witness :
  match (Claim "node" 30 queued).1 with
  | Ok a => ∃ now, claimed queued (Claim "node" 30 queued).2 "node" 30 now a
  | Err e =>
      (e = sentinel ErrNotFound ∧ ms_nodes (w_st queued) !! "node" = None) ∨
      e = sentinel ErrNoAssignment ∧ ∃ nd, ms_nodes (w_st queued) !! "node" = Some nd ∧
        ((reg_Capacity (node_Registration nd) ≤ node_Active nd)%Z ∨
         nothing_for (w_st (Claim "node" 30 queued).2) (now_at (w_tick queued)) "node")
  end.
Proof. apply (claim_outcome queued). demo_reach. Defined.

Definition first_submit := Submit (demo_request "k" "") registered.

Lemma submit_idempotent_witness :
  let w' := play [OpClaim "node" 30] first_submit.2 in
  ∃ r', ms_runs (w_st w') !! run_ID (ok_of no_run first_submit.1) = Some r' ∧
        Submit (demo_request "k" "10s") w' = (Ok r', w').
Proof.
  apply (submit_idempotent registered (demo_request "k" "") (ok_of no_run first_submit.1)
           [OpClaim "node" 30]); [demo_reach|vm_compute; reflexivity|demo_ops|vm_compute; reflexivity].
Defined.

Definition second_submit := Submit (demo_request "k" "10s") (play [OpNodes] first_submit.2).

Lemma submit_separate_witness :
  req_TenantID (demo_request "k" "") = req_TenantID (demo_request "k" "10s") ∧
  req_ProjectID (demo_request "k" "") = req_ProjectID (demo_request "k" "10s") ∧
  req_IdempotencyKey (demo_request "k" "") = req_IdempotencyKey (demo_request "k" "10s").
Proof.
  apply (submit_separate registered (demo_request "k" "") (ok_of no_run first_submit.1) [OpNodes]
           (demo_request "k" "10s") (ok_of no_run second_submit.1));
    [demo_reach|demo_ops|vm_compute; reflexivity..].
Defined.

Definition deliver_once :=
  AppendEvent the_run (asg_AttemptID the_lease) (asg_LeaseToken the_lease) "log" (AnyJson (JStr "hi")) ["p1"] running.

Lemma producer_event_once_witness :
  let w' := play [OpNodes] deliver_once.2 in
  match (authorize the_run (asg_AttemptID the_lease) (asg_LeaseToken the_lease) w').1 with
  | Ok r => att_Status (run_Attempt r) = AttemptRunning →
      AppendEvent the_run (asg_AttemptID the_lease) (asg_LeaseToken the_lease) "log" (AnyJson (JStr "ho")) ["p1"] w' =
        (SameEvent "log" (event_data (AnyJson (JStr "hi"))) "log" (AnyJson (JStr "ho")),
         (authorize the_run (asg_AttemptID the_lease) (asg_LeaseToken the_lease) w').2) ∧
      w_st (authorize the_run (asg_AttemptID the_lease) (asg_LeaseToken the_lease) w').2 = w_st w'
  | Err e =>
      (AppendEvent the_run (asg_AttemptID the_lease) (asg_LeaseToken the_lease) "log" (AnyJson (JStr "ho")) ["p1"] w').1
        = Err e
  end.
Proof.
  apply (producer_event_once running the_run (asg_AttemptID the_lease) (asg_LeaseToken the_lease) "log"
           (AnyJson (JStr "hi")) "p1" [OpNodes] "log" (AnyJson (JStr "ho")));
    [demo_reach|discriminate|vm_compute; reflexivity|demo_ops].
Defined.

Definition other_result : Result := mkResult "other" None [].

Lemma completion_once_witness :
  let w' := play [OpReconcile 1000 5] (Complete the_lease demo_result running).2 in
  Complete the_lease other_result w' =
    (if SameValue (AnyResult demo_result) (AnyResult other_result) then Ok ()
     else Err (conflict "completion result differs from the committed result"), w').
Proof.
  apply (completion_once running the_lease demo_result [OpReconcile 1000 5] other_result);
    [demo_reach|vm_compute; reflexivity|demo_ops].
Defined.

Lemma failure_once_witness :
  let w' := play [OpReconcile 1000 5] (Fail the_lease "boom" running).2 in
  Fail the_lease "bang" w' =
    (if "boom" =s "bang" then Ok () else Err (conflict "failure cause differs from the committed cause"), w').
Proof.
  apply (failure_once running the_lease "boom" [OpReconcile 1000 5] "bang");
    [demo_reach|vm_compute; reflexivity|demo_ops].
Defined.

Lemma reconcile_total_witness :
  ∃ k, (Reconcile 1000 1 running).1 = Ok k ∧ (0 ≤ k ≤ Z.max 0 1)%Z ∧
       ((1 ≤ 0)%Z → w_st (Reconcile 1000 1 running).2 = w_st running).
Proof. apply (reconcile_total running 1000 1). demo_reach. Defined.

Lemma events_resume_witness :
  EventsAfter the_run 2 running = (Ok (drop (Z.to_nat 2) (map_get (ms_events (w_st running)) the_run)), running).
Proof. apply (events_resume running the_run (run_in running the_run)); [demo_reach|vm_compute; reflexivity]. Defined.

Lemma cancel_outcome_witness :
  ∃ r', (CancelRun the_run (mkCancelRequest "stop" "") running).1 = Ok r' ∧
        ms_runs (w_st (CancelRun the_run (mkCancelRequest "stop" "") running).2) !! the_run = Some r' ∧
    if terminalRun (run_Status (run_in running the_run)) ||
       negb (run_CancelRequestedAt (run_in running the_run) =s None)
    then r' = run_in running the_run ∧ w_st (CancelRun the_run (mkCancelRequest "stop" "") running).2 = w_st running
    else run_CancelReason r' = cancel_Reason (mkCancelRequest "stop" "") ∧ is_Some (run_CancelRequestedAt r') ∧
         run_phase r' = match att_Status (run_Attempt (run_in running the_run)) with
                        | AttemptQueued => (RunCancelled, AttemptCancelled)
                        | s => (RunCancelling, s)
                        end.
Proof. apply (cancel_outcome running the_run); [demo_reach|vm_compute; reflexivity]. Defined.

Definition answered := ResolveInteraction the_question (Some (JBool true)) "" "" asking.

Lemma interaction_resolved_once_witness :
  let w' := (ResolveInteraction the_question (Some (JBool true)) "" "" asking).2 in
  ms_interactions (w_st w') !! the_question = Some (ok_of (question_in asking) answered.1) ∧
  ia_Response (ok_of (question_in asking) answered.1) = Some (JBool true) ∧
  ∃ e, ResolveInteraction the_question None "tenant" "project" w' = (Err e, w') ∧
       (e = sentinel ErrInvalidTransition ∨ e = sentinel ErrNotFound).
Proof.
  apply (interaction_resolved_once asking the_question (Some (JBool true)) "" ""
           (ok_of (question_in asking) answered.1) None "tenant" "project");
    [demo_reach|vm_compute; reflexivity].
Defined.

Lemma list_runs_scoped_witness :
  ∃ all, (ListRuns "tenant" "" "" 10 running).1 = Ok (take (list_limit 10) all) ∧
    StronglySorted newer all ∧
    (∀ r, r ∈ all ↔ ∃ id, ms_runs (w_st running) !! id = Some r ∧
       ("tenant" = "" ∨ run_TenantID r = "tenant") ∧ ("" = "" ∨ run_ProjectID r = "") ∧
       ("" = "" ∨ run_SessionID r = "")) ∧
    w_st (ListRuns "tenant" "" "" 10 running).2 = w_st running.
Proof. apply (list_runs_scoped running "tenant" "" "" 10). Defined.
