(* ===== verification/Service.v ===== *)
(** * Service: the control-plane service over any storage (controlplane/service.go, access.go, blob.go)

    [Storage] is the interface the service is written against, one operation
    per method it calls; [memory_storage] makes MemoryStorage an instance.  The
    service adds what the storage does not do: the access scope of the caller,
    validation and defaults of requests, the online state of nodes, and the
    blobs of artifacts.  A service call works on the pair of the storage and
    the blob store. *)

From S2P Require Import Prelude GoStrings Json Types Matching Event Memory.

(** ** Storage and BlobStore *)
Class Storage (S : Type) := {
  st_RegisterNode : NodeRegistration → M S Node;
  st_Heartbeat : string → M S Node;
  st_Submit : Request → M S Run;
  st_Claim : string → Z → M S Assignment;
  st_Renew : Assignment → Z → M S LeaseUpdate;
  st_Reconcile : Z → Z → M S Z;
  st_CancelRun : string → CancelRequest → M S Run;
  st_AcknowledgeCancellation : Assignment → M S ();
  st_Start : Assignment → M S ();
  st_AppendEvent : string → string → string → string → Any → list string → M S ();
  st_Complete : Assignment → Result → M S ();
  st_Fail : Assignment → string → M S ();
  st_GetRun : string → M S Run;
  st_Events : string → M S (list Event);
  st_EventsAfter : string → Z → M S (list Event);
  st_Nodes : M S (list Node);
  st_AddArtifact : Assignment → Artifact → M S ();
  st_Artifacts : string → M S (list Artifact);
  st_Artifact : string → M S Artifact;
  st_ReserveCapability : Assignment → string → string → CapabilityRequest → M S CapabilityReservation;
  st_FinishCapability : Assignment → CapabilityReservation → CapabilityResult → string → M S ();
  st_ListRuns : string → string → string → Z → M S (list Run);
  st_Attempts : string → M S (list Attempt);
  st_CreateInteraction : Assignment → InteractionRequest → M S Interaction;
  st_GetInteraction : Assignment → string → M S Interaction;
  st_Interactions : string → M S (list Interaction);
  st_ResolveInteraction : string → option Json → string → string → M S Interaction
}.

#[export] Instance memory_storage `{Host} `{Encoder} `{Semver} : Storage MemoryStorage := {|
  st_RegisterNode := Memory.RegisterNode; st_Heartbeat := Memory.Heartbeat;
  st_Submit := Memory.Submit; st_Claim := Memory.Claim; st_Renew := Memory.Renew;
  st_Reconcile := Memory.Reconcile; st_CancelRun := Memory.CancelRun;
  st_AcknowledgeCancellation := Memory.AcknowledgeCancellation; st_Start := Memory.Start;
  st_AppendEvent := Memory.AppendEvent; st_Complete := Memory.Complete; st_Fail := Memory.Fail;
  st_GetRun := Memory.GetRun; st_Events := Memory.Events; st_EventsAfter := Memory.EventsAfter;
  st_Nodes := Memory.Nodes; st_AddArtifact := Memory.AddArtifact;
  st_Artifacts := Memory.Artifacts; st_Artifact := Memory.Artifact_;
  st_ReserveCapability := Memory.ReserveCapability;
  st_FinishCapability := Memory.FinishCapability; st_ListRuns := Memory.ListRuns;
  st_Attempts := Memory.Attempts; st_CreateInteraction := Memory.CreateInteraction;
  st_GetInteraction := Memory.GetInteraction; st_Interactions := Memory.Interactions;
  st_ResolveInteraction := Memory.ResolveInteraction
|}.

(** A reader handed to an upload: its content, or the error reading ends with. *)
Definition Reader : Type := Res string.

Class BlobStore (B : Type) := {
  blob_Put : string → Reader → M B Z;
  blob_Open : string → M B string;
  blob_Delete : string → M B ()
}.

Module MemoryBlobStore.

Abbreviation State := (gmap string string).

Definition Put (key : string) (reader : Reader) : M State Z :=
  value ← lift_res reader;
  modify (<[key := value]>) ;;
  mret (Z.of_nat (String.length value)).

Definition Open (key : string) : M State string :=
  v ← gets (λ s, s !! key);
  match v with None => raise (sentinel ErrNotFound) | Some value => mret value end.

Definition Delete (key : string) : M State () :=
  v ← gets (λ s : State, s !! key);
  match v with
  | None => raise (errors_New "relay blob: not found")
  | Some _ => modify (delete key)
  end.

End MemoryBlobStore.

#[export] Instance memory_blobs : BlobStore MemoryBlobStore.State := {|
  blob_Put := MemoryBlobStore.Put; blob_Open := MemoryBlobStore.Open;
  blob_Delete := MemoryBlobStore.Delete
|}.

(** ** Access *)
Inductive AccessKind := AccessHost | AccessNode | AccessOther (kind : string).
#[export] Instance access_kind_eq_dec : EqDecision AccessKind.
Proof. solve_decision. Defined.
Record AccessScope := mkScope {
  sc_Kind : AccessKind; sc_Subject : string; sc_TenantID : string; sc_ProjectID : string }.
Definition zero_scope : AccessScope := mkScope (AccessOther "") "" "" "".

(** The caller's scope in the context; none when the server runs without authentication. *)
Definition Ctx : Type := option AccessScope.
Definition AccessFrom (ctx : Ctx) : AccessScope := default zero_scope ctx.

Definition authorizeRunScope (ctx : Ctx) (run : Run) : Res () :=
  match ctx with
  | None => Ok ()
  | Some scope =>
      if sc_Kind scope =s AccessNode then Ok ()
      else if negb (sc_TenantID scope =s "") && negb (sc_TenantID scope =s run_TenantID run)
      then Err (sentinel ErrNotFound)
      else if negb (sc_ProjectID scope =s "") && negb (sc_ProjectID scope =s run_ProjectID run)
      then Err (sentinel ErrNotFound)
      else Ok ()
  end.

(** [RuntimeInstanceID] of controlplane/types.go. *)
Definition RuntimeInstanceID (nodeID provider : string) : string :=
  TrimSpace nodeID +:+ "/" +:+ TrimSpace provider.

(** ** Options *)
Record Options := mkOptions { opt_LeaseTTL : Z; opt_NodeOfflineAfter : Z }.
Definition second : Z := 1000000000.
Definition NewWithOptions (options : Options) : Options :=
  mkOptions (if (opt_LeaseTTL options <=? 0)%Z then (30 * second)%Z else opt_LeaseTTL options)
            (if (opt_NodeOfflineAfter options <=? 0)%Z then (15 * second)%Z
             else opt_NodeOfflineAfter options).

Section service.
Context `{Host} {S B : Type} `{Storage S} `{BlobStore B}.
Context (service : Options).

Record ServiceState := mkService { sv_storage : S; sv_blobs : B }.
Abbreviation MS := (M ServiceState).

Definition on_storage {A} (m : M S A) : MS A := λ w,
  let '(r, w') := m (mkWorld (w_tick w) (sv_storage (w_st w))) in
  (r, mkWorld (w_tick w') (mkService (w_st w') (sv_blobs (w_st w)))).
Definition on_blobs {A} (m : M B A) : MS A := λ w,
  let '(r, w') := m (mkWorld (w_tick w) (sv_blobs (w_st w))) in
  (r, mkWorld (w_tick w') (mkService (sv_storage (w_st w)) (w_st w'))).

(** ** Nodes *)

(** The loop over the runtimes: default instance IDs, no duplicates. *)
Fixpoint name_runtimes (nodeID : string) (seen : gset string) (runtimes : list Runtime)
    : option (list Runtime) :=
  match runtimes with
  | [] => Some []
  | runtime :: rest =>
      let runtime := if rt_ID runtime =s ""
                     then runtime <| rt_ID := RuntimeInstanceID nodeID (rt_Provider runtime) |>
                     else runtime in
      if bool_decide (rt_ID runtime ∈ seen) then None
      else rest ← name_runtimes nodeID ({[rt_ID runtime]} ∪ seen) rest; Some (runtime :: rest)
  end.

Definition RegisterNode (registration : NodeRegistration) : MS Node :=
  if negb (reg_ProtocolVersion registration =s ProtocolVersion)
  then raise (wrapf ErrIncompatibleProtocol
                ("server=" +:+ ProtocolVersion +:+ " node=" +:+ fmt_quote (reg_ProtocolVersion registration)))
  else if (reg_ID registration =s "") || (length (reg_Runtimes registration) =s 0)
  then raise (errors_New "node ID and at least one runtime are required")
  else
    let registration := if (reg_Capacity registration <=? 0)%Z
                        then registration <| reg_Capacity := 1%Z |> else registration in
    match name_runtimes (reg_ID registration) ∅ (reg_Runtimes registration) with
    | None => raise (errors_New "runtime instance IDs must be unique within a node")
    | Some runtimes => on_storage (st_RegisterNode (registration <| reg_Runtimes := runtimes |>))
    end.

Definition Heartbeat (nodeID : string) : MS Node := on_storage (st_Heartbeat nodeID).

Definition Nodes : MS (list Node) :=
  nodes ← on_storage st_Nodes;
  now ← time_now;
  mret (map (λ node, mkNode (node_Registration node) (node_Active node) (node_LastSeen node)
                       (if (opt_NodeOfflineAfter service <? now - node_LastSeen node)%Z
                        then NodeOffline else NodeOnline)) nodes).

(** ** Submission *)
Definition Submit (ctx : Ctx) (request : Request) : MS Run :=
  let request := match ctx with
                 | Some scope =>
                     if sc_Kind scope =s AccessHost
                     then request <| req_TenantID := sc_TenantID scope |>
                                  <| req_ProjectID := sc_ProjectID scope |>
                     else request
                 | None => request
                 end in
  if (req_AgentID request =s "") || (req_IdempotencyKey request =s "") ||
     (in_Prompt (req_Input request) =s "") || (rr_Provider (req_Runtime request) =s "")
  then raise (errors_New "agent ID, idempotency key, prompt, and runtime provider are required")
  else
    let request := if (retry_MaxAttempts (req_Retry request) <=? 0)%Z
                   then request <| req_Retry := (req_Retry request) <| retry_MaxAttempts := 1%Z |> |>
                   else request in
    if negb (retry_Backoff (req_Retry request) =s "") &&
       (parse_duration (retry_Backoff (req_Retry request)) =s None)
    then raise (errors_New "retry backoff must be a valid duration")
    else if negb (req_Timeout request =s "") &&
            match parse_duration (req_Timeout request) with
            | Some duration => (duration <=? 0)%Z
            | None => true
            end
    then raise (errors_New "timeout must be a positive duration")
    else on_storage (st_Submit request).

(** ** Leases *)
Definition Claim (nodeID : string) : MS Assignment :=
  on_storage (st_Claim nodeID (opt_LeaseTTL service)).
Definition Start (a : Assignment) : MS () := on_storage (st_Start a).
Definition Renew (a : Assignment) : MS LeaseUpdate := on_storage (st_Renew a (opt_LeaseTTL service)).
Definition AcknowledgeCancellation (a : Assignment) : MS () := on_storage (st_AcknowledgeCancellation a).
Definition AppendEvent (runID attemptID lease eventType : string) (data : Any) (eventIDs : list string)
    : MS () := on_storage (st_AppendEvent runID attemptID lease eventType data eventIDs).
Definition Complete (a : Assignment) (result : Result) : MS () := on_storage (st_Complete a result).
Definition Fail (a : Assignment) (cause : string) : MS () := on_storage (st_Fail a cause).

Definition Reconcile (limit : Z) : MS Z :=
  let limit := if (limit <=? 0)%Z then 100%Z else limit in
  now ← time_now;
  on_storage (st_Reconcile now limit).

(** ** Reads in scope *)
Definition GetRun (ctx : Ctx) (runID : string) : MS Run :=
  run ← on_storage (st_GetRun runID);
  lift_res (authorizeRunScope ctx run) ;;
  mret run.

Definition CancelRun (ctx : Ctx) (runID : string) (request : CancelRequest) : MS Run :=
  run ← on_storage (st_GetRun runID);
  lift_res (authorizeRunScope ctx run) ;;
  on_storage (st_CancelRun runID request).

Definition Events (ctx : Ctx) (runID : string) : MS (list Event) :=
  GetRun ctx runID ;; on_storage (st_Events runID).
Definition EventsAfter (ctx : Ctx) (runID : string) (after : Z) : MS (list Event) :=
  GetRun ctx runID ;; on_storage (st_EventsAfter runID after).
Definition Artifacts (ctx : Ctx) (runID : string) : MS (list Artifact) :=
  GetRun ctx runID ;; on_storage (st_Artifacts runID).
Definition Attempts (ctx : Ctx) (runID : string) : MS (list Attempt) :=
  GetRun ctx runID ;; on_storage (st_Attempts runID).
Definition Interactions (ctx : Ctx) (runID : string) : MS (list Interaction) :=
  GetRun ctx runID ;; on_storage (st_Interactions runID).

Definition ListRuns (ctx : Ctx) (limit : Z) : MS (list Run) :=
  let scope := AccessFrom ctx in
  on_storage (st_ListRuns (sc_TenantID scope) (sc_ProjectID scope) "" limit).
Definition SessionRuns (ctx : Ctx) (sessionID : string) (limit : Z) : MS (list Run) :=
  let scope := AccessFrom ctx in
  on_storage (st_ListRuns (sc_TenantID scope) (sc_ProjectID scope) sessionID limit).

(** ** Artifacts *)
Definition UploadArtifact (assignment : Assignment) (artifact : Artifact) (reader : Reader) : MS Artifact :=
  id ← newControlPlaneID "artifact";
  let artifact := artifact <| art_ID := id |> <| art_RunID := asg_RunID assignment |>
                           <| art_Ref := "/v1/artifacts/" +:+ id |> in
  size ← on_blobs (blob_Put id reader);
  let content := match reader with Ok c => c | Err _ => "" end in
  let artifact := artifact <| art_Size := size |> <| art_SHA256 := sha256_hex content |> in
  r ← try (on_storage (st_AddArtifact assignment artifact));
  match r with
  | Err err => try (on_blobs (blob_Delete id)) ;; raise err
  | Ok _ => mret artifact
  end.

Definition OpenArtifact (ctx : Ctx) (artifactID : string) : MS (Artifact * string) :=
  metadata ← on_storage (st_Artifact artifactID);
  GetRun ctx (art_RunID metadata) ;;
  reader ← on_blobs (blob_Open artifactID);
  mret (metadata, reader).

(** ** Capability calls and interactions *)
Definition ReserveCapability (a : Assignment) (key hash : string) (request : CapabilityRequest)
    : MS CapabilityReservation := on_storage (st_ReserveCapability a key hash request).
Definition FinishCapability (a : Assignment) (reservation : CapabilityReservation)
    (result : CapabilityResult) (cause : string) : MS () :=
  on_storage (st_FinishCapability a reservation result cause).

Definition CreateInteraction (a : Assignment) (r : InteractionRequest) : MS Interaction :=
  if negb (ir_Kind r =s InteractionInput) && negb (ir_Kind r =s InteractionApproval)
  then raise (errors_New "interaction kind must be input or approval")
  else on_storage (st_CreateInteraction a r).
Definition GetInteraction (a : Assignment) (id : string) : MS Interaction :=
  on_storage (st_GetInteraction a id).
Definition ResolveInteraction (ctx : Ctx) (id : string) (response : option Json) : MS Interaction :=
  let scope := AccessFrom ctx in
  on_storage (st_ResolveInteraction id response (sc_TenantID scope) (sc_ProjectID scope)).
End service.
Arguments ServiceState : clear implicits.
Arguments mkService {S B} _ _.
Arguments sv_storage {S B} _.
Arguments sv_blobs {S B} _.
