(* ===== verification/ServiceProps.v ===== *)
(** * ServiceProps: scopes, validation and artifacts of the control-plane service *)

From S2P Require Import Prelude GoStrings Json Types Matching Event Lifecycle Demo Memory MemoryEffect MemoryInv MemoryOps MemoryRuns MemoryRecover MemorySystem Scenario Service.

(** The calls of the service that name a run, an artifact or an interaction. *)
Inductive ScopedOp :=
  | ScGetRun (runID : string) | ScCancelRun (runID : string) (request : CancelRequest) | ScEvents (runID : string)
  | ScEventsAfter (runID : string) (after : Z) | ScArtifacts (runID : string) | ScAttempts (runID : string)
  | ScInteractions (runID : string) | ScOpenArtifact (artifactID : string)
  | ScResolveInteraction (interactionID : string) (response : option Json).

Section scope.
Context `{Host} {S B : Type} `{Storage S} `{BlobStore B}.

Definition scoped (ctx : Ctx) (op : ScopedOp) : M (ServiceState S B) () :=
  match op with
  | ScGetRun runID => GetRun ctx runID ;; mret ()
  | ScCancelRun runID request => CancelRun ctx runID request ;; mret ()
  | ScEvents runID => Events ctx runID ;; mret ()
  | ScEventsAfter runID after => EventsAfter ctx runID after ;; mret ()
  | ScArtifacts runID => Artifacts ctx runID ;; mret ()
  | ScAttempts runID => Attempts ctx runID ;; mret ()
  | ScInteractions runID => Interactions ctx runID ;; mret ()
  | ScOpenArtifact artifactID => OpenArtifact ctx artifactID ;; mret ()
  | ScResolveInteraction id response => ResolveInteraction ctx id response ;; mret ()
  end.

(** The runs a caller may see. *)
Definition in_caller_scope (ctx : Ctx) (run : Run) : Prop :=
  match ctx with
  | None => True
  | Some scope =>
      sc_Kind scope = AccessNode ∨
      (sc_TenantID scope = "" ∨ sc_TenantID scope = run_TenantID run) ∧
      (sc_ProjectID scope = "" ∨ sc_ProjectID scope = run_ProjectID run)
  end.

Lemma authorizeRunScope_spec ctx run :
  (in_caller_scope ctx run ∧ authorizeRunScope ctx run = Ok ()) ∨
  (¬ in_caller_scope ctx run ∧ authorizeRunScope ctx run = Err (sentinel ErrNotFound)).
Proof.
  unfold authorizeRunScope, in_caller_scope. destruct ctx as [scope|]; [|auto].
  repeat case_bool_decide; simpl; try (left; split; [|done]; tauto); right; (split; [|done]); tauto.
Qed.

End scope.

(** The service over the in-memory stores. *)
Abbreviation Svc := (ServiceState MemoryStorage MemoryBlobStore.State).

Section isolation.
Context `{HostLaws} `{Encoder} `{Semver}.

Definition storage_of (w : World Svc) : World MemoryStorage := mkWorld (w_tick w) (sv_storage (w_st w)).

Lemma on_storage_GetRun (w : World Svc) id :
  on_storage (st_GetRun id) w =
  (match ms_runs (sv_storage (w_st w)) !! id with
   | Some r => Ok r | None => Err (sentinel ErrNotFound) end, w).
Proof.
  destruct w as [t [s b]]. unfold on_storage. simpl.
  unfold Memory.GetRun, find_run, gets, mbind, M_bind, mret, M_ret, raise. simpl.
  by destruct (ms_runs s !! id).
Qed.

Lemma on_storage_Artifact (w : World Svc) id :
  on_storage (st_Artifact id) w =
  (match ms_artifacts (sv_storage (w_st w)) !! id with
   | Some a => Ok a | None => Err (sentinel ErrNotFound) end, w).
Proof.
  destruct w as [t [s b]]. unfold on_storage. simpl. unfold Artifact_, gets, mbind, M_bind. simpl.
  by destruct (ms_artifacts s !! id).
Qed.

(** The run that a call is about. *)
Definition subject (op : ScopedOp) (s : MemoryStorage) : option Run :=
  match op with
  | ScGetRun runID | ScCancelRun runID _ | ScEvents runID | ScEventsAfter runID _ | ScArtifacts runID
  | ScAttempts runID | ScInteractions runID => ms_runs s !! runID
  | ScOpenArtifact id => artifact ← ms_artifacts s !! id; ms_runs s !! art_RunID artifact
  | ScResolveInteraction id _ => interaction ← ms_interactions s !! id; ms_runs s !! ia_RunID interaction
  end.

(** Looking up a run that is absent or out of scope. *)
Lemma GetRun_hidden (ctx : Ctx) (id : string) (w : World Svc) :
  (∀ r, ms_runs (sv_storage (w_st w)) !! id = Some r → ¬ in_caller_scope ctx r) →
  GetRun ctx id w = (Err (sentinel ErrNotFound), w).
Proof.
  intros Hout. unfold GetRun, mbind, M_bind. rewrite on_storage_GetRun.
  destruct (ms_runs (sv_storage (w_st w)) !! id) as [r|] eqn:Hr; [|done].
  destruct (authorizeRunScope_spec ctx r) as [[Hin _]|[_ Ha]]; [by destruct (Hout r eq_refl)|].
  unfold lift_res. by rewrite Ha.
Qed.

(** A scope that excludes a run differs from it in a tenant or a project that it names. *)
Lemma scope_excludes ctx r :
  ¬ in_caller_scope ctx r →
  negb (in_scope (sc_TenantID (AccessFrom ctx)) (run_TenantID r)) ||
  negb (in_scope (sc_ProjectID (AccessFrom ctx)) (run_ProjectID r)) = true.
Proof.
  unfold in_caller_scope, AccessFrom, in_scope. destruct ctx as [scope|]; [|tauto]. simpl. intros Hn.
  rewrite orb_true_iff, !negb_true_iff, !orb_false_iff, !bool_decide_eq_false.
  destruct (decide (sc_TenantID scope = "")), (decide (sc_ProjectID scope = "")),
    (decide (sc_TenantID scope = run_TenantID r)), (decide (sc_ProjectID scope = run_ProjectID r)); intuition congruence.
Qed.
Lemma scope_includes ctx r :
  in_scope (sc_TenantID (AccessFrom ctx)) (run_TenantID r) = true →
  in_scope (sc_ProjectID (AccessFrom ctx)) (run_ProjectID r) = true → in_caller_scope ctx r.
Proof.
  unfold in_caller_scope, AccessFrom, in_scope. destruct ctx as [scope|]; [|done]. simpl.
  rewrite !orb_true_iff, !bool_decide_eq_true. intuition congruence.
Qed.

Lemma ResolveInteraction_hidden (ctx : Ctx) (id : string) (response : option Json) (w : World Svc) :
  inv (storage_of w) →
  (∀ r, subject (ScResolveInteraction id response) (sv_storage (w_st w)) = Some r → ¬ in_caller_scope ctx r) →
  ResolveInteraction ctx id response w = (Err (sentinel ErrNotFound), w).
Proof.
  intros Hi Hout. destruct w as [t [s b]]. simpl in Hout. pose proof (scope_excludes ctx) as Hex.
  unfold ResolveInteraction, on_storage. generalize dependent (AccessFrom ctx). intros scope Hex. simpl.
  unfold Memory.ResolveInteraction, run_at, find_run, gets, mbind, M_bind, mret, M_ret, raise. simpl.
  destruct (ms_interactions s !! id) as [i|] eqn:Hin; [|done].
  destruct (inv_interactions _ Hi id i Hin) as [r Hr]. simpl in Hr, Hout. rewrite Hr in Hout. cbn [w_st]. rewrite Hr. cbn beta iota.
  by rewrite (Hex r (Hout r eq_refl)).
Qed.

Lemma listed_in_scope (ctx : Ctx) (session : string) (limit : Z) (w : World Svc) :
  ∃ runs w', SessionRuns ctx session limit w = (Ok runs, w') ∧ w_st w' = w_st w ∧ Forall (in_caller_scope ctx) runs.
Proof.
  destruct w as [t [s b]]. eexists _, _. split; [reflexivity|]. split; [done|].
  apply Forall_take, Forall_forall. intros r Hr. rewrite merge_sort_Permutation in Hr.
  apply list_elem_of_In, filter_In in Hr as [_ Hr]. rewrite !andb_true_iff in Hr. destruct Hr as [[Ht Hp] _].
  by apply scope_includes.
Qed.

(** C27: tenant isolation.  To a caller, a run outside its scope is a run that
    does not exist: every call that names it, one of its artifacts or one of its
    interactions answers ErrNotFound and changes nothing, exactly as for an unknown
    ID, and it is in no listing. *)
Theorem out_of_scope_is_absent (ctx : Ctx) (w : World Svc) :
  inv (storage_of w) →
  (∀ op, (∀ r, subject op (sv_storage (w_st w)) = Some r → ¬ in_caller_scope ctx r) →
     scoped ctx op w = (Err (sentinel ErrNotFound), w)) ∧
  (∀ limit, ∃ runs w', ListRuns ctx limit w = (Ok runs, w') ∧ w_st w' = w_st w ∧ Forall (in_caller_scope ctx) runs) ∧
  (∀ session limit, ∃ runs w', SessionRuns ctx session limit w = (Ok runs, w') ∧ w_st w' = w_st w ∧
     Forall (in_caller_scope ctx) runs).
Proof.
  intros Hi. split_and!; [|intros limit; exact (listed_in_scope ctx "" limit w)|intros; apply listed_in_scope].
  intros op Hout.
  destruct op; cbn [scoped subject] in *;
    try (unfold Events, EventsAfter, Artifacts, Attempts, Interactions; unfold mbind, M_bind;
         by rewrite (GetRun_hidden ctx _ w Hout)).
  - unfold CancelRun, mbind, M_bind. rewrite on_storage_GetRun.
    destruct (ms_runs (sv_storage (w_st w)) !! runID) as [r|] eqn:Hr; [|done].
    destruct (authorizeRunScope_spec ctx r) as [[Hin _]|[_ Ha]]; [by destruct (Hout r eq_refl)|].
    unfold lift_res. by rewrite Ha.
  - unfold OpenArtifact. unfold mbind, M_bind. rewrite on_storage_Artifact.
    destruct (ms_artifacts (sv_storage (w_st w)) !! artifactID) as [metadata|] eqn:Ha; [|done].
    by rewrite (GetRun_hidden ctx _ w Hout).
  - unfold mbind, M_bind. by rewrite (ResolveInteraction_hidden ctx interactionID response w Hi Hout).
Qed.

(** What an accepted submission hands to the storage: the caller's tenant
    and project when the caller is a host, the required fields, at least one
    attempt, a backoff and a timeout that parse; every other field as sent. *)
Theorem submit_accepts {S B} `{Storage S} (ctx : Ctx) (q : Request) (w : World (ServiceState S B)) r :
  (Submit ctx q w).1 = Ok r →
  ∃ q', Submit ctx q w = on_storage (st_Submit q') w ∧
    req_AgentID q' ≠ "" ∧ req_IdempotencyKey q' ≠ "" ∧ in_Prompt (req_Input q') ≠ "" ∧
    rr_Provider (req_Runtime q') ≠ "" ∧ (1 ≤ retry_MaxAttempts (req_Retry q'))%Z ∧
    (retry_Backoff (req_Retry q') = "" ∨ is_Some (parse_duration (retry_Backoff (req_Retry q')))) ∧
    (req_Timeout q' = "" ∨ ∃ d, parse_duration (req_Timeout q') = Some d ∧ (0 < d)%Z) ∧
    (req_TenantID q', req_ProjectID q') =
      match ctx with
      | Some scope => if sc_Kind scope =s AccessHost then (sc_TenantID scope, sc_ProjectID scope)
                      else (req_TenantID q, req_ProjectID q)
      | None => (req_TenantID q, req_ProjectID q)
      end ∧
    req_IdempotencyKey q' = req_IdempotencyKey q ∧ req_Input q' = req_Input q ∧
    req_Runtime q' = req_Runtime q ∧ req_Capabilities q' = req_Capabilities q.
Proof.
  unfold Submit. set (q1 := match ctx with Some _ => _ | None => q end).
  set (q2 := if (_ <=? 0)%Z then _ else q1).
  assert (Hq1 : req_AgentID q1 = req_AgentID q ∧ req_IdempotencyKey q1 = req_IdempotencyKey q ∧
            req_Input q1 = req_Input q ∧ req_Runtime q1 = req_Runtime q ∧
            req_Capabilities q1 = req_Capabilities q ∧
            (req_TenantID q1, req_ProjectID q1) =
              match ctx with
              | Some scope => if sc_Kind scope =s AccessHost then (sc_TenantID scope, sc_ProjectID scope)
                              else (req_TenantID q, req_ProjectID q)
              | None => (req_TenantID q, req_ProjectID q)
              end).
  { unfold q1. destruct ctx as [scope|]; [|done]. by case_bool_decide. }
  assert (Hq2 : req_AgentID q2 = req_AgentID q1 ∧ req_IdempotencyKey q2 = req_IdempotencyKey q1 ∧
            req_Input q2 = req_Input q1 ∧ req_Runtime q2 = req_Runtime q1 ∧
            req_Capabilities q2 = req_Capabilities q1 ∧
            (req_TenantID q2, req_ProjectID q2) = (req_TenantID q1, req_ProjectID q1) ∧
            (1 ≤ retry_MaxAttempts (req_Retry q2))%Z).
  { unfold q2. destruct (Z.leb_spec (retry_MaxAttempts (req_Retry q1)) 0); simpl; auto 10 with lia. }
  clearbody q1 q2. destruct (_ || _) eqn:E1; [done|].
  apply orb_false_iff in E1 as [E1 Ep]. apply orb_false_iff in E1 as [E1 Ei].
  apply orb_false_iff in E1 as [Ea Ek]. rewrite bool_decide_eq_false in Ea, Ek, Ei, Ep.
  destruct (_ && _) eqn:E2; [done|]. destruct (_ && _) eqn:E3 in |- *; [done|]. intros _.
  exists q2. destruct Hq1 as (A1 & A2 & A3 & A4 & A5 & A6), Hq2 as (B1 & B2 & B3 & B4 & B5 & B6 & B7).
  split_and!; try done; try congruence.
  - apply andb_false_iff in E2 as [E2%negb_false_iff%bool_decide_eq_true|E2%bool_decide_eq_false]; [by left|right].
    by destruct (parse_duration (retry_Backoff (req_Retry q2))).
  - apply andb_false_iff in E3 as [E3%negb_false_iff%bool_decide_eq_true|E3]; [by left|right].
    destruct (parse_duration (req_Timeout q2)) as [d|]; [|done]. exists d. apply Z.leb_gt in E3. done.
Qed.

Lemma AddArtifact_stores a art w :
  inv w →
  match Memory.AddArtifact a art w with
  | (Ok _, w') => ∃ r, ms_runs (w_st w') !! asg_RunID a = Some r ∧
                       ms_artifacts (w_st w') !! art_ID art = Some art
  | (Err _, _) => True
  end.
Proof.
  intros Hinv.
  cut (wp (Memory.AddArtifact a art)
        (λ res w', match res with
                   | Ok _ => ∃ r, ms_runs (w_st w') !! asg_RunID a = Some r ∧
                                  ms_artifacts (w_st w') !! art_ID art = Some art
                   | Err _ => True end) w).
  { unfold wp. by destruct (Memory.AddArtifact a art w) as [[|] ?]. }
  unfold Memory.AddArtifact, authorize_assignment. wp_step. use wp_authorize.
  intros [r|e] w1 [_ Ha]; [|done]. destruct Ha as (Hr & Hid & _).
  wp_step; [by apply wp_raise|]. wp_step. apply wp_modify. wp_step. apply wp_modify.
  apply wp_appendEvent; [done|]. intros w2 E2. exists r. simpl in *. rewrite <- Hid.
  split; [by eauto with relay|]. destruct (eff_rest _ _ _ _ _ _ E2) as (_ & _ & _ & -> & _).
  apply lookup_insert_eq.
Qed.

(** An upload that the storage refuses leaves no blob behind; one that it
    accepts can be opened again by whoever may see the run, with the content
    that was sent, its length and its digest. *)
Theorem upload_roundtrip (a : Assignment) (art : Artifact) (content : string) (w : World Svc) (ctx : Ctx) :
  inv (storage_of w) → sv_blobs (w_st w) !! ("artifact" +:+ "_" +:+ rand_at (w_tick w)) = None →
  let '(res, w') := UploadArtifact a art (Ok content) w in
  match res with
  | Err _ => sv_blobs (w_st w') = sv_blobs (w_st w)
  | Ok stored =>
      art_RunID stored = asg_RunID a ∧ art_Size stored = Z.of_nat (String.length content) ∧
      art_SHA256 stored = sha256_hex content ∧
      ∃ r, ms_runs (sv_storage (w_st w')) !! asg_RunID a = Some r ∧
        (OpenArtifact ctx (art_ID stored) w').1 =
          match authorizeRunScope ctx r with Ok _ => Ok (stored, content) | Err e => Err e end
  end.
Proof.
  intros Hinv Hfresh. destruct w as [t [s b]]. simpl in *.
  set (id := "artifact" +:+ "_" +:+ rand_at t) in *.
  unfold UploadArtifact, newControlPlaneID, host, mbind, M_bind. simpl. fold id.
  unfold try, on_storage. simpl. set (w1 := mkWorld (t + 1) s).
  match goal with |- context [Memory.AddArtifact a ?x w1] => set (stored := x) end.
  assert (Hinv1 : inv w1) by (eapply inv_tick; [|exact Hinv]; simpl; lia).
  pose proof (AddArtifact_stores a stored w1 Hinv1) as Hadd.
  destruct (Memory.AddArtifact a stored w1) as [[[]|e] w2]; simpl.
  2:{ unfold on_blobs, MemoryBlobStore.Delete, gets, modify, mbind, M_bind. simpl.
      rewrite lookup_insert_eq. simpl. by rewrite delete_insert_id. }
  destruct Hadd as (r & Hr & Hart). split_and!; try done. exists r. split; [done|].
  unfold OpenArtifact, GetRun, mbind, M_bind.
  assert (Hmeta : on_storage (B := MemoryBlobStore.State) (st_Artifact id) (mkWorld (w_tick w2) (mkService (w_st w2) (<[id:=content]> b))) =
            (Ok stored, mkWorld (w_tick w2) (mkService (w_st w2) (<[id:=content]> b)))).
  { unfold on_storage. simpl. unfold Artifact_, gets, mbind, M_bind. simpl.
    change (art_ID stored) with id in Hart. by rewrite Hart. }
  simpl st_Artifact in *. rewrite Hmeta. simpl fst. rewrite (on_storage_GetRun _ (art_RunID stored)).
  simpl sv_storage. change (art_RunID stored) with (asg_RunID a). rewrite Hr. unfold lift_res.
  destruct (authorizeRunScope_spec ctx r) as [[_ ->]|[_ ->]]; [|done].
  unfold on_blobs, MemoryBlobStore.Open, gets, mbind, M_bind. simpl. by rewrite lookup_insert_eq.
Qed.
End isolation.

Section registration.
Context `{Host} {S B : Type} `{Storage S} `{BlobStore B}.

Lemma name_runtimes_ok nodeID seen l l' :
  name_runtimes nodeID seen l = Some l' →
  NoDup (rt_ID <$> l') ∧ (∀ i, i ∈ rt_ID <$> l' → i ∉ seen) ∧ length l' = length l.
Proof.
  revert seen l'. induction l as [|x l IH]; intros seen l'; simpl.
  { intros [= <-]. split_and!; [constructor|intros i Hi; by apply elem_of_nil in Hi|done]. }
  match goal with |- context [rt_ID ?z ∈ _] => set (y := z) end. case_bool_decide as Hy; [done|].
  intros (k & Hk & [= <-])%bind_Some. destruct (IH _ _ Hk) as (Hnd & Hns & Hlen). csimpl.
  split_and!; [constructor; [|done]|..].
  - intros Hin. specialize (Hns _ Hin). set_solver.
  - intros i [->|Hi]%elem_of_cons; [done|]. specialize (Hns i Hi). set_solver.
  - by rewrite Hlen.
Qed.

(** A registration reaches the storage only when it speaks the protocol of
    the server, names itself, and lists at least one runtime; it then has a
    capacity of at least one and runtimes with distinct instance IDs.  Any
    other registration is refused without a write. *)
Theorem registration_checked (reg : NodeRegistration) (w : World (ServiceState S B)) :
  (∃ e, RegisterNode reg w = (Err e, w)) ∨
  (∃ reg', RegisterNode reg w = on_storage (st_RegisterNode reg') w ∧
     reg_ProtocolVersion reg' = ProtocolVersion ∧ reg_ID reg' = reg_ID reg ∧ reg_ID reg' ≠ "" ∧
     reg_Runtimes reg' ≠ [] ∧ NoDup (rt_ID <$> reg_Runtimes reg') ∧ (1 ≤ reg_Capacity reg')%Z ∧
     length (reg_Runtimes reg') = length (reg_Runtimes reg)).
Proof.
  unfold RegisterNode. case_bool_decide as Hp; simpl; [|by left; eexists].
  destruct (_ || _) eqn:E; [by left; eexists|].
  apply orb_false_iff in E as [Ei%bool_decide_eq_false Er%bool_decide_eq_false].
  set (reg1 := if (_ <=? 0)%Z then _ else reg).
  assert (Hreg1 : reg_ProtocolVersion reg1 = reg_ProtocolVersion reg ∧ reg_ID reg1 = reg_ID reg ∧
            reg_Runtimes reg1 = reg_Runtimes reg ∧ (1 ≤ reg_Capacity reg1)%Z).
  { unfold reg1. destruct (Z.leb_spec (reg_Capacity reg) 0); simpl; auto with lia. }
  clearbody reg1. destruct Hreg1 as (P1 & I1 & R1 & C1).
  destruct (name_runtimes _ _ _) as [l|] eqn:El; [|by left; eexists]. right.
  apply name_runtimes_ok in El as (Hnd & _ & Hlen). eexists. split; [done|]. simpl.
  split_and!; try done; try congruence. intros ->. rewrite R1 in Hlen. by destruct (reg_Runtimes reg).
Qed.
End registration.

(** ** The histories of Scenario, behind the service *)
Definition behind (w : World MemoryStorage) : World Svc := mkWorld (w_tick w) (mkService (w_st w) ∅).
Lemma storage_of_behind w : storage_of (behind w) = w.
Proof. by destruct w. Qed.
Definition stranger : Ctx := Some (mkScope AccessHost "user" "someone else" "project").
Definition tenant : Ctx := Some (mkScope AccessHost "user" "tenant" "project").

(** An artifact of a run, its interaction and the run, for a stranger. *)
Definition with_artifact : World Svc := (UploadArtifact the_lease zero (Ok "hello") (behind running)).2.
Definition the_artifact : string :=
  default "" (head (elements (dom (ms_artifacts (sv_storage (w_st with_artifact)))))).
Lemma out_of_scope_is_absent_witness :
  (scoped stranger (ScCancelRun the_run (mkCancelRequest "" "")) with_artifact = (Err (sentinel ErrNotFound), with_artifact)) ∧
  (scoped stranger (ScOpenArtifact the_artifact) with_artifact = (Err (sentinel ErrNotFound), with_artifact)) ∧
  (OpenArtifact tenant the_artifact with_artifact).1 ≠ Err (sentinel ErrNotFound).
Proof.
  assert (Hi : inv (storage_of with_artifact)).
  { assert (storage_of with_artifact = play [OpAddArtifact the_lease (map_get (ms_artifacts (sv_storage (w_st with_artifact))) the_artifact)]
              (mkWorld (w_tick running + 1) (w_st running))) as -> by (vm_compute; reflexivity).
    apply play_inv; [demo_ops|]. assert (Hr : inv (storage_of (behind running))) by (rewrite storage_of_behind; apply reachable_inv; demo_reach).
    exact (inv_tick (w_tick running) (w_tick running + 1) (w_st running) (Nat.le_add_r _ _) Hr). }
  destruct (out_of_scope_is_absent stranger with_artifact Hi) as (Hop & _ & _).
  split_and!; [apply Hop; intros r Hr; vm_compute in Hr; injection Hr as <-; intros [?|[[?|?] _]]; discriminate..|].
  vm_compute. discriminate.
Defined.

Definition sent : Request := (demo_request "k" "10s") <| req_AgentID := "agent" |>
  <| req_TenantID := "spoofed" |> <| req_Input := mkInput "" "" "do it" None |>.
Definition accepted := Submit (B := MemoryBlobStore.State) tenant sent (behind registered).

Lemma submit_accepts_witness :
  ∃ q', Submit (B := MemoryBlobStore.State) tenant sent (behind registered) =
          on_storage (st_Submit q') (behind registered) ∧
    req_AgentID q' ≠ "" ∧ req_IdempotencyKey q' ≠ "" ∧ in_Prompt (req_Input q') ≠ "" ∧
    rr_Provider (req_Runtime q') ≠ "" ∧ (1 ≤ retry_MaxAttempts (req_Retry q'))%Z ∧
    (retry_Backoff (req_Retry q') = "" ∨ is_Some (parse_duration (retry_Backoff (req_Retry q')))) ∧
    (req_Timeout q' = "" ∨ ∃ d, parse_duration (req_Timeout q') = Some d ∧ (0 < d)%Z) ∧
    (req_TenantID q', req_ProjectID q') = ("tenant", "project") ∧
    req_IdempotencyKey q' = req_IdempotencyKey sent ∧ req_Input q' = req_Input sent ∧
    req_Runtime q' = req_Runtime sent ∧ req_Capabilities q' = req_Capabilities sent.
Proof.
  apply (submit_accepts tenant sent (behind registered) (ok_of no_run accepted.1)).
  vm_compute. reflexivity.
Defined.

Lemma upload_roundtrip_witness :
  let '(res, w') := UploadArtifact the_lease zero (Ok "hello") (behind running) in
  match res with
  | Err _ => sv_blobs (w_st w') = sv_blobs (w_st (behind running))
  | Ok stored =>
      art_RunID stored = asg_RunID the_lease ∧ art_Size stored = Z.of_nat (String.length "hello") ∧
      art_SHA256 stored = sha256_hex "hello" ∧
      ∃ r, ms_runs (sv_storage (w_st w')) !! asg_RunID the_lease = Some r ∧
        (OpenArtifact tenant (art_ID stored) w').1 =
          match authorizeRunScope tenant r with Ok _ => Ok (stored, "hello") | Err e => Err e end
  end.
Proof.
  apply (upload_roundtrip the_lease zero "hello" (behind running) tenant); [|vm_compute; reflexivity].
  rewrite storage_of_behind. apply reachable_inv. demo_reach.
Defined.
