(* ===== verification/Artifacts.v ===== *)
(** * Artifacts: an uploaded artifact stays what it was

    [BlobLaws] is what the service relies on of a blob store; over any store with
    these laws an artifact that the service acknowledged keeps its entry and its
    content ([upload_kept]), whatever calls follow and whichever fail. *)

From S2P Require Import Prelude GoStrings Json Types Matching Event Lifecycle Demo Memory MemoryEffect MemoryInv MemoryOps MemoryRuns MemoryRecover MemorySystem Scenario Service ServiceProps.

(** ** What stays of an artifact

    Only [AddArtifact] writes the artifacts of the storage. *)
Section artifacts.
Context `{HostLaws} `{Encoder} `{Semver}.

Definition same_artifacts (w w' : World MemoryStorage) : Prop :=
  w_tick w ≤ w_tick w' ∧ ms_artifacts (w_st w') = ms_artifacts (w_st w).
#[local] Instance same_artifacts_order : PreOrder same_artifacts.
Proof. split; [by split|]. intros w1 w2 w3 [? ?] [? ?]. split; [lia|congruence]. Qed.
#[local] Instance same_artifacts_ticking : Ticking same_artifacts.
Proof. intros w k. split; simpl; [lia|done]. Qed.
Abbreviation spares m := (steps same_artifacts m).
Lemma spares_modify (f : MemoryStorage → MemoryStorage) : (∀ s, ms_artifacts (f s) = ms_artifacts s) → spares (modify f).
Proof. intros Hf w. split; simpl; [lia|apply Hf]. Qed.

#[local] Ltac spare :=
  repeat first
    [ assumption
    | apply (steps_bind same_artifacts); [|intros ?]
    | apply (steps_ret same_artifacts) | apply (steps_raise same_artifacts) | apply (steps_gets same_artifacts)
    | apply (steps_host same_artifacts) | apply (steps_lift_res same_artifacts)
    | apply spares_modify; intros ?; reflexivity
    | solve [auto with spare]
    | match goal with |- spares (match ?x with _ => _ end) => destruct x end
    | progress cbv zeta ].
#[local] Create HintDb spare.

Lemma spares_event_as id run ty data now : spares (appendEvent_as id run ty data now).
Proof. unfold appendEvent_as. spare. Qed.
#[local] Hint Resolve spares_event_as : spare.
Lemma spares_event run ty v : spares (appendEvent run ty v).
Proof. unfold appendEvent, newControlPlaneID. spare. Qed.
#[local] Hint Resolve spares_event : spare.
Lemma spares_release n : spares (releaseNode n).
Proof. unfold releaseNode, find_node, put_node. spare. Qed.
#[local] Hint Resolve spares_release : spare.
Lemma spares_put_run r : spares (put_run r).
Proof. unfold put_run. spare. Qed.
#[local] Hint Resolve spares_put_run : spare.
Lemma spares_run_at id : spares (run_at id).
Proof. unfold run_at, find_run. spare. Qed.
#[local] Hint Resolve spares_run_at : spare.
Lemma spares_requeue r now : spares (requeueExpired r now).
Proof. unfold requeueExpired. spare. Qed.
Lemma spares_finalize r now : spares (finalizeCancellation r now).
Proof. unfold finalizeCancellation. spare. Qed.
#[local] Hint Resolve spares_requeue spares_finalize : spare.
Lemma spares_cancel r q now : spares (cancelRunLocked r q now).
Proof. unfold cancelRunLocked. spare. Qed.
#[local] Hint Resolve spares_cancel : spare.
Lemma spares_authorize id att tok : spares (authorize id att tok).
Proof. unfold authorize, find_run, time_now. spare. Qed.
Lemma spares_authorize_assignment a : spares (authorize_assignment a).
Proof. apply spares_authorize. Qed.
#[local] Hint Resolve spares_authorize spares_authorize_assignment : spare.
Lemma spares_range {V} (f : MemoryStorage → gmap string V) : spares (range_map f).
Proof. unfold range_map. spare. Qed.
Lemma spares_for_each {A} (f : A → MM ()) (ids : list A) : (∀ id, spares (f id)) → spares (for_each f ids).
Proof. intros Hf. induction ids as [|id ids IH]; cbn [for_each]; spare. Qed.
#[local] Hint Resolve spares_range : spare.
Lemma spares_sweep now id : spares (claim_sweep now id).
Proof. unfold claim_sweep. spare. Qed.
Lemma spares_scan nodeID ttl now ids : spares (claim_scan nodeID ttl now ids).
Proof.
  induction ids as [|id ids IH]; cbn [claim_scan]; unfold grant_lease, find_node, put_node, newControlPlaneID; spare.
Qed.
#[local] Hint Resolve spares_sweep spares_scan : spare.
Lemma spares_lose r now : spares (lose_attempt r now).
Proof. unfold lose_attempt, retry_attempt, newControlPlaneID. spare. Qed.
#[local] Hint Resolve spares_lose : spare.
Lemma spares_deadlines now limit n ids : spares (reconcile_deadlines now limit n ids).
Proof. revert n. induction ids as [|id ids IH]; intros n; cbn [reconcile_deadlines]; unfold reconcile_deadline; spare. Qed.
Lemma spares_attempts now limit n ids : spares (reconcile_attempts now limit n ids).
Proof. revert n. induction ids as [|id ids IH]; intros n; cbn [reconcile_attempts]; unfold reconcile_attempt; spare. Qed.
#[local] Hint Resolve spares_deadlines spares_attempts : spare.

Lemma exec_spares op : (∀ a artifact, op ≠ OpAddArtifact a artifact) → spares (exec op).
Proof.
  intros Hop. destruct op; cbn [exec];
    unfold Memory.RegisterNode, Memory.Heartbeat, Memory.Nodes, Memory.Submit, Memory.Claim, Memory.Renew, Memory.Reconcile,
      Memory.CancelRun, Memory.AcknowledgeCancellation, Memory.Start, Memory.AppendEvent, Memory.Complete, Memory.Fail,
      Memory.GetRun, Memory.EventsAfter, Memory.Artifacts, Memory.Artifact_, Memory.ReserveCapability,
      Memory.FinishCapability, Memory.ListRuns, Memory.Attempts, Memory.CreateInteraction, Memory.GetInteraction,
      Memory.Interactions, Memory.ResolveInteraction, find_run, find_node, put_node, time_now, newControlPlaneID, lease_over;
    spare; try (apply spares_for_each; spare).
  by destruct (Hop a artifact).
Qed.

Lemma wp_AddArtifact a art (Q : Res () → World MemoryStorage → Prop) w :
  (∀ res w', w_tick w ≤ w_tick w' →
     ms_artifacts (w_st w') = ms_artifacts (w_st w) ∧ is_ok res = false ∨
     ms_artifacts (w_st w') = <[art_ID art := art]> (ms_artifacts (w_st w)) ∧ is_ok res = true → Q res w') →
  wp (Memory.AddArtifact a art) Q w.
Proof.
  intros HQ. unfold Memory.AddArtifact. wp_step. unfold wp at 1.
  destruct (spares_authorize_assignment a w) as [Ht Ha]. destruct (authorize_assignment a w) as [[r|e] w1]; simpl in Ht, Ha |- *; [|auto].
  wp_step; [apply wp_raise; auto|]. wp_step. apply wp_modify. wp_step. apply wp_modify. unfold wp.
  match goal with |- Q (?m ?w2).1 _ => destruct (spares_event r "artifact.created" (AnyJson (json_Artifact art)) w2) as [Ht2 Ha2];
    assert (Hok : is_ok (m w2).1 = true) by reflexivity end.
  apply HQ; [simpl in *; lia|]. right. split; [|exact Hok]. rewrite Ha2. simpl. by rewrite Ha.
Qed.
End artifacts.

(** ** Blob stores

    What an artifact needs of the store that keeps it: a call touches no other key,
    an upload that succeeds has stored what was read, and what is opened is what is
    stored.  Nothing is asked of a call that fails: an answer may be lost, and an
    upload or a removal may have happened or not. *)
Class BlobLaws (B : Type) `{BlobStore B} := {
  stored : B → string → option string;
  blobs_put k reader w :
    let '(r, w') := blob_Put k reader w in
    w_tick w ≤ w_tick w' ∧ (∀ j, j ≠ k → stored (w_st w') j = stored (w_st w) j) ∧
    ∀ n, r = Ok n → ∃ content, reader = Ok content ∧ n = Z.of_nat (String.length content) ∧
                               stored (w_st w') k = Some content;
  blobs_open k w :
    let '(r, w') := blob_Open k w in
    w_tick w ≤ w_tick w' ∧ (∀ j, stored (w_st w') j = stored (w_st w) j) ∧
    ∀ content, r = Ok content → stored (w_st w) k = Some content;
  blobs_delete k w :
    let '(r, w') := blob_Delete k w in
    w_tick w ≤ w_tick w' ∧ ∀ j, j ≠ k → stored (w_st w') j = stored (w_st w) j
}.

#[export, program] Instance memory_blob_laws : BlobLaws MemoryBlobStore.State := {| stored s k := s !! k |}.
Next Obligation.
  intros k [content|err] w; simpl; [|by split_and!]. split_and!; [lia|intros j Hj; by apply lookup_insert_ne|].
  intros n [= <-]. exists content. split_and!; [done..|]. apply lookup_insert_eq.
Qed.
Next Obligation.
  intros k w. simpl. unfold MemoryBlobStore.Open, gets, mbind, M_bind. simpl.
  destruct (w_st w !! k) as [value|] eqn:Hk; simpl; (split_and!; [lia|done|]); [by intros ? [= ->]|done].
Qed.
Next Obligation.
  intros k w. simpl. unfold MemoryBlobStore.Delete, gets, mbind, M_bind. simpl.
  destruct (w_st w !! k) as [value|] eqn:Hk; simpl; (split; [lia|]); [|done]. intros j Hj. by apply lookup_delete_ne.
Qed.

(** ** An uploaded artifact stays what it was *)

(** What happens to a service: calls that end in the storage (the service itself
    adds artifacts only by uploading), uploads of any content, broken off or
    whole, under any lease, and downloads. *)
Inductive SvcOp :=
  | SvStorage (op : Op)
  | SvUpload (a : Assignment) (artifact : Artifact) (reader : Reader)
  | SvOpen (ctx : Ctx) (artifactID : string).
Definition svc_ok (op : SvcOp) : Prop := match op with SvStorage (OpAddArtifact _ _) => False | _ => True end.

Section durability.
Context `{HostLaws} `{Encoder} `{Semver} {B : Type} `{BlobLaws B}.
Abbreviation State := (ServiceState MemoryStorage B).

Definition svc_exec (op : SvcOp) : M State () :=
  match op with
  | SvStorage op => on_storage (exec op)
  | SvUpload a artifact reader => UploadArtifact a artifact reader ;; mret ()
  | SvOpen ctx artifactID => OpenArtifact ctx artifactID ;; mret ()
  end.
Definition svc_play (ops : list SvcOp) (w : World State) : World State := foldl (λ w op, (svc_exec op w).2) w ops.
(** From an empty storage over any blobs. *)
Definition svc_reachable (w : World State) : Prop :=
  ∃ tick blobs ops, Forall svc_ok ops ∧ w = svc_play ops (mkWorld tick (mkService NewMemoryStorage blobs)).

Definition listed (w : World State) (id : string) : option Artifact := ms_artifacts (sv_storage (w_st w)) !! id.
Definition blob (w : World State) (id : string) : option string := stored (sv_blobs (w_st w)) id.
(** Artifacts have names that the host has drawn. *)
Definition drawn (w : World State) : Prop := ∀ id, is_Some (listed w id) → issued "artifact" 0 (w_tick w) id.
Record keeps_artifacts (w w' : World State) : Prop := {
  kp_tick : w_tick w ≤ w_tick w';
  kp_listed id artifact : listed w id = Some artifact → listed w' id = Some artifact ∧ blob w' id = blob w id;
  kp_drawn : drawn w'
}.

Lemma keeps_artifacts_trans w1 w2 w3 : keeps_artifacts w1 w2 → keeps_artifacts w2 w3 → keeps_artifacts w1 w3.
Proof.
  intros [T1 L1 _] [T2 L2 D]. constructor; [lia| |done]. intros id artifact Ha.
  destruct (L1 _ _ Ha) as [Ha1 E1]. destruct (L2 _ _ Ha1) as [Ha2 E2]. split; congruence.
Qed.
(** Calls that leave the artifacts of the storage and every blob as they are. *)
Lemma keeps_same w w' :
  drawn w → w_tick w ≤ w_tick w' → (∀ id, listed w' id = listed w id) → (∀ id, is_Some (listed w id) → blob w' id = blob w id) →
  keeps_artifacts w w'.
Proof.
  intros Hd Ht Hl Hb. constructor; [done| |].
  - intros id artifact Ha. rewrite Hl. split; [done|]. apply Hb. by rewrite Ha.
  - intros id Hi. rewrite Hl in Hi. eapply issued_mono; [by apply Hd|lia|lia].
Qed.

Lemma on_storage_keeps {A} (m : MM A) w : drawn w → steps same_artifacts m → keeps_artifacts w (on_storage (B := B) m w).2.
Proof.
  intros Hd Hm. unfold on_storage. specialize (Hm (mkWorld (w_tick w) (sv_storage (w_st w)))).
  destruct (m _) as [r w']. destruct Hm as [Ht Ha]. apply keeps_same; [done|exact Ht| |done].
  intros id. unfold listed. simpl in *. by rewrite Ha.
Qed.

(** What an upload leaves: a listed artifact with its content, or nothing new. *)
Lemma wp_UploadArtifact a artifact reader w :
  drawn w →
  wp (UploadArtifact a artifact reader)
    (λ res w', keeps_artifacts w w' ∧
       ∀ new, res = Ok new → ∃ content, reader = Ok content ∧ art_RunID new = asg_RunID a ∧
         art_Size new = Z.of_nat (String.length content) ∧ art_SHA256 new = sha256_hex content ∧
         listed w' (art_ID new) = Some new ∧ blob w' (art_ID new) = Some content) w.
Proof.
  intros Hd. unfold UploadArtifact, newControlPlaneID. wp_step. wp_step. set (id := "artifact" +:+ _).
  assert (Hnew : ∀ j, is_Some (listed w j) → j ≠ id).
  { intros j Hj. eapply issued_disjoint; [by apply Hd|]. exists (w_tick w). split; [|reflexivity]. split; [done|]. apply Nat.lt_succ_diag_r. }
  wp_step. unfold wp at 1, on_blobs. pose proof (blobs_put id reader (mkWorld (w_tick w + 1) (sv_blobs (w_st w)))) as Hput.
  simpl w_tick in *. simpl w_st in *. destruct (blob_Put id reader _) as [[size|err] w1]; destruct Hput as (Ht1 & Ho1 & Hs1); simpl in Ht1 |- *.
  2:{ split; [|done]. apply keeps_same; simpl; [done|lia|done|]. intros j Hj. apply Ho1, Hnew, Hj. }
  destruct (Hs1 size eq_refl) as (content & -> & -> & Hc). wp_step. wp_step. unfold wp at 1, on_storage.
  cbn [w_tick w_st sv_storage st_AddArtifact memory_storage].
  match goal with |- context [Memory.AddArtifact a ?x] => set (new := x) end.
  pose proof (wp_AddArtifact a new (λ res w', w_tick w1 ≤ w_tick w' ∧
    (ms_artifacts (w_st w') = ms_artifacts (sv_storage (w_st w)) ∧ is_ok res = false ∨
     ms_artifacts (w_st w') = <[id := new]> (ms_artifacts (sv_storage (w_st w))) ∧ is_ok res = true))
    (mkWorld (w_tick w1) (sv_storage (w_st w))) ltac:(by intros; split)) as Hadd.
  unfold wp in Hadd. destruct (Memory.AddArtifact a new _) as [[[]|err] w2]; destruct Hadd as (Ht2 & [[Ha Hok]|[Ha Hok]]); try done; simpl in Ht2, Ha |- *.
  - apply wp_ret. assert (Hl : ∀ j, listed (mkWorld (w_tick w2) (mkService (w_st w2) (w_st w1))) j = <[id := new]> (ms_artifacts (sv_storage (w_st w))) !! j).
    { intros j. unfold listed. simpl. by rewrite Ha. }
    split.
    + constructor; simpl; [lia| |].
      * intros j x Hx. assert (Hj : j ≠ id) by (apply Hnew; by rewrite Hx). rewrite Hl, lookup_insert_ne by done.
        split; [exact Hx|]. apply Ho1, Hj.
      * intros j Hj. rewrite Hl in Hj. simpl. destruct (decide (j = id)) as [->|Hne].
        -- exists (w_tick w). split; [lia|done].
        -- rewrite lookup_insert_ne in Hj by done. eapply issued_mono; [by apply Hd|lia|lia].
    + intros x [= <-]. exists content. split_and!; try done. by rewrite Hl, lookup_insert_eq.
  - wp_step. wp_step. unfold wp at 1, on_blobs. simpl.
    pose proof (blobs_delete id (mkWorld (w_tick w2) (w_st w1))) as Hdel. simpl in Hdel.
    destruct (blob_Delete id _) as [r3 w3]. destruct Hdel as [Ht3 Ho3]. simpl in Ht3 |- *.
    assert (Hk : keeps_artifacts w (mkWorld (w_tick w3) (mkService (w_st w2) (w_st w3)))).
    { apply keeps_same; simpl; [done|lia| |].
      - intros j. unfold listed. simpl. by rewrite Ha.
      - intros j Hj. pose proof (Hnew j Hj). unfold blob. simpl. rewrite Ho3, Ho1 by done. done. }
    destruct r3; apply wp_raise; (split; [exact Hk|done]).
Qed.

Lemma GetRun_state ctx id (w : World State) : (GetRun ctx id w).2 = w.
Proof.
  destruct w as [t [s b]]. unfold GetRun, on_storage, mbind, M_bind. simpl.
  unfold Memory.GetRun, find_run, gets, mbind, M_bind, mret, M_ret, raise. simpl.
  destruct (ms_runs s !! id) as [r|]; [|done]. simpl. unfold lift_res. by destruct (authorizeRunScope ctx r).
Qed.
Lemma Artifact_listed id (w : World State) :
  on_storage (st_Artifact id) w = (match listed w id with Some a => Ok a | None => Err (sentinel ErrNotFound) end, w).
Proof.
  destruct w as [t [s b]]. unfold on_storage, listed. simpl. unfold Artifact_, gets, mbind, M_bind. simpl.
  by destruct (ms_artifacts s !! id).
Qed.

(** A download gives the listed artifact with the blob under its name, unless the
    run is hidden from the caller or the store fails to read. *)
Lemma OpenArtifact_reads ctx id (w : World State) artifact :
  drawn w → listed w id = Some artifact →
  let '(r, w') := OpenArtifact ctx id w in
  keeps_artifacts w w' ∧
  match r with
  | Ok (metadata, content) => metadata = artifact ∧ blob w id = Some content
  | Err err => (GetRun ctx (art_RunID artifact) w).1 = Err err ∨ (on_blobs (blob_Open id) w).1 = Err err
  end.
Proof.
  intros Hd Hl. assert (Hid : keeps_artifacts w w) by by apply keeps_same.
  unfold OpenArtifact. unfold mbind, M_bind. rewrite Artifact_listed, Hl.
  pose proof (GetRun_state ctx (art_RunID artifact) w) as Hg.
  destruct (GetRun ctx (art_RunID artifact) w) as [[run|err] w1]; simpl in Hg; subst w1; [|split; [done|by left]].
  unfold on_blobs. pose proof (blobs_open id (mkWorld (w_tick w) (sv_blobs (w_st w)))) as Ho.
  destruct (blob_Open id _) as [r w']. destruct Ho as (Ht & Hs & Hc). simpl in *.
  assert (Hk : keeps_artifacts w (mkWorld (w_tick w') (mkService (sv_storage (w_st w)) (w_st w')))).
  { apply keeps_same; simpl; [done|exact Ht|done|]. intros j _. apply Hs. }
  destruct r as [content|err]; (split; [exact Hk|]); [|by right]. split; [done|]. by apply Hc.
Qed.

Lemma svc_exec_keeps op w : svc_ok op → drawn w → keeps_artifacts w (svc_exec op w).2.
Proof.
  intros Hok Hd. destruct op as [op|a artifact reader|ctx id]; simpl.
  - apply on_storage_keeps; [done|]. apply exec_spares. intros a artifact ->. done.
  - pose proof (wp_UploadArtifact a artifact reader w Hd) as [Hk _]. unfold mbind, M_bind.
    by destruct (UploadArtifact a artifact reader w) as [[new|err] w'].
  - assert (Hid : keeps_artifacts w w) by by apply keeps_same.
    assert (Hk : keeps_artifacts w (OpenArtifact ctx id w).2); [|by unfold mbind, M_bind; destruct (OpenArtifact ctx id w) as [[x|err] w']].
    destruct (listed w id) as [artifact|] eqn:Hl.
    + pose proof (OpenArtifact_reads ctx id w artifact Hd Hl) as Ho. destruct (OpenArtifact ctx id w) as [r w']. apply Ho.
    + unfold OpenArtifact, mbind, M_bind. by rewrite Artifact_listed, Hl.
Qed.
Lemma svc_play_keeps ops w : Forall svc_ok ops → drawn w → keeps_artifacts w (svc_play ops w).
Proof.
  intros Hok. revert w. induction Hok as [|op ops Hop _ IH]; intros w Hd; [by apply keeps_same|].
  pose proof (svc_exec_keeps op w Hop Hd) as Hk. eapply keeps_artifacts_trans; [exact Hk|]. apply IH, Hk.
Qed.
Lemma svc_reachable_drawn w : svc_reachable w → drawn w.
Proof.
  intros (tick & blobs & ops & Hok & ->). apply (svc_play_keeps ops); [done|].
  intros id. unfold listed. simpl. rewrite lookup_empty. by intros [? ?].
Qed.

(** An artifact that the service once acknowledged is what was uploaded, and stays so. *)
Lemma upload_kept a artifact reader w new w1 ops ctx :
  svc_reachable w → Forall svc_ok ops → UploadArtifact a artifact reader w = (Ok new, w1) →
  let w2 := svc_play ops w1 in
  ∃ content, reader = Ok content ∧ art_RunID new = asg_RunID a ∧
    art_Size new = Z.of_nat (String.length content) ∧ art_SHA256 new = sha256_hex content ∧
    blob w2 (art_ID new) = Some content ∧
    match (OpenArtifact ctx (art_ID new) w2).1 with
    | Ok (metadata, got) => metadata = new ∧ got = content
    | Err err => (GetRun ctx (asg_RunID a) w2).1 = Err err ∨ (on_blobs (blob_Open (art_ID new)) w2).1 = Err err
    end.
Proof.
  intros Hw Hok Hup w2. pose proof (wp_UploadArtifact a artifact reader w (svc_reachable_drawn w Hw)) as [Hk Hnew].
  rewrite Hup in Hk, Hnew. destruct (Hnew new eq_refl) as (content & -> & Hrun & Hsize & Hsha & Hl & Hb). simpl in Hk, Hl, Hb.
  pose proof (svc_play_keeps ops w1 Hok (kp_drawn _ _ Hk)) as Hk2. fold w2 in Hk2.
  destruct (kp_listed _ _ Hk2 _ _ Hl) as [Hl2 Hb2]. exists content. rewrite Hb in Hb2. split_and!; try done.
  pose proof (OpenArtifact_reads ctx (art_ID new) w2 new (kp_drawn _ _ Hk2) Hl2) as Ho.
  destruct (OpenArtifact ctx (art_ID new) w2) as [[[metadata got]|err] w3]; destruct Ho as [_ Ho]; simpl.
  - destruct Ho as [-> Ho]. split; [done|]. congruence.
  - by rewrite <- Hrun.
Qed.
End durability.
