(* ===== verification/Capability.v ===== *)
(** * Capability: granted, idempotent capability calls (capability.go)

    [scopedCapabilities] is the invoker of one run.  The code holds its mutex
    while it looks a key up and registers it ([call_begin]) and while it
    publishes an outcome ([finishCall]); the callbacks in between
    ([call_work]) run without it.  [Call] is their composition for a caller on
    its own; [step] interleaves any number of callers.  What reaches the
    provider is not reported by [call_work]: [recorded] is the same invoker
    over a provider that notes every request it gets, and the steps of [step]
    run on it. *)

From S2P Require Import Prelude GoStrings Json Types.

(** The [done] channel is open while there is no outcome. *)
Record capabilityCallState := mkCallState {
  cs_name : string; cs_version : string; cs_resource : string;
  cs_outcome : option (Res CapabilityResult) }.

Abbreviation CallTable := (gmap string capabilityCallState).

Section capability.
Context `{Host} `{Encoder} {X : Type}.

Record scopedCapabilities := mkScoped {
  sc_run : Run;
  sc_principal : Principal;
  sc_grants : list CapabilityGrant;
  sc_provider : option (CapabilityRequest → M X (option Json));
  sc_emit : string → Any → M X ();
  sc_reserve : option (string → string → CapabilityRequest → M X CapabilityReservation);
  sc_finish : option (CapabilityReservation → CapabilityResult → string → M X ()) }.

Definition NewCapabilityInvoker (run : Run) (principal : Principal) (grants : list CapabilityGrant)
    (provider : option (CapabilityRequest → M X (option Json)))
    (emit : option (string → Any → M X ()))
    (reserve : option (string → string → CapabilityRequest → M X CapabilityReservation))
    (finish : option (CapabilityReservation → CapabilityResult → string → M X ()))
    : scopedCapabilities * CallTable :=
  (mkScoped run principal grants provider
     (match emit with Some emit => emit | None => λ _ _, mret () end) reserve finish, ∅).

Fixpoint findGrant (grants : list CapabilityGrant) (call : CapabilityCall) : Res CapabilityGrant :=
  match grants with
  | [] => Err (wrapf ErrCapabilityNotGranted (call_Name call))
  | grant :: rest =>
      if negb (gr_Name grant =s call_Name call) ||
         (negb (call_Version call =s "") && negb (gr_Version grant =s call_Version call))
      then findGrant rest call
      else if negb (length (gr_Resources grant) =s 0) &&
              negb (bool_decide (call_Resource call ∈ gr_Resources grant))
      then Err (wrapf ErrResourceOutOfScope (call_Resource call))
      else Ok grant
  end.

(** How far the first locked section takes a caller. *)
Inductive Begun :=
  | BgReturn (r : Res CapabilityResult)
  | BgWait (key : string)
  | BgWork (key : string) (grant : CapabilityGrant).

(** [Call] up to the first [Unlock]. *)
Definition call_begin (s : scopedCapabilities) (call : CapabilityCall) (calls : CallTable) : Begun * CallTable :=
  match sc_provider s with
  | None => (BgReturn (Err (sentinel ErrCapabilityProviderMissing)), calls)
  | Some _ =>
      if call_IdempotencyKey call =s ""
      then (BgReturn (Err (errors_New "relay: capability idempotency key is required")), calls)
      else
        match findGrant (sc_grants s) call with
        | Err e => (BgReturn (Err e), calls)
        | Ok grant =>
            match calls !! call_IdempotencyKey call with
            | Some previous =>
                if negb (cs_name previous =s call_Name call) || negb (cs_version previous =s gr_Version grant) ||
                   negb (cs_resource previous =s call_Resource call)
                then (BgReturn (Err (sentinel ErrIdempotencyConflict)), calls)
                else (BgWait (call_IdempotencyKey call), calls)
            | None =>
                (BgWork (call_IdempotencyKey call) grant,
                 <[call_IdempotencyKey call :=
                     mkCallState (call_Name call) (gr_Version grant) (call_Resource call) None]> calls)
            end
        end
  end.

Definition finishCall (key : string) (r : Res CapabilityResult) (calls : CallTable) : CallTable :=
  match calls !! key with
  | Some state => <[key := mkCallState (cs_name state) (cs_version state) (cs_resource state) (Some r)]> calls
  | None => calls
  end.

Definition capability_request (s : scopedCapabilities) (grant : CapabilityGrant) (call : CapabilityCall)
    : CapabilityRequest :=
  mkCapRequest "" (run_ID (sc_run s)) (run_AgentID (sc_run s)) (sc_principal s) (gr_Name grant)
    (gr_Version grant) (gr_Effect grant) (call_Resource call) (call_Input call).

Definition json_Principal (p : Principal) : Json :=
  JObj (member_str "type" (pr_Type p) ++ member_str "id" (pr_ID p) ++
        omit_str "accountable_id" (pr_AccountableID p)).
Definition json_CapabilityRequest (r : CapabilityRequest) : Json :=
  JObj ([("call_id", JStr (cr_CallID r)); ("run_id", JStr (cr_RunID r)); ("agent_id", JStr (cr_AgentID r));
         ("principal", json_Principal (cr_Principal r)); ("name", JStr (cr_Name r));
         ("version", JStr (cr_Version r)); ("effect", JStr (cr_Effect r))] ++
        omit_str "resource" (cr_Resource r) ++ omit_raw "input" (cr_Input r)).
Definition json_strings (l : list (string * string)) : Any :=
  AnyJson (JObj (map (λ kv, (kv.1, JStr kv.2)) l)).

(** What the unlocked section leaves: the outcome to publish, and the event
    that follows the publication. *)
Record Worked := mkWorked {
  wk_outcome : Res CapabilityResult;
  wk_announce : option (string * Any) }.

(** The provider call, once the reservation says to execute. *)
Definition call_execute (s : scopedCapabilities) (provider : CapabilityRequest → M X (option Json))
    (call : CapabilityCall) (request : CapabilityRequest) (reservation : CapabilityReservation) : M X Worked :=
  let callID := rsv_CallID reservation in
  sc_emit s "capability.started"
    (json_strings [("call_id", callID); ("name", call_Name call); ("resource", call_Resource call)]) ;;
  let request := request <| cr_CallID := callID |> in
  output ← try (provider request);
  match output with
  | Err err =>
      match sc_finish s with
      | Some finish => try (finish reservation (mkCapResult "" None) (err_msg err)) ;; mret ()
      | None => mret ()
      end ;;
      sc_emit s "capability.failed"
        (json_strings [("call_id", callID); ("name", call_Name call); ("error", err_msg err)]) ;;
      mret (mkWorked (Err err) None)
  | Ok output =>
      let result := mkCapResult callID output in
      let announce := Some ("capability.succeeded",
                            json_strings [("call_id", callID); ("name", call_Name call)]) in
      match sc_finish s with
      | Some finish =>
          r ← try (finish reservation result "");
          match r with
          | Err err => mret (mkWorked (Err err) None)
          | Ok _ => mret (mkWorked (Ok result) announce)
          end
      | None => mret (mkWorked (Ok result) announce)
      end
  end.

(** [Call] between the two locked sections. *)
Definition call_work (s : scopedCapabilities) (call : CapabilityCall) (grant : CapabilityGrant) : M X Worked :=
  match sc_provider s with
  | None => mret (mkWorked (Err (sentinel ErrCapabilityProviderMissing)) None)
  | Some provider =>
      let request := capability_request s grant call in
      id ← newControlPlaneID "call";
      match sc_reserve s with
      | None => call_execute s provider call request (mkReservation id true None "")
      | Some reserve =>
          r ← try (reserve (call_IdempotencyKey call)
                     (sha256_hex (json_text (json_CapabilityRequest request))) request);
          match r with
          | Err err => mret (mkWorked (Err err) None)
          | Ok reservation =>
              if negb (rsv_Execute reservation) then
                mret (mkWorked
                  (if negb (rsv_Error reservation =s "") then Err (errors_New (rsv_Error reservation))
                   else match rsv_Result reservation with
                        | None => Err (errors_New "relay: capability call is still pending")
                        | Some result => Ok result
                        end) None)
              else call_execute s provider call request reservation
          end
      end
  end.

(** The event that follows the publication. *)
Definition call_announce (s : scopedCapabilities) (worked : Worked) : M X () :=
  match wk_announce worked with
  | Some (eventType, data) => sc_emit s eventType data
  | None => mret ()
  end.
End capability.
Arguments scopedCapabilities : clear implicits.
(** Code over the state of the callbacks, beside another component of the state. *)
Definition on_env {C X A : Type} (m : M X A) : M (C * X) A := λ w,
  let '(r, w') := m (mkWorld (w_tick w) (w_st w).2) in
  (r, mkWorld (w_tick w') ((w_st w).1, w_st w')).

Section calls.
Context `{Host} `{Encoder} {X : Type}.

(** A caller on its own: the calls of the invoker beside the state of the callbacks. *)
Definition on_calls {A} (f : CallTable → A * CallTable) : M (CallTable * X) A := λ w,
  let '(a, calls) := f (w_st w).1 in (Ok a, mkWorld (w_tick w) (calls, (w_st w).2)).

(** Waiting for a call in progress ends with its outcome, or with the caller's
    context; a caller on its own can only leave by its context. *)
Definition Call (s : scopedCapabilities X) (call : CapabilityCall) : M (CallTable * X) CapabilityResult :=
  begun ← on_calls (call_begin s call);
  match begun with
  | BgReturn r => lift_res r
  | BgWait key =>
      calls ← gets fst;
      match calls !! key ≫= cs_outcome with
      | Some outcome => lift_res outcome
      | None => raise (sentinel ErrContextDone)
      end
  | BgWork key grant =>
      worked ← on_env (call_work s call grant);
      on_calls (λ calls, ((), finishCall key (wk_outcome worked) calls)) ;;
      on_env (call_announce s worked) ;;
      lift_res (wk_outcome worked)
  end.

(** ** Concurrent callers *)
Inductive Caller :=
  | CStart (call : CapabilityCall)
  | CWait (key : string)
  | CWork (key : string) (call : CapabilityCall) (grant : CapabilityGrant)
  | CPublish (key : string) (worked : Worked)
  | CAnnounce (worked : Worked)
  | CDone (r : Res CapabilityResult).

Record Sys := mkSys {
  sy_calls : CallTable;
  sy_env : World X;
  sy_callers : gmap nat Caller;
  sy_invoked : list (string * CapabilityRequest)  (* what reached the provider, and under which key *)
}.

(** The invoker over a provider that notes each request before it answers. *)
Definition recorded (s : scopedCapabilities X) : scopedCapabilities (list CapabilityRequest * X) :=
  {| sc_run := sc_run s; sc_principal := sc_principal s; sc_grants := sc_grants s;
     sc_provider := (λ provider request,
       modify (λ st, (st.1 ++ [request], st.2)) ;; on_env (provider request)) <$> sc_provider s;
     sc_emit := λ eventType data, on_env (sc_emit s eventType data);
     sc_reserve := (λ reserve key hash request, on_env (reserve key hash request)) <$> sc_reserve s;
     sc_finish := (λ finish reservation result cause, on_env (finish reservation result cause)) <$> sc_finish s |}.

(** One step runs one section of one caller. *)
Inductive step (s : scopedCapabilities X) : Sys → Sys → Prop :=
  | step_arrive y i call :
      sy_callers y !! i = None →
      step s y (mkSys (sy_calls y) (sy_env y) (<[i := CStart call]> (sy_callers y)) (sy_invoked y))
  | step_begin y i call begun calls :
      sy_callers y !! i = Some (CStart call) →
      call_begin s call (sy_calls y) = (begun, calls) →
      step s y (mkSys calls (sy_env y)
        (<[i := match begun with
                | BgReturn r => CDone r | BgWait key => CWait key | BgWork key grant => CWork key call grant
                end]> (sy_callers y)) (sy_invoked y))
  | step_work y i key call grant worked tick requests x :
      sy_callers y !! i = Some (CWork key call grant) →
      call_work (recorded s) call grant (mkWorld (w_tick (sy_env y)) ([], w_st (sy_env y))) =
        (Ok worked, mkWorld tick (requests, x)) →
      step s y (mkSys (sy_calls y) (mkWorld tick x) (<[i := CPublish key worked]> (sy_callers y))
        (sy_invoked y ++ map (pair key) requests))
  | step_publish y i key worked :
      sy_callers y !! i = Some (CPublish key worked) →
      step s y (mkSys (finishCall key (wk_outcome worked) (sy_calls y)) (sy_env y)
        (<[i := CAnnounce worked]> (sy_callers y)) (sy_invoked y))
  | step_announce y i worked env :
      sy_callers y !! i = Some (CAnnounce worked) →
      call_announce s worked (sy_env y) = (Ok (), env) →
      step s y (mkSys (sy_calls y) env (<[i := CDone (wk_outcome worked)]> (sy_callers y)) (sy_invoked y))
  | step_wake y i key state outcome :
      sy_callers y !! i = Some (CWait key) → sy_calls y !! key = Some state →
      cs_outcome state = Some outcome →
      step s y (mkSys (sy_calls y) (sy_env y) (<[i := CDone outcome]> (sy_callers y)) (sy_invoked y))
  | step_leave y i key :
      sy_callers y !! i = Some (CWait key) →
      step s y (mkSys (sy_calls y) (sy_env y)
        (<[i := CDone (Err (sentinel ErrContextDone))]> (sy_callers y)) (sy_invoked y)).

Definition fresh_invoker (env : World X) : Sys := mkSys ∅ env ∅ [].
End calls.
Arguments Sys : clear implicits.
