(* ===== verification/CapabilityProps.v ===== *)
(** * CapabilityProps: one execution per key, within the grants, under any interleaving *)

From S2P Require Import Prelude GoStrings Json Types Demo Capability.

Section props.
Context `{Host} `{Encoder} {X : Type} (s : scopedCapabilities X).

(** The caller that owns a key: between the registration and the publication. *)
Definition busy (c : Caller) (key : string) : Prop :=
  match c with CWork k _ _ => k = key | CPublish k _ => k = key | _ => False end.

Definition allowed (request : CapabilityRequest) : Prop :=
  ∃ grant, grant ∈ sc_grants s ∧ cr_Name request = gr_Name grant ∧
    cr_Version request = gr_Version grant ∧ cr_Effect request = gr_Effect grant ∧
    (gr_Resources grant = [] ∨ cr_Resource request ∈ gr_Resources grant) ∧
    cr_RunID request = run_ID (sc_run s) ∧ cr_AgentID request = run_AgentID (sc_run s) ∧
    cr_Principal request = sc_principal s.

Record invoker_ok (y : Sys X) : Prop := {
  io_worker : ∀ i c key, sy_callers y !! i = Some c → busy c key →
    ∃ st, sy_calls y !! key = Some st ∧ cs_outcome st = None;
  io_unique : ∀ i j c d key, sy_callers y !! i = Some c → sy_callers y !! j = Some d →
    busy c key → busy d key → i = j;
  io_pending : ∀ i key call grant, sy_callers y !! i = Some (CWork key call grant) →
    key ∉ (sy_invoked y).*1 ∧ findGrant (sc_grants s) call = Ok grant;
  io_known : ∀ key, key ∈ (sy_invoked y).*1 → is_Some (sy_calls y !! key);
  io_once : NoDup (sy_invoked y).*1;
  io_allowed : ∀ key request, (key, request) ∈ sy_invoked y → allowed request
}.

Lemma findGrant_ok grants call grant :
  findGrant grants call = Ok grant →
  grant ∈ grants ∧ gr_Name grant = call_Name call ∧
  (call_Version call = "" ∨ gr_Version grant = call_Version call) ∧
  (gr_Resources grant = [] ∨ call_Resource call ∈ gr_Resources grant).
Proof.
  induction grants as [|g grants IH]; simpl; [done|]. destruct (_ || _) eqn:E.
  { intros (?&?&?&?)%IH. split_and!; try done. by right. }
  apply orb_false_iff in E as [E1%negb_false_iff%bool_decide_eq_true E2].
  destruct (_ && _) eqn:E3 in |- *; [done|]. intros [= ->]. split_and!; [by left|done|..].
  - apply andb_false_iff in E2 as [E2%negb_false_iff%bool_decide_eq_true|E2%negb_false_iff%bool_decide_eq_true]; auto.
  - apply andb_false_iff in E3 as [E3%negb_false_iff%bool_decide_eq_true|E3%negb_false_iff%bool_decide_eq_true]; auto.
    destruct (gr_Resources grant); auto. done.
Qed.

Lemma wp_any {S A} (m : M S A) (Q : Res A → World S → Prop) w : (∀ r w', Q r w') → wp m Q w.
Proof. intros HQ. apply HQ. Qed.

(** Code of the other callbacks does not reach the provider. *)
Lemma wp_beside {C A} (m : M X A) (Q : Res A → World (C * X) → Prop) w :
  (∀ r w', (w_st w').1 = (w_st w).1 → Q r w') → wp (on_env m) Q w.
Proof. intros HQ. unfold wp, on_env. destruct (m _) as [r w']. by apply HQ. Qed.

(** What reached the provider: nothing more, or the request of the call once,
    under the reserved ID. *)
Definition asked (call : CapabilityCall) (grant : CapabilityGrant) (l l' : list CapabilityRequest) : Prop :=
  l' = l ∨ ∃ id, l' = l ++ [(capability_request s grant call) <| cr_CallID := id |>].

Lemma wp_call_execute provider call grant rsv w :
  sc_provider s = Some provider →
  wp (call_execute (recorded s) (λ request, modify (λ st, (st.1 ++ [request], st.2)) ;; on_env (provider request))
        call (capability_request (recorded s) grant call) rsv)
    (λ _ w', asked call grant (w_st w).1 (w_st w').1) w.
Proof.
  intros Hp. unfold call_execute. simpl. wp_step. apply wp_beside. intros [[]|e] w1 E1; [|by left].
  do 4 wp_step. apply wp_beside. simpl. intros out w2 E2.
  assert (Hask : asked call grant (w_st w).1 (w_st w2).1).
  { right. exists (rsv_CallID rsv). by rewrite E2, E1. }
  destruct out as [out|err].
  - destruct (sc_finish s) as [finish|]; simpl; [|by apply wp_ret].
    wp_step. wp_step. apply wp_beside. intros [[]|e] w3 E3; apply wp_ret; by rewrite E3.
  - wp_step. apply wp_mono with (λ _ w3, (w_st w3).1 = (w_st w2).1).
    { destruct (sc_finish s); simpl; [|by apply wp_ret].
      wp_step. wp_step. apply wp_beside. intros r w3 E3. by apply wp_ret. }
    intros [[]|e] w3 E3; [|by rewrite E3].
    wp_step. apply wp_beside. intros [[]|e] w4 E4; [apply wp_ret|]; by rewrite E4, E3.
Qed.

Lemma wp_call_work call grant w :
  wp (call_work (recorded s) call grant) (λ _ w', asked call grant (w_st w).1 (w_st w').1) w.
Proof.
  unfold call_work. simpl. destruct (sc_provider s) as [provider|] eqn:Hp; simpl; [|apply wp_ret; by left].
  unfold newControlPlaneID. do 2 wp_step. destruct (sc_reserve s) as [reserve|]; simpl.
  2:{ exact (wp_call_execute _ _ _ _ (mkWorld _ _) Hp). }
  wp_step. wp_step. apply wp_beside. simpl. intros [rsv|e] w1 E1; [|apply wp_ret; by left].
  wp_step; [apply wp_ret; by left|]. rewrite <- E1. by apply (wp_call_execute provider).
Qed.

Lemma invoked_allowed call grant request id :
  findGrant (sc_grants s) call = Ok grant →
  request = (capability_request s grant call) <| cr_CallID := id |> → allowed request.
Proof.
  intros (Hin & Hn & Hv & Hr)%findGrant_ok ->. exists grant. simpl. split_and!; done.
Qed.

Lemma fresh_ok env : invoker_ok (fresh_invoker env).
Proof.
  constructor; simpl; try (intros *; rewrite ?lookup_empty; done).
  - intros key Hk. by apply elem_of_nil in Hk.
  - constructor.
  - intros key request Hk. by apply elem_of_nil in Hk.
Qed.

(** A caller that owns nothing may change freely to another that owns nothing. *)
Lemma idle_ok y i c' env :
  invoker_ok y → (∀ key, ¬ busy c' key) →
  invoker_ok (mkSys (sy_calls y) env (<[i := c']> (sy_callers y)) (sy_invoked y)).
Proof.
  intros [Hw Hu Hp Hk Ho Ha] Hc'. constructor; simpl; try done.
  - intros j c key [[-> <-]|[_ Hj]]%lookup_insert_Some Hb; [by destruct (Hc' key)|by eapply Hw].
  - intros j k c d key [[-> <-]|[_ Hj]]%lookup_insert_Some; [by intros _ ?%Hc'|].
    intros [[-> <-]|[_ Hk']]%lookup_insert_Some; [by intros _ ?%Hc'|by eapply Hu].
  - intros j key call grant [[-> ->]|[_ Hj]]%lookup_insert_Some; [|by eapply Hp].
    by destruct (Hc' key).
Qed.

Lemma step_ok y y' : step s y y' → invoker_ok y → invoker_ok y'.
Proof.
  destruct 1 as [y i call Hi|y i call begun calls Hi Hb|y i key call grant worked tick requests x Hi Hwork
                |y i key worked Hi|y i worked env Hi Hann|y i key state outcome Hi|y i key Hi]; intros Hok;
    try (apply idle_ok; [done|by intros ? []]).
  - (* the first locked section *)
    unfold call_begin in Hb. destruct (sc_provider s); [|injection Hb as <- <-; (apply idle_ok; [done|by intros ? []])].
    destruct (_ =s ""); [injection Hb as <- <-; (apply idle_ok; [done|by intros ? []])|].
    destruct (findGrant _ call) as [grant|e] eqn:Hg; [|injection Hb as <- <-; (apply idle_ok; [done|by intros ? []])].
    set (key := call_IdempotencyKey call) in *. destruct (sy_calls y !! key) as [prev|] eqn:Hkey.
    { destruct (_ || _); injection Hb as <- <-; (apply idle_ok; [done|by intros ? []]). }
    injection Hb as <- <-. destruct Hok as [Hw Hu Hp Hk Ho Ha].
    assert (Hfree : ∀ j c, sy_callers y !! j = Some c → ¬ busy c key).
    { intros j c Hj Hbusy. destruct (Hw j c key Hj Hbusy) as (st & Hst & _). congruence. }
    constructor; simpl; try done.
    + intros j c key' [[-> <-]|[_ Hj]]%lookup_insert_Some Hbusy.
      * simpl in Hbusy. subst key'. eexists. by rewrite lookup_insert_eq.
      * rewrite lookup_insert_ne by (intros <-; by apply (Hfree j c)). by eapply Hw.
    + intros j k c d key' [[-> <-]|[_ Hj]]%lookup_insert_Some [[-> <-]|[_ Hk']]%lookup_insert_Some; simpl.
      * done.
      * intros <- Hd. by destruct (Hfree k d).
      * intros Hc <-. by destruct (Hfree j c).
      * by eapply Hu.
    + intros j key' call' grant' [[-> [= <- <- <-]]|[_ Hj]]%lookup_insert_Some; [|by eapply Hp].
      split; [|done]. intros Hin. destruct (Hk key Hin) as [? ?]. congruence.
    + intros key' Hin. destruct (decide (key' = key)) as [->|?]; [by rewrite lookup_insert_eq|].
      rewrite lookup_insert_ne by done. by apply Hk.
  - (* the unlocked section *)
    destruct Hok as [Hw Hu Hp Hk Ho Ha]. destruct (Hp i key call grant Hi) as [Hnew Hg].
    pose proof (wp_call_work call grant (mkWorld (w_tick (sy_env y)) ([], w_st (sy_env y)))) as Hinv.
    unfold wp in Hinv. rewrite Hwork in Hinv. simpl in Hinv.
    assert (Hkeys : (sy_invoked y ++ map (pair key) requests).*1 = (sy_invoked y).*1 ∨
                    (sy_invoked y ++ map (pair key) requests).*1 = (sy_invoked y).*1 ++ [key]).
    { destruct Hinv as [->|[id ->]]; rewrite fmap_app; simpl; [left; by rewrite app_nil_r|by right]. }
    assert (Hothers : ∀ j key' call' grant', j ≠ i → sy_callers y !! j = Some (CWork key' call' grant') → key' ≠ key).
    { intros j key' call' grant' Hj Hjw Hke. subst key'. apply Hj. by apply (Hu j i _ _ key Hjw Hi). }
    constructor; simpl.
    + intros j c key' [[-> <-]|[_ Hj]]%lookup_insert_Some Hbusy; [|by eapply Hw].
      simpl in Hbusy. subst key'. by eapply Hw.
    + intros j k c d key' [[-> <-]|[_ Hj]]%lookup_insert_Some [[-> <-]|[_ Hk']]%lookup_insert_Some; simpl.
      * done.
      * intros <- Hd. by eapply (Hu j k).
      * intros Hc <-. by eapply (Hu j k).
      * by eapply Hu.
    + intros j key' call' grant' [[-> ?]|[Hne Hj]]%lookup_insert_Some; [done|].
      destruct (Hp j key' call' grant' Hj) as [Hn' ?]. split; [|done].
      destruct Hkeys as [->| ->]; [done|]. rewrite elem_of_app.
      intros [?|Hin]; [done|]. apply list_elem_of_singleton in Hin.
      eapply Hothers; [|done|done]. congruence.
    + intros key' Hin. destruct Hkeys as [Heq|Heq]; rewrite Heq in Hin; [by apply Hk|].
      apply elem_of_app in Hin as [?|Hin]; [by apply Hk|].
      apply list_elem_of_singleton in Hin as ->. destruct (Hw i _ key Hi eq_refl) as (st & -> & _). by eexists.
    + destruct Hkeys as [->| ->]; [done|]. apply NoDup_app. split_and!.
      * done.
      * intros k Hin ->%list_elem_of_singleton. done.
      * apply NoDup_singleton.
    + intros key' rq [?|Hin]%elem_of_app; [by eapply Ha|].
      destruct Hinv as [->|[id ->]]; simpl in Hin; [by apply elem_of_nil in Hin|].
      apply list_elem_of_singleton in Hin as [= -> ->]. by eapply invoked_allowed.
  - (* the publication *)
    destruct Hok as [Hw Hu Hp Hk Ho Ha]. destruct (Hw i _ key Hi eq_refl) as (st & Hst & _).
    unfold finishCall. rewrite Hst. constructor; simpl; try done.
    + intros j c key' [[-> <-]|[Hne Hj]]%lookup_insert_Some Hbusy; [done|].
      assert (key' ≠ key).
      { intros Hke. subst key'. apply Hne. by apply (Hu i j _ _ key Hi Hj). }
      rewrite lookup_insert_ne by done. by eapply Hw.
    + intros j k c d key' [[-> <-]|[_ Hj]]%lookup_insert_Some; [by intros _ ?|].
      intros [[-> <-]|[_ Hk']]%lookup_insert_Some; [by intros _ ?|by eapply Hu].
    + intros j key' call' grant' [[-> ?]|[_ Hj]]%lookup_insert_Some; [done|by eapply Hp].
    + intros key' Hin. destruct (decide (key' = key)) as [->|?]; [by rewrite lookup_insert_eq|].
      rewrite lookup_insert_ne by done. by apply Hk.
Qed.

Lemma steps_ok y y' : rtc (step s) y y' → invoker_ok y → invoker_ok y'.
Proof. induction 1; eauto using step_ok. Qed.

(** A published outcome is never replaced. *)
Lemma step_outcome y y' key st o :
  step s y y' → invoker_ok y → sy_calls y !! key = Some st → cs_outcome st = Some o →
  ∃ st', sy_calls y' !! key = Some st' ∧ cs_outcome st' = Some o.
Proof.
  intros Hstep Hok Hst Ho.
  destruct Hstep as [y i call Hi|y i call begun calls Hi Hb|y i key' call grant worked tick requests x Hi Hwork
                |y i key' worked Hi|y i worked env Hi Hann|y i key' state outcome Hi|y i key' Hi]; simpl; eauto.
  - unfold call_begin in Hb. repeat case_match; simplify_eq/=; eauto.
    rewrite lookup_insert_ne; [eauto|]. congruence.
  - destruct (io_worker _ Hok i _ key' Hi eq_refl) as (st' & Hst' & Hn).
    unfold finishCall. rewrite Hst'. rewrite lookup_insert_ne; [eauto|]. congruence.
Qed.

(** *** The recording provider changes nothing else *)
Definition mirrors {A} (m' : M (list CapabilityRequest * X) A) (m : M X A) : Prop := ∀ w,
  m (mkWorld (w_tick w) (w_st w).2) = ((m' w).1, mkWorld (w_tick (m' w).2) (w_st (m' w).2).2).

Lemma mirrors_ret {A} (a : A) : mirrors (mret a) (mret a).
Proof. done. Qed.
Lemma mirrors_bind {A B} m' m (k' : A → M _ B) k :
  mirrors m' m → (∀ a, mirrors (k' a) (k a)) → mirrors (m' ≫= k') (m ≫= k).
Proof.
  intros Hm Hk w. unfold mbind, M_bind. rewrite (Hm w). destruct (m' w) as [[a|e] w1]; [apply Hk|done].
Qed.
Lemma mirrors_try {A} (m' : M _ A) m : mirrors m' m → mirrors (try m') (try m).
Proof. intros Hm w. unfold try. rewrite (Hm w). by destruct (m' w). Qed.
Lemma mirrors_env {A} (m : M X A) : mirrors (on_env m) m.
Proof. intros w. unfold on_env. by destruct (m _) as [r [t x]]. Qed.
Lemma mirrors_noted (provider : CapabilityRequest → M X (option Json)) request :
  mirrors (modify (λ st, (st.1 ++ [request], st.2)) ;; on_env (provider request)) (provider request).
Proof. intros w. unfold mbind, M_bind, modify, on_env. simpl. by destruct (provider _ _) as [r [t x]]. Qed.

Lemma mirrors_id prefix : mirrors (newControlPlaneID prefix) (newControlPlaneID prefix).
Proof. done. Qed.

#[local] Hint Resolve mirrors_ret mirrors_id mirrors_env mirrors_noted mirrors_try : mirror.
Ltac mirror := repeat first
  [solve [eauto with mirror] | apply mirrors_bind; [|intros ?] | case_match; simplify_eq/=].

Lemma recorded_mirrors call grant : mirrors (call_work (recorded s) call grant) (call_work s call grant).
Proof.
  unfold call_work, call_execute. destruct s as [run principal grants [provider|] emit [reserve|] [finish|]]; simpl;
    mirror.
Qed.

(** *** A caller on its own: [Call] is a path of [step] *)
Section alone.
Hypothesis Hemit : ∀ eventType data w, (sc_emit s eventType data w).1 = Ok ().

Lemma wp_emitted eventType data (Q : Res () → World X → Prop) w :
  (∀ w', Q (Ok ()) w') → wp (sc_emit s eventType data) Q w.
Proof. intros HQ. unfold wp. rewrite Hemit. apply HQ. Qed.

Lemma wp_execute_returns provider call request rsv w :
  wp (call_execute s provider call request rsv) (λ res _, is_ok res = true) w.
Proof.
  unfold call_execute. wp_step. apply wp_emitted. intros w1. wp_step. wp_step. apply wp_any. intros [out|err] w2.
  - destruct (sc_finish s) as [finish|]; [|by apply wp_ret].
    wp_step. wp_step. apply wp_any. intros [[]|e] w3; by apply wp_ret.
  - wp_step. apply wp_mono with (λ r _, r = Ok ()).
    { destruct (sc_finish s); [|by apply wp_ret]. wp_step. wp_step. apply wp_any. intros ? ?. by apply wp_ret. }
    intros ? w3 ->. wp_step. apply wp_emitted. intros w4. by apply wp_ret.
Qed.

Lemma wp_work_returns call grant w : wp (call_work s call grant) (λ res _, is_ok res = true) w.
Proof.
  unfold call_work. destruct (sc_provider s) as [provider|]; [|by apply wp_ret].
  unfold newControlPlaneID. do 2 wp_step. destruct (sc_reserve s) as [reserve|]; [|apply wp_execute_returns].
  wp_step. wp_step. apply wp_any. intros [rsv|e] w1; [|by apply wp_ret].
  wp_step; [by apply wp_ret|apply wp_execute_returns].
Qed.

Lemma Call_steps_alone y i call r w' :
  sy_callers y !! i = Some (CStart call) → sy_calls y !! call_IdempotencyKey call = None →
  Call s call (mkWorld (w_tick (sy_env y)) (sy_calls y, w_st (sy_env y))) = (r, w') →
  ∃ y', rtc (step s) y y' ∧ sy_callers y' !! i = Some (CDone r) ∧
        sy_calls y' = (w_st w').1 ∧ sy_env y' = mkWorld (w_tick w') (w_st w').2.
Proof.
  intros Hi Hkey. destruct (call_begin s call (sy_calls y)) as [begun calls] eqn:Hb.
  pose proof (step_begin s y i call begun calls Hi Hb) as Hbegin.
  unfold Call, on_calls, mbind, M_bind. simpl. rewrite Hb.
  destruct y as [calls0 [t x] callers inv]. simpl in *. destruct begun as [res|key|key grant].
  - intros Hr. eexists. split; [by apply rtc_once|]. simpl. rewrite lookup_insert_eq.
    destruct res; injection Hr as <- <-; done.
  - exfalso. unfold call_begin in Hb. rewrite Hkey in Hb. repeat case_match; done.
  - unfold on_env at 1. simpl.
    pose proof (wp_work_returns call grant (mkWorld t x)) as Hok. unfold wp in Hok.
    pose proof (recorded_mirrors call grant (mkWorld t ([], x))) as Hm. simpl in Hm. rewrite Hm in Hok |- *.
    destruct (call_work (recorded s) call grant _) as [[worked|e] [t1 [requests x1]]] eqn:Hw; simpl in *;
      [|done].
    unfold on_env. simpl. destruct (call_announce s worked (mkWorld t1 x1)) as [a [t2 x2]] eqn:Ha.
    assert (a = Ok ()) as ->.
    { unfold call_announce in Ha. destruct (wk_announce worked) as [[ty d]|]; [|by injection Ha].
      pose proof (Hemit ty d (mkWorld t1 x1)) as He. by rewrite Ha in He. }
    intros Hr. eexists. split.
    { eapply rtc_l; [exact Hbegin|].
      eapply rtc_l; [eapply (step_work s _ i key call grant worked); [apply lookup_insert_eq|exact Hw]|].
      eapply rtc_l; [apply (step_publish s _ i key worked), lookup_insert_eq|].
      apply rtc_once, (step_announce s _ i worked (mkWorld t2 x2)); [apply lookup_insert_eq|exact Ha]. }
    simpl. rewrite lookup_insert_eq. destruct (wk_outcome worked); injection Hr as <- <-; done.
Qed.
End alone.

(** C8: an idempotency key reaches the provider at most once, however many
    callers use it and however their calls interleave; the outcome published
    for a key is never replaced, so every later caller of the key sees it. *)
Theorem capability_runs_once env y y' :
  rtc (step s) (fresh_invoker env) y → rtc (step s) y y' →
  NoDup (sy_invoked y').*1 ∧
  ∀ key st o, sy_calls y !! key = Some st → cs_outcome st = Some o →
    ∃ st', sy_calls y' !! key = Some st' ∧ cs_outcome st' = Some o.
Proof.
  intros Hy Hy'. pose proof (steps_ok _ _ Hy (fresh_ok env)) as Hok.
  split; [by apply (steps_ok _ _ Hy' Hok)|]. intros key st o Hst Ho. revert st Hst Ho Hok.
  clear Hy. induction Hy' as [y|y y1 y' Hstep _ IH]; intros st Hst Ho Hok; [eauto|].
  destruct (step_outcome _ _ _ _ _ Hstep Hok Hst Ho) as (st1 & Hst1 & Ho1).
  eapply IH; eauto using step_ok.
Qed.

(** C33: What the provider is asked to do is inside a grant of the run: the
    granted name, version and effect, on a granted resource (any resource when
    the grant lists none), for the run, agent and principal of the invoker. *)
Theorem capability_within_grants env y key request :
  rtc (step s) (fresh_invoker env) y → (key, request) ∈ sy_invoked y → allowed request.
Proof. intros Hy. by apply (steps_ok _ _ Hy (fresh_ok env)). Qed.
End props.

(** ** Two callers of one key *)
Definition demo_grant : CapabilityGrant := mkGrant "issue.comment" "1" "write" ["issue-42"].
Definition demo_invoker : scopedCapabilities () :=
  mkScoped (mkRun "run" "" "" "" "agent" "k" (mkRuntimeRequirement "" "" "" "" ∅) (mkSource "" "" "" None)
              RunRunning zero None "" 0 None None None None "" None)
    (mkPrincipal "user" "u1" "") [demo_grant]
    (Some (λ _ w, (Ok (Some (JStr "posted")), w))) (λ _ _ w, (Ok (), w)) None None.
Definition demo_call : CapabilityCall := mkCall "issue.comment" "" "key-1" "issue-42" None.
Definition demo_env : World () := mkWorld 0 ().
Definition busy_state : capabilityCallState := mkCallState "issue.comment" "1" "issue-42" None.
Definition demo_recorded : Res Worked * World (list CapabilityRequest * ()) :=
  call_work (recorded demo_invoker) demo_call demo_grant (mkWorld 0 ([], ())).
Definition demo_worked : Worked :=
  match demo_recorded.1 with Ok w => w | Err e => mkWorked (Err e) None end.
Definition worked_sys : Sys () :=
  mkSys {["key-1" := busy_state]} (mkWorld (w_tick demo_recorded.2) ())
    (<[0 := CPublish "key-1" demo_worked]> (<[0 := CWork "key-1" demo_call demo_grant]>
       (<[0 := CStart demo_call]> ∅)))
    ([] ++ map (pair "key-1") (w_st demo_recorded.2).1).

Lemma worked_reached : rtc (step demo_invoker) (fresh_invoker demo_env) worked_sys.
Proof.
  eapply rtc_l; [apply (step_arrive _ _ 0 demo_call); reflexivity|].
  eapply rtc_l; [eapply (step_begin _ _ 0 demo_call (BgWork "key-1" demo_grant)); [reflexivity|vm_compute; reflexivity]|].
  eapply rtc_l; [|apply rtc_refl].
  refine (step_work demo_invoker _ 0 "key-1" demo_call demo_grant demo_worked
            (w_tick demo_recorded.2) (w_st demo_recorded.2).1 () _ _); vm_compute; reflexivity.
Qed.

Definition published_sys : Sys () :=
  mkSys (finishCall "key-1" (wk_outcome demo_worked) (sy_calls worked_sys)) (sy_env worked_sys)
    (<[0 := CAnnounce demo_worked]> (sy_callers worked_sys)) (sy_invoked worked_sys).

Lemma capability_runs_once_witness :
  NoDup (sy_invoked published_sys).*1 ∧
  ∀ key st o, sy_calls worked_sys !! key = Some st → cs_outcome st = Some o →
    ∃ st', sy_calls published_sys !! key = Some st' ∧ cs_outcome st' = Some o.
Proof.
  apply (capability_runs_once demo_invoker demo_env worked_sys published_sys worked_reached).
  apply rtc_once, step_publish. reflexivity.
Defined.

Lemma capability_within_grants_witness :
  allowed demo_invoker ((capability_request demo_invoker demo_grant demo_call) <| cr_CallID := "call_0" |>).
Proof.
  apply (capability_within_grants demo_invoker demo_env worked_sys "key-1" _ worked_reached).
  vm_compute. left.
Defined.
