(* ===== verification/Fs.v ===== *)
(** * Fs: files and paths

    The calls of the packages os and path/filepath that the code makes, on
    Unix.  The file system maps paths to contents; any call may fail, as
    [fault_at] says; a failed write leaves what [torn_at] says of the file
    it was writing, and a temporary file gets the random part [temp_at].  Directories exist once a call that makes them succeeded;
    they are not represented. *)

From S2P Require Import Prelude GoStrings Types.

Class Faults := {
  fault_at : nat → option Error;
  torn_at : nat → option string → option string;
  temp_at : nat → string
}.

(** A failure does not pass for the absence of the file; the random part of a
    temporary name is a number. *)
Class FaultLaws `{Faults} : Prop := {
  fault_not_absence : ∀ n e, fault_at n = Some e → errors_Is e ErrNotExist = false;
  temp_digits : ∀ n, HasSuffix (".pending-" +:+ temp_at n) ".json" = false
}.

Abbreviation FS := (gmap string string).

Section os.
Context `{Faults}.

(** The n-th interaction fails, or not. *)
Definition syscall : M FS () :=
  fault ← host fault_at;
  match fault with Some e => raise e | None => mret () end.

Definition os_MkdirAll (path : string) : M FS () := syscall.

Definition os_ReadFile (path : string) : M FS string :=
  syscall ;;
  v ← gets (λ fs : FS, fs !! path);
  match v with Some content => mret content | None => raise (sentinel ErrNotExist) end.

Definition os_WriteFile (path content : string) : M FS () :=
  fault ← host (λ n, (fault_at n, torn_at n));
  match fault with
  | (Some e, torn) => modify (λ fs : FS, partial_alter torn path fs) ;; raise e
  | (None, _) => modify (<[path := content]>)
  end.

Definition os_Remove (path : string) : M FS () :=
  syscall ;;
  v ← gets (λ fs : FS, fs !! path);
  match v with Some _ => modify (delete path) | None => raise (sentinel ErrNotExist) end.

(** [os.Rename] replaces the target in one step. *)
Definition os_Rename (from to : string) : M FS () :=
  syscall ;;
  v ← gets (λ fs : FS, fs !! from);
  match v with
  | Some content => modify (λ fs : FS, <[to := content]> (delete from fs))
  | None => raise (sentinel ErrNotExist)
  end.

Definition os_Stat (path : string) : M FS () :=
  syscall ;;
  v ← gets (λ fs : FS, fs !! path);
  match v with Some _ => mret () | None => raise (sentinel ErrNotExist) end.

(** [os.CreateTemp]: a new, empty file. *)
Definition os_CreateTemp (dir pattern : string) : M FS string :=
  syscall ;;
  random ← host temp_at;
  let name := dir +:+ "/" +:+ pattern +:+ random in
  v ← gets (λ fs : FS, fs !! name);
  match v with
  | Some _ => raise (errors_New "file exists")
  | None => modify (<[name := ""]>) ;; mret name
  end.

Lemma wp_call (Q : Res () → World FS → Prop) w :
  (∀ e, fault_at (w_tick w) = Some e → Q (Err e) (mkWorld (w_tick w + 1) (w_st w))) →
  Q (Ok ()) (mkWorld (w_tick w + 1) (w_st w)) → wp syscall Q w.
Proof. intros He Hok. unfold syscall. do 2 wp_step. destruct (fault_at _) as [e|] eqn:Ef; [by apply wp_raise, He|by apply wp_ret]. Qed.
End os.

(** The names in a directory, in order: the paths one level below it. *)
Definition entry_name (dir path : string) : option string :=
  let pre := dir +:+ "/" in
  if HasPrefix path pre then
    let name := str_drop (String.length pre) path in
    if Contains name "/" then None else Some name
  else None.
Definition dir_entries (dir : string) (fs : FS) : list string :=
  merge_sort String.le (omap (entry_name dir) (elements (dom fs))).

(** ** Paths *)
Definition slash : Ascii.ascii := Ascii.ascii_of_nat 47.
Definition IsAbs (path : string) : bool := HasPrefix path "/".

(** The elements of a path after [.] and [..] are resolved, last first. *)
Fixpoint resolve (rooted : bool) (stack elems : list string) : list string :=
  match elems with
  | [] => stack
  | e :: elems =>
      if (e =s "") || (e =s ".") then resolve rooted stack elems
      else if e =s ".." then
        match stack with
        | top :: rest => if top =s ".." then resolve rooted (".." :: stack) elems
                         else resolve rooted rest elems
        | [] => if rooted then resolve rooted [] elems else resolve rooted [".."] elems
        end
      else resolve rooted (e :: stack) elems
  end.

(** [filepath.Clean] *)
Definition Clean (path : string) : string :=
  let elems := reverse (resolve (IsAbs path) [] (Split path slash)) in
  if IsAbs path then "/" +:+ Join elems "/"
  else if length elems =s 0 then "." else Join elems "/".

(** [filepath.Join] of two elements. *)
Definition PathJoin (a b : string) : string :=
  if a =s "" then (if b =s "" then "" else Clean b)
  else if b =s "" then Clean a else Clean (a +:+ "/" +:+ b).
