(* ===== verification/Instructions.v ===== *)
(** * Instructions: compiling and materializing instruction layers (instructions.go)

    [Compile] joins the stable layers and the turn prompt.
    [MaterializeInstructions] writes the stable layer between two markers in
    the provider's instruction file and leaves the rest of the file to its
    owner; [materialized] is the new content as a function of the old. *)

From S2P Require Import Prelude GoStrings Json Types Demo Fs.

Definition instructionMarkerBegin : string := "<!-- BEGIN RELAY-RUNTIME (auto-managed; do not edit) -->".
Definition instructionMarkerEnd : string := "<!-- END RELAY-RUNTIME -->".

(** ** Compilation *)
Definition appendInstruction (builder : string) (fragment : InstructionFragment) : string :=
  let content := TrimSpace (frag_Content fragment) in
  if content =s "" then builder
  else
    let title := TrimSpace (frag_Title fragment) in
    let title := if title =s "" then TrimSpace (frag_ID fragment) else title in
    builder +:+ nl +:+ nl +:+ "## " +:+ title +:+ nl +:+ nl +:+ content +:+ nl.

Definition stable_header : string :=
  "# Relay Runtime" +:+ nl +:+ nl +:+
  "This execution is managed by Relay. Return durable results before the top-level agent process exits." +:+ nl.

Definition Compile (input : Input) (bundle : InstructionBundle) : CompiledInstructions :=
  let layers := [ib_Runtime bundle; ib_Host bundle; ib_Workspace bundle; ib_Agent bundle] in
  let stable := foldl (foldl appendInstruction) stable_header layers in
  let prompt := foldl appendInstruction (TrimSpace (in_Prompt input)) (ib_Turn bundle) in
  mkCompiled (TrimRightByte newline stable +:+ nl) (TrimSpace prompt +:+ nl).

Definition backquote : string := String (Ascii.ascii_of_nat 96) "".

Definition capability_line (grant : CapabilityGrant) : string :=
  "- " +:+ backquote +:+ gr_Name grant +:+ "@" +:+ gr_Version grant +:+ backquote +:+
  (if length (gr_Resources grant) =s 0 then ""
   else " resources: " +:+ backquote +:+
        Join (gr_Resources grant) (backquote +:+ ", " +:+ backquote) +:+ backquote) +:+ nl.

Definition CapabilityToolInstruction (grants : list CapabilityGrant) : InstructionFragment :=
  mkFragment "relay-capability-tools" "1" "Relay capabilities"
    ("Use " +:+ backquote +:+ "relay-tool call" +:+ backquote +:+
     " when live host data or actions are needed. Do not invoke host-specific CLIs directly. Every call requires a unique, stable " +:+
     backquote +:+ "--idempotency" +:+ backquote +:+ " value." +:+ nl +:+
     (if length grants =s 0 then ""
      else nl +:+ "Granted capabilities:" +:+ nl +:+
           foldr (λ grant acc, capability_line grant +:+ acc) "" grants)).

(** ** Materialization *)
Definition instruction_block (stable : string) : string :=
  instructionMarkerBegin +:+ nl +:+ TrimRightByte newline stable +:+ nl +:+ instructionMarkerEnd +:+ nl.

Definition materialized (existing : option string) (stable : string) : Res string :=
  let block := instruction_block stable in
  match existing with
  | None => Ok block
  | Some content =>
      match Index content instructionMarkerBegin with
      | Some start =>
          match Index (str_drop start content) instructionMarkerEnd with
          | None => Err (errors_New "relay: incomplete managed instruction marker")
          | Some endRelative =>
              let e := start + endRelative + String.length instructionMarkerEnd in
              let e := if HasPrefix (str_drop e content) nl then e + 1 else e in
              Ok (str_take start content +:+ block +:+ str_drop e content)
          end
      | None =>
          let separator := if content =s "" then "" else nl +:+ nl in
          Ok (content +:+ separator +:+ block)
      end
  end.

Arguments materialized : simpl never.
Arguments instruction_block : simpl never.

(** [strings.ToLower] for comparison with ASCII names: the two non-ASCII runes
    that lower to ASCII are the Kelvin sign and the dotted capital I; the others
    are left as they are and equal no ASCII name. *)
Fixpoint lower (s : string) : string :=
  match s with
  | EmptyString => ""
  | String a s1 =>
      let n := code a in
      if ((65 <=? n) && (n <=? 90))%nat then String (byte_of (n + 32)) (lower s1)
      else match s1 with
           | String b s2 =>
               if ((n =? 196) && (code b =? 176))%nat then String (byte_of 105) (lower s2)
               else match s2 with
                    | String c s3 =>
                        if ((n =? 226) && (code b =? 132) && (code c =? 170))%nat
                        then String (byte_of 107) (lower s3)
                        else String a (lower s1)
                    | EmptyString => String a (lower s1)
                    end
           | EmptyString => String a (lower s1)
           end
  end.

Definition instructionFileName `{Host} (provider : string) : Res string :=
  let p := lower provider in
  if bool_decide (p ∈ ["codex"; "trae"; "traex"; "copilot"; "cursor"; "opencode"; "hermes"; "pi"; "mock"])
  then Ok "AGENTS.md"
  else if p =s "claude" then Ok "CLAUDE.md"
  else if p =s "qwen" then Ok "QWEN.md"
  else if p =s "codebuddy" then Ok "CODEBUDDY.md"
  else Err (errors_New ("relay: unsupported instruction provider " +:+ fmt_quote provider)).

Section materialize.
Context `{Host} `{Faults}.

Definition MaterializeInstructions (workDir provider : string) (compiled : CompiledInstructions)
    : M FS string :=
  name ← lift_res (instructionFileName provider);
  let path := PathJoin workDir name in
  os_MkdirAll path ;;
  existing ← try (os_ReadFile path);
  match existing with
  | Err err =>
      if errors_Is err ErrNotExist
      then content ← lift_res (materialized None (ci_Stable compiled));
           os_WriteFile path content ;; mret path
      else raise (mkError (err_is err) ("relay: read instruction file: " +:+ err_msg err))
  | Ok existing =>
      content ← lift_res (materialized (Some existing) (ci_Stable compiled));
      os_WriteFile path content ;;
      mret path
  end.
End materialize.

(** ** The managed block *)

(** A text the owner of the file may hold: no managed block in it. *)
Definition unmanaged (s : string) : Prop := Index s instructionMarkerBegin = None.
(** A stable layer that does not imitate the end of the block. *)
Definition plain (stable : string) : Prop := Index (TrimRightByte newline stable) instructionMarkerEnd = None.

Lemma nl_app s : nl +:+ s = String newline s.
Proof. done. Qed.

Lemma Index_begin pre rest :
  unmanaged pre → Index (pre +:+ instructionMarkerBegin +:+ rest) instructionMarkerBegin = Some (String.length pre).
Proof. intros Hp. unfold instructionMarkerBegin in *. by apply Index_first. Qed.

Lemma Index_block_end stable rest :
  plain stable →
  Index (instructionMarkerBegin +:+ nl +:+ TrimRightByte newline stable +:+ nl +:+ instructionMarkerEnd +:+ rest)
    instructionMarkerEnd =
  Some (String.length (instructionMarkerBegin +:+ nl +:+ TrimRightByte newline stable +:+ nl)).
Proof.
  intros Hp. set (t := TrimRightByte newline stable) in *.
  replace (instructionMarkerBegin +:+ nl +:+ t +:+ nl +:+ instructionMarkerEnd +:+ rest)
    with ((instructionMarkerBegin +:+ nl +:+ t +:+ nl) +:+ instructionMarkerEnd +:+ rest)
    by by rewrite !str_app_assoc.
  apply Index_first; [done|]. rewrite !nl_app.
  apply Index_sep; [done|done|]. by apply Index_sep.
Qed.

Lemma str_drop_length_app a b c : str_drop (String.length a + c) (a +:+ b) = str_drop c b.
Proof. induction a as [|x a IH]; [done|]. rewrite str_cons_app. exact IH. Qed.

(** Writing over a block replaces the block and nothing else. *)
Lemma materialized_over pre stable1 stable2 post :
  Index pre instructionMarkerBegin = None → plain stable1 →
  materialized (Some (pre +:+ instruction_block stable1 +:+ post)) stable2 =
  Ok (pre +:+ instruction_block stable2 +:+ post).
Proof.
  intros Hpre Hp. unfold materialized. unfold instruction_block at 1.
  set (t := TrimRightByte newline stable1) in *.
  set (content := pre +:+ _ +:+ post).
  assert (Hc : content = pre +:+ instructionMarkerBegin +:+ nl +:+ t +:+ nl +:+ instructionMarkerEnd +:+ nl +:+ post).
  { unfold content. by rewrite !str_app_assoc. }
  rewrite Hc. rewrite (Index_begin pre _ Hpre).
  rewrite str_drop_app. pose proof (Index_block_end stable1 (nl +:+ post) Hp) as He. fold t in He.
  rewrite He. rewrite <- Nat.add_assoc. rewrite !str_drop_length_app.
  set (b := instructionMarkerBegin +:+ nl +:+ t +:+ nl).
  assert (Hb : instructionMarkerBegin +:+ nl +:+ t +:+ nl +:+ instructionMarkerEnd +:+ nl +:+ post =
            b +:+ instructionMarkerEnd +:+ nl +:+ post) by (unfold b; by rewrite !str_app_assoc).
  rewrite Hb. rewrite str_drop_length_app.
  replace (str_drop (String.length instructionMarkerEnd) (instructionMarkerEnd +:+ nl +:+ post))
    with (nl +:+ post) by (symmetry; apply str_drop_app).
  unfold HasPrefix. rewrite prefix_app. f_equal. f_equal; [apply str_take_app|]. f_equal.
  rewrite <- !Nat.add_assoc. rewrite !str_drop_length_app. exact (str_drop_app nl post).
Qed.

(** ** What a file holds after materializations *)
Lemma Index_empty : Index "" instructionMarkerBegin = None.
Proof. done. Qed.

(** The owner's text as the block is placed after it. *)
Definition owned (existing : option string) : string :=
  match existing with
  | None => ""
  | Some content => content +:+ (if content =s "" then "" else nl +:+ nl)
  end.

Lemma owned_unmanaged existing : unmanaged (default "" existing) → unmanaged (owned existing).
Proof.
  destruct existing as [c|]; simpl; [|done]. case_bool_decide; [by rewrite str_app_nil_r|].
  intros Hc. unfold unmanaged. change (nl +:+ nl) with (String newline (String newline "")).
  by apply Index_sep.
Qed.

Lemma materialized_first existing stable :
  unmanaged (default "" existing) → materialized existing stable = Ok (owned existing +:+ instruction_block stable).
Proof.
  intros Hu. unfold materialized. destruct existing as [c|]; simpl in *; [|done].
  rewrite Hu. by rewrite str_app_assoc.
Qed.

Section twice.
Context `{Host} `{FaultLaws}.

Lemma wp_syscall (Q : Res () → World FS → Prop) w :
  (∀ e, errors_Is e ErrNotExist = false → Q (Err e) (mkWorld (w_tick w + 1) (w_st w))) →
  Q (Ok ()) (mkWorld (w_tick w + 1) (w_st w)) → wp syscall Q w.
Proof.
  intros He Hok. apply wp_call; [|done]. intros e Ef. apply He. by eapply fault_not_absence.
Qed.

(** A successful call wrote the materialized content at its path, and nothing else. *)
Lemma MaterializeInstructions_writes workDir provider compiled (w : World FS) path :
  (MaterializeInstructions workDir provider compiled w).1 = Ok path →
  (∃ name, instructionFileName provider = Ok name ∧ path = PathJoin workDir name) ∧
  ∃ content, materialized (w_st w !! path) (ci_Stable compiled) = Ok content ∧
    w_st (MaterializeInstructions workDir provider compiled w).2 = <[path := content]> (w_st w).
Proof.
  cut (wp (MaterializeInstructions workDir provider compiled)
        (λ res w', res = Ok path →
           (∃ name, instructionFileName provider = Ok name ∧ path = PathJoin workDir name) ∧
           ∃ content, materialized (w_st w !! path) (ci_Stable compiled) = Ok content ∧
                      w_st w' = <[path := content]> (w_st w)) w); [done|].
  unfold MaterializeInstructions. wp_step. apply wp_lift_res.
  destruct (instructionFileName provider) as [name|e]; [|done].
  set (p := PathJoin workDir name). unfold os_MkdirAll.
  wp_step. apply wp_syscall; [done|]. wp_step. wp_step. unfold os_ReadFile. wp_step.
  assert (Hwrite : ∀ content w', w_st w' = w_st w → materialized (w_st w !! p) (ci_Stable compiled) = Ok content →
            wp (os_WriteFile p content ;; mret p) (λ res w'', res = Ok path →
              (∃ name0, Ok name = Ok name0 ∧ path = PathJoin workDir name0) ∧
              ∃ content0, materialized (w_st w !! path) (ci_Stable compiled) = Ok content0 ∧
                          w_st w'' = <[path := content0]> (w_st w)) w').
  { intros content w' Hs Hm. unfold os_WriteFile. do 3 wp_step.
    destruct (fault_at (w_tick w')); [wp_step; apply wp_modify; by apply wp_raise|].
    apply wp_modify, wp_ret. intros [= <-]. split; [by eexists|]. exists content. simpl. by rewrite Hs. }
  apply wp_syscall.
  - intros e He. cbn iota. rewrite He. by apply wp_raise.
  - wp_step. apply wp_gets. simpl. destruct (w_st w !! p) as [c|] eqn:Hc.
    + apply wp_ret. wp_step. apply wp_lift_res. destruct (materialized (Some c) _) as [content|] eqn:Hm; [|done].
      apply Hwrite; done.
    + apply wp_raise. rewrite errors_Is_sentinel. simpl. wp_step. apply wp_lift_res.
      apply Hwrite; done.
Qed.

(** C38: the text of an instruction file that belongs to its owner survives any
    number of materializations, and only the latest block is in the file: after
    two of them the file is the owner's text and the second block.  No other
    file is touched. *)
Theorem owner_text_survives workDir provider c1 c2 (w : World FS) path path' :
  let w1 := (MaterializeInstructions workDir provider c1 w).2 in
  let w2 := (MaterializeInstructions workDir provider c2 w1).2 in
  (MaterializeInstructions workDir provider c1 w).1 = Ok path →
  (MaterializeInstructions workDir provider c2 w1).1 = Ok path' →
  unmanaged (default "" (w_st w !! path)) → plain (ci_Stable c1) →
  path' = path ∧
  w_st w1 = <[path := owned (w_st w !! path) +:+ instruction_block (ci_Stable c1)]> (w_st w) ∧
  w_st w2 = <[path := owned (w_st w !! path) +:+ instruction_block (ci_Stable c2)]> (w_st w).
Proof.
  intros w1 w2 H1' H2' Hu Hp.
  destruct (MaterializeInstructions_writes _ _ _ _ _ H1') as ((n1 & Hn1 & Hp1) & x1 & Hx1 & Hw1).
  destruct (MaterializeInstructions_writes _ _ _ _ _ H2') as ((n2 & Hn2 & Hp2) & x2 & Hx2 & Hw2).
  assert (path' = path) as -> by congruence. fold w1 in Hw1. fold w1 w2 in Hw2. fold w1 in Hx2.
  rewrite (materialized_first _ _ Hu) in Hx1. injection Hx1 as <-.
  rewrite Hw1, lookup_insert_eq in Hx2.
  pose proof (materialized_over (owned (w_st w !! path)) (ci_Stable c1) (ci_Stable c2) ""
                (owned_unmanaged _ Hu) Hp) as Hover.
  rewrite !str_app_nil_r in Hover. rewrite Hover in Hx2. injection Hx2 as <-.
  split_and!; [done|done|]. by rewrite Hw2, Hw1, insert_insert_eq.
Qed.
End twice.

(** A stable layer that holds the end marker is not recognised as a whole: the
    next materialization leaves the rest of the old block in the file. *)
Example imitated_end_marker_leaks :
  let stable := "Stop at <!-- END RELAY-RUNTIME --> please." in
  materialized (Some (instruction_block stable)) stable =
  Ok (instruction_block stable +:+ " please." +:+ nl +:+ instructionMarkerEnd +:+ nl).
Proof. vm_compute. reflexivity. Qed.

(** ** A file with text of its own *)
#[local] Instance no_faults : Faults := {| fault_at _ := None; torn_at _ c := c; temp_at _ := "0" |}.
#[local] Instance no_faults_laws : FaultLaws.
Proof. by constructor. Qed.

Definition demo_stable (text : string) : CompiledInstructions :=
  Compile (mkInput "" "" " fix it " None) (mkBundle [mkFragment "f" "1" "Rules" text] [] [] [] []).
Definition demo_fs : World FS := mkWorld 0 {["/w/AGENTS.md" := "# Mine" +:+ nl]}.

Lemma owner_text_survives_witness :
  let w1 := (MaterializeInstructions "/w" "codex" (demo_stable "Be brief.") demo_fs).2 in
  let w2 := (MaterializeInstructions "/w" "codex" (demo_stable "Be kind.") w1).2 in
  "/w/AGENTS.md" = "/w/AGENTS.md" ∧
  w_st w1 = <["/w/AGENTS.md" := owned (w_st demo_fs !! "/w/AGENTS.md") +:+
                                instruction_block (ci_Stable (demo_stable "Be brief."))]> (w_st demo_fs) ∧
  w_st w2 = <["/w/AGENTS.md" := owned (w_st demo_fs !! "/w/AGENTS.md") +:+
                                instruction_block (ci_Stable (demo_stable "Be kind."))]> (w_st demo_fs).
Proof.
  apply (owner_text_survives "/w" "codex" (demo_stable "Be brief.") (demo_stable "Be kind.") demo_fs
           "/w/AGENTS.md" "/w/AGENTS.md"); vm_compute; reflexivity.
Defined.
