(* ===== verification/Engine.v ===== *)
(** * Engine: the embeddable execution kernel (engine.go, store.go)

    The store of an engine is an interface, [RunStore], with [MemoryStore] as its
    implementation; [Engine.Execute] is written over any store.  The executor is the host's code: it is
    given as the program of what it does through its [Execution], an inductive
    tree of emitted events and capability calls that ends in a result.  A call
    of [Execute] runs to its end; [Execute] returns the run beside an error, as
    the code does. *)

From S2P Require Import Prelude GoStrings Json Types Capability Instructions.

(** ** The store *)

(** [Store]: what an engine asks of its store. *)
Class RunStore (S : Type) := {
  store_Create : Run → M S (option Run * bool);
  store_Update : Run → M S ();
  store_AppendEvent : Event → M S Event;
  store_Get : string → M S Run;
  store_Events : string → M S (list Event) }.

Record MemoryStore := mkStore {
  ks_runs : gmap string Run;
  ks_byRequest : gmap string string;
  ks_events : gmap string (list Event) }.
Definition NewMemoryStore : MemoryStore := mkStore ∅ ∅ ∅.

Definition request_key (run : Run) : string :=
  run_TenantID run +:+ nul +:+ run_ProjectID run +:+ nul +:+ run_IdempotencyKey run.

Module Store.

Definition Create (run : Run) : M MemoryStore (option Run * bool) :=
  s ← gets id;
  match ks_byRequest s !! request_key run with
  | Some id => mret (ks_runs s !! id, false)
  | None =>
      modify (λ s, mkStore (<[run_ID run := run]> (ks_runs s))
                     (<[request_key run := run_ID run]> (ks_byRequest s)) (ks_events s)) ;;
      mret (Some run, true)
  end.

Definition Update (run : Run) : M MemoryStore () :=
  s ← gets id;
  match ks_runs s !! run_ID run with
  | None => raise (sentinel ErrRunNotFound)
  | Some _ => modify (λ s, mkStore (<[run_ID run := run]> (ks_runs s)) (ks_byRequest s) (ks_events s))
  end.

Definition AppendEvent (event : Event) : M MemoryStore Event :=
  s ← gets id;
  match ks_runs s !! ev_RunID event with
  | None => raise (sentinel ErrRunNotFound)
  | Some _ =>
      let log := map_get (ks_events s) (ev_RunID event) in
      let event := event <| ev_Sequence := (Z.of_nat (length log) + 1)%Z |> in
      modify (λ s, mkStore (ks_runs s) (ks_byRequest s)
                     (<[ev_RunID event := log ++ [event]]> (ks_events s))) ;;
      mret event
  end.

Definition Get (runID : string) : M MemoryStore Run :=
  s ← gets id;
  match ks_runs s !! runID with
  | None => raise (sentinel ErrRunNotFound)
  | Some run => mret run
  end.

Definition Events (runID : string) : M MemoryStore (list Event) :=
  s ← gets id;
  match ks_runs s !! runID with
  | None => raise (sentinel ErrRunNotFound)
  | Some _ => mret (map_get (ks_events s) runID)
  end.

End Store.
#[export] Instance memory_run_store : RunStore MemoryStore := {|
  store_Create := Store.Create; store_Update := Store.Update; store_AppendEvent := Store.AppendEvent;
  store_Get := Store.Get; store_Events := Store.Events |}.

(** ** The executor's behaviour *)
Inductive Behaviour :=
  | Return (r : Res Result)
  | Emit (eventType : string) (data : Any) (k : Behaviour)
  | Invoke (call : CapabilityCall) (k : Res CapabilityResult → Behaviour).

Section engine.
Context `{Host} `{Encoder} {S Y : Type} `{RunStore S}.

(** The engine's state: its store, what its observer saw, the host's own state. *)
Record Kernel := mkKernel { k_store : S; k_seen : list Event; k_host : Y }.
Abbreviation MK := (M Kernel).

Record Engine := mkEngine {
  e_executor : CompiledInstructions → Run → Behaviour;
  e_capabilities : option (CapabilityRequest → M Y (option Json));
  e_observed : bool;
  e_compiler : Input → InstructionBundle → Res CompiledInstructions }.

(** [New] with its defaults: an executor is required, the compiler defaults to [Compile]. *)
Definition New (executor : option (CompiledInstructions → Run → Behaviour))
    (capabilities : option (CapabilityRequest → M Y (option Json))) (observed : bool)
    (compiler : option (Input → InstructionBundle → Res CompiledInstructions)) : Res Engine :=
  match executor with
  | None => Err (errors_New "relay: executor is required")
  | Some executor =>
      Ok (mkEngine executor capabilities observed
            (match compiler with Some c => c | None => λ input bundle, Ok (Compile input bundle) end))
  end.

Definition on_store {A} (m : M S A) : MK A := λ w,
  let '(r, w') := m (mkWorld (w_tick w) (k_store (w_st w))) in
  (r, mkWorld (w_tick w') (mkKernel (w_st w') (k_seen (w_st w)) (k_host (w_st w)))).
Definition on_host {A} (m : M Y A) : MK A := λ w,
  let '(r, w') := m (mkWorld (w_tick w) (k_host (w_st w))) in
  (r, mkWorld (w_tick w') (mkKernel (k_store (w_st w)) (k_seen (w_st w)) (w_st w'))).

Section with_engine.
Context (e : Engine).

Definition emit (run : Run) (eventType : string) (value : Any) : MK () :=
  let data := match value with
              | AnyNil => None
              | _ => match marshal value with Ok j => Some j | Err _ => None end
              end in
  id ← newControlPlaneID "event";
  now ← time_now;
  event ← try (on_store (store_AppendEvent
                 (mkEvent id (run_ID run) (att_ID (run_Attempt run)) 0 eventType data now)));
  match event with
  | Ok event =>
      if e_observed e
      then modify (λ k, mkKernel (k_store k) (k_seen k ++ [event]) (k_host k))
      else mret ()
  | Err _ => mret ()
  end.

Definition fail (run : Run) (cause : Error) : MK (option Run * option Error) :=
  now ← time_now;
  let run := run <| run_Status := RunFailed |> <| run_Error := err_msg cause |>
                 <| run_CompletedAt := Some now |>
                 <| run_Attempt := (run_Attempt run) <| att_Status := AttemptFailed |>
                                                   <| att_CompletedAt := Some now |> |> in
  r ← try (on_store (store_Update run));
  match r with
  | Err err => mret (None, Some (errors_Join cause err))
  | Ok _ =>
      emit run "attempt.failed" (json_strings [("error", err_msg cause)]) ;;
      emit run "run.failed" (json_strings [("error", err_msg cause)]) ;;
      mret (Some run, Some cause)
  end.

Definition validateRequest (request : Request) : option Error :=
  if (req_AgentID request =s "") || (req_IdempotencyKey request =s "") ||
     (in_Prompt (req_Input request) =s "")
  then Some (errors_New "relay: agent ID, idempotency key, and input prompt are required")
  else None.

(** The invoker of the run: its events go to the run's log. *)
Definition invoker (run : Run) (request : Request) : scopedCapabilities Kernel * gmap string capabilityCallState :=
  NewCapabilityInvoker run (req_Principal request) (req_Capabilities request)
    (match e_capabilities e with
     | Some provider => Some (λ r, on_host (provider r)) | None => None end)
    (Some (emit run)) None None.

(** The executor at work, over the calls of its invoker and the kernel. *)
Fixpoint behave (inv : scopedCapabilities Kernel) (run : Run) (b : Behaviour)
    : M (gmap string capabilityCallState * Kernel) Result :=
  match b with
  | Return r => lift_res r
  | Emit eventType data k => on_env (emit run eventType data) ;; behave inv run k
  | Invoke call k => r ← try (Call inv call); behave inv run (k r)
  end.

Definition execute_behaviour (run : Run) (request : Request) (b : Behaviour) : MK (Res Result) := λ w,
  let '(inv, calls) := invoker run request in
  let '(r, w') := behave inv run b (mkWorld (w_tick w) (calls, w_st w)) in
  (Ok r, mkWorld (w_tick w') (w_st w').2).

Definition new_kernel_run (request : Request) (id attempt : string) (now : Z) : Run :=
  mkRun id (req_TenantID request) (req_ProjectID request) (req_SessionID request) (req_AgentID request)
    (req_IdempotencyKey request) (req_Runtime request) (req_Source request) RunQueued
    (mkAttempt attempt 1 "" "" None None AttemptQueued None None) None "" now None None None None "" None.

Definition kernel_running (run : Run) (now : Z) : Run :=
  run <| run_Status := RunRunning |> <| run_StartedAt := Some now |>
      <| run_Attempt := (run_Attempt run) <| att_Status := AttemptRunning |>
                                        <| att_StartedAt := Some now |> |>.
Definition kernel_succeeded (run : Run) (result : Result) (now : Z) : Run :=
  run <| run_Status := RunSucceeded |> <| run_Result := Some result |> <| run_CompletedAt := Some now |>
      <| run_Attempt := (run_Attempt run) <| att_Status := AttemptSucceeded |>
                                        <| att_CompletedAt := Some now |> |>.

(** [Execute]: the returned run and error; no run stands for the zero [Run{}]. *)
Definition Execute (request : Request) : MK (option Run * option Error) :=
  match validateRequest request with
  | Some err => mret (None, Some err)
  | None =>
      now ← time_now;
      id ← newControlPlaneID "run";
      attempt ← newControlPlaneID "attempt";
      let run := new_kernel_run request id attempt now in
      r ← try (on_store (store_Create run));
      match r with
      | Err err => mret (None, Some err)
      | Ok (stored, false) => mret (stored, None)
      | Ok (_, true) =>
        emit run "run.created" (AnyJson (JObj [("status", JStr (RunStatus_text RunQueued))])) ;;
        match e_compiler e (req_Input request) (req_Instructions request) with
        | Err err => fail run (mkError (err_is err) ("compile instructions: " +:+ err_msg err))
        | Ok compiled =>
            now ← time_now;
            let run := kernel_running run now in
            r ← try (on_store (store_Update run));
            match r with
            | Err err => mret (None, Some err)
            | Ok _ =>
                emit run "attempt.started" AnyNil ;;
                emit run "run.started" AnyNil ;;
                result ← execute_behaviour run request (e_executor e compiled run);
                match result with
                | Err err => fail run err
                | Ok result =>
                    now ← time_now;
                    let run := kernel_succeeded run result now in
                    r ← try (on_store (store_Update run));
                    match r with
                    | Err err => mret (None, Some err)
                    | Ok _ =>
                        emit run "attempt.succeeded" AnyNil ;;
                        emit run "run.succeeded" (AnyJson (json_Result result)) ;;
                        mret (Some run, None)
                    end
                end
            end
        end
      end
  end.

(** [Engine.Run] and [Engine.Events]. *)
Definition Run_ (runID : string) : MK Run := on_store (store_Get runID).
Definition Events_ (runID : string) : MK (list Event) := on_store (store_Events runID).
End with_engine.
End engine.
