(* ===== verification/EngineProps.v ===== *)
(** * EngineProps: an execution ends, once, with a run that says how *)

From S2P Require Import Prelude GoStrings Json Types Lifecycle Demo Capability Instructions Engine.

Section props.
Context `{HostLaws} `{Encoder} {Y : Type} (e : Engine (Y := Y)).
Abbreviation K := (Kernel (S := MemoryStore) (Y := Y)).

(** A log numbers its events 1, 2, 3, ... *)
Definition numbered (id : string) (log : list Event) : Prop :=
  ∀ i ev, log !! i = Some ev → ev_Sequence ev = (Z.of_nat i + 1)%Z ∧ ev_RunID ev = id.

(** From [w] to [w'] the log of [id] grew by events of types [tys]; the runs
    and the other logs are as they were. *)
Record logged (id : string) (tys : list string) (w w' : World K) : Prop := {
  lg_tick : w_tick w ≤ w_tick w';
  lg_runs : ks_runs (k_store (w_st w')) = ks_runs (k_store (w_st w));
  lg_index : ks_byRequest (k_store (w_st w')) = ks_byRequest (k_store (w_st w));
  lg_other : ∀ j, j ≠ id → map_get (ks_events (k_store (w_st w'))) j = map_get (ks_events (k_store (w_st w))) j;
  lg_log : ∃ extra, map_get (ks_events (k_store (w_st w'))) id =
                      map_get (ks_events (k_store (w_st w))) id ++ extra ∧ ev_Type <$> extra = tys;
  lg_numbered : numbered id (map_get (ks_events (k_store (w_st w))) id) →
                numbered id (map_get (ks_events (k_store (w_st w'))) id)
}.

Definition grows (id : string) (w w' : World K) : Prop := ∃ tys, logged id tys w w'.

Lemma logged_refl id w w' : w_tick w ≤ w_tick w' → k_store (w_st w') = k_store (w_st w) → logged id [] w w'.
Proof.
  intros Ht Hs. constructor; rewrite ?Hs; try done. exists []. by rewrite app_nil_r.
Qed.

Lemma logged_trans id t1 t2 w1 w2 w3 : logged id t1 w1 w2 → logged id t2 w2 w3 → logged id (t1 ++ t2) w1 w3.
Proof.
  intros [T1 R1 I1 O1 (x1 & L1 & Y1) N1] [T2 R2 I2 O2 (x2 & L2 & Y2) N2]. constructor; try congruence; try lia.
  - intros j Hj. by rewrite O2, O1.
  - exists (x1 ++ x2). by rewrite L2, L1, app_assoc, fmap_app, Y1, Y2.
  - auto.
Qed.

Lemma grows_refl id w : grows id w w.
Proof. exists []. by apply logged_refl. Qed.
Lemma grows_trans id w1 w2 w3 : grows id w1 w2 → grows id w2 w3 → grows id w1 w3.
Proof. intros [t1 L1] [t2 L2]. exists (t1 ++ t2). by eapply logged_trans. Qed.
Lemma grows_same id (w w' : World K) :
  w_tick w ≤ w_tick w' → k_store (w_st w') = k_store (w_st w) → grows id w w'.
Proof. intros Ht Hs. exists []. by apply logged_refl. Qed.

(** An event of a stored run is always recorded. *)
Lemma wp_emit run ty v w :
  is_Some (ks_runs (k_store (w_st w)) !! run_ID run) →
  wp (emit e run ty v) (λ res w', res = Ok () ∧ logged (run_ID run) [ty] w w') w.
Proof.
  intros [r Hr]. unfold emit, newControlPlaneID. do 4 wp_step. unfold wp, try, on_store, store_AppendEvent, memory_run_store, Store.AppendEvent,
    gets, modify, mbind, M_bind, mret, M_ret. simpl. rewrite Hr. simpl.
  set (log := map_get (ks_events (k_store (w_st w))) (run_ID run)).
  set (ev := mkEvent _ _ _ _ _ _ _).
  assert (Hlog : ∀ seen host t, w_tick w ≤ t → logged (run_ID run) [ty] w
            (mkWorld t (mkKernel (mkStore (ks_runs (k_store (w_st w))) (ks_byRequest (k_store (w_st w)))
               (<[run_ID run := log ++ [ev]]> (ks_events (k_store (w_st w))))) seen host))).
  { intros seen hst t Ht.
    assert (Hget : map_get (<[run_ID run := log ++ [ev]]> (ks_events (k_store (w_st w)))) (run_ID run) = log ++ [ev]).
    { unfold map_get. by rewrite lookup_insert_eq. }
    constructor; simpl; try done.
    - intros j Hj. unfold map_get. by rewrite lookup_insert_ne.
    - exists [ev]. rewrite Hget. done.
    - rewrite Hget. intros Hn i x. rewrite lookup_app_Some. intros [Hi|[Hi Hx]]; [by apply Hn|].
      apply list_lookup_singleton_Some in Hx as [Hi' <-]. split; [|done]. simpl. fold log. lia. }
  destruct (e_observed e); simpl; (split; [done|apply Hlog; lia]).
Qed.

(** ** Everything the executor does only adds to the log of its run *)
Section behave.
Context (run : Run) (request : Request).

Definition its_invoker : scopedCapabilities K := (invoker e run request).1.

Abbreviation WK := (World (gmap string capabilityCallState * K)).
Definition kernel_of (w : WK) : World K := mkWorld (w_tick w) (w_st w).2.
Definition stored (w : World K) : Prop := is_Some (ks_runs (k_store (w_st w)) !! run_ID run).

Lemma grows_stored w w' : grows (run_ID run) w w' → stored w → stored w'.
Proof. intros [tys L]. unfold stored. by rewrite (lg_runs _ _ _ _ L). Qed.

Lemma wp_emit_grows ty v w :
  stored w → wp (emit e run ty v) (λ res w', res = Ok () ∧ grows (run_ID run) w w') w.
Proof. intros Hs. eapply wp_mono; [by apply wp_emit|]. intros res w' [-> L]. split; [done|by eexists]. Qed.

Lemma wp_on_host {A} (m : M Y A) (w : World K) :
  (∀ w0 : World Y, w_tick w0 ≤ w_tick (m w0).2) →
  wp (on_host m) (λ _ w', grows (run_ID run) w w') w.
Proof.
  intros Hm. unfold wp, on_host. specialize (Hm (mkWorld (w_tick w) (k_host (w_st w)))).
  destruct (m _) as [r w0]. simpl in *. by apply grows_same.
Qed.

(** The host's provider consults the clock and the random source only forwards. *)
Definition provider_forward : Prop :=
  ∀ p, e_capabilities e = Some p → ∀ r (w0 : World Y), w_tick w0 ≤ w_tick (p r w0).2.

Lemma wp_call_work_grows call grant w :
  provider_forward → stored w →
  wp (call_work its_invoker call grant) (λ res w', grows (run_ID run) w w' ∧ is_ok res = true) w.
Proof.
  intros Hf Hs. unfold call_work, its_invoker, invoker. simpl.
  destruct (e_capabilities e) as [p|] eqn:Hp; [|apply wp_ret; split; [apply grows_refl|done]].
  unfold newControlPlaneID. do 2 wp_step. unfold call_execute. simpl.
  set (w1 := mkWorld _ _). assert (G1 : grows (run_ID run) w w1) by (apply grows_same; simpl; [lia|done]).
  wp_step. eapply wp_mono; [apply wp_emit_grows; by eapply grows_stored|]. intros res w2 [-> G2].
  wp_step. wp_step. eapply wp_mono; [apply wp_on_host; intros; by apply (Hf p Hp)|]. intros [out|err] w3 G3.
  - apply wp_ret. split; [|done]. exact (grows_trans _ _ _ _ (grows_trans _ _ _ _ G1 G2) G3).
  - pose proof (grows_trans _ _ _ _ (grows_trans _ _ _ _ G1 G2) G3) as G13.
    wp_step. apply wp_ret. wp_step. eapply wp_mono; [apply wp_emit_grows; by eapply grows_stored|].
    intros res w4 [-> G4]. apply wp_ret. split; [|done]. by eapply grows_trans.
Qed.

Lemma wp_on_env {A} (m : M K A) (Q : Res A → World K → Prop) (w : WK) :
  wp m Q (kernel_of w) → wp (on_env m) (λ r w', Q r (kernel_of w')) w.
Proof. unfold wp, on_env, kernel_of. by destruct (m _) as [r [t k]]. Qed.

Lemma wp_Call call (w : WK) :
  provider_forward → stored (kernel_of w) →
  wp (Call its_invoker call) (λ _ w', grows (run_ID run) (kernel_of w) (kernel_of w')) w.
Proof.
  intros Hf Hs. unfold Call. wp_step. unfold wp at 1, on_calls.
  destruct (call_begin _ _ _) as [begun calls]. simpl. set (w1 := mkWorld _ _).
  assert (G1 : grows (run_ID run) (kernel_of w) (kernel_of w1)) by by apply grows_same.
  destruct begun as [r|key|key grant].
  - by apply wp_lift_res.
  - wp_step. apply wp_gets. destruct (_ ≫= _); [by apply wp_lift_res|by apply wp_raise].
  - wp_step. eapply wp_mono; [apply wp_on_env, wp_call_work_grows; [done|by eapply grows_stored]|].
    intros [worked|err] w2 [G2 Hok]; [|done]. wp_step. unfold wp at 1, on_calls. simpl. set (w3 := mkWorld _ _).
    assert (G3 : grows (run_ID run) (kernel_of w) (kernel_of w3)).
    { eapply grows_trans; [exact G1|]. eapply grows_trans; [exact G2|]. by apply grows_same. }
    wp_step. unfold call_announce. destruct (wk_announce worked) as [[ty v]|]; [|unfold wp at 1, on_env; simpl; by apply wp_lift_res].
    eapply wp_mono; [apply wp_on_env, wp_emit_grows; by eapply grows_stored|].
    intros [[]|err] w4 [Hr G4]; [|done]. apply wp_lift_res. by eapply grows_trans.
Qed.

Lemma wp_behave b (w : WK) :
  provider_forward → stored (kernel_of w) →
  wp (behave e its_invoker run b) (λ _ w', grows (run_ID run) (kernel_of w) (kernel_of w')) w.
Proof.
  intros Hf. revert w. induction b as [r|ty v b IH|call b IH]; intros w Hs; simpl.
  - apply wp_lift_res, grows_refl.
  - wp_step. eapply wp_mono; [apply wp_on_env, wp_emit_grows; done|]. intros [[]|err] w1 [Hr G1]; [|done].
    eapply wp_mono; [apply IH; by eapply grows_stored|]. intros res w2 G2.
    exact (grows_trans _ _ _ _ G1 G2).
  - wp_step. wp_step. eapply wp_mono; [by apply wp_Call|]. intros r w1 G1. cbn beta in G1.
    eapply wp_mono; [apply IH; by eapply grows_stored|]. intros res w2 G2.
    exact (grows_trans _ _ _ _ G1 G2).
Qed.

Lemma wp_execute_behaviour b (w : World K) :
  provider_forward → stored w →
  wp (execute_behaviour e run request b) (λ res w', grows (run_ID run) w w' ∧ is_ok res = true) w.
Proof.
  intros Hf Hs. unfold wp, execute_behaviour. destruct (invoker e run request) as [iv calls] eqn:Hi.
  pose proof (wp_behave b (mkWorld (w_tick w) (calls, w_st w)) Hf) as Hb.
  unfold its_invoker in Hb. rewrite Hi in Hb. unfold wp, kernel_of in Hb. simpl in Hb.
  destruct w as [t k]. simpl in *. specialize (Hb Hs).
  destruct (behave e iv run b _) as [r w']. done.
Qed.
End behave.

(** ** The store *)
Record kinv (w : World K) : Prop := {
  ki_runs : ∀ id r, ks_runs (k_store (w_st w)) !! id = Some r → run_ID r = id ∧ issued "run" 0 (w_tick w) id;
  ki_index : ∀ key id, ks_byRequest (k_store (w_st w)) !! key = Some id →
    ∃ r, ks_runs (k_store (w_st w)) !! id = Some r ∧ request_key r = key;
  ki_logs : ∀ id, numbered id (map_get (ks_events (k_store (w_st w))) id);
  ki_known : ∀ id, ks_runs (k_store (w_st w)) !! id = None → map_get (ks_events (k_store (w_st w))) id = []
}.

(** Since [w0] one run was added, under [key]; it is now [r], and its log has
    events of types [tys]. *)
Record at_run (key : string) (r : Run) (tys : list string) (w0 w : World K) : Prop := {
  ar_tick : w_tick w0 + 3 ≤ w_tick w;
  ar_runs : ks_runs (k_store (w_st w)) = <[run_ID r := r]> (ks_runs (k_store (w_st w0)));
  ar_index : ks_byRequest (k_store (w_st w)) = <[key := run_ID r]> (ks_byRequest (k_store (w_st w0)));
  ar_other : ∀ j, j ≠ run_ID r → map_get (ks_events (k_store (w_st w))) j = map_get (ks_events (k_store (w_st w0))) j;
  ar_log : ev_Type <$> map_get (ks_events (k_store (w_st w))) (run_ID r) = tys;
  ar_numbered : numbered (run_ID r) (map_get (ks_events (k_store (w_st w))) (run_ID r))
}.

Lemma at_run_logged key r tys tys' w0 w w' :
  at_run key r tys w0 w → logged (run_ID r) tys' w w' → at_run key r (tys ++ tys') w0 w'.
Proof.
  intros [T R I O L N] [T' R' I' O' (x & L' & Y') N']. constructor; try congruence.
  - lia.
  - intros j Hj. by rewrite O', O.
  - by rewrite L', fmap_app, L, Y'.
  - by apply N'.
Qed.

Lemma at_run_stored key r tys w0 w r' : at_run key r tys w0 w → run_ID r' = run_ID r → stored r' w.
Proof. intros A Hid. unfold stored. rewrite (ar_runs _ _ _ _ _ A), Hid, lookup_insert_eq. eauto. Qed.

Lemma wp_emit_at key r tys w0 w ty v :
  at_run key r tys w0 w →
  wp (emit e r ty v) (λ res w', res = Ok () ∧ at_run key r (tys ++ [ty]) w0 w') w.
Proof.
  intros A. eapply wp_mono; [apply wp_emit; by eapply at_run_stored|].
  intros res w' [-> L]. split; [done|by eapply at_run_logged].
Qed.

Lemma at_run_tick key r tys w0 w k :
  at_run key r tys w0 w → at_run key r tys w0 (mkWorld (w_tick w + k) (w_st w)).
Proof. intros [T R I O L N]. constructor; simpl; try done. lia. Qed.

Lemma wp_Update_at key r tys w0 w r' :
  at_run key r tys w0 w → run_ID r' = run_ID r →
  wp (on_store (Store.Update r')) (λ res w', res = Ok () ∧ at_run key r' tys w0 w') w.
Proof.
  intros A Hid. destruct (at_run_stored _ _ _ _ _ r' A Hid) as [x Hx].
  unfold wp, on_store, Store.Update, gets, modify, mbind, M_bind. simpl. rewrite Hx. simpl.
  destruct A as [T R I O L N]. split; [done|]. constructor; simpl; rewrite ?Hid; try done.
  by rewrite R, insert_insert_eq.
Qed.

Lemma wp_Create_new r w (Q : Res (option Run * bool) → World K → Prop) :
  ks_byRequest (k_store (w_st w)) !! request_key r = None →
  Q (Ok (Some r, true))
    (mkWorld (w_tick w)
       (mkKernel (mkStore (<[run_ID r := r]> (ks_runs (k_store (w_st w))))
                    (<[request_key r := run_ID r]> (ks_byRequest (k_store (w_st w))))
                    (ks_events (k_store (w_st w)))) (k_seen (w_st w)) (k_host (w_st w)))) →
  wp (on_store (Store.Create r)) Q w.
Proof.
  intros Hnew HQ. unfold wp, on_store, Store.Create, gets, modify, mbind, M_bind, mret, M_ret. simpl.
  by rewrite Hnew.
Qed.

Lemma wp_Create_old r id w (Q : Res (option Run * bool) → World K → Prop) :
  ks_byRequest (k_store (w_st w)) !! request_key r = Some id →
  Q (Ok (ks_runs (k_store (w_st w)) !! id, false))
    (mkWorld (w_tick w) (mkKernel (k_store (w_st w)) (k_seen (w_st w)) (k_host (w_st w)))) →
  wp (on_store (Store.Create r)) Q w.
Proof.
  intros Hold HQ. unfold wp, on_store, Store.Create, gets, mbind, M_bind, mret, M_ret. simpl. by rewrite Hold.
Qed.

Lemma wp_fail_at key r tys w0 w cause :
  at_run key r tys w0 w →
  wp (fail e r cause)
    (λ res w', ∃ r', res = Ok (Some r', Some cause) ∧ run_ID r' = run_ID r ∧ request_key r' = request_key r ∧
       run_Status r' = RunFailed ∧ run_Error r' = err_msg cause ∧
       at_run key r' (tys ++ ["attempt.failed"; "run.failed"]) w0 w') w.
Proof.
  intros A. unfold fail. do 2 wp_step.
  match goal with |- context [store_Update ?x] => set (r' := x) end.
  wp_step. wp_step. eapply wp_mono; [apply (wp_Update_at key r tys w0); [by apply at_run_tick|done]|].
  intros res w1 [-> A1]. wp_step. eapply wp_mono; [by apply wp_emit_at|]. intros res w2 [-> A2].
  wp_step. eapply wp_mono; [by apply wp_emit_at|]. intros res w3 [-> A3]. apply wp_ret.
  exists r'. rewrite <- app_assoc in A3. split_and!; done.
Qed.

(** What an execution of a new request returns and leaves. *)
Record executed (q : Request) (w0 w : World K) (res : Res (option Run * option Error)) : Prop := {
  ex_outcome : ∃ r err, res = Ok (Some r, err) ∧ request_key r = request_key (new_kernel_run q "" "" 0) ∧
    match err with
    | None => run_Status r = RunSucceeded ∧ is_Some (run_Result r)
    | Some cause => run_Status r = RunFailed ∧ run_Error r = err_msg cause
    end ∧
    ∃ mid, at_run (request_key r) r
             ("run.created" :: mid ++ match err with
                                      | None => ["attempt.succeeded"; "run.succeeded"]
                                      | Some _ => ["attempt.failed"; "run.failed"]
                                      end) w0 w;
  ex_inv : kinv w
}.

Lemma at_run_kinv key r tys w0 w :
  kinv w0 → at_run key r tys w0 w → issued "run" 0 (w_tick w) (run_ID r) → request_key r = key →
  ks_runs (k_store (w_st w0)) !! run_ID r = None → kinv w.
Proof.
  intros [Kr Ki Kl Kk] [T R I O L N] Hiss Hkey Hnew. constructor.
  - intros id x. rewrite R. intros [[<- <-]|[Hne Hx]]%lookup_insert_Some; [done|].
    destruct (Kr id x Hx). split; [done|]. eapply issued_mono; [done|lia|lia].
  - intros k id. rewrite I, R. intros [[<- <-]|[Hne Hx]]%lookup_insert_Some.
    + exists r. by rewrite lookup_insert_eq.
    + destruct (Ki k id Hx) as (x & Hxr & Hxk). exists x. rewrite lookup_insert_ne; [done|]. congruence.
  - intros id. destruct (decide (id = run_ID r)) as [->|?]; [done|]. rewrite O by done. apply Kl.
  - intros id. rewrite R. intros [? ?]%lookup_insert_None. rewrite O by done. by apply Kk.
Qed.

Lemma wp_Execute q w :
  kinv w → provider_forward → validateRequest q = None →
  ks_byRequest (k_store (w_st w)) !! request_key (new_kernel_run q "" "" 0) = None →
  wp (Execute e q) (λ res w', executed q w w' res) w.
Proof.
  intros Hinv Hf Hv Hnew. unfold Execute, newControlPlaneID. rewrite Hv. do 6 wp_step.
  set (r0 := new_kernel_run _ _ _ _). set (key := request_key _) in Hnew.
  assert (Hid : run_ID r0 = "run" +:+ "_" +:+ rand_at (w_tick w + 1)) by done.
  assert (Hiss : ∀ t, w_tick w + 3 ≤ t → issued "run" 0 t (run_ID r0)).
  { intros t Ht. exists (w_tick w + 1). split; [lia|done]. }
  assert (Hfresh : ks_runs (k_store (w_st w)) !! run_ID r0 = None).
  { destruct (ks_runs _ !! _) as [x|] eqn:Hx; [|done]. destruct (ki_runs _ Hinv _ _ Hx) as [_ Hi].
    exfalso. eapply (issued_disjoint "run" 0 (w_tick w) (w_tick w + 2)); [exact Hi| |reflexivity].
    exists (w_tick w + 1). split; [lia|done]. }
  do 2 wp_step. apply wp_Create_new; [done|]. simpl. set (w1 := mkWorld _ _).
  assert (A1 : at_run key r0 [] w w1).
  { constructor; simpl; try done; [lia|by rewrite (ki_known _ Hinv)|].
    rewrite (ki_known _ Hinv) by done. by intros i ev. }
  clearbody w1.
  wp_step. eapply wp_mono; [by apply wp_emit_at|]. intros res w2 [-> A2]. simpl in A2.
  assert (Hend : ∀ r err tys w', at_run key r ("run.created" :: tys) w w' → run_ID r = run_ID r0 → request_key r = key →
            ∀ mid, tys = mid ++ match err with None => ["attempt.succeeded"; "run.succeeded"]
                                 | Some _ => ["attempt.failed"; "run.failed"] end →
            match err with
            | None => run_Status r = RunSucceeded ∧ is_Some (run_Result r)
            | Some cause => run_Status r = RunFailed ∧ run_Error r = err_msg cause
            end → executed q w w' (Ok (Some r, err))).
  { intros r err tys w' A Hr Hk mid -> Hst. constructor.
    - exists r, err. split_and!; [done|done|done|]. exists mid. by rewrite Hk.
    - eapply at_run_kinv; [done|exact A| |done|].
      + rewrite Hr. apply Hiss. by apply ar_tick in A.
      + by rewrite Hr. }
  destruct (e_compiler e _ _) as [compiled|cerr].
  2:{ eapply wp_mono; [by apply wp_fail_at|]. intros res w3 (r' & -> & Hr' & Hk' & Hs' & He' & A3).
      by eapply (Hend r' (Some _) _ _ A3 Hr' Hk' []). }
  do 2 wp_step. set (r1 := kernel_running r0 _). wp_step. wp_step.
  eapply wp_mono; [apply (wp_Update_at key r0); [by apply at_run_tick|done]|]. intros res w3 [-> A3].
  wp_step. eapply wp_mono; [by apply wp_emit_at|]. intros res w4 [-> A4].
  wp_step. eapply wp_mono; [by apply wp_emit_at|]. intros res w5 [-> A5]. simpl in A5.
  wp_step. eapply wp_mono; [apply (wp_execute_behaviour r1); [done|by eapply at_run_stored]|].
  intros [result|er] w6 [[tys G6] Hok6]; [|done].
  assert (A6 := at_run_logged _ _ _ _ _ _ _ A5 G6).
  destruct result as [result|cause].
  - do 2 wp_step. set (r2 := kernel_succeeded r1 result _). wp_step. wp_step.
    eapply wp_mono; [apply (wp_Update_at key r1); [by apply at_run_tick|done]|]. intros res w7 [-> A7].
    wp_step. eapply wp_mono; [by apply wp_emit_at|]. intros res w8 [-> A8].
    wp_step. eapply wp_mono; [by apply wp_emit_at|]. intros res w9 [-> A9]. apply wp_ret.
    simpl in A9. rewrite <- !app_assoc in A9.
    eapply (Hend r2 None _ _ A9 eq_refl eq_refl ("attempt.started" :: "run.started" :: tys)); [done|].
    split; [done|by eexists].
  - eapply wp_mono; [by apply wp_fail_at|]. intros res w7 (r' & -> & Hr' & Hk' & Hs' & He' & A7).
    simpl in A7. rewrite <- ?app_assoc in A7.
    by eapply (Hend r' (Some _) _ _ A7 Hr' Hk' ("attempt.started" :: "run.started" :: tys)).
Qed.

(** C39: executing a new, valid request ends with a terminal run that is also
    the stored one: succeeded with a result and no error, or failed with the
    error that is returned.  Its log starts with [run.created], ends with the
    events of that outcome and is numbered from 1; no other run or log changes. *)
Theorem execute_settles q w :
  kinv w → provider_forward → validateRequest q = None →
  ks_byRequest (k_store (w_st w)) !! request_key (new_kernel_run q "" "" 0) = None →
  executed q w (Execute e q w).2 (Execute e q w).1.
Proof. intros Hinv Hf Hv Hnew. exact (wp_Execute q w Hinv Hf Hv Hnew). Qed.

(** Executing again under the same tenant, project and key returns the
    stored run and changes nothing in the store, whatever the request asks for. *)
Theorem execute_once q q' w r err w' :
  kinv w → provider_forward → validateRequest q = None →
  ks_byRequest (k_store (w_st w)) !! request_key (new_kernel_run q "" "" 0) = None →
  Execute e q w = (Ok (Some r, err), w') →
  validateRequest q' = None →
  request_key (new_kernel_run q' "" "" 0) = request_key (new_kernel_run q "" "" 0) →
  (Execute e q' w').1 = Ok (Some r, None) ∧ k_store (w_st (Execute e q' w').2) = k_store (w_st w').
Proof.
  intros Hinv Hf Hv Hnew Hex Hv' Hk. pose proof (wp_Execute q w Hinv Hf Hv Hnew) as Hex'.
  unfold wp in Hex'. rewrite Hex in Hex'. destruct Hex' as [(r0 & err0 & [= <- <-] & Hkey & _ & mid & A) _].
  simpl in A.
  change (wp (Execute e q') (λ res w2, res = Ok (Some r, None) ∧ k_store (w_st w2) = k_store (w_st w')) w').
  unfold Execute, newControlPlaneID. rewrite Hv'. do 8 wp_step.
  eapply wp_Create_old.
  - etransitivity; [|apply (lookup_insert_eq (ks_byRequest (k_store (w_st w))) (request_key r) (run_ID r))].
    simpl. rewrite (ar_index _ _ _ _ _ A). f_equal. rewrite Hkey. exact Hk.
  - simpl. apply wp_ret. by rewrite (ar_runs _ _ _ _ _ A), lookup_insert_eq.
Qed.
End props.

(** ** An execution that emits an event and calls a capability *)
Definition demo_engine : Engine (Y := ()) := mkEngine
  (λ _ _, Emit "progress" (AnyJson (JStr "half way"))
     (Invoke (mkCall "issue.comment" "1" "c1" "issue-42" None)
        (λ r, Return (match r with Ok _ => Ok (mkResult "done" None []) | Err err => Err err end))))
  (Some (λ _ w, (Ok (Some (JStr "posted")), w))) true (λ i b, Ok (Compile i b)).
Definition kernel_request : Request := (zero : Request) <| req_AgentID := "agent" |>
  <| req_IdempotencyKey := "k" |> <| req_Input := mkInput "" "" "do it" None |>
  <| req_Capabilities := [mkGrant "issue.comment" "1" "write" []] |>.
Definition idle_kernel : World (Kernel (S := MemoryStore) (Y := ())) := mkWorld 0 (mkKernel NewMemoryStore [] ()).

Lemma idle_kernel_ok : kinv idle_kernel.
Proof.
  constructor; simpl; intros *; by rewrite ?lookup_empty.
Qed.
Lemma demo_provider_forward : provider_forward demo_engine.
Proof. intros p [= <-] r w0. simpl. lia. Qed.

Lemma execute_settles_witness :
  executed kernel_request idle_kernel (Execute demo_engine kernel_request idle_kernel).2
    (Execute demo_engine kernel_request idle_kernel).1.
Proof.
  apply (execute_settles demo_engine kernel_request idle_kernel idle_kernel_ok demo_provider_forward);
    vm_compute; reflexivity.
Defined.

Definition the_execution := Execute demo_engine kernel_request idle_kernel.
Definition executed_run : Run :=
  match the_execution.1 with Ok (Some r, _) => r | _ => new_kernel_run kernel_request "" "" 0 end.

Lemma execute_once_witness :
  (Execute demo_engine kernel_request the_execution.2).1 = Ok (Some executed_run, None) ∧
  k_store (w_st (Execute demo_engine kernel_request the_execution.2).2) = k_store (w_st the_execution.2).
Proof.
  apply (execute_once demo_engine kernel_request kernel_request idle_kernel executed_run None the_execution.2
           idle_kernel_ok demo_provider_forward); vm_compute; reflexivity.
Defined.
