(* ===== verification/Outbox.v ===== *)
(** * Outbox: delivering events and final reports from a node (node/events.go, final.go, outbox.go)

    [deliverEvent] and [retryFinalReport] repeat a call with a growing delay
    until it succeeds, fails for good, or its time is up; time is what the calls
    took ([took_at]) plus what was waited, and the caller's context may end the
    loop before its time.  The [Outbox] writes an event to disk
    before it is sent and removes it once the control plane has answered;
    [Recover] replays what a crash left.  The control plane is an interface. *)

From S2P Require Import Prelude GoStrings Json Types Event Fs.

(** The node's view of the control plane. *)
Class ControlPlane (X : Type) := {
  cp_RegisterNode : NodeRegistration → M X Node;
  cp_Claim : string → M X Assignment;
  cp_Start : Assignment → M X ();
  cp_Renew : Assignment → M X LeaseUpdate;
  cp_AppendEvent : string → string → string → string → Any → list string → M X ();
  cp_Complete : Assignment → Result → M X ();
  cp_Fail : Assignment → string → M X ();
  cp_AcknowledgeCancellation : Assignment → M X ();
  cp_UploadArtifact : Assignment → Artifact → string → M X Artifact;
  cp_ReserveCapability : Assignment → string → string → CapabilityRequest → M X CapabilityReservation;
  cp_FinishCapability : Assignment → CapabilityReservation → CapabilityResult → string → M X ();
  cp_CreateInteraction : Assignment → InteractionRequest → M X Interaction;
  cp_GetInteraction : Assignment → string → M X Interaction
}.

(** How long the n-th call took, and whether the caller's context had ended by
    the end of the wait that follows it. *)
Class Durations := { took_at : nat → Z; ctx_done_at : nat → bool }.
Class DurationLaws `{Durations} : Prop := took_nonneg : ∀ n, (0 ≤ took_at n)%Z.

Definition millisecond : Z := 1000000.
Definition second : Z := (1000 * millisecond)%Z.

(** [staleEvent]: the control plane has answered, and will not answer otherwise. *)
Definition staleEvent (err : Error) : bool :=
  errors_Is err ErrInvalidLease || errors_Is err ErrInvalidTransition ||
  errors_Is err ErrNotFound || errors_Is err ErrRunCancelled.

Definition deadline_exceeded : Error := errors_New "context deadline exceeded".
Definition out_of_fuel : Error := errors_New "out of fuel".
Definition wrap_text (text : string) (err : Error) : Error := mkError (err_is err) (text +:+ err_msg err).

Section retry.
Context `{Durations} {S : Type}.

(** The delay of the next wait. *)
Definition next_delay (delay : Z) : Z := if (delay <? second)%Z then (delay * 2)%Z else delay.

(** The loop of both functions: [limit] is the time allowed, [elapsed] the time
    gone.  When the delay and the time run out together, time wins. *)
Fixpoint retry (fuel : nat) (text : string) (limit elapsed delay : Z) (call : M S ()) : M S () :=
  match fuel with
  | O => raise out_of_fuel
  | Datatypes.S fuel =>
      r ← try call;
      passed ← host (λ n, (took_at n, ctx_done_at n));
      let '(spent, ended) := (passed : Z * bool) in
      let elapsed := (elapsed + spent)%Z in
      match r with
      | Ok _ => mret ()
      | Err err =>
          if staleEvent err then raise err
          else if ended then raise (wrap_text text (errors_Join err (sentinel ErrContextDone)))
          else if (limit <=? elapsed + delay)%Z
          then raise (wrap_text text (errors_Join err deadline_exceeded))
          else retry fuel text limit (elapsed + delay) (next_delay delay) call
      end
  end.

(** Seven calls fit into five seconds, ten into ten seconds. *)
Definition event_calls : nat := 7.
Definition report_calls : nat := 10.

Definition retryFinalReport (report : M S ()) : M S () :=
  retry report_calls "final report deadline: " (10 * second) 0 (100 * millisecond) report.
End retry.

(** ** The node's state: its files and the control plane's *)
Section outbox.
Context `{Host} `{Encoder} `{Faults} `{Durations} {X : Type} `{ControlPlane X}.

Record NodeState := mkNodeState { nd_files : FS; nd_cp : X }.
Abbreviation MN := (M NodeState).

(** Time does not go back, whatever is done with the files. *)
Definition on_files {A} (m : M FS A) : MN A := λ w,
  let '(r, w') := m (mkWorld (w_tick w) (nd_files (w_st w))) in
  (r, mkWorld (Nat.max (w_tick w) (w_tick w')) (mkNodeState (w_st w') (nd_cp (w_st w)))).
Definition on_cp {A} (m : M X A) : MN A := λ w,
  let '(r, w') := m (mkWorld (w_tick w) (nd_cp (w_st w))) in
  (r, mkWorld (w_tick w') (mkNodeState (nd_files (w_st w)) (w_st w'))).

Definition payload_limit : N := 1048576.
Definition record_limit : N := 2097152.
(** [len(text) > limit] *)
Definition longer (limit : N) (text : string) : bool := bool_decide (limit < N.of_nat (String.length text))%N.

Definition deliverEvent (a : Assignment) (id kind : string) (data : Any) : MN () :=
  payload ← lift_res (marshal data);
  if longer payload_limit (json_text payload)
  then raise (errors_New "event payload exceeds 1 MiB")
  else retry event_calls "event delivery deadline: " (5 * second) 0 (100 * millisecond)
         (on_cp (cp_AppendEvent (asg_RunID a) (asg_AttemptID a) (asg_LeaseToken a) kind
                   (AnyJson payload) [id])).

(** ** Records *)
Record pendingEvent := mkPending {
  pe_Assignment : Assignment; pe_ID : string; pe_Type : string; pe_Data : Json }.

(** The text of a record and its reading: [encoding/json] on [pendingEvent]. *)
Class RecordCodec := {
  encode_record : pendingEvent → string;
  decode_record : string → Res pendingEvent
}.
Context `{RecordCodec}.

Record Outbox := mkOutbox { ob_root : string; ob_maxBytes : Z }.

(** The removal of unpublished temporary files. *)
Fixpoint drop_pending (root : string) (names : list string) : M FS () :=
  match names with
  | [] => mret ()
  | name :: names =>
      (if HasPrefix name ".pending-" then os_Remove (root +:+ "/" +:+ name) else mret ()) ;;
      drop_pending root names
  end.

(** [lock] is the answer of the operating system to the exclusive lock. *)
Definition OpenOutbox (root : string) (maxBytes : Z) (lock : option Error) : MN Outbox :=
  let maxBytes := if (maxBytes <=? 0)%Z then (64 * 2 ^ 20)%Z else maxBytes in
  on_files (os_MkdirAll root) ;;
  match lock with
  | Some err => raise err
  | None =>
      on_files syscall ;;
      names ← on_files (gets (dir_entries root));
      on_files (drop_pending root names) ;;
      mret (mkOutbox root maxBytes)
  end.

Section with_outbox.
Context (o : Outbox).

Definition in_root (name : string) : string := ob_root o +:+ "/" +:+ name.
Definition syncDir : M FS () := syscall ;; syscall.

(** The bytes of the published records. *)
Fixpoint used_bytes (names : list string) (used : Z) : M FS Z :=
  match names with
  | [] => mret used
  | name :: names =>
      if HasSuffix name ".json" then
        syscall ;;
        size ← gets (λ fs : FS, String.length (map_get fs (in_root name)));
        used_bytes names (used + Z.of_nat size)
      else used_bytes names used
  end.

Definition record_path (a : Assignment) (id : string) : string :=
  in_root (EventIdentity (asg_AttemptID a) (asg_LeaseToken a) [id] +:+ ".json").

(** [errors.Join] of the results of two calls. *)
Definition both (r1 r2 : Res ()) : M FS () :=
  match r1, r2 with
  | Ok _, Ok _ => mret ()
  | Err e1, Err e2 => raise (errors_Join e1 e2)
  | Err e, Ok _ | Ok _, Err e => raise e
  end.

Definition write_temp (temp encoded : string) : M FS () :=
  written ← try (os_WriteFile temp encoded ;; syscall);
  closed ← try syscall;
  both written closed.

(** Writing, syncing and closing the record under a temporary name and publishing it by a rename. *)
Definition publish (path encoded : string) : M FS string :=
  temp ← os_CreateTemp (ob_root o) ".pending-";
  r ← try (write_temp temp encoded ;; os_Rename temp path ;; syncDir ;; mret path);
  try (os_Remove temp) ;;
  lift_res r.

Definition save (a : Assignment) (id kind : string) (data : Any) : MN string :=
  payload ← lift_res (marshal data);
  if longer payload_limit (json_text payload)
  then raise (errors_New "event payload exceeds 1 MiB")
  else
    let encoded := encode_record (mkPending (a <| asg_Request := zero |>) id kind payload) in
    if longer record_limit encoded
    then raise (errors_New "outbox record exceeds 2 MiB")
    else
      let path := record_path a id in
      on_files syscall ;;
      names ← on_files (gets (dir_entries (ob_root o)));
      used ← on_files (used_bytes names (Z.of_nat (String.length encoded)));
      if (ob_maxBytes o <? used)%Z then raise (errors_New "relay node: outbox disk limit reached")
      else
        r ← try (on_files (os_Stat path));
        match r with
        | Ok _ => raise (errors_New "outbox event identity already exists")
        | Err err =>
            if errors_Is err ErrNotExist then on_files (publish path encoded) else raise err
        end.

Definition remove (path : string) : MN () := on_files (os_Remove path ;; syncDir).

Definition deliver (a : Assignment) (id kind : string) (data : Any) : MN () :=
  payload ← lift_res (marshal data);
  path ← save a id kind (AnyJson payload);
  deliverEvent a id kind (AnyJson payload) ;;
  remove path.

(** ** Recovery *)
Definition interrupted : string :=
  "Node restarted: pending events recovered, runtime execution was interrupted".

(** The answer of the control plane to a recovered record. *)
Definition replay (record : pendingEvent) : MN (Res ()) :=
  let a := pe_Assignment record in
  r ← try (deliverEvent a (pe_ID record) (pe_Type record) (AnyJson (pe_Data record)));
  match r with
  | Ok _ => try (on_cp (cp_Fail a interrupted))
  | Err err => if errors_Is err ErrRunCancelled then try (on_cp (cp_AcknowledgeCancellation a))
               else mret (Err err)
  end.

Definition complete_record (record : pendingEvent) : bool :=
  negb ((asg_RunID (pe_Assignment record) =s "") || (asg_AttemptID (pe_Assignment record) =s "") ||
        (asg_LeaseToken (pe_Assignment record) =s "") || (pe_ID record =s "") || (pe_Type record =s "")).

Definition recover_record (name : string) : MN () :=
  let path := in_root name in
  on_files syscall ;;
  content ← on_files (gets (λ fs : FS, map_get fs path));
  if longer record_limit content
  then raise (errors_New ("invalid outbox record " +:+ name))
  else
    raw ← on_files (os_ReadFile path);
    match decode_record raw with
    | Err err => raise (wrap_text ("outbox record " +:+ name +:+ ": ") err)
    | Ok record =>
        if negb (complete_record record) then raise (errors_New ("incomplete outbox record " +:+ name))
        else
          answer ← replay record;
          match answer with
          | Err err => if negb (staleEvent err) then raise err else remove path
          | Ok _ => remove path
          end
    end.

(** [alive] is the caller's context, asked before each record. *)
Fixpoint recover_all (alive : nat → option Error) (names : list string) : MN () :=
  match names with
  | [] => mret ()
  | name :: names =>
      if HasSuffix name ".json" then
        ctx ← host alive;
        match (ctx : option Error) with
        | Some err => raise err
        | None => recover_record name ;; recover_all alive names
        end
      else recover_all alive names
  end.

Definition Recover (alive : nat → option Error) : MN () :=
  on_files syscall ;;
  names ← on_files (gets (dir_entries (ob_root o)));
  recover_all alive names.
End with_outbox.
End outbox.
Arguments NodeState : clear implicits.
Arguments mkNodeState {X} _ _.
Arguments nd_files {X} _.
Arguments nd_cp {X} _.
