(* ===== verification/NodeDemo.v ===== *)
(** * NodeDemo: a machine without faults and a scripted control plane

    The parameters of the node's files, made concrete so that the model runs: no
    call of the operating system fails, calls take no time, a record is the text
    of its parts, and the control plane answers what its script says and keeps a
    log of what it was asked. *)

From S2P Require Import Prelude GoStrings Json Types Demo Fs Outbox.

#[export] Instance no_faults : Faults := {| fault_at _ := None; torn_at _ c := c; temp_at _ := "0" |}.
#[export] Instance no_faults_laws : FaultLaws.
Proof. by constructor. Qed.

#[export] Instance no_time : Durations := {| took_at _ := 0%Z; ctx_done_at _ := false |}.
#[export] Instance no_time_laws : DurationLaws.
Proof. intros n. reflexivity. Qed.

(** The script: the assignments handed out and the answers, in order; what is
    not scripted is accepted. *)
Record Script := mkScript { sc_work : list Assignment; sc_answers : list (Res ()); sc_log : list string }.

Definition answer (what : string) : M Script () :=
  s ← gets id;
  match sc_answers s with
  | [] => modify (λ s, mkScript (sc_work s) [] (sc_log s ++ [what]))
  | r :: answers => modify (λ s, mkScript (sc_work s) answers (sc_log s ++ [what])) ;; lift_res r
  end.

#[export] Instance scripted : ControlPlane Script := {|
  cp_RegisterNode reg := answer "register" ;; mret (mkNode reg 0 0 NodeOnline);
  cp_Claim _ :=
    s ← gets id;
    match sc_work s with
    | [] => raise (sentinel ErrNoAssignment)
    | a :: work => modify (λ s, mkScript work (sc_answers s) (sc_log s ++ ["claim"])) ;; mret a
    end;
  cp_Start _ := answer "start";
  cp_Renew a := answer "renew" ;; mret (mkLeaseUpdate (asg_LeaseExpiresAt a) false "");
  cp_AppendEvent _ _ _ kind _ _ := answer kind;
  cp_Complete _ _ := answer "complete";
  cp_Fail _ _ := answer "fail";
  cp_AcknowledgeCancellation _ := answer "acknowledge";
  cp_UploadArtifact _ artifact _ := answer "upload" ;; mret artifact;
  cp_ReserveCapability _ key _ _ := answer "reserve" ;; mret (mkReservation key true None "");
  cp_FinishCapability _ _ _ _ := answer "finish";
  cp_CreateInteraction a request := answer "ask" ;;
    mret (mkInteraction "interaction" (asg_RunID a) (asg_AttemptID a) (ir_Kind request) "pending"
            (ir_Prompt request) (ir_Data request) None 0 None);
  cp_GetInteraction a id := answer "look" ;;
    mret (mkInteraction id (asg_RunID a) (asg_AttemptID a) InteractionInput "resolved" "" None
            (Some (JStr "yes")) 0 None)
|}.

(** A record of one line per part; the payload is not read back. *)
#[export] Instance line_codec : RecordCodec := {|
  encode_record p := asg_RunID (pe_Assignment p) +:+ nl +:+ asg_AttemptID (pe_Assignment p) +:+ nl +:+
    asg_LeaseToken (pe_Assignment p) +:+ nl +:+ pe_ID p +:+ nl +:+ pe_Type p;
  decode_record text :=
    match Split text (Ascii.ascii_of_nat 10) with
    | [run; attempt; token; id; kind] => Ok (mkPending (mkAssignment run attempt token 0 zero) id kind JNull)
    | _ => Err (errors_New "invalid record")
    end
|}.

Definition demo_assignment : Assignment := mkAssignment "run_1" "attempt_1" "lease_1" 1000 zero.
Definition script (answers : list (Res ())) : Script := mkScript [demo_assignment] answers [].
