(* ===== verification/OutboxProps.v ===== *)
(** * OutboxProps: bounded delivery, whole records, answered recovery *)

From S2P Require Import Prelude GoStrings Json Types Demo Event Fs Outbox NodeDemo.

(** ** The retry loop ends in time *)
Section retry.
Context `{DurationLaws} {S : Type}.

(** The loop ends within [n] calls, even when the calls take no time. *)
Fixpoint ends_within (n : nat) (limit elapsed delay : Z) : Prop :=
  match n with
  | O => False
  | Datatypes.S n => (limit <= elapsed + delay)%Z ∨ ends_within n limit (elapsed + delay) (next_delay delay)
  end.

Lemma ends_within_later n limit elapsed elapsed' delay :
  (elapsed <= elapsed')%Z → ends_within n limit elapsed delay → ends_within n limit elapsed' delay.
Proof.
  revert elapsed elapsed' delay. induction n as [|n IH]; intros elapsed elapsed' delay Hle; simpl; [done|].
  intros [Hl|Hl]; [left; lia|right]. eapply IH; [|exact Hl]. lia.
Qed.

Lemma retry_fuel n k text limit elapsed delay (call : M S ()) w :
  ends_within n limit elapsed delay →
  retry (n + k) text limit elapsed delay call w = retry n text limit elapsed delay call w.
Proof.
  revert elapsed delay w. induction n as [|n IH]; intros elapsed delay w; simpl; [done|]. intros Hends.
  unfold mbind, M_bind, try, host. destruct (call w) as [r w1]. destruct r as [[]|err]; [done|].
  destruct (staleEvent err); [done|]. destruct (ctx_done_at (w_tick w1)); [done|]. pose proof (took_nonneg (w_tick w1)).
  destruct (Z.leb_spec limit (elapsed + took_at (w_tick w1) + delay)); [done|].
  apply IH. destruct Hends as [Hl|Hl]; [lia|]. eapply ends_within_later; [|exact Hl]. lia.
Qed.

(** How a loop ends: the last call was accepted, it was refused for good, or
    the time was up. *)
Definition concluded (text : string) (call : M S ()) (r : Res ()) (w' : World S) : Prop :=
  ∃ w0, w_st (call w0).2 = w_st w' ∧
    match r with
    | Ok _ => (call w0).1 = Ok ()
    | Err err => ∃ last, (call w0).1 = Err last ∧
        (staleEvent last = true ∧ err = last ∨
         staleEvent last = false ∧ ∃ ended, err = wrap_text text (errors_Join last ended) ∧
           (ended = deadline_exceeded ∨ ended = sentinel ErrContextDone))
    end.

Lemma retry_concluded n text limit elapsed delay (call : M S ()) w :
  ends_within n limit elapsed delay →
  wp (retry n text limit elapsed delay call) (concluded text call) w.
Proof.
  unfold wp. revert elapsed delay w. induction n as [|n IH]; intros elapsed delay w; simpl; [done|]. intros Hends.
  unfold mbind, M_bind, try, host. destruct (call w) as [r w1] eqn:Hc. destruct r as [[]|err].
  { exists w. by rewrite Hc. }
  destruct (staleEvent err) eqn:Es; [exists w; rewrite Hc; simpl; split; [done|]; exists err; auto|].
  destruct (ctx_done_at (w_tick w1)); simpl; [exists w; rewrite Hc; simpl; split; [done|]; exists err; eauto 8|].
  pose proof (took_nonneg (w_tick w1)).
  destruct (Z.leb_spec limit (elapsed + took_at (w_tick w1) + delay)); [exists w; rewrite Hc; simpl; split; [done|]; exists err; eauto 8|].
  apply IH. destruct Hends as [Hl|Hl]; [lia|]. eapply ends_within_later; [|exact Hl]. lia.
Qed.

Lemma retry_respects (R : relation S) `{!PreOrder R} n text limit elapsed delay (call : M S ()) :
  respects R call → respects R (retry n text limit elapsed delay call).
Proof.
  intros Hc. revert elapsed delay. induction n as [|n IH]; intros elapsed delay; simpl; [apply respects_raise, _|].
  apply respects_bind; [apply _|by apply respects_try|]. intros r.
  apply respects_bind; [apply _|apply respects_host, _|]. intros [spent ended].
  destruct r as [[]|err]; [apply respects_ret, _|]. destruct (staleEvent err); [apply respects_raise, _|].
  destruct ended; [apply respects_raise, _|]. destruct (_ <=? _)%Z; [apply respects_raise, _|apply IH].
Qed.

Lemma event_ends : ends_within event_calls (5 * second) 0 (100 * millisecond).
Proof. unfold event_calls. simpl. unfold next_delay, second, millisecond. simpl. lia. Qed.
Lemma report_ends : ends_within report_calls (10 * second) 0 (100 * millisecond).
Proof. unfold report_calls. simpl. unfold next_delay, second, millisecond. simpl. lia. Qed.
End retry.

(** ** Records are whole *)
Lemma str_length_drop n s : String.length (str_drop n s) = String.length s - n.
Proof. revert s. induction n as [|n IH]; intros [|c s]; simpl; try done. Qed.

Lemma HasSuffix_app a b suf : String.length suf ≤ String.length b → HasSuffix (a +:+ b) suf = HasSuffix b suf.
Proof.
  intros Hle. unfold HasSuffix. rewrite str_length_app.
  rewrite (proj2 (Nat.leb_le _ _)) by lia. rewrite (proj2 (Nat.leb_le _ _)) by lia. simpl.
  replace (String.length a + String.length b - String.length suf)
    with (String.length a + (String.length b - String.length suf)) by lia.
  generalize (String.length b - String.length suf). intros n.
  f_equal. apply bool_decide_ext. assert (str_drop (String.length a + n) (a +:+ b) = str_drop n b) as ->; [|done].
  induction a as [|c a IH]; [done|]. exact IH.
Qed.

Section files.
Context `{Host} `{FaultLaws}.

(** The published records are as they were. *)
Definition same_records (fs fs' : FS) : Prop := ∀ p, HasSuffix p ".json" = true → fs' !! p = fs !! p.

Lemma wp_syscall_fault (Q : Res () → World FS → Prop) w :
  (∀ e, errors_Is e ErrNotExist = false → Q (Err e) (mkWorld (w_tick w + 1) (w_st w))) →
  Q (Ok ()) (mkWorld (w_tick w + 1) (w_st w)) → wp syscall Q w.
Proof.
  intros He Hok. unfold syscall. do 2 wp_step. pose proof (fault_not_absence (w_tick w)) as Hf.
  destruct (fault_at _) as [e|]; [by apply wp_raise, He, Hf|by apply wp_ret].
Qed.
Lemma wp_syscall_fs (Q : Res () → World FS → Prop) w :
  (∀ e, Q (Err e) (mkWorld (w_tick w + 1) (w_st w))) → Q (Ok ()) (mkWorld (w_tick w + 1) (w_st w)) →
  wp syscall Q w.
Proof. intros He. apply wp_syscall_fault. auto. Qed.

Lemma temp_not_record o t : HasSuffix (ob_root o +:+ "/" +:+ ".pending-" +:+ temp_at t) ".json" = false.
Proof.
  assert (Hl : ∀ x, String.length ".json" ≤ String.length (".pending-" +:+ x)).
  { intros x. rewrite str_length_app. simpl. lia. }
  rewrite HasSuffix_app by (rewrite str_length_app; etransitivity; [apply (Hl (temp_at t))|lia]).
  rewrite HasSuffix_app by apply Hl. apply temp_digits.
Qed.

(** Writing, syncing and closing the temporary file. *)
Lemma wp_write_temp temp encoded w :
  HasSuffix temp ".json" = false →
  wp (write_temp temp encoded)
    (λ r w', same_records (w_st w) (w_st w') ∧ (is_ok r = true → w_st w' !! temp = Some encoded)) w.
Proof.
  intros Htemp. assert (Hne : ∀ p, HasSuffix p ".json" = true → p ≠ temp) by (intros p Hp ->; congruence).
  assert (Hclose : ∀ (written : Res ()) w', same_records (w_st w) (w_st w') →
            (is_ok written = true → w_st w' !! temp = Some encoded) →
            wp (closed ← try syscall; both written closed)
              (λ r w', same_records (w_st w) (w_st w') ∧ (is_ok r = true → w_st w' !! temp = Some encoded)) w').
  { intros written w' Hs Hw. do 2 wp_step.
    apply wp_syscall_fs; [intros e|]; destruct written; split; auto; by intros [=]. }
  unfold write_temp. do 3 wp_step. unfold os_WriteFile. do 2 wp_step. cbn -[String.append]. destruct (fault_at _) as [e|].
  - do 3 wp_step. apply (Hclose (Err e)); [|by intros [=]]. intros p Hp. simpl. by rewrite lookup_partial_alter_ne by (symmetry; auto).
  - assert (Hs : same_records (w_st w) (<[temp := encoded]> (w_st w))).
    { intros p Hp. by rewrite lookup_insert_ne by (symmetry; auto). }
    wp_step. apply wp_syscall_fs; [intros e; by apply (Hclose (Err e))|].
    apply (Hclose (Ok ())); [done|]. intros _. apply lookup_insert_eq.
Qed.

(** A record published whole, or not at all. *)
Definition published (fs fs' : FS) (path encoded : string) (r : Res string) : Prop :=
  (same_records fs fs' ∨ same_records (<[path := encoded]> fs) fs') ∧
  (∀ p, r = Ok p → p = path ∧ same_records (<[path := encoded]> fs) fs').

Lemma wp_discard temp fs path encoded r w :
  HasSuffix temp ".json" = false →
  published fs (w_st w) path encoded r →
  wp (try (os_Remove temp) ;; lift_res r) (λ r w', published fs (w_st w') path encoded r) w.
Proof.
  intros Htemp Hp. do 2 wp_step. unfold os_Remove. wp_step.
  apply wp_syscall_fs; [intros e; by apply wp_lift_res|].
  wp_step. apply wp_gets. simpl. destruct (w_st w !! temp); [|by apply wp_raise, wp_lift_res].
  apply wp_modify, wp_lift_res. simpl.
  assert (Hd : ∀ fs, same_records fs (w_st w) → same_records fs (delete temp (w_st w))).
  { intros fs0 Hs p Hj. rewrite lookup_delete_ne by (intros ->; congruence). by apply Hs. }
  destruct Hp as [Hp1 Hp2]. split; [destruct Hp1; auto|]. intros p Hr. destruct (Hp2 p Hr). auto.
Qed.

(** Publication: the records stay as they were, except that the new one may be
    there, whole. *)
Lemma wp_publish o path encoded w :
  HasSuffix path ".json" = true →
  wp (publish o path encoded) (λ r w', published (w_st w) (w_st w') path encoded r) w.
Proof.
  intros Hpath. unfold publish, os_CreateTemp. do 2 wp_step.
  apply wp_syscall_fs; [by split; [left|]|]. do 2 wp_step. simpl.
  pose proof (temp_not_record o (w_tick w + 1)) as Htemp.
  set (temp := ob_root o +:+ "/" +:+ ".pending-" +:+ temp_at (w_tick w + 1)) in *.
  wp_step. apply wp_gets. simpl. destruct (w_st w !! temp) eqn:Hno; [apply wp_raise; by split; [left|]|].
  assert (Hne : ∀ p, HasSuffix p ".json" = true → p ≠ temp) by (intros p Hp ->; congruence).
  assert (Hi : same_records (w_st w) (<[temp := ""]> (w_st w))).
  { intros p Hp. by rewrite lookup_insert_ne by (symmetry; auto). }
  wp_step. apply wp_modify, wp_ret. do 3 wp_step.
  eapply wp_mono; [apply (wp_write_temp temp encoded); exact Htemp|].
  intros r1 w1 [Hs1 Ht]. simpl in Hs1. cbn beta.
  assert (Hs : same_records (w_st w) (w_st w1)) by (intros p Hp; by rewrite Hs1, Hi).
  destruct r1 as [[]|e]; [|apply wp_discard; [done|split; [by left|done]]].
  specialize (Ht eq_refl). wp_step. unfold os_Rename. wp_step.
  apply wp_syscall_fs; [intros e; apply wp_discard; [done|split; [by left|done]]|].
  wp_step. apply wp_gets. simpl. rewrite Ht. apply wp_modify. simpl.
  assert (Hren : same_records (<[path := encoded]> (w_st w)) (<[path:=encoded]> (delete temp (w_st w1)))).
  { intros p Hp. destruct (decide (p = path)) as [->|?]; [by rewrite !lookup_insert_eq|].
    rewrite !lookup_insert_ne by done. rewrite lookup_delete_ne by (symmetry; auto). by apply Hs. }
  wp_step. unfold syncDir. wp_step.
  apply wp_syscall_fs; [intros e; apply wp_discard; [done|split; [by right|done]]|].
  apply wp_syscall_fs; [intros e; apply wp_discard; [done|split; [by right|done]]|].
  apply wp_ret, wp_discard; [done|]. split; [by right|]. by intros p [= <-].
Qed.

Lemma record_path_json o a id : HasSuffix (record_path o a id) ".json" = true.
Proof.
  unfold record_path, in_root. generalize (EventIdentity (asg_AttemptID a) (asg_LeaseToken a) [id]). intros ident.
  assert (String.length ".json" ≤ String.length (ident +:+ ".json")) by (rewrite str_length_app; lia).
  rewrite !HasSuffix_app; [done|lia|done|rewrite str_length_app; lia].
Qed.
End files.

(** ** Calls that leave the files alone *)
Section node.
Context `{Host} `{Encoder} `{FaultLaws} `{DurationLaws} {X : Type} `{ControlPlane X} `{RecordCodec}.

Lemma wp_on_files {A} (m : M FS A) (Q : Res A → World (NodeState X) → Prop) (w : World (NodeState X)) :
  wp m (λ r w', Q r (mkWorld (Nat.max (w_tick w) (w_tick w')) (mkNodeState (w_st w') (nd_cp (w_st w)))))
    (mkWorld (w_tick w) (nd_files (w_st w))) →
  wp (on_files m) Q w.
Proof. unfold wp, on_files. destruct (m _) as [r w']. done. Qed.

Definition same_files : relation (NodeState X) := λ s s', nd_files s' = nd_files s.
#[local] Instance same_files_preorder : PreOrder same_files.
Proof. split; [done|]. intros s1 s2 s3 H12 H23. unfold same_files in *. congruence. Qed.
Abbreviation keeps_files := (respects same_files).

Lemma keeps_on_cp {A} (m : M X A) : keeps_files (on_cp m).
Proof. intros w. unfold on_cp, same_files. by destruct (m _). Qed.
Lemma keeps_deliverEvent a id kind data : keeps_files (deliverEvent a id kind data).
Proof.
  unfold deliverEvent. apply respects_bind; [apply _|apply respects_lift_res, _|]. intros payload.
  destruct (longer _ _); [apply respects_raise, _|]. apply retry_respects; [apply _|]. apply keeps_on_cp.
Qed.
Lemma keeps_replay record : keeps_files (replay record).
Proof.
  unfold replay. apply respects_bind; [apply _|apply respects_try, keeps_deliverEvent|].
  intros [[]|err]; [apply respects_try, keeps_on_cp|].
  destruct (errors_Is _ _); [apply respects_try, keeps_on_cp|apply respects_ret, _].
Qed.

(** ** The size of the published records *)
Definition record_size (o : Outbox) (fs : FS) (name : string) : Z :=
  if HasSuffix name ".json" then Z.of_nat (String.length (map_get fs (in_root o name))) else 0.
Definition records_size (o : Outbox) (fs : FS) (names : list string) : Z :=
  foldr (λ name n, (record_size o fs name + n)%Z) 0%Z names.

Lemma wp_used_bytes o names used (w : World FS) :
  wp (used_bytes o names used)
    (λ r w', w_st w' = w_st w ∧ ∀ n, r = Ok n → n = (used + records_size o (w_st w) names)%Z) w.
Proof.
  revert used w. induction names as [|name names IH]; intros used w; simpl.
  { wp_step. split; [done|]. intros n [= <-]. lia. }
  unfold record_size. wp_step.
  - wp_step. apply wp_syscall_fs; [done|]. wp_step. wp_step. eapply wp_mono; [apply IH|].
    intros r w' [Hs Hr]. simpl in *. split; [done|]. intros n ->. rewrite (Hr n eq_refl). lia.
  - eapply wp_mono; [apply IH|]. intros r w' [Hs Hr]. split; [done|]. intros n ->. by rewrite (Hr n eq_refl).
Qed.

(** ** Removal and recovery *)
Lemma wp_remove (path : string) (w : World (NodeState X)) :
  wp (remove path)
    (λ r w', (nd_files (w_st w') = nd_files (w_st w) ∧ is_ok r = false ∨
              nd_files (w_st w') = delete path (nd_files (w_st w)))) w.
Proof.
  apply wp_on_files. wp_step. unfold os_Remove. wp_step. apply wp_syscall_fs; [by left|].
  wp_step. apply wp_gets. simpl. destruct (_ !! path); [|apply wp_raise; by left].
  apply wp_modify. simpl. unfold syncDir. wp_step. apply wp_syscall_fs; [by right|].
  apply wp_syscall_fs; by right.
Qed.

(** The answer of the control plane that lets a record go. *)
Definition answered (answer : Res ()) : bool :=
  match answer with Ok _ => true | Err e => staleEvent e end.

(** A record was replayed at some moment, and the control plane answered. *)
Definition replayed (content : string) : Prop :=
  ∃ record w0 answer, decode_record content = Ok record ∧ complete_record record = true ∧
    (replay record w0).1 = Ok answer ∧ answered answer = true.

(** What recovery does to the files: it only removes replayed records. *)
Definition recovered (fs fs' : FS) : Prop :=
  fs' ⊆ fs ∧ ∀ p content, fs !! p = Some content → fs' !! p = None → replayed content.

Lemma recovered_refl fs : recovered fs fs.
Proof. split; [done|]. intros p c Hp. congruence. Qed.
Lemma recovered_trans fs1 fs2 fs3 : recovered fs1 fs2 → recovered fs2 fs3 → recovered fs1 fs3.
Proof.
  intros [Hs1 Hr1] [Hs2 Hr2]. split; [by transitivity fs2|]. intros p c Hp Hgone.
  destruct (fs2 !! p) as [c'|] eqn:E2; [|by eapply Hr1].
  pose proof (lookup_weaken _ _ _ _ E2 Hs1). simplify_eq. by eapply Hr2.
Qed.

Lemma wp_recover_record o name (w : World (NodeState X)) :
  wp (recover_record o name)
    (λ r w', recovered (nd_files (w_st w)) (nd_files (w_st w')) ∧
       (is_ok r = true → nd_files (w_st w') !! in_root o name = None)) w.
Proof.
  assert (Hsame : ∀ (w' : World (NodeState X)), nd_files (w_st w') = nd_files (w_st w) →
    recovered (nd_files (w_st w)) (nd_files (w_st w')) ∧
    (false = true → nd_files (w_st w') !! in_root o name = None)).
  { intros w' ->. split; [apply recovered_refl|done]. }
  unfold recover_record. wp_step. apply wp_on_files, wp_syscall_fs; [intros e; by apply Hsame|].
  wp_step. apply wp_on_files, wp_gets. simpl. wp_step; [wp_step; by apply Hsame|].
  wp_step. apply wp_on_files. unfold os_ReadFile. wp_step. apply wp_syscall_fs; [intros e; by apply Hsame|].
  wp_step. apply wp_gets. simpl. destruct (nd_files (w_st w) !! in_root o name) as [raw|] eqn:Hraw.
  2: apply wp_raise; by apply Hsame.
  wp_step. destruct (decode_record raw) as [record|e] eqn:Hdec; [|apply wp_raise; by apply Hsame].
  wp_step; [apply wp_raise; by apply Hsame|]. apply negb_false_iff in E0.
  wp_step. set (w0 := mkWorld _ _). pose proof (keeps_replay record w0) as Hk. unfold same_files in Hk.
  unfold wp at 1. destruct (replay record w0) as [r w1] eqn:Hr. simpl in *.
  destruct r as [answer|e]; [|by apply Hsame].
  assert (Hgo : answered answer = true → wp (remove (in_root o name))
    (λ r w', recovered (nd_files (w_st w)) (nd_files (w_st w')) ∧
       (is_ok r = true → nd_files (w_st w') !! in_root o name = None)) w1).
  { intros Ha. eapply wp_mono; [apply wp_remove|]. intros r w' [[Hw Hn]|Hw]; rewrite Hw, Hk.
    - split; [apply recovered_refl|]. congruence.
    - split; [|intros _; apply lookup_delete_eq]. split; [apply delete_subseteq|].
      intros p c Hp Hd. destruct (decide (p = in_root o name)) as [->|Hne].
      + simplify_eq. exists record, w0, answer. rewrite Hr. done.
      + rewrite lookup_delete_ne in Hd by done. congruence. }
  destruct answer as [[]|e]; [by apply Hgo|]. destruct (staleEvent e) eqn:Es; simpl.
  - by apply Hgo.
  - apply wp_raise, Hsame, Hk.
Qed.

Lemma wp_recover_all o alive names (w : World (NodeState X)) :
  wp (recover_all o alive names)
    (λ r w', recovered (nd_files (w_st w)) (nd_files (w_st w')) ∧
       (is_ok r = true → ∀ name, name ∈ names → HasSuffix name ".json" = true →
          nd_files (w_st w') !! in_root o name = None)) w.
Proof.
  revert w. induction names as [|name names IH]; intros w; simpl.
  { wp_step. split; [apply recovered_refl|]. intros _ name Hn. by apply elem_of_nil in Hn. }
  wp_step.
  - do 2 wp_step. destruct (alive _) as [e|]; [apply wp_raise; split; [apply recovered_refl|done]|].
    wp_step. eapply wp_mono; [apply wp_recover_record|]. intros r w1 [Hr1 Hgone]. simpl in Hr1. cbn beta.
    destruct r as [[]|e]; [|done]. eapply wp_mono; [apply IH|]. intros r w2 [Hr2 Hrest].
    split; [by eapply recovered_trans|]. intros Hok x [->|Hx]%elem_of_cons Hj; [|by apply Hrest].
    specialize (Hgone eq_refl). destruct (nd_files (w_st w2) !! in_root o name) eqn:E2; [|done].
    pose proof (lookup_weaken _ _ _ _ E2 (proj1 Hr2)). congruence.
  - eapply wp_mono; [apply IH|]. intros r w' [Hr1 Hrest]. split; [done|].
    intros Hok x [->|Hx]%elem_of_cons Hj; [congruence|by apply Hrest].
Qed.
End node.

(** ** The properties *)
Section properties.
Context `{Host} `{Encoder} `{FaultLaws} `{DurationLaws} {X : Type} `{ControlPlane X} `{RecordCodec}.

(** C40: a final report ends: ten calls are enough for the ten seconds it is
    given, more fuel changes nothing, and it ends because a call was accepted,
    because the control plane refused it for good, or because the time was up or
    the caller gave up, which the error says together with the last refusal. *)
Theorem final_report_ends {S} (k : nat) (report : M S ()) (w : World S) :
  retry (report_calls + k) "final report deadline: " (10 * second) 0 (100 * millisecond) report w
    = retryFinalReport report w ∧
  wp (retryFinalReport report) (concluded "final report deadline: " report) w.
Proof. split; [by apply retry_fuel, report_ends|apply retry_concluded, report_ends]. Qed.

(** What a save leaves behind: the published records of [fs], with the new one
    or without it. *)
Definition saved (o : Outbox) (a : Assignment) (id kind : string) (data : Any) (w : World (NodeState X))
    (r : Res string) (w' : World (NodeState X)) : Prop :=
  let fs := nd_files (w_st w) in
  nd_cp (w_st w') = nd_cp (w_st w) ∧
  (same_records fs (nd_files (w_st w')) ∨
   ∃ payload, marshal data = Ok payload ∧
     let encoded := encode_record (mkPending (a <| asg_Request := zero |>) id kind payload) in
     fs !! record_path o a id = None ∧
     (Z.of_nat (String.length encoded) + records_size o fs (dir_entries (ob_root o) fs) <= ob_maxBytes o)%Z ∧
     same_records (<[record_path o a id := encoded]> fs) (nd_files (w_st w'))) ∧
  (∀ path, r = Ok path → path = record_path o a id ∧ is_Some (nd_files (w_st w') !! path)).

(** Saving an event publishes its record whole or leaves the published
    records as they were, whatever fails on the way; a successful save
    published a record that was not there, without the business request, within
    the limits of the outbox. *)
Theorem saved_record_is_whole (o : Outbox) (a : Assignment) (id kind : string) (data : Any)
    (w : World (NodeState X)) :
  wp (save o a id kind data) (saved o a id kind data w) w.
Proof.
  pose proof (record_path_json o a id) as Hjson.
  assert (Hkeep : ∀ e (w' : World (NodeState X)), nd_files (w_st w') = nd_files (w_st w) →
            nd_cp (w_st w') = nd_cp (w_st w) → saved o a id kind data w (Err e) w').
  { intros e w' Hf Hc. split; [done|]. rewrite Hf. split; [by left|done]. }
  unfold save. do 2 wp_step. destruct (marshal data) as [payload|e] eqn:Hm; [|by apply Hkeep].
  wp_step; [wp_step; by apply Hkeep|]. wp_step; [wp_step; by apply Hkeep|].
  wp_step. apply wp_on_files, wp_syscall_fs; [intros e; by apply Hkeep|].
  wp_step. apply wp_on_files, wp_gets. cbn [w_st nd_files nd_cp w_tick].
  wp_step. apply wp_on_files. eapply wp_mono; [apply wp_used_bytes|].
  intros r w1 [Hw1 Hused]. cbn [w_st nd_files nd_cp w_tick] in *.
  destruct r as [used|e]; [|by apply Hkeep]. specialize (Hused used eq_refl).
  wp_step; [wp_step; by apply Hkeep|]. apply Z.ltb_ge in E1.
  wp_step. apply wp_try, wp_on_files. unfold os_Stat. wp_step. apply wp_syscall_fault.
  { intros e He. cbn -[String.append]. rewrite He. by apply wp_raise, Hkeep. }
  wp_step. apply wp_gets. cbn [w_st nd_files nd_cp w_tick]. rewrite Hw1.
  destruct (nd_files (w_st w) !! record_path o a id) eqn:Hno; [do 2 wp_step; by apply Hkeep|].
  wp_step. cbn -[String.append record_path publish]. apply wp_on_files. eapply wp_mono; [by apply wp_publish|].
  intros r w2 [Hp Hok]. cbn [w_st nd_files nd_cp w_tick] in *. split; [done|]. split.
  - destruct Hp as [Hp|Hp]; [by left|right]. exists payload. repeat split; try done. by rewrite <- Hused.
  - intros path ->. destruct (Hok path eq_refl) as [-> Hs]. split; [done|].
    simpl. rewrite (Hs _ Hjson), lookup_insert_eq. eauto.
Qed.

(** Recovery removes records and does nothing else to the outbox: the ones
    it removes were complete and replayed, and the control plane had accepted the
    replay and the failure or the cancellation of the attempt, or refused it for
    good; when it succeeds no record is left. *)
Theorem recovery_answers_records (o : Outbox) (alive : nat → option Error) (w : World (NodeState X)) :
  let fs := nd_files (w_st w) in
  wp (Recover o alive)
    (λ r w', recovered fs (nd_files (w_st w')) ∧
       (r = Ok () → ∀ name, name ∈ dir_entries (ob_root o) fs → HasSuffix name ".json" = true →
          nd_files (w_st w') !! in_root o name = None)) w.
Proof.
  intros fs. unfold Recover. wp_step. apply wp_on_files, wp_syscall_fs; [intros e; split; [apply recovered_refl|done]|].
  wp_step. apply wp_on_files, wp_gets. eapply wp_mono; [apply wp_recover_all|].
  intros r w' [Hr Hgone]. split; [exact Hr|]. intros -> . by apply Hgone.
Qed.
End properties.

(** ** A report refused twice; an event saved, and recovered after a restart *)
Definition unavailable : Error := errors_New "unavailable".
Definition report_world : World Script := mkWorld 0 (script [Err unavailable; Err unavailable]).

Lemma final_report_ends_witness :
  retry (report_calls + 5) "final report deadline: " (10 * second) 0 (100 * millisecond)
    (cp_Fail demo_assignment "cause") report_world
    = retryFinalReport (cp_Fail demo_assignment "cause") report_world ∧
  wp (retryFinalReport (cp_Fail demo_assignment "cause"))
     (concluded "final report deadline: " (cp_Fail demo_assignment "cause")) report_world.
Proof. apply (final_report_ends 5). Defined.

Definition demo_outbox : Outbox := mkOutbox "/outbox" 65536.
Definition node_world : World (NodeState Script) := mkWorld 0 (mkNodeState ∅ (script [Err unavailable])).

Lemma saved_record_is_whole_witness :
  wp (save demo_outbox demo_assignment "1" "progress" AnyNil)
     (saved demo_outbox demo_assignment "1" "progress" AnyNil node_world) node_world ∧
  dom (nd_files (w_st (save demo_outbox demo_assignment "1" "progress" AnyNil node_world).2)) =
    {[record_path demo_outbox demo_assignment "1"]}.
Proof.
  split; [apply saved_record_is_whole|]. vm_compute. reflexivity.
Defined.

(** The node stopped after the save. *)
Definition restarted : World (NodeState Script) :=
  (save demo_outbox demo_assignment "1" "progress" AnyNil node_world).2.

Lemma recovery_answers_records_witness :
  wp (Recover demo_outbox (λ _, None))
    (λ r w', recovered (nd_files (w_st restarted)) (nd_files (w_st w')) ∧
       (r = Ok () → ∀ name, name ∈ dir_entries (ob_root demo_outbox) (nd_files (w_st restarted)) →
          HasSuffix name ".json" = true → nd_files (w_st w') !! in_root demo_outbox name = None)) restarted ∧
  (Recover demo_outbox (λ _, None) restarted).1 = Ok () ∧
  dir_entries (ob_root demo_outbox) (nd_files (w_st restarted)) ≠ [] ∧
  sc_log (nd_cp (w_st (Recover demo_outbox (λ _, None) restarted).2)) = ["progress"; "progress"; "fail"].
Proof.
  split; [apply (recovery_answers_records demo_outbox (λ _, None) restarted)|].
  split; [vm_compute; reflexivity|]. split; [vm_compute; discriminate|]. vm_compute. reflexivity.
Defined.
