(* ===== verification/Worker.v ===== *)
(** * Worker: a node executes one assignment (node/worker.go)

    [RunOnce] claims an assignment, prepares it, runs its executor and reports
    how it ended.  The executor is given as the program of what it does through
    its [Execution]: [Work] is a tree of events, capability calls, questions
    and operations on files that ends in a result; what it does when its context is cancelled is part of
    that program.  The lease keeper is a loop of its own ([keepLease]); to
    [RunOnce] it is the answer it stops with.  What other clients of the control
    plane do in between shows in the answers of the control plane, which is any
    implementation of the interface.  The workspace and the capability provider
    work on the files and have no access to the control plane. *)

From S2P Require Import Prelude GoStrings Json Types Event Fs Capability Instructions Outbox.

(** What an executor does: calls of the operating system on the files of the
    node besides.  A question also says for how many polls its context lasts. *)
Inductive Work :=
  | Return (r : Res Result)
  | Emit (eventType : string) (data : Any) (k : Work)
  | Invoke (call : CapabilityCall) (k : Res CapabilityResult → Work)
  | Ask (request : InteractionRequest) (polls : nat) (k : Res (option Json) → Work)
  | Files (m : M FS string) (k : Res string → Work).

Record Execution := mkExecution {
  ex_RunID : string; ex_AttemptID : string; ex_AgentID : string; ex_Runtime : RuntimeRequirement;
  ex_Source : Source; ex_Input : Input; ex_Context : list ContextItem;
  ex_Instructions : CompiledInstructions; ex_WorkDir : string }.

Section worker.
Context `{Host} `{Encoder} `{Faults} `{Durations} {X : Type} `{ControlPlane X} `{RecordCodec}.
Abbreviation MN := (M (NodeState X)).

(** A [binding.Registry]: its inventory and its provider. *)
Record Bindings := mkBindings {
  bn_Inventory : list Capability;
  bn_Execute : CapabilityRequest → M FS (option Json) }.

Record Worker := mkWorker {
  wk_Registration : NodeRegistration;
  wk_ControlPlane : bool;  (* not nil *)
  wk_Bindings : option Bindings;
  wk_Executors : option (string → option (Execution → Work));
  wk_Compiler : option (Input → InstructionBundle → Res CompiledInstructions);
  wk_Workspaces : option (string → string → WorkspaceSpec → M FS (string * M FS ()));
  wk_Outbox : option Outbox }.

Definition Register (w : Worker) : MN Node :=
  if negb (wk_ControlPlane w) then raise (errors_New "relay node: control plane is required")
  else
    let registration :=
      match wk_Bindings w with
      | Some bindings => (wk_Registration w) <| reg_Capabilities := bn_Inventory bindings |>
      | None => wk_Registration w
      end in
    on_cp (cp_RegisterNode registration).

(** ** The lease keeper *)
Definition keep_wait (remaining : Z) : Z :=
  let wait := Z.quot remaining 3 in
  let wait := if (wait >? 5 * second)%Z then (5 * second)%Z else wait in
  if (wait <? 10 * millisecond)%Z then (10 * millisecond)%Z else wait.

(** Whether the execution is cancelled, and the error returned; [rounds] is the
    number of waits the keeper's context lasts. *)
Fixpoint keepLease (rounds : nat) (a : Assignment) (now deadline : Z) : M X (bool * option Error) :=
  let remaining := (deadline - now)%Z in
  if (remaining <=? 0)%Z then mret (true, Some (sentinel ErrLeaseLost))
  else
    match rounds with
    | O => mret (false, None)
    | S rounds =>
        r ← try (cp_Renew a);
        passed ← host (λ n, (took_at n, ctx_done_at n));
        let '(spent, ended) := (passed : Z * bool) in
        let now := (now + keep_wait remaining + spent)%Z in
        match r with
        | Ok update =>
            if lu_CancelRequested update
            then mret (true, Some (wrapf ErrRunCancelled (lu_CancelReason update)))
            else keepLease rounds a now (lu_LeaseExpiresAt update)
        | Err err =>
            if ended then mret (false, None)
            else if errors_Is err ErrInvalidLease || errors_Is err ErrInvalidTransition || errors_Is err ErrNotFound
            then mret (true, Some (wrapf ErrLeaseLost (err_msg err)))
            else if (now <? deadline)%Z then keepLease rounds a now deadline
            else mret (true, Some (wrapf ErrLeaseLost (err_msg err)))
        end
    end.

(** ** Questions *)
Fixpoint poll (polls : nat) (a : Assignment) (id : string) : M X (option Json) :=
  match polls with
  | O => raise (sentinel ErrContextDone)
  | S polls =>
      value ← cp_GetInteraction a id;
      if ia_State value =s "resolved" then mret (ia_Response value) else poll polls a (ia_ID value)
  end.

(** [interactionBroker.Request] *)
Definition Request_ (polls : nat) (a : Assignment) (request : InteractionRequest) : M X (option Json) :=
  value ← cp_CreateInteraction a request;
  poll polls a (ia_ID value).

(** ** The execution *)

(** The node beside the variables of [emit]. *)
Record Emitting := mkEmitting { xe_node : NodeState X; xe_eventErr : option Error; xe_sequence : Z }.
Abbreviation MX := (M Emitting).

Definition on_node {A} (m : MN A) : MX A := λ w,
  let '(r, w') := m (mkWorld (w_tick w) (xe_node (w_st w))) in
  (r, mkWorld (w_tick w') (mkEmitting (w_st w') (xe_eventErr (w_st w)) (xe_sequence (w_st w)))).

Definition emit (w : Worker) (a : Assignment) (eventType : string) (data : Any) : MX () :=
  s ← gets id;
  match xe_eventErr s with
  | Some _ => mret ()
  | None =>
      let sequence := (xe_sequence s + 1)%Z in
      modify (λ s, mkEmitting (xe_node s) (xe_eventErr s) sequence) ;;
      r ← try (on_node match wk_Outbox w with
                       | Some o => deliver o a (pretty sequence) eventType data
                       | None => deliverEvent a (pretty sequence) eventType data
                       end);
      match r with
      | Ok _ => mret ()
      | Err err =>
          let err := wrap_text ("relay node: deliver event " +:+ eventType +:+ ": ") err in
          modify (λ s, mkEmitting (xe_node s) (Some err) (xe_sequence s))
      end
  end.

(** The fields the struct literal leaves out have their zero values. *)
Definition node_run (w : Worker) (a : Assignment) : Run :=
  mkRun (asg_RunID a) "" "" "" (req_AgentID (asg_Request a)) "" (req_Runtime (asg_Request a))
    (req_Source (asg_Request a)) RunQueued
    (mkAttempt (asg_AttemptID a) 0 (reg_ID (wk_Registration w)) "" None None AttemptQueued None None)
    None "" 0 None None None None "" None.

Definition invoker (w : Worker) (a : Assignment) : scopedCapabilities Emitting * gmap string capabilityCallState :=
  NewCapabilityInvoker (node_run w a) (req_Principal (asg_Request a)) (req_Capabilities (asg_Request a))
    (match wk_Bindings w with
     | Some bindings => Some (λ request, on_node (on_files (bn_Execute bindings request)))
     | None => None
     end)
    (Some (emit w a))
    (Some (λ key hash request, on_node (on_cp (cp_ReserveCapability a key hash request))))
    (Some (λ reservation result cause, on_node (on_cp (cp_FinishCapability a reservation result cause)))).

Fixpoint behave (w : Worker) (inv : scopedCapabilities Emitting) (a : Assignment) (b : Work)
    : M (gmap string capabilityCallState * Emitting) Result :=
  match b with
  | Return r => lift_res r
  | Emit eventType data k => on_env (emit w a eventType data) ;; behave w inv a k
  | Invoke call k => r ← try (Call inv call); behave w inv a (k r)
  | Ask request polls k =>
      r ← try (on_env (on_node (on_cp (Request_ polls a request)))); behave w inv a (k r)
  | Files m k => r ← try (on_env (on_node (on_files m))); behave w inv a (k r)
  end.

(** [errors.Join(executionErr, eventErr)] *)
Definition join_execution (r : Res Result) (eventErr : option Error) : Res Result :=
  match r, eventErr with
  | r, None => r
  | Ok _, Some e => Err e
  | Err e1, Some e2 => Err (errors_Join e1 e2)
  end.

Definition execute_work (w : Worker) (a : Assignment) (b : Work) : MN (Res Result) := λ world,
  let '(inv, calls) := invoker w a in
  let '(r, world') := behave w inv a b (mkWorld (w_tick world) (calls, mkEmitting (w_st world) None 0)) in
  (Ok (join_execution r (xe_eventErr (w_st world').2)),
   mkWorld (w_tick world') (xe_node (w_st world').2)).

Definition cancelledRun (a : Assignment) : Run :=
  mkRun (asg_RunID a) "" "" "" (req_AgentID (asg_Request a)) "" (req_Runtime (asg_Request a))
    (req_Source (asg_Request a)) RunCancelled
    (mkAttempt (asg_AttemptID a) 0 "" "" None None AttemptCancelled None None)
    None "" 0 None None None None "" None.
Definition succeededRun (a : Assignment) (result : Result) : Run :=
  mkRun (asg_RunID a) "" "" "" (req_AgentID (asg_Request a)) "" (req_Runtime (asg_Request a))
    (req_Source (asg_Request a)) RunSucceeded zero (Some result) "" 0 None None None None "" None.

(** [errors.Join] of errors that may be nil. *)
Definition join_opt (e1 e2 : option Error) : option Error :=
  match e1, e2 with
  | Some e1, Some e2 => Some (errors_Join e1 e2)
  | Some e, None | None, Some e => Some e
  | None, None => None
  end.
Definition res_err {A} (r : Res A) : option Error := match r with Ok _ => None | Err e => Some e end.
Definition is_cancelled (e : option Error) : bool :=
  match e with Some e => errors_Is e ErrRunCancelled | None => false end.

(** The common end of [failRun] and of the completion: the acknowledgement of a
    cancellation ([cause] is what is joined before the reports). *)
Definition acknowledge (a : Assignment) (reported : option Error) : MN Run :=
  r ← try (on_cp (cp_AcknowledgeCancellation a));
  match r with
  | Err err =>
      if negb (errors_Is err ErrInvalidTransition)
      then raise (default err (join_opt reported (Some err)))
      else mret (cancelledRun a)
  | Ok _ => mret (cancelledRun a)
  end.

Definition failRun (a : Assignment) (keeper : nat → option Error) (cause : Error) : MN Run :=
  reportErr ← try (retryFinalReport (on_cp (cp_Fail a (err_msg cause))));
  leaseErr ← host keeper;
  if is_cancelled (res_err reportErr) || is_cancelled leaseErr
  then acknowledge a (join_opt (Some cause) (join_opt (res_err reportErr) leaseErr))
  else if is_ok reportErr then raise cause
  else raise (default cause (join_opt (Some cause) (join_opt (res_err reportErr) leaseErr))).

Definition completeRun (a : Assignment) (keeper : nat → option Error) (result : Result) : MN Run :=
  completeErr ← try (retryFinalReport (on_cp (cp_Complete a result)));
  leaseErr ← host keeper;
  if is_cancelled (res_err completeErr) || is_cancelled leaseErr
  then acknowledge a (join_opt (res_err completeErr) leaseErr)
  else match completeErr with
       | Err err => raise (default err (join_opt (Some err) leaseErr))
       | Ok _ => mret (succeededRun a result)
       end.

(** The artifacts with a reference are uploaded and replaced by their records. *)
Fixpoint upload_all (a : Assignment) (artifacts : list Artifact) : MN (list Artifact) :=
  match artifacts with
  | [] => mret []
  | artifact :: artifacts =>
      if art_Ref artifact =s "" then rest ← upload_all a artifacts; mret (artifact :: rest)
      else
        content ← on_files (os_ReadFile (art_Ref artifact));
        uploaded ← on_cp (cp_UploadArtifact a artifact content);
        rest ← upload_all a artifacts;
        mret (uploaded :: rest)
  end.

Definition fail_early {A} (a : Assignment) (cause : Error) : MN A :=
  try (on_cp (cp_Fail a (err_msg cause))) ;; raise cause.

Definition prepare_workspace (w : Worker) (a : Assignment) : MN (string * M FS ()) :=
  let spec := req_Workspace (asg_Request a) in
  if ws_Kind spec =s "" then mret ("", mret ())
  else
    match wk_Workspaces w with
    | None => fail_early a (errors_New "workspace requested but no workspace provider is configured")
    | Some prepare =>
        r ← try (on_files (prepare (asg_RunID a) (asg_AttemptID a) spec));
        match r with
        | Err err => fail_early a err
        | Ok prepared => mret prepared
        end
    end.

Definition node_compile (w : Worker) (a : Assignment) : Res CompiledInstructions :=
  let request := asg_Request a in
  let bundle := req_Instructions request in
  let bundle :=
    if req_Capabilities request is [] then bundle
    else mkBundle (ib_Runtime bundle ++ [CapabilityToolInstruction (req_Capabilities request)])
           (ib_Host bundle) (ib_Workspace bundle) (ib_Agent bundle) (ib_Turn bundle) in
  match wk_Compiler w with
  | Some compile => compile (req_Input request) bundle
  | None => Ok (Compile (req_Input request) bundle)
  end.

(** From the successful start on. *)
Definition run_started (w : Worker) (keeper : nat → option Error) (a : Assignment) (b : Work) : MN Run :=
  executed ← execute_work w a b;
  match (executed : Res Result) with
  | Err cause => failRun a keeper cause
  | Ok result =>
      r ← try (upload_all a (res_Artifacts result));
      match r with
      | Err cause => failRun a keeper cause
      | Ok artifacts => completeRun a keeper (mkResult (res_Summary result) (res_Output result) artifacts)
      end
  end.

Definition run_prepared (w : Worker) (keeper : nat → option Error) (a : Assignment)
    (executor : Execution → Work) (workDir : string) : MN Run :=
  match node_compile w a with
  | Err err => fail_early a err
  | Ok compiled =>
      let request := asg_Request a in
      started ← try (on_cp (cp_Start a));
      match started with
      | Err err =>
          if errors_Is err ErrRunCancelled
          then on_cp (cp_AcknowledgeCancellation a) ;; mret (cancelledRun a)
          else raise err
      | Ok _ =>
          run_started w keeper a
            (executor (mkExecution (asg_RunID a) (asg_AttemptID a) (req_AgentID request) (req_Runtime request)
                         (req_Source request) (req_Input request) (req_Context request) compiled workDir))
      end
  end.

(** [keeper n] is what [keepLease] returned if it was stopped at the n-th moment. *)
Definition RunOnce (w : Worker) (keeper : nat → option Error) : MN Run :=
  match wk_ControlPlane w, wk_Executors w with
  | true, Some executors =>
      a ← on_cp (cp_Claim (reg_ID (wk_Registration w)));
      let provider := rr_Provider (req_Runtime (asg_Request a)) in
      match executors provider with
      | None => fail_early a (errors_New ("runtime provider " +:+ fmt_quote provider +:+ " is unavailable"))
      | Some executor =>
          prepared ← prepare_workspace w a;
          r ← try (run_prepared w keeper a executor prepared.1);
          try (on_files prepared.2) ;;
          lift_res r
      end
  | _, _ => raise (errors_New "relay node: control plane and executors are required")
  end.
End worker.
