(* ===== verification/WorkerProps.v ===== *)
(** * WorkerProps: what the control plane sees of an execution *)

From S2P Require Import Prelude GoStrings Json Types Demo Event Fs Capability Instructions Outbox NodeDemo OutboxProps Worker.

(** ** A control plane that keeps a record of its calls *)
Inductive CpCall :=
  | CkRegister | CkClaim | CkStart | CkRenew | CkEvent | CkComplete | CkFail | CkAcknowledge
  | CkUpload | CkReserve | CkFinish | CkCreate | CkGet.

(** The calls and whether they were accepted. *)
Abbreviation Calls := (list (CpCall * bool)).

Definition note {X A} (c : CpCall) (m : M X A) : M (Calls * X) A := λ w,
  let '(r, w') := m (mkWorld (w_tick w) (w_st w).2) in
  (r, mkWorld (w_tick w') ((w_st w).1 ++ [(c, is_ok r)], w_st w')).

#[export] Instance noted {X} `{ControlPlane X} : ControlPlane (Calls * X) := {|
  cp_RegisterNode reg := note CkRegister (cp_RegisterNode reg);
  cp_Claim node := note CkClaim (cp_Claim node);
  cp_Start a := note CkStart (cp_Start a);
  cp_Renew a := note CkRenew (cp_Renew a);
  cp_AppendEvent run attempt token kind data ids := note CkEvent (cp_AppendEvent run attempt token kind data ids);
  cp_Complete a r := note CkComplete (cp_Complete a r);
  cp_Fail a cause := note CkFail (cp_Fail a cause);
  cp_AcknowledgeCancellation a := note CkAcknowledge (cp_AcknowledgeCancellation a);
  cp_UploadArtifact a artifact content := note CkUpload (cp_UploadArtifact a artifact content);
  cp_ReserveCapability a key hash r := note CkReserve (cp_ReserveCapability a key hash r);
  cp_FinishCapability a rsv r cause := note CkFinish (cp_FinishCapability a rsv r cause);
  cp_CreateInteraction a r := note CkCreate (cp_CreateInteraction a r);
  cp_GetInteraction a id := note CkGet (cp_GetInteraction a id)
|}.

(** The calls an executor causes. *)
Definition working (c : CpCall * bool) : Prop :=
  c.1 = CkEvent ∨ c.1 = CkReserve ∨ c.1 = CkFinish ∨ c.1 = CkCreate ∨ c.1 = CkGet.

Section trace.
Context {X : Type} `{ControlPlane X}.
Abbreviation LX := (Calls * X)%type.
Abbreviation Node := (NodeState LX).

Definition trace (s : Node) : Calls := (nd_cp s).1.

(** [m] makes the calls [l] with [P r l], where [r] is what it returns. *)
Definition makes {A} (m : M Node A) (P : Res A → Calls → Prop) : Prop :=
  ∀ w, ∃ l, trace (w_st (m w).2) = trace (w_st w) ++ l ∧ P (m w).1 l.

Lemma makes_mono {A} (m : M Node A) (P Q : Res A → Calls → Prop) :
  makes m P → (∀ r l, P r l → Q r l) → makes m Q.
Proof. intros Hm HPQ w. destruct (Hm w) as (l & Hl & Hp). eauto. Qed.

Lemma makes_bind {A B} (m : M Node A) (k : A → M Node B) P (Q : A → Res B → Calls → Prop) (R : Res B → Calls → Prop) :
  makes m P → (∀ a, makes (k a) (Q a)) →
  (∀ a l1 r l2, P (Ok a) l1 → Q a r l2 → R r (l1 ++ l2)) →
  (∀ e l, P (Err e) l → R (Err e) l) →
  makes (m ≫= k) R.
Proof.
  intros Hm Hk Hok Herr w. destruct (Hm w) as (l1 & Hl1 & Hp). unfold mbind, M_bind.
  destruct (m w) as [[a|e] w1]; simpl in *; [|eauto].
  destruct (Hk a w1) as (l2 & Hl2 & Hq). exists (l1 ++ l2). rewrite Hl2, Hl1, app_assoc. eauto.
Qed.

(** A prefix that makes no call. *)
Lemma makes_silent {A B} (m : M Node A) (k : A → M Node B) (R : Res B → Calls → Prop) :
  makes m (λ _ l, l = []) → (∀ a, makes (k a) R) → (∀ e, R (Err e) []) → makes (m ≫= k) R.
Proof.
  intros Hm Hk Herr. eapply makes_bind; [exact Hm|exact Hk| |].
  - by intros a l1 r l2 -> Hr.
  - by intros e l ->.
Qed.

(** A first call. *)
Lemma makes_first {A B} (c : CpCall) (m : M Node A) (k : A → M Node B) (Q : A → Res B → Calls → Prop)
    (R : Res B → Calls → Prop) :
  makes m (λ r l, l = [(c, is_ok r)]) → (∀ a, makes (k a) (Q a)) →
  (∀ a r l, Q a r l → R r ((c, true) :: l)) → (∀ e, R (Err e) [(c, false)]) → makes (m ≫= k) R.
Proof.
  intros Hm Hk Hok Herr. eapply makes_bind; [exact Hm|exact Hk| |].
  - intros a l1 r l2 -> Hq. by apply (Hok a).
  - by intros e l ->.
Qed.

Lemma makes_try {A} (m : M Node A) (P : Res A → Calls → Prop) :
  makes m P → makes (try m) (λ r l, ∃ a, r = Ok a ∧ P a l).
Proof.
  intros Hm w. destruct (Hm w) as (l & Hl & Hp). exists l. unfold try. destruct (m w) as [r w1]. eauto.
Qed.
Lemma makes_try_first {A} c (m : M Node A) :
  makes m (λ r l, l = [(c, is_ok r)]) → makes (try m) (λ r l, ∃ a, r = Ok a ∧ l = [(c, is_ok a)]).
Proof. apply makes_try. Qed.

Lemma makes_lift_res {A} (r : Res A) (P : Res A → Calls → Prop) : P r [] → makes (lift_res r) P.
Proof. intros Hp w. exists []. by rewrite app_nil_r. Qed.
Lemma makes_ret {A} (a : A) (P : Res A → Calls → Prop) : P (Ok a) [] → makes (mret a) P.
Proof. apply (makes_lift_res (Ok a)). Qed.
Lemma makes_raise {A} e (P : Res A → Calls → Prop) : P (Err e) [] → makes (raise e) P.
Proof. apply (makes_lift_res (Err e)). Qed.
Lemma makes_host {A B} (f : nat → A) (k : A → M Node B) (R : Res B → Calls → Prop) :
  (∀ a, makes (k a) R) → makes (host f ≫= k) R.
Proof. intros Hk w. apply (Hk (f (w_tick w)) (mkWorld (w_tick w + 1) (w_st w))). Qed.
Lemma makes_files {A} (m : M FS A) : makes (on_files m) (λ _ l, l = []).
Proof. intros w. exists []. unfold on_files. destruct (m _). by rewrite app_nil_r. Qed.
Lemma makes_note {A} c (m : M X A) : makes (on_cp (note c m)) (λ r l, l = [(c, is_ok r)]).
Proof. intros w. unfold on_cp, note. destruct (m _) as [r w1]. by eexists. Qed.

(** A retried call: refused, and refused again, until its last answer. *)
Lemma makes_retry `{DurationLaws} n text limit elapsed delay c (call : M Node ()) :
  ends_within n limit elapsed delay → makes call (λ r l, l = [(c, is_ok r)]) →
  makes (retry n text limit elapsed delay call)
    (λ r l, ∃ k, k < n ∧ l = repeat (c, false) k ++ [(c, is_ok r)]).
Proof.
  intros Hends Hc. revert elapsed delay Hends. induction n as [|n IH]; intros elapsed delay Hends w; [done|].
  simpl. unfold mbind, M_bind, try, host. destruct (Hc w) as (l & Hl & Hlast). destruct (call w) as [r w1].
  simpl in *. destruct r as [[]|err]; [exists l; split; [done|]; exists 0; split; [lia|done]|].
  destruct (staleEvent err); [exists l; split; [done|]; exists 0; split; [lia|done]|].
  destruct (ctx_done_at (w_tick w1)); [exists l; split; [done|]; exists 0; split; [lia|done]|].
  pose proof (took_nonneg (w_tick w1)).
  destruct (Z.leb_spec limit (elapsed + took_at (w_tick w1) + delay));
    [exists l; split; [done|]; exists 0; split; [lia|done]|].
  destruct (IH (elapsed + took_at (w_tick w1) + delay)%Z (next_delay delay)) with
    (w := mkWorld (w_tick w1 + 1) (w_st w1)) as (l' & Hl' & k & Hk & Hlast').
  { destruct Hends as [He|He]; [lia|]. eapply ends_within_later; [|exact He]. lia. }
  exists (l ++ l'). simpl in Hl'. rewrite Hl', Hl, app_assoc. split; [done|].
  exists (Datatypes.S k). split; [lia|]. by rewrite Hlast, Hlast'.
Qed.
End trace.

(** ** A capability call does no more than its callbacks *)
(** The events of calls. *)
Definition call_event (ty : string) : Prop := ty ∈ ["capability.started"; "capability.failed"; "capability.succeeded"].
#[local] Hint Extern 0 (call_event _) => apply (bool_decide_unpack _); exact I : relay.

Section capability.
Context `{Host} `{Encoder} {X : Type} (R : relation (World X)) `{!PreOrder R} `{!Ticking R} (s : scopedCapabilities X).

Record callbacks_step : Prop := {
  cb_provider : ∀ provider r, sc_provider s = Some provider → steps R (provider r);
  cb_emit : ∀ ty data, call_event ty → steps R (sc_emit s ty data);
  cb_reserve : ∀ reserve key hash r, sc_reserve s = Some reserve → steps R (reserve key hash r);
  cb_finish : ∀ finish rsv r cause, sc_finish s = Some finish → steps R (finish rsv r cause) }.

Lemma call_execute_steps provider call request reservation :
  callbacks_step → (∀ r, steps R (provider r)) →
  steps R (call_execute s provider call request reservation).
Proof.
  intros [_ Hemit _ Hfin] Hprov. unfold call_execute.
  apply steps_bind; [apply _|apply Hemit; auto with relay|]. intros _.
  apply steps_bind; [apply _|by apply steps_try|]. intros [output|err].
  - destruct (sc_finish s) as [finish|]; [|apply steps_ret, _].
    apply steps_bind; [apply _|by eapply steps_try, Hfin|]. intros [[]|err]; apply steps_ret, _.
  - apply steps_bind; [apply _| |].
    + destruct (sc_finish s) as [finish|]; [|apply steps_ret, _].
      apply steps_bind; [apply _|by eapply steps_try, Hfin|]. intros _. apply steps_ret, _.
    + intros _. apply steps_bind; [apply _|apply Hemit; auto with relay|]. intros _. apply steps_ret, _.
Qed.

Lemma call_work_steps call grant : callbacks_step → steps R (call_work s call grant).
Proof.
  intros Hcb. unfold call_work. destruct (sc_provider s) as [provider|] eqn:Hp; [|apply steps_ret, _].
  assert (Hprov : ∀ r, steps R (provider r)) by (intros r; by eapply cb_provider).
  unfold newControlPlaneID. apply steps_bind; [apply _|apply steps_host, _|]. intros id.
  destruct (sc_reserve s) as [reserve|] eqn:Hr; [|by apply call_execute_steps].
  apply steps_bind; [apply _|by eapply steps_try, cb_reserve|]. intros [rsv|err]; [|apply steps_ret, _].
  destruct (negb _); [apply steps_ret, _|by apply call_execute_steps].
Qed.

Definition announces (worked : Worked) : Prop := match wk_announce worked with Some (ty, _) => call_event ty | None => True end.
Lemma call_execute_announces provider call request reservation :
  returns announces (call_execute s provider call request reservation).
Proof.
  unfold call_execute. apply returns_bind. intros _. apply returns_bind. intros [output|err].
  - destruct (sc_finish s) as [finish|]; [|apply returns_ret; unfold announces; cbn; auto with relay].
    apply returns_bind. intros [[]|err]; apply returns_ret; unfold announces; cbn; auto with relay.
  - apply returns_bind. intros _. apply returns_bind. intros _. by apply returns_ret.
Qed.
Lemma call_work_announces call grant : returns announces (call_work s call grant).
Proof.
  unfold call_work. destruct (sc_provider s) as [provider|]; [|by apply returns_ret]. apply returns_bind. intros id.
  destruct (sc_reserve s) as [reserve|]; [|apply call_execute_announces].
  apply returns_bind. intros [rsv|err]; [|by apply returns_ret].
  destruct (negb _); [by apply returns_ret|apply call_execute_announces].
Qed.

(** The callbacks' state beside another. *)
Definition beside {C} : relation (World (C * X)) := λ p q,
  R (mkWorld (w_tick p) (w_st p).2) (mkWorld (w_tick q) (w_st q).2).
#[local] Instance beside_preorder {C} : PreOrder (beside (C := C)).
Proof. split; [intros x; unfold beside; reflexivity|]. intros x y z. unfold beside. apply transitivity. Qed.
#[local] Instance beside_ticking {C} : Ticking (beside (C := C)).
Proof. intros w k. apply (ticking (mkWorld (w_tick w) (w_st w).2)). Qed.

Lemma on_env_steps {C A} (m : M X A) : steps R m → steps beside (on_env (C := C) m).
Proof.
  intros Hm w. unfold on_env, beside. specialize (Hm (mkWorld (w_tick w) (w_st w).2)).
  destruct (m _) as [r [t x]]. exact Hm.
Qed.

Lemma on_env_returns {C A} (P : A → Prop) (m : M X A) : returns P m → returns P (on_env (C := C) (X := X) m).
Proof. intros Hm w. unfold on_env. specialize (Hm (mkWorld (w_tick w) (w_st w).2)). by destruct (m _) as [r [t x]]. Qed.

Lemma Call_steps call : callbacks_step → steps beside (Call s call).
Proof.
  intros Hcb. unfold Call.
  assert (Hcalls : ∀ A (f : gmap string capabilityCallState → A * _), steps beside (on_calls f)).
  { intros A f w. unfold on_calls, beside. destruct (f _). simpl. reflexivity. }
  apply steps_bind; [apply _|apply Hcalls|]. intros [r|key|key grant].
  - apply steps_lift_res, _.
  - apply steps_bind; [apply _|apply steps_gets, _|]. intros calls.
    destruct (_ ≫= _) as [outcome|]; [apply steps_lift_res, _|apply steps_raise, _].
  - apply (steps_bind_returns _ announces); [by apply on_env_steps, call_work_steps|apply on_env_returns, call_work_announces|].
    intros worked Hw. unfold announces in Hw.
    apply steps_bind; [apply _|apply Hcalls|]. intros _.
    apply steps_bind; [apply _| |intros _; apply steps_lift_res, _].
    apply on_env_steps. unfold call_announce. destruct (wk_announce worked) as [[ty data]|]; [|apply steps_ret, _].
    by apply cb_emit.
Qed.
End capability.

(** ** Execution makes the calls of an executor *)
Section work.
Context `{Host} `{Encoder} `{Faults} `{DurationLaws} {X : Type} `{ControlPlane X} `{RecordCodec}.
Abbreviation LX := (Calls * X)%type.

Definition worked : relation (NodeState LX) := λ s s', ∃ l, trace s' = trace s ++ l ∧ Forall working l.
#[local] Instance worked_preorder : PreOrder worked.
Proof.
  split; [intros s; exists []; by rewrite app_nil_r|]. intros s1 s2 s3 (l1 & E1 & W1) (l2 & E2 & W2).
  exists (l1 ++ l2). rewrite E2, E1, app_assoc. split; [done|by apply Forall_app].
Qed.

Lemma worked_note {A} c (m : M X A) : (∀ b, working (c, b)) → respects worked (on_cp (note c m)).
Proof. intros Hc w. destruct (makes_note c m w) as (l & Hl & ->). eexists. split; [exact Hl|]. by constructor. Qed.
Lemma worked_files {A} (m : M FS A) : respects worked (on_files m).
Proof. intros w. exists []. destruct (makes_files m w) as (l & Hl & ->). done. Qed.

Lemma worked_deliverEvent a id kind data : respects worked (deliverEvent a id kind data).
Proof.
  unfold deliverEvent. apply respects_bind; [apply _|apply respects_lift_res, _|]. intros payload.
  destruct (longer _ _); [apply respects_raise, _|]. apply retry_respects; [apply _|].
  apply worked_note. intros b. by left.
Qed.
Lemma worked_save o a id kind data : respects worked (save o a id kind data).
Proof.
  unfold save. apply respects_bind; [apply _|apply respects_lift_res, _|]. intros payload.
  destruct (longer _ _); [apply respects_raise, _|]. destruct (longer _ _); [apply respects_raise, _|].
  apply respects_bind; [apply _|apply worked_files|]. intros _.
  apply respects_bind; [apply _|apply worked_files|]. intros names.
  apply respects_bind; [apply _|apply worked_files|]. intros used.
  destruct (_ <? used)%Z; [apply respects_raise, _|].
  apply respects_bind; [apply _|apply respects_try, worked_files|]. intros [[]|err]; [apply respects_raise, _|].
  destruct (errors_Is _ _); [apply worked_files|apply respects_raise, _].
Qed.
Lemma worked_deliver o a id kind data : respects worked (deliver o a id kind data).
Proof.
  unfold deliver. apply respects_bind; [apply _|apply respects_lift_res, _|]. intros payload.
  apply respects_bind; [apply _|apply worked_save|]. intros path.
  apply respects_bind; [apply _|apply worked_deliverEvent|]. intros _. apply worked_files.
Qed.

Definition worked_x : relation (Emitting (X := LX)) := λ s s', worked (xe_node s) (xe_node s').
#[local] Instance worked_x_preorder : PreOrder worked_x.
Proof. split; [intros s; unfold worked_x; reflexivity|]. intros s1 s2 s3. unfold worked_x. apply transitivity. Qed.

Lemma worked_on_node {A} (m : M (NodeState LX) A) : respects worked m → respects worked_x (on_node m).
Proof. intros Hm w. unfold on_node. specialize (Hm (mkWorld (w_tick w) (xe_node (w_st w)))). by destruct (m _). Qed.

Lemma worked_emit wk a ty data : respects worked_x (emit wk a ty data).
Proof.
  unfold emit. apply respects_bind; [apply _|apply respects_gets, _|]. intros s.
  destruct (xe_eventErr s); [apply respects_ret, _|].
  assert (Hmod : ∀ f : Emitting (X := LX) → Emitting (X := LX), (∀ s, xe_node (f s) = xe_node s) → respects worked_x (modify f)).
  { intros f Hf w. unfold worked_x. simpl. rewrite Hf. reflexivity. }
  apply respects_bind; [apply _|by apply Hmod|]. intros _.
  apply respects_bind; [apply _|apply respects_try, worked_on_node|].
  - destruct (wk_Outbox wk); [apply worked_deliver|apply worked_deliverEvent].
  - intros [[]|err]; [apply respects_ret, _|by apply Hmod].
Qed.

(** The same of worlds, whatever the time. *)
Definition worked_w : relation (World (Emitting (X := LX))) := λ w w', worked_x (w_st w) (w_st w').
#[local] Instance worked_w_preorder : PreOrder worked_w.
Proof. split; [intros w; unfold worked_w; reflexivity|]. intros w1 w2 w3. unfold worked_w. apply transitivity. Qed.
#[local] Instance worked_w_ticking : Ticking worked_w.
Proof. intros w k. unfold worked_w. reflexivity. Qed.

Lemma invoker_steps wk a : callbacks_step worked_w (invoker wk a).1.
Proof.
  constructor; simpl.
  - intros provider r. destruct (wk_Bindings wk) as [bindings|]; [|done]. intros [= <-].
    apply worked_on_node, worked_files.
  - intros ty data _. apply worked_emit.
  - intros reserve key hash r [= <-]. apply worked_on_node, worked_note. intros b. unfold working. tauto.
  - intros finish rsv r cause [= <-]. apply worked_on_node, worked_note. intros b. unfold working. tauto.
Qed.

Lemma worked_Request polls a request : respects worked (on_cp (Request_ (X := LX) polls a request)).
Proof.
  intros w. unfold on_cp.
  assert (Hp : ∀ polls id (w : World LX), ∃ l, (w_st (poll polls a id w).2).1 = (w_st w).1 ++ l ∧ Forall working l).
  { clear polls. induction polls as [|polls IH]; intros id v; simpl; [exists []; by rewrite app_nil_r|].
    unfold mbind, M_bind, note. destruct (cp_GetInteraction a id _) as [[value|e] v1]; simpl.
    - destruct (ia_State value =s "resolved"); simpl.
      + eexists. split; [done|]. constructor; [unfold working; tauto|constructor].
      + destruct (IH (ia_ID value) (mkWorld (w_tick v1) ((w_st v).1 ++ [(CkGet, true)], w_st v1))) as (l & Hl & Hw).
        exists ((CkGet, true) :: l). rewrite Hl. simpl. rewrite <- app_assoc. split; [done|].
        constructor; [unfold working; tauto|done].
    - eexists. split; [done|]. constructor; [unfold working; tauto|constructor]. }
  unfold worked, trace, Request_, mbind, M_bind. simpl. unfold note. simpl.
  destruct (cp_CreateInteraction a request _) as [[value|e] v1]; simpl.
  - destruct (Hp polls (ia_ID value) (mkWorld (w_tick v1) ((nd_cp (w_st w)).1 ++ [(CkCreate, true)], w_st v1)))
      as (l & Hl & Hw). destruct (poll _ _ _ _) as [r v2]. simpl in *.
    exists ((CkCreate, true) :: l). rewrite Hl, <- app_assoc. split; [done|].
    constructor; [unfold working; tauto|done].
  - eexists. split; [done|]. constructor; [unfold working; tauto|constructor].
Qed.

Lemma behave_steps wk inv a b :
  callbacks_step worked_w inv → steps (beside worked_w) (behave wk inv a b).
Proof.
  intros Hcb. pose proof (beside_preorder worked_w (C := gmap string capabilityCallState)) as Hpre.
  induction b as [r|ty data k IH|call k IH|request polls k IH|m k IH]; simpl.
  - by apply steps_lift_res.
  - apply steps_bind; [done|apply on_env_steps, worked_emit|done].
  - apply steps_bind; [done|apply steps_try, Call_steps; first [exact Hcb|apply _]|done].
  - apply steps_bind; [done|apply steps_try, on_env_steps, worked_on_node, worked_Request|done].
  - apply steps_bind; [done|apply steps_try, on_env_steps, worked_on_node, worked_files|done].
Qed.

Lemma execute_work_makes wk a b : makes (execute_work wk a b) (λ r l, is_ok r = true ∧ Forall working l).
Proof.
  intros w. unfold execute_work. pose proof (invoker_steps wk a) as Hinv.
  destruct (invoker wk a) as [inv calls]. simpl in Hinv.
  destruct (behave_steps wk inv a b Hinv (mkWorld (w_tick w) (calls, mkEmitting (w_st w) None 0))) as (l & Hl & Hw).
  destruct (behave _ _ _ _ _) as [r w1]. exists l. simpl in *. auto.
Qed.
End work.

(** ** The order of the reports *)

(** How an execution ends after its last report: [kind] says which report was
    made and [accepted] how its last repetition went. *)
Inductive closing (kind : CpCall) (accepted : bool) : Res Run → Calls → Prop :=
  | cl_completed run :
      kind = CkComplete → accepted = true → run_Status run = RunSucceeded → closing kind accepted (Ok run) []
  | cl_failed e : kind = CkFail ∨ accepted = false → closing kind accepted (Err e) []
  | cl_cancelled r b :
      (∀ run, r = Ok run → run_Status run = RunCancelled) → closing kind accepted r [(CkAcknowledge, b)].

(** The calls of an execution with its result. *)
Inductive history : Res Run → Calls → Prop :=
  | hi_unconfigured e : history (Err e) []
  | hi_no_claim e : history (Err e) [(CkClaim, false)]
  | hi_refused e b : history (Err e) [(CkClaim, true); (CkFail, b)]
  | hi_not_started e : history (Err e) [(CkClaim, true); (CkStart, false)]
  | hi_cancelled r b :
      (∀ run, r = Ok run → b = true ∧ run_Status run = RunCancelled) →
      history r [(CkClaim, true); (CkStart, false); (CkAcknowledge, b)]
  | hi_ended r work uploads kind refusals accepted tail :
      Forall working work →
      Forall (λ c, c.1 = CkUpload) uploads →
      kind = CkFail ∨ kind = CkComplete ∧ Forall (λ c, c.2 = true) uploads →
      refusals < 10 →
      closing kind accepted r tail →
      history r ((CkClaim, true) :: (CkStart, true) :: work ++ uploads ++
                 repeat (kind, false) refusals ++ (kind, accepted) :: tail).

Section reports.
Context `{Host} `{Encoder} `{Faults} `{DurationLaws} {X : Type} `{ControlPlane X} `{RecordCodec}.
Abbreviation LX := (Calls * X)%type.
Abbreviation MN := (M (NodeState LX)).

(** The reports, repeated, and what follows them. *)
Definition reported (kind : CpCall) (r : Res Run) (l : Calls) : Prop :=
  ∃ refusals accepted tail, refusals < 10 ∧ closing kind accepted r tail ∧
    l = repeat (kind, false) refusals ++ (kind, accepted) :: tail.

Lemma acknowledge_makes a e :
  makes (X := X) (acknowledge a e)
    (λ r l, (∀ run, r = Ok run → run_Status run = RunCancelled) ∧ ∃ b, l = [(CkAcknowledge, b)]).
Proof.
  unfold acknowledge. eapply makes_bind; [apply makes_try_first, makes_note| | |by intros e' l (x & [=] & _)].
  - intros r. instantiate (1 := λ r' r'' l, (∀ run, r'' = Ok run → run_Status run = RunCancelled) ∧ l = []).
    destruct r as [[]|err]; [apply makes_ret; split; [by intros run [= <-]|done]|].
    destruct (negb _); [by apply makes_raise|]. apply makes_ret. split; [by intros run [= <-]|done].
  - intros x l1 r l2 (y & [= <-] & ->) [Hr ->]. split; [done|]. rewrite app_nil_r. eauto.
Qed.

Lemma report_makes {A} kind (call : MN ()) (k : Res () → MN A) (Q : Res () → Res A → Calls → Prop) :
  makes call (λ r l, l = [(kind, is_ok r)]) → (∀ r, makes (k r) (Q r)) →
  makes (r ← try (retryFinalReport call); k r)
    (λ r l, ∃ refusals answer tail, refusals < 10 ∧ Q answer r tail ∧
       l = repeat (kind, false) refusals ++ (kind, is_ok answer) :: tail).
Proof.
  intros Hc Hk. eapply makes_bind; [apply makes_try, makes_retry; [apply report_ends|exact Hc]|exact Hk| |].
  - intros x l1 r l2 (y & [= <-] & n & Hn & ->) Hq. exists n, x, l2. unfold report_calls in Hn.
    rewrite <- app_assoc. done.
  - intros e l (y & [=] & _).
Qed.

Lemma failRun_makes a keeper cause : makes (X := X) (failRun a keeper cause) (reported CkFail).
Proof.
  unfold failRun. eapply makes_mono; [eapply report_makes; [apply makes_note|]|].
  - intros r. instantiate (1 := λ _ r' tail, ∀ b, closing CkFail b r' tail). cbn beta.
    apply makes_host. intros leaseErr.
    destruct (_ || _).
    + eapply makes_mono; [apply acknowledge_makes|]. intros r' l [Hr (b & ->)] b'. by constructor.
    + destruct (is_ok r); apply makes_raise; intros b; constructor; auto.
  - intros r l (n & answer & tail & Hn & Hq & ->). exists n, (is_ok answer), tail. auto.
Qed.

Lemma completeRun_makes a keeper result : makes (X := X) (completeRun a keeper result) (reported CkComplete).
Proof.
  unfold completeRun. eapply makes_mono; [eapply report_makes; [apply makes_note|]|].
  - intros r. instantiate (1 := λ answer r' tail, closing CkComplete (is_ok answer) r' tail). cbn beta.
    apply makes_host. intros leaseErr. destruct (_ || _).
    + eapply makes_mono; [apply acknowledge_makes|]. intros r' l [Hr (b & ->)]. by constructor.
    + destruct r as [[]|err]; [apply makes_ret|apply makes_raise]; constructor; auto.
  - intros r l (n & answer & tail & Hn & Hq & ->). exists n, (is_ok answer), tail. auto.
Qed.

(** The uploads, all accepted unless one ended them. *)
Definition uploaded (r : Res (list Artifact)) (l : Calls) : Prop :=
  Forall (λ c, c.1 = CkUpload) l ∧ (is_ok r = true → Forall (λ c, c.2 = true) l).

Lemma upload_all_makes a artifacts : makes (X := X) (upload_all a artifacts) uploaded.
Proof.
  induction artifacts as [|artifact artifacts IH]; simpl; [by apply makes_ret|].
  assert (Hrest : ∀ x, makes (X := X) (rest ← upload_all a artifacts; mret (x :: rest)) uploaded).
  { intros x. eapply makes_bind; [exact IH|intros rest; by apply (makes_ret _ (λ r l, is_ok r = true ∧ l = []))| |].
    - intros rest l1 r l2 [Hup1 Hup2] [_ ->]. rewrite app_nil_r. split; [done|]. intros _. by apply Hup2.
    - intros e l [Hup1 _]. by split. }
  destruct (art_Ref artifact =s ""); [apply Hrest|].
  apply makes_silent; [apply makes_files| |by split; [constructor|]]. intros content.
  eapply makes_first; [apply makes_note|apply Hrest| |].
  - intros x r l [Hup1 Hup2]. split; [by constructor|]. intros Hr. constructor; [done|by apply Hup2].
  - intros e. split; [by repeat constructor|done].
Qed.

(** The calls of a started execution. *)
Definition ended (r : Res Run) (l : Calls) : Prop :=
  ∃ work uploads kind refusals accepted tail,
    Forall working work ∧ Forall (λ c, c.1 = CkUpload) uploads ∧
    (kind = CkFail ∨ kind = CkComplete ∧ Forall (λ c, c.2 = true) uploads) ∧
    refusals < 10 ∧ closing kind accepted r tail ∧
    l = work ++ uploads ++ repeat (kind, false) refusals ++ (kind, accepted) :: tail.

Lemma run_started_makes w keeper a b : makes (run_started w keeper a b) ended.
Proof.
  unfold run_started. eapply makes_bind; [apply execute_work_makes| | |by intros e l [[=] _]].
  - intros executed. instantiate (1 := λ _ r l, ∀ work, Forall working work → ended r (work ++ l)).
    destruct executed as [result|cause]; cbn beta iota.
    + eapply makes_bind; [apply makes_try, upload_all_makes| | |by intros e l (x & [=] & _)].
      * intros r. instantiate (1 := λ r r' l, ∀ work uploads, Forall working work → uploaded r uploads →
                                      ended r' (work ++ uploads ++ l)).
        destruct r as [artifacts|cause]; cbn beta iota.
        -- eapply makes_mono; [apply completeRun_makes|]. intros r l (n & acc & tail & Hn & Hc & ->) work ups Hw [Hup1 Hup2].
           exists work, ups, CkComplete, n, acc, tail. eauto 10.
        -- eapply makes_mono; [apply failRun_makes|]. intros r l (n & acc & tail & Hn & Hc & ->) work ups Hw [Hup1 Hup2].
           exists work, ups, CkFail, n, acc, tail. eauto 10.
      * intros x l1 r l2 (y & [= <-] & Hu) Hq work Hw. by apply Hq.
    + eapply makes_mono; [apply failRun_makes|]. intros r l (n & acc & tail & Hn & Hc & ->) work Hw.
      exists work, [], CkFail, n, acc, tail. eauto 10.
  - intros x l1 r l2 [_ Hw] Hq. by apply Hq.
Qed.

(** What follows a claim. *)
Definition after_claim (r : Res Run) (l : Calls) : Prop := history r ((CkClaim, true) :: l).

Lemma fail_early_makes {A} a cause :
  makes (X := X) (A := A) (fail_early a cause) (λ r l, (∃ e, r = Err e) ∧ ∃ b, l = [(CkFail, b)]).
Proof.
  unfold fail_early. eapply makes_bind; [apply makes_try_first, makes_note| | |by intros e l (x & [=] & _)].
  - intros r. instantiate (1 := λ _ (r : Res A) l, (∃ e, r = Err e) ∧ l = []). apply makes_raise. eauto.
  - intros x l1 r l2 (y & [= <-] & ->) [He ->]. rewrite app_nil_r. eauto.
Qed.

Lemma run_prepared_makes w keeper a executor dir : makes (run_prepared w keeper a executor dir) after_claim.
Proof.
  unfold run_prepared. destruct (node_compile w a) as [compiled|err].
  2: { eapply makes_mono; [apply fail_early_makes|]. intros r l [(e & ->) (b & ->)]. constructor. }
  eapply makes_bind; [apply makes_try_first, makes_note| | |by intros e l (x & [=] & _)].
  - intros started. instantiate (1 := λ started r l, after_claim r ((CkStart, is_ok started) :: l)).
    destruct started as [[]|err]; simpl.
    + eapply makes_mono; [apply run_started_makes|].
      intros r l (work & ups & kind & n & acc & tail & Hw & Hu & Hk & Hn & Hc & ->). by constructor.
    + destruct (errors_Is err ErrRunCancelled); [|apply makes_raise; constructor].
      eapply makes_first; [apply makes_note| | |].
      * intros u. instantiate (1 := λ _ r l, r = Ok (cancelledRun a) ∧ l = []). by apply makes_ret.
      * intros x r l [-> ->]. constructor. by intros run [= <-].
      * intros e. by constructor.
  - intros x l1 r l2 (y & [= <-] & ->). done.
Qed.
End reports.

(** ** The properties *)
Section properties.
Context `{Host} `{Encoder} `{Faults} `{DurationLaws} {X : Type} `{ControlPlane X} `{RecordCodec}.

(** C9: whatever the control plane answers, the calls of one execution come in
    order: a claim, a start, the calls of the executor, the uploads, then one
    kind of final report, repeated at most ten times until it is accepted or
    given up, and at most one acknowledgement of a cancellation.  No event
    follows the final report, a run is never both completed and failed, the
    completion is reported only when every upload was accepted, and the node
    says that the run succeeded only when the completion was accepted. *)
Theorem one_final_report (w : Worker) (keeper : nat → option Error) (world : World (NodeState (Calls * X))) :
  ∃ l, trace (w_st (RunOnce w keeper world).2) = trace (w_st world) ++ l ∧
       history (RunOnce w keeper world).1 l.
Proof.
  assert (Hall : makes (RunOnce w keeper) history); [|apply Hall].
  unfold RunOnce. destruct (wk_ControlPlane w); [|apply makes_raise; constructor].
  destruct (wk_Executors w) as [executors|]; [|apply makes_raise; constructor].
  eapply makes_first; [apply makes_note| |intros a r l Hr; exact Hr|constructor].
  intros a. cbn beta. destruct (executors _) as [executor|].
  2: { eapply makes_mono; [apply fail_early_makes|]. intros r l [(e & ->) (b & ->)]. constructor. }
  eapply makes_bind with (P := λ r l, match r with Ok _ => l = [] | Err e => after_claim (Err e) l end).
  - unfold prepare_workspace. destruct (ws_Kind _ =s ""); [by apply makes_ret|].
    assert (Hearly : ∀ cause, makes (fail_early a cause)
              (λ (r : Res (string * M FS ())) l, match r with Ok _ => l = [] | Err e => after_claim (Err e) l end)).
    { intros cause. eapply makes_mono; [apply fail_early_makes|]. intros r l [(e & ->) (b & ->)]. constructor. }
    destruct (wk_Workspaces w) as [prepare|]; [|apply Hearly].
    eapply makes_bind; [apply makes_try, makes_files| |
                         by intros x l1 r l2 (y & [= <-] & ->) Hq; exact Hq|by intros e l (x & [=] & _)].
    intros [prepared|err]; [by apply makes_ret|apply Hearly].
  - intros prepared. instantiate (1 := λ _, after_claim).
    eapply makes_bind; [apply makes_try, run_prepared_makes| | |by intros e l (x & [=] & _)].
    + intros r. instantiate (1 := λ r r' l, r' = r ∧ l = []). cbn beta.
      eapply makes_bind; [apply makes_try, makes_files|intros u; instantiate (1 := λ _ r' l, r' = r ∧ l = []); by apply makes_lift_res| |by intros e l (x & [=] & _)].
      by intros x l1 r' l2 (y & _ & ->) [-> ->].
    + intros x l1 r l2 (y & [= <-] & Hx) [-> ->]. by rewrite app_nil_r.
  - by intros prepared l1 r l2 -> Hq.
  - done.
Qed.
(** The keeper waits between ten milliseconds and five seconds. *)
Lemma keep_wait_bounds remaining :
  (10 * millisecond <= keep_wait remaining <= 5 * second)%Z.
Proof.
  unfold keep_wait, second, millisecond. rewrite Z.gtb_ltb.
  repeat match goal with |- context [(?a <? ?b)%Z] => destruct (Z.ltb_spec a b) end; lia.
Qed.

(** When no renewal succeeds any more, the keeper of a lease cancels the
    execution and reports the lease lost, after no more renewals than the lease
    has ten-millisecond waits left. *)
Theorem unrenewed_lease_ends (a : Assignment) (rounds : nat) (now deadline : Z) (w : World X) :
  (∀ w', is_ok (cp_Renew a w').1 = false) →
  (∀ n, ctx_done_at n = false) →
  (deadline - now <= Z.of_nat rounds * (10 * millisecond))%Z →
  wp (keepLease rounds a now deadline)
     (λ r w', ∃ err, r = Ok (true, Some err) ∧ errors_Is err ErrLeaseLost = true) w.
Proof.
  intros Hfail Hctx. revert now w. unfold wp. induction rounds as [|rounds IH]; intros now w Hle; simpl.
  { rewrite (proj2 (Z.leb_le _ _)) by lia. simpl. by eexists. }
  destruct (Z.leb_spec (deadline - now) 0); [simpl; by eexists|].
  unfold mbind, M_bind, try, host. specialize (Hfail w). destruct (cp_Renew a w) as [[update|err] w1]; [done|].
  simpl. rewrite Hctx. pose proof (took_nonneg (w_tick w1)) as Htook.
  pose proof (keep_wait_bounds (deadline - now)) as Hwait.
  destruct (_ || _); [simpl; eexists; split; [done|apply errors_Is_wrapf]|].
  destruct (Z.ltb_spec (now + keep_wait (deadline - now) + took_at (w_tick w1)) deadline).
  - apply IH. lia.
  - simpl. eexists. split; [done|]. by rewrite errors_Is_wrapf.
Qed.
End properties.

(** ** An execution with a lost answer, an event and an artifact *)
Definition demo_worker : Worker :=
  mkWorker (mkRegistration "node_1" "1.0.0" "1" ∅ [] [] 1) true None
    (Some (λ _, Some (λ _, Emit "progress" AnyNil
                             (Return (Ok (mkResult "done" None [mkArtifact "" "" "file" "/out" "out" "" 0 ""]))))))
    None None None.
Definition demo_node : World (NodeState (Calls * Script)) :=
  mkWorld 0 (mkNodeState {["/out" := "content"]}
    ([], script [Ok (); Err unavailable; Ok (); Ok (); Err unavailable; Err unavailable; Ok ()])).

Lemma one_final_report_witness :
  (∃ l, trace (w_st (RunOnce demo_worker (λ _, None) demo_node).2) = trace (w_st demo_node) ++ l ∧
        history (RunOnce demo_worker (λ _, None) demo_node).1 l) ∧
  trace (w_st (RunOnce demo_worker (λ _, None) demo_node).2) =
    [(CkClaim, true); (CkStart, true); (CkEvent, false); (CkEvent, true); (CkUpload, true);
     (CkComplete, false); (CkComplete, false); (CkComplete, true)].
Proof. split; [apply (one_final_report demo_worker (λ _, None) demo_node)|]. vm_compute. reflexivity. Defined.

(** A control plane that is down. *)
Definition down : ControlPlane () := {|
  cp_RegisterNode _ := raise unavailable; cp_Claim _ := raise unavailable; cp_Start _ := raise unavailable;
  cp_Renew _ := raise unavailable; cp_AppendEvent _ _ _ _ _ _ := raise unavailable;
  cp_Complete _ _ := raise unavailable; cp_Fail _ _ := raise unavailable;
  cp_AcknowledgeCancellation _ := raise unavailable; cp_UploadArtifact _ _ _ := raise unavailable;
  cp_ReserveCapability _ _ _ _ := raise unavailable; cp_FinishCapability _ _ _ _ := raise unavailable;
  cp_CreateInteraction _ _ := raise unavailable; cp_GetInteraction _ _ := raise unavailable |}.

Lemma unrenewed_lease_ends_witness :
  wp (keepLease (H3 := down) 3000 demo_assignment 0 (30 * second))
     (λ r w', ∃ err, r = Ok (true, Some err) ∧ errors_Is err ErrLeaseLost = true) (mkWorld 0 ()).
Proof.
  apply (unrenewed_lease_ends (H4 := down) demo_assignment 3000 0 (30 * second) (mkWorld 0 ()));
    [reflexivity|reflexivity|discriminate].
Defined.
