(* ===== verification/Pool.v ===== *)
(** * Pool: the claim loops of a node (node/worker.go, [RunPool])

    One goroutine per slot of the capacity repeats [RunOnce] until the context
    for claiming ends.  A pool is the two contexts, the phase of every goroutine
    and what [onError] was told; a [Move] is one step of a goroutine or the end of
    a context, and any order of moves may happen.  An execution takes effect with
    its last move; what other goroutines do meanwhile is, as in Worker, part of
    the answers of the control plane. *)

From S2P Require Import Prelude GoStrings Json Types Demo Event Fs Capability Instructions Outbox NodeDemo Worker WorkerProps.

(** Before the check of [claimCtx], in [RunOnce], in the wait for the next poll, returned. *)
Inductive Phase := PhCheck | PhRun | PhWait | PhDone.
#[export] Instance phase_eq_dec : EqDecision Phase.
Proof. solve_decision. Defined.

Section pool.
Context `{Host} `{Encoder} `{Faults} `{Durations} {X : Type} `{ControlPlane X} `{RecordCodec}.

Inductive Move :=
  | ClaimEnds | ExecutionEnds          (* a context is cancelled *)
  | Stop (i : nat) | Enter (i : nat)   (* the first select *)
  | Ran (i : nat) (keeper : nat → option Error)
  | Timer (i : nat) | Leave (i : nat). (* the second select *)

Record Pool := mkPool {
  po_claimDone : bool; po_executionDone : bool;
  po_workers : list Phase; po_errors : list Error;
  po_world : World (NodeState X) }.

(** [RunPool] when its goroutines are started, and the time between polls. *)
Definition pool_capacity (capacity : Z) : nat := Z.to_nat (if (capacity <=? 0)%Z then 1 else capacity).
Definition pool_poll (poll : Z) : Z := if (poll <=? 0)%Z then second else poll.
Definition RunPool (w : Worker) (world : World (NodeState X)) : Pool :=
  mkPool false false (replicate (pool_capacity (reg_Capacity (wk_Registration w))) PhCheck) [] world.

(** [workers.Wait] returns. *)
Definition pool_returned (p : Pool) : bool := forallb (λ ph, ph =s PhDone) (po_workers p).

Definition at_phase (p : Pool) (i : nat) (ph : Phase) : bool := po_workers p !! i =s Some ph.
Definition goto (p : Pool) (i : nat) (ph : Phase) : Pool :=
  mkPool (po_claimDone p) (po_executionDone p) (<[i := ph]> (po_workers p)) (po_errors p) (po_world p).

(** What is reported of an execution: no missing assignment, and nothing once
    the executions are to end. *)
Definition reportable (p : Pool) {A} (r : Res A) : list Error :=
  match r with
  | Ok _ => []
  | Err err => if negb (errors_Is err ErrNoAssignment) && negb (po_executionDone p) then [err] else []
  end.

Definition pool_move (w : Worker) (p : Pool) (m : Move) : option Pool :=
  match m with
  | ClaimEnds =>
      if po_claimDone p then None
      else Some (mkPool true (po_executionDone p) (po_workers p) (po_errors p) (po_world p))
  | ExecutionEnds =>
      if po_executionDone p then None
      else Some (mkPool (po_claimDone p) true (po_workers p) (po_errors p) (po_world p))
  | Stop i => if at_phase p i PhCheck && po_claimDone p then Some (goto p i PhDone) else None
  | Enter i => if at_phase p i PhCheck && negb (po_claimDone p) then Some (goto p i PhRun) else None
  | Ran i keeper =>
      if at_phase p i PhRun then
        let '(r, world) := RunOnce w keeper (po_world p) in
        Some (mkPool (po_claimDone p) (po_executionDone p) (<[i := PhWait]> (po_workers p))
                (po_errors p ++ reportable p r) world)
      else None
  | Timer i => if at_phase p i PhWait then Some (goto p i PhCheck) else None
  | Leave i =>
      if at_phase p i PhWait && (po_claimDone p || po_executionDone p) then Some (goto p i PhDone) else None
  end.

Fixpoint pool_play (w : Worker) (p : Pool) (ms : list Move) : option Pool :=
  match ms with
  | [] => Some p
  | m :: ms => p' ← pool_move w p m; pool_play w p' ms
  end.

(** ** How much is left to do once no more is claimed *)
Definition phase_rank (ph : Phase) : nat :=
  match ph with PhRun => 3 | PhWait => 2 | PhCheck => 1 | PhDone => 0 end.
Definition workers_rank (l : list Phase) : nat := sum_list (phase_rank <$> l).
Definition pool_rank (p : Pool) : nat :=
  workers_rank (po_workers p) + (if po_executionDone p then 0 else 1).

Lemma rank_insert l i ph ph' :
  l !! i = Some ph → workers_rank (<[i := ph']> l) + phase_rank ph = workers_rank l + phase_rank ph'.
Proof.
  unfold workers_rank. revert i. induction l as [|x l IH]; intros [|i] Hi; csimpl; simplify_eq/=; [lia|].
  specialize (IH i Hi). csimpl in *. lia.
Qed.
Lemma rank_bound l : workers_rank l ≤ 3 * length l.
Proof. unfold workers_rank. induction l as [|[] l IH]; csimpl in *; lia. Qed.

Lemma at_phase_lookup p i ph : at_phase p i ph = true ↔ po_workers p !! i = Some ph.
Proof. apply bool_decide_eq_true. Qed.

(** A move changes one phase along an edge of the loop, or ends a context. *)
Lemma pool_move_cases w p m p' :
  pool_move w p m = Some p' →
  (po_workers p' = po_workers p ∧
     (m = ClaimEnds ∧ po_claimDone p = false ∨
      m = ExecutionEnds ∧ po_executionDone p = false ∧ po_executionDone p' = true ∧ po_claimDone p' = po_claimDone p)) ∨
  (∃ i ph ph', po_workers p !! i = Some ph ∧ po_workers p' = <[i := ph']> (po_workers p) ∧
     po_claimDone p' = po_claimDone p ∧ po_executionDone p' = po_executionDone p ∧
     (m = Enter i ∧ ph = PhCheck ∧ po_claimDone p = false ∨
      (∃ keeper, m = Ran i keeper) ∧ ph = PhRun ∧ ph' = PhWait ∨
      (∀ j, m ≠ Enter j) ∧ (ph = PhCheck ∧ ph' = PhDone ∨ ph = PhWait ∧ (ph' = PhCheck ∨ ph' = PhDone)))).
Proof.
  destruct m as [| |i|i|i keeper|i|i]; simpl.
  - destruct (po_claimDone p); [done|]. intros [= <-]. left. auto.
  - destruct (po_executionDone p); [done|]. intros [= <-]. left. split; [done|]. right. done.
  - destruct (at_phase p i PhCheck) eqn:Hi; [|done]. destruct (po_claimDone p) eqn:Hc; [|done].
    apply at_phase_lookup in Hi. intros [= <-]. right. exists i, PhCheck, PhDone. simpl. intuition done.
  - destruct (at_phase p i PhCheck) eqn:Hi; [|done]. destruct (po_claimDone p) eqn:Hc; [done|].
    apply at_phase_lookup in Hi. intros [= <-]. right. exists i, PhCheck, PhRun. simpl. intuition done.
  - destruct (at_phase p i PhRun) eqn:Hi; [|done]. destruct (RunOnce _ _ _) as [r world].
    apply at_phase_lookup in Hi. intros [= <-]. right. exists i, PhRun, PhWait. simpl. naive_solver.
  - destruct (at_phase p i PhWait) eqn:Hi; [|done].
    apply at_phase_lookup in Hi. intros [= <-]. right. exists i, PhWait, PhCheck. simpl. intuition done.
  - destruct (at_phase p i PhWait) eqn:Hi; [|done]. destruct (_ || _); [|done].
    apply at_phase_lookup in Hi. intros [= <-]. right. exists i, PhWait, PhDone. simpl. intuition done.
Qed.

(** Without claims every move comes closer to the end, and none enters [RunOnce]. *)
Lemma pool_move_drains w p m p' :
  po_claimDone p = true → pool_move w p m = Some p' →
  po_claimDone p' = true ∧ pool_rank p' < pool_rank p ∧ length (po_workers p') = length (po_workers p) ∧
  (∀ i, m ≠ Enter i) ∧
  (∀ i, po_workers p !! i = Some PhRun → po_workers p' !! i = Some PhRun ∨ ∃ keeper, m = Ran i keeper) ∧
  (∀ i, po_workers p' !! i = Some PhRun → po_workers p !! i = Some PhRun).
Proof.
  intros Hc Hm. destruct (pool_move_cases _ _ _ _ Hm) as
    [[Hw [[-> Hf]|(-> & He & He' & Hc')]]|(i & ph & ph' & Hi & Hw & Hc' & He & Hcase)]; [congruence| |].
  - unfold pool_rank. rewrite Hw, He, He'. split_and!; [congruence|lia|done|done|auto|auto].
  - assert (Hi' : i < length (po_workers p)) by (by eapply lookup_lt_Some).
    pose proof (rank_insert _ _ _ ph' Hi) as Hr. unfold pool_rank. rewrite Hw, He, Hc', length_insert.
    destruct Hcase as [(_ & _ & ?)|[((keeper & ->) & -> & ->)|(Hne & Hph)]]; [congruence|..].
    + simpl in Hr. split_and!; [done|lia|done|done| |].
      * intros j Hj. destruct (decide (i = j)) as [->|]; [right; by exists keeper|]. left. by rewrite list_lookup_insert_ne.
      * intros j. destruct (decide (i = j)) as [->|]; [by rewrite list_lookup_insert_eq|]. by rewrite list_lookup_insert_ne.
    + assert (phase_rank ph' < phase_rank ph ∧ ph ≠ PhRun ∧ ph' ≠ PhRun) as (Hlt & Hn & Hn').
      { destruct Hph as [[-> ->]|[-> [-> | ->]]]; simpl; split_and!; try done; lia. }
      split_and!; [done|lia|done|done| |].
      * intros j Hj. left. rewrite list_lookup_insert_ne; [done|]. intros ->. congruence.
      * intros j. destruct (decide (i = j)) as [->|]; [|by rewrite list_lookup_insert_ne].
        rewrite list_lookup_insert_eq by done. congruence.
Qed.

(** A goroutine that has not returned can always move, whatever the contexts do. *)
Lemma pool_can_go_on w p i ph :
  po_claimDone p = true → po_workers p !! i = Some ph → ph ≠ PhDone →
  ∃ m p', match m with ClaimEnds | ExecutionEnds => false | _ => true end = true ∧ pool_move w p m = Some p'.
Proof.
  intros Hc Hi Hne. apply at_phase_lookup in Hi. destruct ph; [| | |done].
  - exists (Stop i). simpl. rewrite Hi, Hc. by eexists.
  - exists (Ran i (λ _, None)). simpl. rewrite Hi. destruct (RunOnce _ _ _). by eexists.
  - exists (Leave i). simpl. rewrite Hi, Hc. by eexists.
Qed.

(** Once the context for claiming has ended the pool drains: whatever order
    its goroutines run in, none enters another execution, every execution under
    way is run to its end before its goroutine returns, and after at most three
    moves per slot (one more for the end of the other context) nothing is left
    to do; the pool is then at rest only by having returned. *)
Theorem pool_drains (w : Worker) (p p' : Pool) (ms : list Move) :
  po_claimDone p = true → pool_play w p ms = Some p' →
  length ms ≤ 3 * length (po_workers p) + 1 ∧
  (∀ i, Enter i ∉ ms) ∧
  (∀ i, po_workers p !! i = Some PhRun → po_workers p' !! i = Some PhDone → ∃ keeper, Ran i keeper ∈ ms) ∧
  ((∀ m, pool_move w p' m = None) → pool_returned p' = true).
Proof.
  intros Hc Hplay.
  assert (Hmain : po_claimDone p' = true ∧ length ms + pool_rank p' ≤ pool_rank p ∧ (∀ i, Enter i ∉ ms) ∧
            (∀ i, po_workers p !! i = Some PhRun → po_workers p' !! i = Some PhRun ∨ ∃ keeper, Ran i keeper ∈ ms)).
  { revert p Hc Hplay. induction ms as [|m ms IH]; simpl; intros p Hc Hplay.
    - injection Hplay as ->. split_and!; [done|lia|intros i Hi; by apply elem_of_nil in Hi|auto].
    - destruct (pool_move w p m) as [p1|] eqn:Hm; [|done]. simpl in Hplay.
      destruct (pool_move_drains _ _ _ _ Hc Hm) as (Hc1 & Hr1 & _ & Hne & Hrun1 & _).
      destruct (IH p1 Hc1 Hplay) as (Hc' & Hr & Hent & Hrun). split_and!; [done|lia| |].
      + intros i [He|Hi]%elem_of_cons; [by apply (Hne i)|by apply (Hent i)].
      + intros i Hi. setoid_rewrite elem_of_cons.
        destruct (Hrun1 i Hi) as [Hi1|[keeper Hk]]; [|right; exists keeper; by left].
        destruct (Hrun i Hi1) as [?|[keeper ?]]; [by left|]. right. exists keeper. by right. }
  destruct Hmain as (Hc' & Hr & Hent & Hrun). split_and!; [|done| |].
  - pose proof (rank_bound (po_workers p)). unfold pool_rank in Hr at 2. destruct (po_executionDone p); lia.
  - intros i Hi Hd. destruct (Hrun i Hi) as [Hi'|?]; [congruence|done].
  - intros Hstuck. apply forallb_forall. intros ph [i Hi]%list_elem_of_In%list_elem_of_lookup.
    apply bool_decide_eq_true. destruct (decide (ph = PhDone)) as [->|Hne]; [done|].
    destruct (pool_can_go_on w _ _ _ Hc' Hi Hne) as (m & q & _ & Hq). by rewrite Hstuck in Hq.
Qed.

(** There are never more goroutines than the capacity allows. *)
Lemma pool_within_capacity w world ms p :
  pool_play w (RunPool w world) ms = Some p →
  length (po_workers p) = pool_capacity (reg_Capacity (wk_Registration w)).
Proof.
  rewrite <- (length_replicate (pool_capacity _) PhCheck). change (replicate _ _) with (po_workers (RunPool w world)).
  generalize (RunPool w world). induction ms as [|m ms IH]; simpl; intros q Hplay; [by injection Hplay as ->|].
  destruct (pool_move w q m) as [q1|] eqn:Hm; [|done]. rewrite (IH q1 Hplay).
  destruct (pool_move_cases _ _ _ _ Hm) as [[-> _]|(i & ph & ph' & _ & -> & _)]; [done|]. apply length_insert.
Qed.
End pool.
Arguments Pool : clear implicits.

(** ** A pool of two that is told to stop while one execution is under way *)
Definition pool_worker : Worker :=
  mkWorker (mkRegistration "node_1" "1.0.0" "1" ∅ [] [] 2) true None (wk_Executors demo_worker) None None None.
(** The first goroutine is in [RunOnce], the second waits. *)
Definition draining_pool : Pool (Calls * Script) :=
  default (RunPool pool_worker demo_node)
    (pool_play pool_worker (RunPool pool_worker demo_node)
       [Enter 1; Ran 1 (λ _, None); Enter 0; ClaimEnds]).
Definition drain : list Move := [Timer 1; Stop 1; Ran 0 (λ _, None); Leave 0].

Lemma pool_drains_witness :
  po_workers draining_pool = [PhRun; PhWait] ∧
  (∃ p', pool_play pool_worker draining_pool drain = Some p' ∧ pool_returned p' = true ∧
         po_errors p' = [] ∧ length drain ≤ 3 * 2 + 1).
Proof.
  split; [vm_compute; reflexivity|].
  destruct (pool_play pool_worker draining_pool drain) as [p'|] eqn:Hp; [|vm_compute in Hp; discriminate Hp].
  exists p'. split; [reflexivity|].
  destruct (pool_drains pool_worker draining_pool p' drain) as (Hlen & _ & _ & _);
    [vm_compute; reflexivity|exact Hp|].
  split_and!; [vm_compute in Hp; by injection Hp as <-..|vm_compute; lia].
Defined.
