(* ===== verification/Postgres.v ===== *)
(** * Postgres: the PostgreSQL storage (controlplane/postgres/store.go)

    The tables are maps and lists of rows, one record per table of
    controlplane/postgres/migrations; a statement reads or changes them, or
    fails.  [transaction] is [Begin ... Commit] with the deferred [Rollback]: an
    error restores the tables.  Transactions are serial: the row locks of the
    statements ([FOR UPDATE]) serialize those that touch one run, and rows that
    another transaction holds show only as the ones that [SKIP LOCKED] leaves
    out.  The server itself is a parameter: its clock, the failures of its
    statements and commits, the rows it skips, the precision of its timestamps,
    and what its [JSONB] type makes of a document. *)

From S2P Require Import Prelude GoStrings Json Types Matching Event.

Class Server := {
  db_now_at : nat → Z;
  db_fault_at : nat → option Error;
  db_commit_at : nat → option (Error * bool);  (* an error, and whether the commit took effect *)
  db_locked_at : nat → string → bool;
  timestamptz : Z → Z;
  jsonb : Json → Json
}.

(** ** The tables *)

(** A row of relay_runs: the columns that [scanRun] reads, as a [Run] whose
    attempt comes from the join, and the others. *)
Record RunRow := mkRunRow {
  rw_Run : Run; rw_Request : Request; rw_CurrentAttempt : string; rw_CancelRequestedBy : string }.
Record AttemptRow := mkAttemptRow { aw_RunID : string; aw_Attempt : Attempt }.
Record NodeRow := mkNodeRow { nw_Registration : NodeRegistration; nw_LastSeen : Z }.
Record ArtifactRow := mkArtifactRow { fw_Artifact : Artifact; fw_AttemptID : string; fw_CreatedAt : Z }.
Record CallRow := mkCallRow {
  cw_ID : string; cw_RunID : string; cw_AttemptID : string; cw_Key : string; cw_Hash : string;
  cw_Request : CapabilityRequest; cw_Status : string; cw_Result : option CapabilityResult; cw_Error : string }.

Record Tables := mkTables {
  relay_nodes : gmap string NodeRow;
  relay_runs : gmap string RunRow;
  relay_attempts : gmap string AttemptRow;
  relay_events : list Event;
  relay_artifacts : gmap string ArtifactRow;
  relay_capability_calls : list CallRow;
  relay_interactions : gmap string Interaction }.
#[export] Instance eta_Tables : Eta Tables := λ t,
  mkTables (relay_nodes t) (relay_runs t) (relay_attempts t) (relay_events t) (relay_artifacts t)
    (relay_capability_calls t) (relay_interactions t).
#[export] Instance eta_RunRow : Eta RunRow := λ r,
  mkRunRow (rw_Run r) (rw_Request r) (rw_CurrentAttempt r) (rw_CancelRequestedBy r).
#[export] Instance eta_CallRow : Eta CallRow := λ c,
  mkCallRow (cw_ID c) (cw_RunID c) (cw_AttemptID c) (cw_Key c) (cw_Hash c) (cw_Request c)
    (cw_Status c) (cw_Result c) (cw_Error c).
Definition empty_tables : Tables := mkTables ∅ ∅ ∅ [] ∅ [] ∅.

Abbreviation MD := (M Tables).

Section postgres.
Context `{Host} `{Encoder} `{Semver} `{Server}.

(** ** Statements and transactions *)
Definition statement {S} : M S () :=
  fault ← host db_fault_at;
  match (fault : option Error) with Some e => raise e | None => mret () end.
Definition query {S A} (f : S → A) : M S A := statement ;; gets f.
Definition exec {S} (f : S → S) : M S () := statement ;; modify f.
Definition duplicate_key : Error := errors_New "duplicate key value violates unique constraint".
Definition no_rows : Error := errors_New "no rows in result set".
Definition check_violation : Error := errors_New "violates check constraint".

(** [body] gets the server's [now()], the time at which the transaction began. *)
Definition transaction {S A} (body : Z → M S A) : M S A := λ w,
  match (statement ;; host db_now_at) w with
  | (Err e, w0) => (Err e, w0)
  | (Ok now, w0) =>
      match body now w0 with
      | (Err e, w1) => (Err e, mkWorld (w_tick w1) (w_st w))
      | (Ok a, w1) =>
          match db_commit_at (w_tick w1) with
          | None => (Ok a, mkWorld (w_tick w1 + 1) (w_st w1))
          | Some (e, applied) => (Err e, mkWorld (w_tick w1 + 1) (if (applied : bool) then w_st w1 else w_st w))
          end
      end
  end.

Definition terminalRunStatus (status : RunStatus) : bool :=
  (status =s RunSucceeded) || (status =s RunFailed) || (status =s RunCancelled).

Definition before (now t : Z) : bool := (now <? t)%Z.

(** ** What the columns keep of the values *)
Definition db_Source (s : Source) : Source :=
  mkSource (src_Kind s) (src_ExternalID s) (src_URL s) (jsonb <$> src_Metadata s).
Definition db_Request (q : Request) : Request :=
  mkRequest (req_TenantID q) (req_ProjectID q) (req_SessionID q) (req_AgentID q) (req_IdempotencyKey q)
    (req_Runtime q) (db_Source (req_Source q))
    (mkInput (in_Type (req_Input q)) (in_Version (req_Input q)) (in_Prompt (req_Input q))
       (jsonb <$> in_Data (req_Input q)))
    (req_Instructions q)
    (map (λ c, mkContextItem (ctx_Type c) (ctx_Version c) (ctx_ExternalID c) (ctx_Revision c)
                 (ctx_CapturedAt c) (jsonb <$> ctx_Data c)) (req_Context q))
    (req_Capabilities q) (req_Principal q) (req_Retry q) (req_Timeout q) (req_Workspace q).
(** [RunID] of an artifact is not part of its document. *)
Definition db_Result (r : Result) : Result :=
  mkResult (res_Summary r) (jsonb <$> res_Output r)
    (map (λ a, a <| art_RunID := "" |>) (res_Artifacts r)).
Definition db_CapabilityResult (r : CapabilityResult) : CapabilityResult :=
  mkCapResult (cres_CallID r) (jsonb <$> cres_Output r).

(** ** Rows *)

(** [scanRun] of [runSelect ... WHERE r.id = $1]: the run with its current attempt. *)
Definition scanRun (t : Tables) (runID : string) : option Run :=
  row ← relay_runs t !! runID;
  attempt ← relay_attempts t !! rw_CurrentAttempt row;
  Some ((rw_Run row) <| run_Attempt := aw_Attempt attempt |>).

Definition update_run (id : string) (f : RunRow → RunRow) : MD () :=
  exec (λ t, t <| relay_runs := alter f id (relay_runs t) |>).
Definition update_attempt (id : string) (f : Attempt → Attempt) : MD () :=
  exec (λ t, t <| relay_attempts :=
           alter (λ row, mkAttemptRow (aw_RunID row) (f (aw_Attempt row))) id (relay_attempts t) |>).
Definition insert_attempt (runID : string) (attempt : Attempt) : MD () :=
  taken ← query (λ t, relay_attempts t !! att_ID attempt);
  match taken with
  | Some _ => raise duplicate_key
  | None => modify (λ t, t <| relay_attempts :=
                        <[att_ID attempt := mkAttemptRow runID attempt]> (relay_attempts t) |>)
  end.

(** [scanNode] with the count of [nodeSelect]. *)
Definition active_attempt (now : Z) (nodeID : string) (row : AttemptRow) : bool :=
  let a := aw_Attempt row in
  (att_NodeID a =s nodeID) && ((att_Status a =s AttemptRunning) || (att_Status a =s AttemptLeased)) &&
  match att_LeaseExpiresAt a with Some t => before now t | None => false end.
Definition scanNode (now : Z) (t : Tables) (nodeID : string) : option Node :=
  row ← relay_nodes t !! nodeID;
  Some (mkNode (nw_Registration row)
          (Z.of_nat (map_count (active_attempt now nodeID) (relay_attempts t))) (nw_LastSeen row) "").

(** ** Events *)
Definition run_events (runID : string) (events : list Event) : list Event :=
  List.filter (λ e, ev_RunID e =s runID) events.
(** [COALESCE(MAX(sequence), 0) + 1] *)
Definition next_sequence (runID : string) (events : list Event) : Z :=
  (foldr Z.max 0%Z (map ev_Sequence (run_events runID events)) + 1)%Z.

(** The unique keys of relay_events. *)
Definition event_taken (e : Event) (events : list Event) : bool :=
  existsb (λ old, (ev_ID old =s ev_ID e) ||
                  ((ev_RunID old =s ev_RunID e) && (ev_Sequence old =s ev_Sequence e))) events.
Definition put_event (e : Event) : MD () :=
  taken ← query (λ t, event_taken e (relay_events t));
  if (taken : bool) then raise duplicate_key
  else modify (λ t, t <| relay_events := relay_events t ++ [e] |>).

Definition insertEvent (now : Z) (runID attemptID : string) (sequence : Z) (eventType : string)
    (value : Any) : MD () :=
  data ← match value with
         | AnyNil => mret None
         | _ => match marshal value with Ok j => mret (Some (jsonb j)) | Err e => raise e end
         end;
  id ← newControlPlaneID "event";
  put_event (mkEvent id runID attemptID sequence eventType data (timestamptz now)).

Definition appendEvent (now : Z) (runID attemptID eventType : string) (value : Any) : MD () :=
  sequence ← query (λ t, next_sequence runID (relay_events t));
  insertEvent now runID attemptID sequence eventType value.

Definition json_of_strings (l : list (string * string)) : Any :=
  AnyJson (JObj (map (λ kv, (kv.1, JStr kv.2)) l)).

(** ** Cancellation *)
Definition finalizeCancellationTx (tnow : Z) (run : Run) (now : Z) : MD () :=
  if run_Status run =s RunCancelled then mret ()
  else
    update_attempt (att_ID (run_Attempt run))
      (λ a, a <| att_Status := AttemptCancelled |> <| att_CompletedAt := Some (timestamptz now) |>) ;;
    update_run (run_ID run) (λ row, row <| rw_Run := (rw_Run row)
      <| run_Status := RunCancelled |> <| run_CompletedAt := Some (timestamptz now) |>
      <| run_CancelledAt := Some (timestamptz now) |> |>) ;;
    appendEvent tnow (run_ID run) (att_ID (run_Attempt run)) "attempt.cancelled"
      (json_of_strings [("reason", run_CancelReason run)]) ;;
    appendEvent tnow (run_ID run) (att_ID (run_Attempt run)) "run.cancelled"
      (json_of_strings [("reason", run_CancelReason run)]).

Definition requestCancelTx (tnow : Z) (run : Run) (request : CancelRequest) (now : Z) : MD () :=
  if terminalRunStatus (run_Status run) || negb (run_CancelRequestedAt run =s None) then mret ()
  else
    update_run (run_ID run) (λ row, row
      <| rw_Run := (rw_Run row) <| run_Status := RunCancelling |>
           <| run_CancelRequestedAt := Some (timestamptz now) |> <| run_CancelReason := cancel_Reason request |> |>
      <| rw_CancelRequestedBy := cancel_RequestedBy request |>) ;;
    let run := run <| run_Status := RunCancelling |> <| run_CancelRequestedAt := Some now |>
                   <| run_CancelReason := cancel_Reason request |> in
    appendEvent tnow (run_ID run) (att_ID (run_Attempt run)) "run.cancel_requested"
      (AnyJson (json_CancelRequest request)) ;;
    if att_Status (run_Attempt run) =s AttemptQueued then finalizeCancellationTx tnow run now else mret ().

(** ** Guarded changes of a run *)
Definition transition {A} (a : Assignment) (change : Z → Run → MD A) : MD A :=
  transaction (λ tnow,
    row ← query (λ t, scanRun t (asg_RunID a));
    match row with
    | None => raise (sentinel ErrNotFound)
    | Some run =>
        if negb (att_ID (run_Attempt run) =s asg_AttemptID a) || (asg_LeaseToken a =s "") ||
           negb (att_LeaseToken (run_Attempt run) =s asg_LeaseToken a)
        then raise (sentinel ErrInvalidLease)
        else if terminalRunStatus (run_Status run) then change tnow run
        else
          match att_LeaseExpiresAt (run_Attempt run) with
          | None => raise (sentinel ErrInvalidLease)
          | Some expires =>
              now ← time_now;
              if negb (before now expires) then raise (sentinel ErrInvalidLease) else change tnow run
          end
    end).

(** ** Nodes *)
Definition node (nodeID : string) : MD Node :=
  now ← host db_now_at;
  row ← query (λ t, scanNode now t nodeID);
  match row with Some n => mret n | None => raise (sentinel ErrNotFound) end.

Definition RegisterNode (registration : NodeRegistration) : MD Node :=
  now ← time_now;
  statement ;;
  if negb ((0 <? reg_Capacity registration)%Z && (reg_Capacity registration <? 2 ^ 31)%Z)
  then raise check_violation
  else
    modify (λ t, t <| relay_nodes := <[reg_ID registration :=
                        mkNodeRow registration (timestamptz now)]> (relay_nodes t) |>) ;;
    node (reg_ID registration).

Definition Heartbeat (nodeID : string) : MD Node :=
  now ← host db_now_at;
  found ← query (λ t, relay_nodes t !! nodeID);
  match found with
  | None => raise (sentinel ErrNotFound)
  | Some row =>
      modify (λ t, t <| relay_nodes := <[nodeID := mkNodeRow (nw_Registration row) now]> (relay_nodes t) |>) ;;
      node nodeID
  end.

Definition Nodes : MD (list Node) :=
  now ← host db_now_at;
  query (λ t, omap (scanNode now t) (merge_sort String.le (elements (dom (relay_nodes t))))).

(** ** Runs *)
Definition GetRun (runID : string) : MD Run :=
  row ← query (λ t, scanRun t runID);
  match row with Some run => mret run | None => raise (sentinel ErrNotFound) end.

Definition same_scope (request : Request) (row : RunRow) : bool :=
  (run_TenantID (rw_Run row) =s req_TenantID request) && (run_ProjectID (rw_Run row) =s req_ProjectID request) &&
  (run_IdempotencyKey (rw_Run row) =s req_IdempotencyKey request).
Definition find_scope (request : Request) (t : Tables) : option string :=
  fst <$> List.find (λ kv, same_scope request kv.2) (map_to_list (relay_runs t)).

(** The rows that [Submit] inserts. *)
Definition new_run_row (request : Request) (id attempt : string) (now : Z) : RunRow :=
  let deadline := match parse_duration (req_Timeout request) with
                  | Some timeout => if (0 <? timeout)%Z then Some (timestamptz (now + timeout)) else None
                  | None => None
                  end in
  mkRunRow
    (mkRun id (req_TenantID request) (req_ProjectID request) (req_SessionID request) (req_AgentID request)
       (req_IdempotencyKey request) (req_Runtime request) (db_Source (req_Source request)) RunQueued zero
       None "" (timestamptz now) None None deadline None "" None)
    (db_Request request) attempt "".
Definition queued_attempt (id : string) (number available : Z) : Attempt :=
  mkAttempt id number "" "" None (Some available) AttemptQueued None None.

Definition Submit (request : Request) : MD Run :=
  runID ← newControlPlaneID "run";
  attemptID ← newControlPlaneID "attempt";
  now ← time_now;
  id ← transaction (λ tnow,
    existing ← query (find_scope request);
    match existing with
    | Some existingID => statement ;; mret existingID
    | None =>
        taken ← gets (λ t, relay_runs t !! runID);
        match taken with
        | Some _ => raise duplicate_key
        | None =>
            modify (λ t, t <| relay_runs := <[runID := new_run_row request runID attemptID now]> (relay_runs t) |>) ;;
            insert_attempt runID (queued_attempt attemptID 1 tnow) ;;
            insertEvent tnow runID attemptID 1 "run.created" (json_of_strings [("status", RunStatus_text RunQueued)]) ;;
            insertEvent tnow runID attemptID 2 "attempt.queued" (AnyJson (JObj [("number", JNum "1")])) ;;
            mret runID
        end
    end);
  GetRun id.

(** ** Claiming *)
Definition claimable (now : Z) (run : Run) : bool :=
  let a := run_Attempt run in
  (run_Status run =s RunQueued) &&
  match run_DeadlineAt run with None => true | Some t => before now t end &&
  (((att_Status a =s AttemptQueued) && match att_AvailableAt a with Some t => (t <=? now)%Z | None => false end) ||
   ((att_Status a =s AttemptLeased) && match att_LeaseExpiresAt a with Some t => (t <=? now)%Z | None => false end)).

(** [ORDER BY key, r.id] *)
Definition keyed_le (p q : Z * string) : Prop := (p.1 < q.1)%Z ∨ (p.1 = q.1 ∧ String.le p.2 q.2).
#[local] Instance keyed_le_dec : RelDecision keyed_le := λ p q, decide ((p.1 < q.1)%Z ∨ (p.1 = q.1 ∧ String.le p.2 q.2)).
Definition ordered (key : Run → Z) (rows : list Run) : list string :=
  snd <$> merge_sort keyed_le (map (λ r, (key r, run_ID r)) rows).
(** The rows of [runSelect] that satisfy a condition. *)
Definition select_runs (P : Run → bool) (t : Tables) : list Run :=
  List.filter P (omap (scanRun t) (elements (dom (relay_runs t)))).

Definition lease_attempt (nodeID lease : string) (expires : Z) (a : Attempt) : Attempt :=
  a <| att_Status := AttemptLeased |> <| att_NodeID := nodeID |> <| att_LeaseToken := lease |>
    <| att_LeaseExpiresAt := Some (timestamptz expires) |>.

Definition lease_run (tnow : Z) (nodeID : string) (leaseTTL : Z) (run : Run) (request : Request) : MD Assignment :=
  let a := run_Attempt run in
  now ← time_now;
  (if (att_Status a =s AttemptLeased) && match att_LeaseExpiresAt a with Some t => negb (before now t) | None => false end
   then appendEvent tnow (run_ID run) (att_ID a) "attempt.lease_expired" (json_of_strings [("node_id", att_NodeID a)])
   else mret ()) ;;
  lease ← newControlPlaneID "lease";
  let expires := (now + leaseTTL)%Z in
  update_attempt (att_ID a) (lease_attempt nodeID lease expires) ;;
  appendEvent tnow (run_ID run) (att_ID a) "attempt.leased"
    (AnyJson (JObj [("lease_expires_at", json_time expires); ("node_id", JStr nodeID)])) ;;
  mret (mkAssignment (run_ID run) (att_ID a) lease expires request).

Fixpoint claim_scan (tnow : Z) (n : Node) (leaseTTL : Z) (candidates : list string) : MD Assignment :=
  match candidates with
  | [] => raise (sentinel ErrNoAssignment)
  | runID :: candidates =>
      statement ;;
      locked ← host (λ n, db_locked_at n runID);
      row ← gets (λ t, run ← scanRun t runID; row ← relay_runs t !! runID; Some (run, rw_Request row));
      match row with
      | Some (run, request) =>
          if locked || negb (claimable tnow run) || negb (nodeMatches n request)
          then claim_scan tnow n leaseTTL candidates
          else lease_run tnow (reg_ID (node_Registration n)) leaseTTL run request
      | None => claim_scan tnow n leaseTTL candidates
      end
  end.

Definition Claim (nodeID : string) (leaseTTL : Z) : MD Assignment :=
  transaction (λ tnow,
    row ← query (λ t, scanNode tnow t nodeID);
    match row with
    | None => raise (sentinel ErrNotFound)
    | Some n =>
        if (reg_Capacity (node_Registration n) <=? node_Active n)%Z then raise (sentinel ErrNoAssignment)
        else
          candidates ← query (λ t, take 100 (ordered run_CreatedAt (select_runs (claimable tnow) t)));
          claim_scan tnow n leaseTTL candidates
    end).

Definition Renew (a : Assignment) (leaseTTL : Z) : MD LeaseUpdate :=
  transaction (λ _,
    row ← query (λ t, scanRun t (asg_RunID a));
    match row with
    | None => raise (sentinel ErrNotFound)
    | Some run =>
        now ← time_now;
        if negb (att_ID (run_Attempt run) =s asg_AttemptID a) || (asg_LeaseToken a =s "") ||
           negb (att_LeaseToken (run_Attempt run) =s asg_LeaseToken a) ||
           match att_LeaseExpiresAt (run_Attempt run) with Some t => negb (before now t) | None => true end
        then raise (sentinel ErrInvalidLease)
        else if negb (att_Status (run_Attempt run) =s AttemptLeased) &&
                negb (att_Status (run_Attempt run) =s AttemptRunning)
        then raise (sentinel ErrInvalidTransition)
        else
          let expires := (now + leaseTTL)%Z in
          update_attempt (att_ID (run_Attempt run)) (λ a, a <| att_LeaseExpiresAt := Some (timestamptz expires) |>) ;;
          mret (mkLeaseUpdate expires (negb (run_CancelRequestedAt run =s None)) (run_CancelReason run))
    end).

(** ** Recovery *)
Definition retryBackoff (policy : RetryPolicy) : Z := default 0%Z (parse_duration (retry_Backoff policy)).
Definition timeout_request : CancelRequest := mkCancelRequest "run timeout exceeded" "relay".

Definition overdue (now : Z) (run : Run) : bool :=
  match run_DeadlineAt run with Some t => (t <=? now)%Z | None => false end &&
  (run_CancelRequestedAt run =s None) && ((run_Status run =s RunQueued) || (run_Status run =s RunRunning)).
Definition expired (now : Z) (run : Run) : bool :=
  let a := run_Attempt run in
  (((run_Status run =s RunRunning) && (att_Status a =s AttemptRunning)) ||
   ((run_Status run =s RunCancelling) && ((att_Status a =s AttemptRunning) || (att_Status a =s AttemptLeased)))) &&
  match att_LeaseExpiresAt a with Some t => (t <=? now)%Z | None => false end.

(** [LIMIT n FOR UPDATE SKIP LOCKED]: a negative limit is an error of the server. *)
Definition select_unlocked (P : Run → bool) (key : Run → Z) (limit : Z) : MD (list string) :=
  locked ← host db_locked_at;
  ids ← query (λ t, ordered key (List.filter (λ r, negb ((locked : string → bool) (run_ID r))) (select_runs P t)));
  if (limit <? 0)%Z then raise (errors_New "LIMIT must not be negative") else mret (take (Z.to_nat limit) ids).

Definition must_scan (runID : string) : MD Run :=
  row ← query (λ t, scanRun t runID);
  match row with Some run => mret run | None => raise no_rows end.

(** The recovery of one expired attempt, as it was selected. *)
Definition recover_attempt (tnow now : Z) (item : Run * Request) : MD () :=
  let '(run, request) := item in
  let a := run_Attempt run in
  if run_Status run =s RunCancelling then run ← must_scan (run_ID run); finalizeCancellationTx tnow run now
  else
    update_attempt (att_ID a) (λ a, a <| att_Status := AttemptLost |> <| att_CompletedAt := Some (timestamptz now) |>) ;;
    appendEvent tnow (run_ID run) (att_ID a) "attempt.lost"
      (json_of_strings [("node_id", att_NodeID a); ("reason", "lease_expired")]) ;;
    if (retry_MaxAttempts (req_Retry request) <=? att_Number a)%Z then
      update_run (run_ID run) (λ row, row <| rw_Run := (rw_Run row) <| run_Status := RunFailed |>
        <| run_Error := "attempt lease expired" |> <| run_CompletedAt := Some (timestamptz now) |> |>) ;;
      appendEvent tnow (run_ID run) (att_ID a) "run.failed" (json_of_strings [("error", "attempt lease expired")])
    else
      nextID ← newControlPlaneID "attempt";
      let available := (now + retryBackoff (req_Retry request))%Z in
      insert_attempt (run_ID run) (queued_attempt nextID (att_Number a + 1) (timestamptz available)) ;;
      update_run (run_ID run) (λ row, row <| rw_Run := (rw_Run row) <| run_Status := RunQueued |>
        <| run_Error := "" |> <| run_StartedAt := None |> <| run_CompletedAt := None |> |>
        <| rw_CurrentAttempt := nextID |>) ;;
      appendEvent tnow (run_ID run) nextID "attempt.queued"
        (AnyJson (JObj [("available_at", json_time available); ("number", json_int (att_Number a + 1));
                        ("reason", JStr "retry")])).

Definition cancel_overdue (tnow now : Z) (runID : string) : MD () :=
  run ← must_scan runID;
  requestCancelTx tnow run timeout_request now.

Definition Reconcile (now limit : Z) : MD Z :=
  transaction (λ tnow,
    overdue_ids ← select_unlocked (overdue now) (λ r, default 0%Z (run_DeadlineAt r)) limit;
    for_each (cancel_overdue tnow now) overdue_ids ;;
    let processed := Z.of_nat (length overdue_ids) in
    let remaining := (limit - processed)%Z in
    if (remaining <=? 0)%Z then mret processed
    else
      ids ← select_unlocked (expired now) (λ r, default 0%Z (att_LeaseExpiresAt (run_Attempt r))) remaining;
      items ← gets (λ t, omap (λ id, run ← scanRun t id; row ← relay_runs t !! id; Some (run, rw_Request row)) ids);
      for_each (recover_attempt tnow now) items ;;
      mret (processed + Z.of_nat (length items))%Z).

(** ** Reports *)
Definition CancelRun (runID : string) (request : CancelRequest) : MD Run :=
  transaction (λ tnow,
    row ← query (λ t, scanRun t runID);
    match row with
    | None => raise (sentinel ErrNotFound)
    | Some run => now ← time_now; requestCancelTx tnow run request now
    end) ;;
  GetRun runID.

Definition AcknowledgeCancellation (a : Assignment) : MD () :=
  transition a (λ tnow run,
    if run_Status run =s RunCancelled then mret ()
    else if negb (run_Status run =s RunCancelling) then raise (sentinel ErrInvalidTransition)
    else now ← time_now; finalizeCancellationTx tnow run now).

Definition Start (a : Assignment) : MD () :=
  transition a (λ tnow run,
    if run_Status run =s RunCancelling then raise (sentinel ErrRunCancelled)
    else if negb (att_Status (run_Attempt run) =s AttemptLeased) then raise (sentinel ErrInvalidTransition)
    else
      over ← match att_LeaseExpiresAt (run_Attempt run) with
             | Some t => now ← time_now; mret (negb (before now t))
             | None => mret false
             end;
      if (over : bool) then raise (sentinel ErrInvalidLease)
      else
        now ← time_now;
        update_run (run_ID run) (λ row, row <| rw_Run := (rw_Run row) <| run_Status := RunRunning |>
          <| run_StartedAt := Some (timestamptz now) |> |>) ;;
        update_attempt (att_ID (run_Attempt run))
          (λ a, a <| att_Status := AttemptRunning |> <| att_StartedAt := Some (timestamptz now) |>) ;;
        appendEvent tnow (run_ID run) (att_ID (run_Attempt run)) "attempt.started"
          (json_of_strings [("node_id", att_NodeID (run_Attempt run))]) ;;
        appendEvent tnow (run_ID run) (att_ID (run_Attempt run)) "run.started" AnyNil).

Definition AppendEvent (runID attemptID lease eventType : string) (data : Any) (eventIDs : list string) : MD () :=
  transition (mkAssignment runID attemptID lease 0 zero) (λ tnow run,
    if negb (att_Status (run_Attempt run) =s AttemptRunning) then raise (sentinel ErrInvalidTransition)
    else
      let id := EventIdentity attemptID lease eventIDs in
      if id =s "" then appendEvent tnow runID attemptID eventType data
      else
        old ← query (λ t, List.find (λ e, ev_ID e =s id) (relay_events t));
        match old with
        | Some old => lift_res (SameEvent (ev_Type old) (ev_Data old) eventType data)
        | None =>
            encoded ← lift_res (marshal data);
            sequence ← gets (λ t, next_sequence runID (relay_events t));
            put_event (mkEvent id runID attemptID sequence eventType (Some (jsonb encoded)) (timestamptz tnow))
        end).

Definition conflict (what : string) : Error := wrapf ErrInvalidTransition what.

Definition Complete (a : Assignment) (result : Result) : MD () :=
  transition a (λ tnow run,
    if (run_Status run =s RunSucceeded) && (att_Status (run_Attempt run) =s AttemptSucceeded) then
      match run_Result run with
      | Some old =>
          if SameValue (AnyResult old) (AnyResult result) then mret ()
          else raise (conflict "completion result differs from the committed result")
      | None => raise (conflict "completion result differs from the committed result")
      end
    else if run_Status run =s RunCancelling then raise (sentinel ErrRunCancelled)
    else if negb (att_Status (run_Attempt run) =s AttemptRunning) then raise (sentinel ErrInvalidTransition)
    else
      now ← time_now;
      update_run (run_ID run) (λ row, row <| rw_Run := (rw_Run row) <| run_Status := RunSucceeded |>
        <| run_Result := Some (db_Result result) |> <| run_CompletedAt := Some (timestamptz now) |> |>) ;;
      update_attempt (att_ID (run_Attempt run))
        (λ a, a <| att_Status := AttemptSucceeded |> <| att_CompletedAt := Some (timestamptz now) |>) ;;
      appendEvent tnow (run_ID run) (att_ID (run_Attempt run)) "attempt.succeeded" AnyNil ;;
      appendEvent tnow (run_ID run) (att_ID (run_Attempt run)) "run.succeeded" (AnyResult result)).

Definition Fail (a : Assignment) (cause : string) : MD () :=
  transition a (λ tnow run,
    if (run_Status run =s RunFailed) && (att_Status (run_Attempt run) =s AttemptFailed) then
      if run_Error run =s cause then mret ()
      else raise (conflict "failure cause differs from the committed cause")
    else if run_Status run =s RunCancelling then raise (sentinel ErrRunCancelled)
    else if negb (att_Status (run_Attempt run) =s AttemptRunning) &&
            negb (att_Status (run_Attempt run) =s AttemptLeased)
    then raise (sentinel ErrInvalidTransition)
    else
      now ← time_now;
      update_run (run_ID run) (λ row, row <| rw_Run := (rw_Run row) <| run_Status := RunFailed |>
        <| run_Error := cause |> <| run_CompletedAt := Some (timestamptz now) |> |>) ;;
      update_attempt (att_ID (run_Attempt run))
        (λ a, a <| att_Status := AttemptFailed |> <| att_CompletedAt := Some (timestamptz now) |>) ;;
      appendEvent tnow (run_ID run) (att_ID (run_Attempt run)) "attempt.failed" (json_of_strings [("error", cause)]) ;;
      appendEvent tnow (run_ID run) (att_ID (run_Attempt run)) "run.failed" (json_of_strings [("error", cause)])).

(** ** Reading events *)
Definition sequence_le (a b : Event) : Prop := (ev_Sequence a ≤ ev_Sequence b)%Z.
#[local] Instance sequence_le_dec : RelDecision sequence_le := λ a b, decide ((ev_Sequence a ≤ ev_Sequence b)%Z).

Definition run_exists (runID : string) : MD () :=
  found ← query (λ t, relay_runs t !! runID);
  match found with Some _ => mret () | None => raise (sentinel ErrNotFound) end.

Definition EventsAfter (runID : string) (after : Z) : MD (list Event) :=
  run_exists runID ;;
  query (λ t, merge_sort sequence_le
                (List.filter (λ e, (after <? ev_Sequence e)%Z) (run_events runID (relay_events t)))).
Definition Events (runID : string) : MD (list Event) := EventsAfter runID 0.

(** ** Artifacts *)
Definition AddArtifact (a : Assignment) (artifact : Artifact) : MD () :=
  transition a (λ tnow run,
    if negb (att_Status (run_Attempt run) =s AttemptRunning) then raise (sentinel ErrInvalidTransition)
    else
      taken ← query (λ t, relay_artifacts t !! art_ID artifact);
      match taken with
      | Some _ => raise duplicate_key
      | None =>
          modify (λ t, t <| relay_artifacts := <[art_ID artifact :=
                     mkArtifactRow (artifact <| art_RunID := run_ID run |>) (att_ID (run_Attempt run)) tnow]>
                       (relay_artifacts t) |>) ;;
          appendEvent tnow (run_ID run) (att_ID (run_Attempt run)) "artifact.created" (AnyJson (json_Artifact artifact))
      end).

Definition artifact_le (a b : ArtifactRow) : Prop :=
  keyed_le (fw_CreatedAt a, art_ID (fw_Artifact a)) (fw_CreatedAt b, art_ID (fw_Artifact b)).
#[local] Instance artifact_le_dec : RelDecision artifact_le := λ a b, keyed_le_dec _ _.

(** The listing does not select [run_id]. *)
Definition Artifacts (runID : string) : MD (list Artifact) :=
  run_exists runID ;;
  query (λ t, map (λ row, (fw_Artifact row) <| art_RunID := "" |>)
    (merge_sort artifact_le (List.filter (λ row, art_RunID (fw_Artifact row) =s runID)
       (map snd (map_to_list (relay_artifacts t)))))).

Definition Artifact_ (artifactID : string) : MD Artifact :=
  row ← query (λ t, relay_artifacts t !! artifactID);
  match row with Some row => mret (fw_Artifact row) | None => raise (sentinel ErrNotFound) end.

(** ** Capability calls *)
Definition same_call (runID key : string) (c : CallRow) : bool := (cw_RunID c =s runID) && (cw_Key c =s key).

Definition ReserveCapability (a : Assignment) (key hash : string) (request : CapabilityRequest)
    : MD CapabilityReservation :=
  transition a (λ _ run,
    id ← newControlPlaneID "call";
    statement ;;
    calls ← gets relay_capability_calls;
    (if existsb (same_call (run_ID run) key) calls then mret ()
     else if existsb (λ c, cw_ID c =s id) calls then raise duplicate_key
     else modify (λ t, t <| relay_capability_calls := relay_capability_calls t ++
            [mkCallRow id (run_ID run) (att_ID (run_Attempt run)) key hash request "pending" None ""] |>)) ;;
    row ← query (λ t, List.find (same_call (run_ID run) key) (relay_capability_calls t));
    match row with
    | None => raise no_rows
    | Some row =>
        if negb (cw_Hash row =s hash) then raise (sentinel ErrIdempotencyConflict)
        else
          mret (mkReservation (cw_ID row) ((cw_Status row =s "pending") && (cw_ID row =s id))
                  (if cw_Status row =s "succeeded" then cw_Result row else None) (cw_Error row))
    end).

Definition finishable (a : Run) (callID : string) (c : CallRow) : bool :=
  (cw_ID c =s callID) && (cw_RunID c =s run_ID a) && (cw_Status c =s "pending").

Definition FinishCapability (a : Assignment) (reservation : CapabilityReservation) (result : CapabilityResult)
    (cause : string) : MD () :=
  transition a (λ tnow run,
    let status := if cause =s "" then "succeeded" else "failed" in
    calls ← query relay_capability_calls;
    if negb (existsb (finishable run (rsv_CallID reservation)) calls) then raise (sentinel ErrInvalidTransition)
    else
      modify (λ t, t <| relay_capability_calls := map (λ c,
                 if finishable run (rsv_CallID reservation) c
                 then c <| cw_Status := status |> <| cw_Result := Some (db_CapabilityResult result) |>
                        <| cw_Error := cause |>
                 else c) (relay_capability_calls t) |>) ;;
      appendEvent tnow (run_ID run) (att_ID (run_Attempt run)) "capability.recorded"
        (json_of_strings [("call_id", rsv_CallID reservation); ("status", status)])).

(** ** Listings *)
Definition in_scope (want have : string) : bool := (want =s "") || (have =s want).
Definition newer (a b : Run) : Prop := (run_CreatedAt b ≤ run_CreatedAt a)%Z.
#[local] Instance newer_dec : RelDecision newer := λ a b, decide ((run_CreatedAt b ≤ run_CreatedAt a)%Z).
Definition list_limit (limit : Z) : nat :=
  if (limit <=? 0)%Z || (200 <? limit)%Z then 50 else Z.to_nat limit.

(** Rows that the [ORDER BY] leaves tied come in some order. *)
Definition ListRuns (tenant project session : string) (limit : Z) : MD (list Run) :=
  statement ;;
  ids ← range_map relay_runs;
  gets (λ t, take (list_limit limit) (merge_sort newer
    (List.filter (λ r, in_scope tenant (run_TenantID r) && in_scope project (run_ProjectID r) &&
                       in_scope session (run_SessionID r)) (omap (scanRun t) ids)))).

Definition number_le (a b : Attempt) : Prop := (att_Number a ≤ att_Number b)%Z.
#[local] Instance number_le_dec : RelDecision number_le := λ a b, decide ((att_Number a ≤ att_Number b)%Z).

Definition Attempts (runID : string) : MD (list Attempt) :=
  statement ;;
  ids ← range_map relay_attempts;
  values ← gets (λ t, merge_sort number_le (map aw_Attempt
    (List.filter (λ row, aw_RunID row =s runID) (omap (λ id, relay_attempts t !! id) ids))));
  if length values =s 0 then raise (sentinel ErrNotFound) else mret values.

(** ** Interactions *)
Definition CreateInteraction (a : Assignment) (request : InteractionRequest) : MD Interaction :=
  transition a (λ tnow run,
    if negb (att_Status (run_Attempt run) =s AttemptRunning) then raise (sentinel ErrInvalidTransition)
    else
      id ← newControlPlaneID "interaction";
      now ← time_now;
      let value := mkInteraction id (run_ID run) (att_ID (run_Attempt run)) (ir_Kind request) "pending"
                     (ir_Prompt request) (ir_Data request) None now None in
      taken ← query (λ t, relay_interactions t !! id);
      match taken with
      | Some _ => raise duplicate_key
      | None =>
          let row := mkInteraction id (run_ID run) (att_ID (run_Attempt run)) (ir_Kind request) "pending"
                       (ir_Prompt request) (jsonb <$> ir_Data request) None (timestamptz now) None in
          modify (λ t, t <| relay_interactions := <[id := row]> (relay_interactions t) |>) ;;
          appendEvent tnow (run_ID run) (att_ID (run_Attempt run)) "interaction.requested"
            (AnyJson (json_Interaction value)) ;;
          mret value
      end).

Definition GetInteraction (a : Assignment) (id : string) : MD Interaction :=
  transition a (λ _ run,
    row ← query (λ t, relay_interactions t !! id);
    match row with
    | Some value => if ia_RunID value =s run_ID run then mret value else raise (sentinel ErrNotFound)
    | None => raise (sentinel ErrNotFound)
    end).

Definition older (a b : Interaction) : Prop := (ia_CreatedAt a ≤ ia_CreatedAt b)%Z.
#[local] Instance older_dec : RelDecision older := λ a b, decide ((ia_CreatedAt a ≤ ia_CreatedAt b)%Z).

Definition Interactions (runID : string) : MD (list Interaction) :=
  statement ;;
  ids ← range_map relay_interactions;
  gets (λ t, merge_sort older (List.filter (λ i, ia_RunID i =s runID) (omap (λ id, relay_interactions t !! id) ids))).

Definition ResolveInteraction (id : string) (response : option Json) (tenant project : string) : MD Interaction :=
  transaction (λ tnow,
    row ← query (λ t, value ← relay_interactions t !! id; run ← relay_runs t !! ia_RunID value;
                      if in_scope tenant (run_TenantID (rw_Run run)) && in_scope project (run_ProjectID (rw_Run run))
                      then Some value else None);
    match row with
    | None => raise (sentinel ErrNotFound)
    | Some value =>
        if negb (ia_State value =s "pending") then raise (sentinel ErrInvalidTransition)
        else
          now ← time_now;
          exec (λ t, t <| relay_interactions :=
            alter (λ row, row <| ia_State := "resolved" |> <| ia_Response := jsonb <$> response |>
                              <| ia_ResolvedAt := Some (timestamptz now) |>) id (relay_interactions t) |>) ;;
          appendEvent tnow (ia_RunID value) (ia_AttemptID value) "interaction.resolved"
            (json_of_strings [("interaction_id", id)]) ;;
          mret (value <| ia_State := "resolved" |> <| ia_Response := response |> <| ia_ResolvedAt := Some now |>)
    end).
End postgres.
