(* ===== verification/PostgresProps.v ===== *)
(** * PostgresProps: the tables refine the lifecycle of a run

    The PostgreSQL storage keeps the promises of [Lifecycle] that the in-memory
    storage keeps: every operation moves every run along the abstract state
    machine, and a superseded lease token is never accepted again.  Statements
    may fail at any point and commits may fail before or after they took
    effect. *)

From S2P Require Import Prelude GoStrings Json Types Matching Event Lifecycle Demo Postgres.

Section success.
Context {S : Type} `{Host} `{Server}.
Implicit Types w : World S.

(** What holds if [m] succeeds; an error inside a transaction undoes it. *)
Definition okp {A} (m : M S A) (Q : A → World S → Prop) w : Prop :=
  wp m (λ r w', w_tick w ≤ w_tick w' ∧ match r with Ok a => Q a w' | Err _ => True end) w.

Lemma okp_bind {A B} (m : M S A) (k : A → M S B) Q w :
  okp m (λ a w', okp (k a) Q w') w → okp (m ≫= k) Q w.
Proof.
  unfold okp. intros Hm. apply wp_bind. eapply wp_mono; [exact Hm|]. intros [a|e] w' [Ht Hk]; [|done].
  eapply wp_mono; [exact Hk|]. intros r w'' [Ht' Hq]. split; [lia|done].
Qed.
Lemma okp_ret {A} (a : A) Q w : Q a w → okp (mret a) Q w.
Proof. intros Hq. split; simpl; [lia|done]. Qed.
Lemma okp_raise {A} e (Q : A → World S → Prop) w : okp (raise e) Q w.
Proof. by split; simpl. Qed.
Lemma okp_lift_res {A} (r : Res A) Q w : (∀ a, r = Ok a → Q a w) → okp (lift_res r) Q w.
Proof. intros Hq. split; simpl; [lia|]. destruct r; auto. Qed.
Lemma okp_gets {A} (f : S → A) Q w : Q (f (w_st w)) w → okp (gets f) Q w.
Proof. intros Hq. by split; simpl. Qed.
Lemma okp_modify f (Q : () → World S → Prop) w : Q () (mkWorld (w_tick w) (f (w_st w))) → okp (modify f) Q w.
Proof. intros Hq. by split; simpl. Qed.
Lemma okp_host {A} (f : nat → A) Q w : Q (f (w_tick w)) (mkWorld (w_tick w + 1) (w_st w)) → okp (host f) Q w.
Proof. intros Hq. split; [simpl; lia|done]. Qed.
Lemma okp_statement (Q : () → World S → Prop) w : Q () (mkWorld (w_tick w + 1) (w_st w)) → okp statement Q w.
Proof.
  intros Hq. unfold statement. apply okp_bind, okp_host. destruct (db_fault_at _); [apply okp_raise|by apply okp_ret].
Qed.
Lemma okp_query {A} (f : S → A) Q w : Q (f (w_st w)) (mkWorld (w_tick w + 1) (w_st w)) → okp (query f) Q w.
Proof. intros Hq. unfold query. by apply okp_bind, okp_statement, okp_gets. Qed.
Lemma okp_exec f (Q : () → World S → Prop) w :
  Q () (mkWorld (w_tick w + 1) (f (w_st w))) → okp (exec f) Q w.
Proof. intros Hq. unfold exec. by apply okp_bind, okp_statement, okp_modify. Qed.
Lemma okp_mono {A} (m : M S A) (Q Q' : A → World S → Prop) w :
  okp m Q w → (∀ a w', w_tick w ≤ w_tick w' → Q a w' → Q' a w') → okp m Q' w.
Proof. unfold okp. intros Hm HQ. eapply wp_mono; [exact Hm|]. intros [a|e] w' [Ht Hq]; eauto. Qed.

(** A transaction took effect as a whole or did nothing; when it succeeds it
    took effect. *)
Lemma wp_transaction {A} (body : Z → M S A) (Q : A → World S → Prop) w :
  (∀ now w0, w_tick w ≤ w_tick w0 → w_st w0 = w_st w → okp (body now) Q w0) →
  wp (transaction body)
    (λ r w', w_tick w ≤ w_tick w' ∧
       (w_st w' = w_st w ∧ is_ok r = false ∨
        ∃ a w1, w_tick w ≤ w_tick w1 ≤ w_tick w' ∧ w_st w' = w_st w1 ∧ Q a w1 ∧ (r = Ok a ∨ is_ok r = false))) w.
Proof.
  intros Hbody. unfold wp, transaction, statement, mbind, M_bind, host, mret, M_ret, raise. simpl.
  destruct (db_fault_at (w_tick w)); simpl; [split; [lia|by left]|].
  set (w0 := mkWorld (w_tick w + 1 + 1) (w_st w)). set (now := db_now_at (w_tick w + 1)).
  pose proof (Hbody now w0) as Hb. unfold okp, wp in Hb.
  destruct (body now w0) as [[a|e] w1]; simpl in *; destruct Hb as [Ht Hq]; try lia; try done.
  - destruct (db_commit_at (w_tick w1)) as [[e [|]]|]; simpl; (split; [lia|]).
    + right. exists a, w1. split_and!; [lia|lia|done|done|by right].
    + by left.
    + right. exists a, w1. split_and!; [lia|lia|done|done|by left].
  - split; [lia|by left].
Qed.
End success.

(** ** The invariant *)

(** The phases of the lifecycle that these tables reach. *)
Definition table_phase (p : phase) : bool :=
  coherent p && negb (p =s (RunCancelling, AttemptQueued)).

Record pg_inv `{Host} (w : World Tables) : Prop := {
  pi_key : ∀ id row, relay_runs (w_st w) !! id = Some row → run_ID (rw_Run row) = id;
  pi_current : ∀ id row, relay_runs (w_st w) !! id = Some row →
    ∃ arow, relay_attempts (w_st w) !! rw_CurrentAttempt row = Some arow ∧ aw_RunID arow = id;
  pi_attempt : ∀ id arow, relay_attempts (w_st w) !! id = Some arow → att_ID (aw_Attempt arow) = id;
  pi_lease : ∀ id arow, relay_attempts (w_st w) !! id = Some arow →
    att_LeaseToken (aw_Attempt arow) = "" ∨ issued "lease" 0 (w_tick w) (att_LeaseToken (aw_Attempt arow));
  pi_phase : ∀ id run, scanRun (w_st w) id = Some run → table_phase (run_phase run) = true;
  pi_cancelling : ∀ id row, relay_runs (w_st w) !! id = Some row →
    run_Status (rw_Run row) = RunCancelling → is_Some (run_CancelRequestedAt (rw_Run row))
}.

(** From [w] to [w'] no run is lost and every run changes as the lifecycle allows. *)
Definition moved `{Host} (w w' : World Tables) : Prop :=
  w_tick w ≤ w_tick w' ∧ pg_inv w' ∧
  ∀ id run, scanRun (w_st w) id = Some run →
    ∃ run', scanRun (w_st w') id = Some run' ∧ run_change (w_tick w) (w_tick w') run run'.

(** The runs and attempts are as they were. *)
Definition same_core (t t' : Tables) : Prop :=
  relay_runs t' = relay_runs t ∧ relay_attempts t' = relay_attempts t.

Section moves.
Context `{HostLaws} `{Server}.
Implicit Types w : World Tables.

Lemma same_core_trans t1 t2 t3 : same_core t1 t2 → same_core t2 t3 → same_core t1 t3.
Proof. intros [R1 A1] [R2 A2]. split; congruence. Qed.
Lemma scanRun_core t t' id : same_core t t' → scanRun t' id = scanRun t id.
Proof. intros [Hr Ha]. unfold scanRun. by rewrite Hr, Ha. Qed.

Lemma inv_core w w' : w_tick w ≤ w_tick w' → same_core (w_st w) (w_st w') → pg_inv w → pg_inv w'.
Proof.
  intros Ht Hc [K C A L P R]. pose proof Hc as [Hr Ha]. constructor; rewrite ?Hr, ?Ha; try done.
  - intros id arow Hid. destruct (L id arow Hid) as [?|?]; [by left|right]. by eapply issued_mono.
  - intros id run. rewrite (scanRun_core _ _ _ Hc). apply P.
Qed.
Lemma moved_core w w' : w_tick w ≤ w_tick w' → same_core (w_st w) (w_st w') → pg_inv w → moved w w'.
Proof.
  intros Ht Hc Hi. split_and!; [done|by eapply inv_core|]. intros id run Hrun. exists run.
  rewrite (scanRun_core _ _ _ Hc). split; [done|apply run_change_refl].
Qed.
Lemma moved_trans w1 w2 w3 : moved w1 w2 → moved w2 w3 → moved w1 w3.
Proof.
  intros (T1 & I1 & M1) (T2 & I2 & M2). split_and!; [lia|done|]. intros id run Hrun.
  destruct (M1 id run Hrun) as (run' & Hrun' & C1). destruct (M2 id run' Hrun') as (run'' & Hrun'' & C2).
  exists run''. split; [done|]. by eapply run_change_trans.
Qed.

Lemma scanRun_Some t id run :
  scanRun t id = Some run →
  ∃ row arow, relay_runs t !! id = Some row ∧ relay_attempts t !! rw_CurrentAttempt row = Some arow ∧
    run = (rw_Run row) <| run_Attempt := aw_Attempt arow |>.
Proof.
  unfold scanRun. destruct (relay_runs t !! id) as [row|] eqn:Er; [|done]. simpl.
  destruct (relay_attempts t !! rw_CurrentAttempt row) as [arow|] eqn:Ea; [|done]. simpl.
  intros [= <-]. eauto 6.
Qed.

Lemma scanRun_ID w id run : pg_inv w → scanRun (w_st w) id = Some run → run_ID run = id.
Proof. intros Hi (row & arow & Hr & _ & ->)%scanRun_Some. simpl. by eapply pi_key. Qed.

(** A change of one run's row, that leaves its key alone and does not look at the joined attempt. *)
Definition row_change (F : RunRow → RunRow) (f : Run → Run) : Prop :=
  (∀ row, rw_Run (F row) = f (rw_Run row)) ∧
  (∀ r a, f (r <| run_Attempt := a |>) = (f r) <| run_Attempt := a |>) ∧ (∀ r, run_ID (f r) = run_ID r).

Definition on_attempt (G : Attempt → Attempt) (row : AttemptRow) : AttemptRow :=
  mkAttemptRow (aw_RunID row) (G (aw_Attempt row)).
Definition keeps_key (G : Attempt → Attempt) : Prop := ∀ a, att_ID (G a) = att_ID a.

Lemma current_ID w id run row :
  pg_inv w → scanRun (w_st w) id = Some run → relay_runs (w_st w) !! id = Some row →
  rw_CurrentAttempt row = att_ID (run_Attempt run).
Proof.
  intros Hi (row0 & arow & Er0 & Ea & ->)%scanRun_Some Er. rewrite Er in Er0. injection Er0 as <-. simpl.
  symmetry. by eapply pi_attempt.
Qed.

Definition run_after (f : Run → Run) (run : Run) (arow : AttemptRow) : Run :=
  (f run) <| run_Attempt := aw_Attempt arow |>.

(** The other runs are untouched. *)
Definition only (id : string) (t t' : Tables) : Prop :=
  ∀ id' run, id' ≠ id → scanRun t id' = Some run → scanRun t' id' = Some run.

Section row.
Context (w w' : World Tables) (id : string) (run : Run).
Context (F : RunRow → RunRow) (f : Run → Run) (G : Attempt → Attempt) (arow' : AttemptRow).
Hypothesis (Hi : pg_inv w) (Ht : w_tick w ≤ w_tick w') (Hrun : scanRun (w_st w) id = Some run).
Hypothesis (Hr : relay_runs (w_st w') = alter F id (relay_runs (w_st w))).
Hypothesis (Ha : relay_attempts (w_st w') = alter (on_attempt G) (att_ID (run_Attempt run)) (relay_attempts (w_st w))).
Hypothesis (HF : row_change F f) (HG : keeps_key G).
Hypothesis (Hcur : ∀ row, relay_runs (w_st w) !! id = Some row →
                     relay_attempts (w_st w') !! rw_CurrentAttempt (F row) = Some arow').
Hypothesis (Hown : aw_RunID arow' = id).

Lemma scan_changed : scanRun (w_st w') id = Some ((f run) <| run_Attempt := aw_Attempt arow' |>).
Proof.
  destruct (scanRun_Some _ _ _ Hrun) as (row & arow & Er & Ea & ->). destruct HF as (E1 & E2 & E3).
  unfold scanRun. rewrite Hr, lookup_alter_eq, Er. cbn [fmap option_fmap option_map mbind option_bind].
  rewrite (Hcur _ Er). cbn [mbind option_bind]. rewrite E1.
  by rewrite (E2 (rw_Run row) (aw_Attempt arow)).
Qed.

Lemma scan_only : only id (w_st w) (w_st w').
Proof.
  intros id' r Hne Hr'. destruct (scanRun_Some _ _ _ Hr') as (row' & arow1 & Er' & Ea' & ->).
  destruct (scanRun_Some _ _ _ Hrun) as (row & arow & Er & Ea & _).
  assert (rw_CurrentAttempt row' ≠ att_ID (run_Attempt run)).
  { rewrite <- (current_ID _ _ _ _ Hi Hrun Er). intros Heq. rewrite Heq in Ea'.
    destruct (pi_current _ Hi _ _ Er') as (x & Ex & Hx). destruct (pi_current _ Hi _ _ Er) as (y & Ey & Hy).
    rewrite Heq in Ex. congruence. }
  unfold scanRun. rewrite Hr, lookup_alter_ne, Er' by done. simpl. rewrite Ha, lookup_alter_ne, Ea' by done. done.
Qed.

Lemma scan_back id' r' :
  scanRun (w_st w') id' = Some r' →
  (id' = id ∧ r' = (f run) <| run_Attempt := aw_Attempt arow' |>) ∨ id' ≠ id ∧ scanRun (w_st w) id' = Some r'.
Proof.
  intros Hr'. destruct (decide (id' = id)) as [->|Hne].
  { left. split; [done|]. rewrite scan_changed in Hr'. congruence. }
  right. split; [done|].
  destruct (scanRun_Some _ _ _ Hr') as (row' & x' & Er' & _ & _). rewrite Hr, lookup_alter_ne in Er' by done.
  destruct (pi_current _ Hi _ _ Er') as (x & Ex & Hx).
  assert (Hold : scanRun (w_st w) id' = Some ((rw_Run row') <| run_Attempt := aw_Attempt x |>)).
  { unfold scanRun. rewrite Er'. simpl. by rewrite Ex. }
  rewrite Hold, <- Hr'. symmetry. by apply scan_only.
Qed.

Lemma moved_row :
  table_phase (run_phase (run_after f run arow')) = true →
  (run_Status (run_after f run arow') = RunCancelling → is_Some (run_CancelRequestedAt (run_after f run arow'))) →
  (att_LeaseToken (G (run_Attempt run)) = att_LeaseToken (run_Attempt run) ∨
   issued "lease" (w_tick w) (w_tick w') (att_LeaseToken (G (run_Attempt run)))) →
  run_change (w_tick w) (w_tick w') run (run_after f run arow') →
  moved w w' ∧ only id (w_st w) (w_st w').
Proof.
  intros Hphase Hcanc Htok Hchange. split; [|exact scan_only]. split; [done|].
  destruct (scanRun_Some _ _ _ Hrun) as (row & arow & Er & Ea & Erun). destruct HF as (E1 & E2 & E3).
  split.
  - constructor.
    + intros id' row'. rewrite Hr. destruct (decide (id' = id)) as [->|Hne].
      * rewrite lookup_alter_eq, Er. intros [= <-]. rewrite E1, E3. by eapply pi_key.
      * rewrite lookup_alter_ne by done. apply (pi_key _ Hi).
    + intros id' row'. rewrite Hr. destruct (decide (id' = id)) as [->|Hne].
      * rewrite lookup_alter_eq, Er. intros [= <-]. exists arow'. by rewrite (Hcur _ Er).
      * rewrite lookup_alter_ne by done. intros Er'. destruct (pi_current _ Hi _ _ Er') as (x & Ex & Hx).
        rewrite Ha. destruct (decide (rw_CurrentAttempt row' = att_ID (run_Attempt run))) as [Heq|Hne'].
        -- exists (on_attempt G x). rewrite Heq, lookup_alter_eq. rewrite Heq in Ex. by rewrite Ex.
        -- exists x. by rewrite lookup_alter_ne.
    + intros aid x'. rewrite Ha. destruct (decide (aid = att_ID (run_Attempt run))) as [->|Hne].
      * rewrite lookup_alter_eq. intros (x & Ex & ->)%fmap_Some. simpl. rewrite HG. by eapply pi_attempt.
      * rewrite lookup_alter_ne by done. apply (pi_attempt _ Hi).
    + intros aid x'. rewrite Ha. destruct (decide (aid = att_ID (run_Attempt run))) as [->|Hne].
      * rewrite lookup_alter_eq. intros (x & Ex & ->)%fmap_Some. simpl. rewrite <- (current_ID _ _ _ _ Hi Hrun Er), Ea in Ex.
        injection Ex as <-. rewrite Erun in Htok. simpl in Htok.
        destruct Htok as [->|Htok]; [|right; eapply issued_mono; [done|lia|done]].
        destruct (pi_lease _ Hi _ _ Ea); [by left|right; by eapply issued_mono].
      * rewrite lookup_alter_ne by done. intros Hx.
        destruct (pi_lease _ Hi _ _ Hx); [by left|right; by eapply issued_mono].
    + intros id' r' [[_ ->]|[_ Hold]]%scan_back; [done|by eapply pi_phase].
    + intros id' row'. rewrite Hr. destruct (decide (id' = id)) as [->|Hne].
      * rewrite lookup_alter_eq, Er. intros [= <-]. rewrite E1. intros Hc. revert Hcanc. unfold run_after. rewrite Erun, E2. simpl. auto.
      * rewrite lookup_alter_ne by done. apply (pi_cancelling _ Hi).
  - intros id' r Hr'. destruct (decide (id' = id)) as [->|Hne].
    + exists (run_after f run arow'). split; [exact scan_changed|]. congruence.
    + exists r. split; [by apply scan_only|apply run_change_refl].
Qed.
End row.

(** A change of one run and of its current attempt. *)
Lemma moved_local w w' id run F f G :
  pg_inv w → w_tick w ≤ w_tick w' → scanRun (w_st w) id = Some run →
  relay_runs (w_st w') = alter F id (relay_runs (w_st w)) →
  relay_attempts (w_st w') = alter (on_attempt G) (att_ID (run_Attempt run)) (relay_attempts (w_st w)) →
  row_change F f → (∀ row, rw_CurrentAttempt (F row) = rw_CurrentAttempt row) → keeps_key G →
  let run' := (f run) <| run_Attempt := G (run_Attempt run) |> in
  table_phase (run_phase run') = true →
  (run_Status run' = RunCancelling → is_Some (run_CancelRequestedAt run')) →
  run_change (w_tick w) (w_tick w') run run' →
  (att_LeaseToken (G (run_Attempt run)) = att_LeaseToken (run_Attempt run) ∨
   issued "lease" (w_tick w) (w_tick w') (att_LeaseToken (G (run_Attempt run)))) →
  moved w w' ∧ only id (w_st w) (w_st w').
Proof.
  intros Hi Ht Hrun Hr Ha HF Hc HG run' Hp Hcanc Hchange Htok.
  destruct (scanRun_Some _ _ _ Hrun) as (row & arow & Er & Ea & Erun).
  assert (Eid : rw_CurrentAttempt row = att_ID (run_Attempt run)) by (by eapply current_ID).
  assert (Hcur : ∀ row0, relay_runs (w_st w) !! id = Some row0 →
            relay_attempts (w_st w') !! rw_CurrentAttempt (F row0) = Some (on_attempt G arow)).
  { intros row0 Er0. rewrite Er in Er0. injection Er0 as <-. rewrite Hc, Ha, <- Eid, lookup_alter_eq. by rewrite Ea. }
  assert (Hown : aw_RunID (on_attempt G arow) = id).
  { simpl. destruct (pi_current _ Hi _ _ Er) as (x & Ex & Hx). congruence. }
  assert (Hafter : run' = run_after f run (on_attempt G arow)) by (unfold run', run_after; by subst run).
  rewrite Hafter in *. by apply (moved_row w w' id run F f G (on_attempt G arow)).
Qed.
End moves.

(** ** The statements *)
Section statements.
Context `{HostLaws} `{Encoder} `{Server}.
Implicit Types w : World Tables.

Lemma okp_update_run id F (Q : () → World Tables → Prop) w :
  Q () (mkWorld (w_tick w + 1) ((w_st w) <| relay_runs := alter F id (relay_runs (w_st w)) |>)) →
  okp (update_run id F) Q w.
Proof. apply (okp_exec (λ t, t <| relay_runs := alter F id (relay_runs t) |>)). Qed.
Lemma okp_update_attempt id G (Q : () → World Tables → Prop) w :
  Q () (mkWorld (w_tick w + 1) ((w_st w) <| relay_attempts := alter (on_attempt G) id (relay_attempts (w_st w)) |>)) →
  okp (update_attempt id G) Q w.
Proof. apply (okp_exec (λ t, t <| relay_attempts := alter (on_attempt G) id (relay_attempts t) |>)). Qed.
Lemma okp_insert_attempt runID a (Q : () → World Tables → Prop) w :
  (relay_attempts (w_st w) !! att_ID a = None →
   Q () (mkWorld (w_tick w + 1)
           ((w_st w) <| relay_attempts := <[att_ID a := mkAttemptRow runID a]> (relay_attempts (w_st w)) |>))) →
  okp (insert_attempt runID a) Q w.
Proof.
  intros Hq. unfold insert_attempt. apply okp_bind, okp_query.
  destruct (_ !! _) eqn:Ha; [apply okp_raise|]. by apply okp_modify, Hq.
Qed.

Lemma okp_put_event e (Q : () → World Tables → Prop) w :
  (∀ t', same_core (w_st w) t' → Q () (mkWorld (w_tick w + 1) t')) → okp (put_event e) Q w.
Proof.
  intros Hq. unfold put_event. apply okp_bind, okp_query. destruct (event_taken _ _); [apply okp_raise|].
  by apply okp_modify, Hq.
Qed.

(** Events change neither runs nor attempts. *)
Lemma okp_insertEvent now runID attemptID seq ty v (Q : () → World Tables → Prop) w :
  (∀ w', w_tick w ≤ w_tick w' → same_core (w_st w) (w_st w') → Q () w') →
  okp (insertEvent now runID attemptID seq ty v) Q w.
Proof.
  intros Hq. unfold insertEvent, newControlPlaneID. apply okp_bind.
  assert (Hrest : ∀ data : option Json, okp (id ← host (λ n, "event" +:+ "_" +:+ rand_at n);
            put_event (mkEvent id runID attemptID seq ty data (timestamptz now))) Q w).
  { intros data. apply okp_bind, okp_host, okp_put_event. intros t' Ht'. apply Hq; [simpl; lia|done]. }
  destruct v as [|j|msg]; simpl; [by apply okp_ret|by apply okp_ret|apply okp_raise].
Qed.
Lemma okp_appendEvent now runID attemptID ty v (Q : () → World Tables → Prop) w :
  (∀ w', w_tick w ≤ w_tick w' → same_core (w_st w) (w_st w') → Q () w') →
  okp (appendEvent now runID attemptID ty v) Q w.
Proof.
  intros Hq. unfold appendEvent. apply okp_bind, okp_query, okp_insertEvent. intros w' Ht Hc.
  apply Hq; [simpl in *; lia|done].
Qed.
End statements.

(** One step of a transaction's body. *)
Ltac okp_step :=
  lazymatch goal with
  | |- okp (let _ := _ in _) _ _ => cbv zeta
  | |- okp (mbind _ _) _ _ => apply okp_bind
  | |- okp (mret _) _ _ => apply okp_ret
  | |- okp (raise _) _ _ => apply okp_raise
  | |- okp (gets _) _ _ => apply okp_gets
  | |- okp (modify _) _ _ => apply okp_modify
  | |- okp (host _) _ _ => apply okp_host
  | |- okp time_now _ _ => apply okp_host
  | |- okp (newControlPlaneID _) _ _ => apply okp_host
  | |- okp statement _ _ => apply okp_statement
  | |- okp (query _) _ _ => apply okp_query
  | |- okp (exec _) _ _ => apply okp_exec
  | |- okp (update_run _ _) _ _ => apply okp_update_run
  | |- okp (update_attempt _ _) _ _ => apply okp_update_attempt
  | |- okp (insert_attempt _ _) _ _ => apply okp_insert_attempt; let Hno := fresh "Hno" in intros Hno
  | |- okp (appendEvent _ _ _ _ _) _ _ =>
      apply okp_appendEvent; let w' := fresh "w'" in let Ht := fresh "Ht" in let Hc := fresh "Hc" in intros w' Ht Hc
  | |- okp (insertEvent _ _ _ _ _ _) _ _ =>
      apply okp_insertEvent; let w' := fresh "w'" in let Ht := fresh "Ht" in let Hc := fresh "Hc" in intros w' Ht Hc
  | |- okp (if ?b then _ else _) _ _ => let E := fresh "E" in destruct b eqn:E
  end; cbn beta iota.

Section operations.
Context `{HostLaws} `{Encoder} `{Semver} `{Server}.
Implicit Types w : World Tables.

Lemma commit_change w id run F f G w' :
  pg_inv w → w_tick w ≤ w_tick w' → scanRun (w_st w) id = Some run →
  same_core ((w_st w) <| relay_runs := alter F id (relay_runs (w_st w)) |>
                    <| relay_attempts := alter (on_attempt G) (att_ID (run_Attempt run)) (relay_attempts (w_st w)) |>)
    (w_st w') →
  row_change F f → (∀ row, rw_CurrentAttempt (F row) = rw_CurrentAttempt row) → keeps_key G →
  let run' := (f run) <| run_Attempt := G (run_Attempt run) |> in
  table_phase (run_phase run') = true →
  (run_Status run' = RunCancelling → is_Some (run_CancelRequestedAt run')) →
  run_change (w_tick w) (w_tick w') run run' →
  (att_LeaseToken (G (run_Attempt run)) = att_LeaseToken (run_Attempt run) ∨
   issued "lease" (w_tick w) (w_tick w') (att_LeaseToken (G (run_Attempt run)))) →
  moved w w' ∧ only id (w_st w) (w_st w').
Proof. intros Hi Ht Hrun [Hr Ha]. by apply moved_local. Qed.

(** A change that keeps the attempt, its token and what is known of the cancellation. *)
Lemma change_in_place lo hi run run' :
  identity run' = identity run → terminal_phase (run_phase run) = false →
  rtc Lifecycle.transition (run_phase run) (run_phase run') →
  att_ID (run_Attempt run') = att_ID (run_Attempt run) → att_Number (run_Attempt run') = att_Number (run_Attempt run) →
  att_LeaseToken (run_Attempt run') = att_LeaseToken (run_Attempt run) →
  run_CancelRequestedAt run' = run_CancelRequestedAt run → run_CancelReason run' = run_CancelReason run →
  run_change lo hi run run'.
Proof. intros Hid Hterm Hp E1 E2 E3 E4 E5. constructor; auto. by rewrite Hterm. Qed.

Lemma alter_attempt_id i (m : gmap string AttemptRow) : alter (on_attempt (λ a, a)) i m = m.
Proof. apply alter_id. by intros [] _. Qed.
Lemma alter_run_id i (m : gmap string RunRow) : alter (λ r, r) i m = m.
Proof. by apply alter_id. Qed.

(** The phases of a run that can still change, by its status. *)
Lemma cancelling_phase run :
  table_phase (run_phase run) = true → run_Status run = RunCancelling →
  att_Status (run_Attempt run) = AttemptLeased ∨ att_Status (run_Attempt run) = AttemptRunning.
Proof. unfold table_phase, run_phase. intros Hp Hs. rewrite Hs in Hp. destruct (att_Status _); auto; done. Qed.
Lemma open_phase run :
  table_phase (run_phase run) = true → terminalRunStatus (run_Status run) = false → run_Status run ≠ RunCancelling →
  run_phase run = (RunQueued, AttemptQueued) ∨ run_phase run = (RunQueued, AttemptLeased) ∨
  run_phase run = (RunRunning, AttemptRunning).
Proof.
  unfold table_phase, run_phase. destruct (run_Status run), (att_Status (run_Attempt run)); simpl; auto; done.
Qed.

Lemma finalize_moved tnow now w run :
  pg_inv w → scanRun (w_st w) (run_ID run) = Some run → run_Status run = RunCancelling →
  okp (finalizeCancellationTx tnow run now) (λ _ w', moved w w' ∧ only (run_ID run) (w_st w) (w_st w')) w.
Proof.
  intros Hi Hrun Hs. pose proof (pi_phase _ Hi _ _ Hrun) as Hp. unfold finalizeCancellationTx. rewrite Hs. simpl.
  repeat okp_step. eapply (commit_change w (run_ID run) run).
  - done.
  - simpl in *; lia.
  - done.
  - eapply same_core_trans; [|exact Hc0]. exact Hc.
  - instantiate (1 := λ r, r <| run_Status := RunCancelled |> <| run_CompletedAt := Some (timestamptz now) |>
            <| run_CancelledAt := Some (timestamptz now) |>). by repeat split.
  - done.
  - done.
  - done.
  - done.
  - apply change_in_place; try done; unfold run_phase, terminal_phase; rewrite Hs; [done|].
    destruct (cancelling_phase _ Hp Hs) as [->| ->]; apply rtc_once; simpl; auto with relay.
  - by left.
Qed.

Lemma requestCancel_moved tnow now w run request :
  pg_inv w → scanRun (w_st w) (run_ID run) = Some run →
  okp (requestCancelTx tnow run request now) (λ _ w', moved w w' ∧ only (run_ID run) (w_st w) (w_st w')) w.
Proof.
  intros Hi Hrun. pose proof (pi_phase _ Hi _ _ Hrun) as Hp. unfold requestCancelTx.
  destruct (_ || _) eqn:E; [apply okp_ret; split; [by apply moved_core|by intros id' r']|].
  apply orb_false_iff in E as [Hterm Hreq%negb_false_iff%bool_decide_eq_true].
  assert (Hs : run_Status run ≠ RunCancelling).
  { intros Hs. destruct (scanRun_Some _ _ _ Hrun) as (row & arow & Er & Ea & Erun). rewrite Erun in Hs, Hreq.
    destruct (pi_cancelling _ Hi _ _ Er Hs) as [t Ht]. simpl in Hreq. congruence. }
  pose proof (open_phase _ Hp Hterm Hs) as Hopen.
  assert (Htp : terminal_phase (run_phase run) = false) by (by destruct Hopen as [->|[->| ->]]).
  assert (Hnew : ∀ lo hi run', identity run' = identity run → rtc Lifecycle.transition (run_phase run) (run_phase run') →
            att_ID (run_Attempt run') = att_ID (run_Attempt run) →
            att_Number (run_Attempt run') = att_Number (run_Attempt run) →
            att_LeaseToken (run_Attempt run') = att_LeaseToken (run_Attempt run) → run_change lo hi run run').
  { intros lo hi run' H1' H2' H3' H4' H5'. constructor; auto; [by rewrite Htp|]. rewrite Hreq. by intros [? ?]. }
  set (f1 := λ r : Run, r <| run_Status := RunCancelling |> <| run_CancelRequestedAt := Some (timestamptz now) |>
                          <| run_CancelReason := cancel_Reason request |>).
  do 5 okp_step.
  - (* the attempt was in the queue *)
    apply bool_decide_eq_true in E. simpl in E. unfold finalizeCancellationTx. simpl. repeat okp_step.
    eapply (commit_change w (run_ID run) run _
              (λ r, (f1 r) <| run_Status := RunCancelled |> <| run_CompletedAt := Some (timestamptz now) |>
                      <| run_CancelledAt := Some (timestamptz now) |>)).
    + done.
    + simpl in *; lia.
    + done.
    + eapply same_core_trans; [|exact Hc1]. eapply same_core_trans; [|exact Hc0]. destruct Hc as [Hr Ha].
      split; simpl in *; [|by rewrite Ha]. rewrite Hr. apply alter_alter_eq.
    + split_and!; [done|done|done].
    + done.
    + done.
    + done.
    + done.
    + apply Hnew; try done. unfold run_phase. simpl. rewrite E.
      destruct Hopen as [Ho|[Ho|Ho]]; injection Ho as Ho1 Ho2; rewrite Ho2 in E; try done. rewrite Ho1.
      apply rtc_once. auto with relay.
    + by left.
  - (* a node holds it *)
    apply bool_decide_eq_false in E. simpl in E. okp_step.
    eapply (commit_change w (run_ID run) run _ f1 (λ a, a)).
    + done.
    + simpl in *; lia.
    + done.
    + eapply same_core_trans; [|exact Hc]. split; simpl; [done|]. by rewrite alter_attempt_id.
    + by repeat split.
    + done.
    + done.
    + unfold table_phase, run_phase. simpl.
      destruct Hopen as [Ho|[Ho|Ho]]; injection Ho as Ho1 Ho2; rewrite Ho2 in *; done.
    + by eexists.
    + apply Hnew; try done. unfold run_phase. simpl.
      destruct Hopen as [Ho|[Ho|Ho]]; injection Ho as Ho1 Ho2; rewrite Ho2 in *; rewrite ?Ho1; try done;
        apply rtc_once; auto with relay.
    + by left.
Qed.

(** ** Guarded changes *)
Lemma transaction_moved {A} (body : Z → MD A) w :
  pg_inv w →
  (∀ now w0, w_tick w ≤ w_tick w0 → w_st w0 = w_st w → pg_inv w0 → okp (body now) (λ _ w', moved w0 w') w0) →
  moved w (transaction body w).2.
Proof.
  intros Hi Hbody. assert (Hwp : wp (transaction body) (λ _ w', moved w w') w); [|exact Hwp].
  eapply wp_mono; [apply (wp_transaction _ (λ _ w1, moved w w1))|].
  - intros now w0 Ht Hs. assert (Hi0 : pg_inv w0) by (eapply inv_core; [exact Ht|by rewrite Hs|exact Hi]).
    eapply okp_mono; [by apply Hbody|]. intros x w' _ Hm. eapply moved_trans; [|exact Hm].
    apply moved_core; [done|by rewrite Hs|done].
  - intros r w' [Ht [[Hs _]|(x & w1 & Ht1 & Hs & Hm & _)]]; [apply moved_core; [done|by rewrite Hs|done]|].
    eapply moved_trans; [exact Hm|]. apply moved_core; [lia|by rewrite Hs|apply Hm].
Qed.

(** Going on after statements that left the tables alone. *)
Lemma okp_moved_after {A} (m : MD A) w0 w1 :
  pg_inv w0 → w_tick w0 ≤ w_tick w1 → w_st w1 = w_st w0 →
  (pg_inv w1 → okp m (λ _ w', moved w1 w') w1) → okp m (λ _ w', moved w0 w') w1.
Proof.
  intros Hi Ht Hs Hm. assert (Hi1 : pg_inv w1) by (eapply inv_core; [exact Ht|by rewrite Hs|exact Hi]).
  eapply okp_mono; [by apply Hm|]. intros x w' _ Hmv. eapply moved_trans; [|exact Hmv].
  apply moved_core; [done|by rewrite Hs|done].
Qed.

Lemma transition_moved {A} a (change : Z → Run → MD A) w :
  pg_inv w →
  (∀ tnow run w0, w_tick w ≤ w_tick w0 → pg_inv w0 → scanRun (w_st w0) (run_ID run) = Some run →
     table_phase (run_phase run) = true → okp (change tnow run) (λ _ w', moved w0 w') w0) →
  moved w (transition a change w).2.
Proof.
  intros Hi Hchange. apply transaction_moved; [done|]. intros now w0 Ht Hs Hi0.
  do 2 okp_step. destruct (scanRun (w_st w0) (asg_RunID a)) as [run|] eqn:Hrun; [|okp_step].
  assert (Hgo : ∀ w1, w_tick w0 ≤ w_tick w1 → w_st w1 = w_st w0 → okp (change now run) (λ _ w', moved w0 w') w1).
  { intros w1 Ht1 Hs1. apply okp_moved_after; try done. intros Hi1. apply Hchange; [lia|done| |].
    - rewrite Hs1, (scanRun_ID _ _ _ Hi0 Hrun). done.
    - exact (pi_phase _ Hi0 _ _ Hrun). }
  do 2 okp_step; [apply Hgo; [simpl; lia|done]|].
  destruct (att_LeaseExpiresAt (run_Attempt run)); [|okp_step].
  do 3 okp_step; [okp_step|apply Hgo; [simpl; lia|done]].
Qed.

(** The terminal reports and the start: one change of the run and its attempt. *)
Lemma report_moved w0 w' run F f G :
  pg_inv w0 → w_tick w0 ≤ w_tick w' → scanRun (w_st w0) (run_ID run) = Some run →
  same_core ((w_st w0) <| relay_runs := alter F (run_ID run) (relay_runs (w_st w0)) |>
                    <| relay_attempts := alter (on_attempt G) (att_ID (run_Attempt run)) (relay_attempts (w_st w0)) |>)
    (w_st w') →
  row_change F f → (∀ row, rw_CurrentAttempt (F row) = rw_CurrentAttempt row) → keeps_key G →
  let run' := (f run) <| run_Attempt := G (run_Attempt run) |> in
  identity run' = identity run →
  Lifecycle.transition (run_phase run) (run_phase run') → run_Status run' ≠ RunCancelling →
  att_Number (run_Attempt run') = att_Number (run_Attempt run) →
  att_LeaseToken (run_Attempt run') = att_LeaseToken (run_Attempt run) →
  run_CancelRequestedAt run' = run_CancelRequestedAt run → run_CancelReason run' = run_CancelReason run →
  moved w0 w'.
Proof.
  intros Hi Ht Hrun Hc HF Hcur HG run' Hid Htr Hs H1' H2' H3' H4'.
  eapply (commit_change w0 (run_ID run) run F f G w'); try done.
  - pose proof (transition_coherent _ _ Htr) as [_ Hcoh]. unfold table_phase. apply andb_true_iff. split; [exact Hcoh|].
    apply negb_true_iff, bool_decide_eq_false. intros [= Heq _]. done.
  - apply change_in_place; try done; [by eapply transition_not_terminal|by apply rtc_once|exact (HG (run_Attempt run))].
  - by left.
Qed.

Lemma Start_moved a w : pg_inv w → moved w (Start a w).2.
Proof.
  intros Hi. apply transition_moved; [done|]. intros tnow run w0 _ Hi0 Hrun Hp.
  do 2 okp_step; [okp_step|]. okp_step. apply negb_false_iff, bool_decide_eq_true in E0.
  apply bool_decide_eq_false in E.
  assert (Hs : run_Status run = RunQueued).
  { unfold table_phase, run_phase in Hp. rewrite E0 in Hp. by destruct (run_Status run). }
  eapply (okp_mono _ (λ _ w1, w_st w1 = w_st w0)); [destruct (att_LeaseExpiresAt _); repeat okp_step; done|].
  intros over w1 Ht1 Hs1. okp_step; [okp_step|]. repeat okp_step.
  eapply (report_moved w0 _ run _ (λ r, r <| run_Status := RunRunning |>
            <| run_StartedAt := Some (timestamptz (now_at (w_tick w1))) |>));
    [done|simpl in *; lia|done|eapply same_core_trans; [|exact Hc0]; simpl in Hc; rewrite Hs1 in Hc; exact Hc|try done..].
  unfold run_phase. simpl. rewrite Hs, E0. constructor.
Qed.

Lemma Complete_moved a result w : pg_inv w → moved w (Complete a result w).2.
Proof.
  intros Hi. apply transition_moved; [done|]. intros tnow run w0 _ Hi0 Hrun Hp.
  okp_step.
  { destruct (run_Result run); [okp_step|okp_step]; okp_step. by apply moved_core. }
  do 2 okp_step; [okp_step|]. apply negb_false_iff, bool_decide_eq_true in E1. apply bool_decide_eq_false in E0.
  assert (Hs : run_Status run = RunRunning).
  { unfold table_phase, run_phase in Hp. rewrite E1 in Hp. by destruct (run_Status run). }
  repeat okp_step.
  eapply (report_moved w0 _ run _ (λ r, r <| run_Status := RunSucceeded |> <| run_Result := Some (db_Result result) |>
            <| run_CompletedAt := Some (timestamptz (now_at (w_tick w0))) |>));
    [done|simpl in *; lia|done|eapply same_core_trans; [|exact Hc0]; exact Hc|try done..].
  unfold run_phase. simpl. rewrite Hs, E1. constructor.
Qed.

Lemma Fail_moved a cause w : pg_inv w → moved w (Fail a cause w).2.
Proof.
  intros Hi. apply transition_moved; [done|]. intros tnow run w0 _ Hi0 Hrun Hp.
  okp_step; [okp_step; okp_step; by apply moved_core|].
  do 2 okp_step; [okp_step|]. apply andb_false_iff in E1. rewrite !negb_false_iff, !bool_decide_eq_true in E1.
  apply bool_decide_eq_false in E0.
  repeat okp_step.
  eapply (report_moved w0 _ run _ (λ r, r <| run_Status := RunFailed |> <| run_Error := cause |>
            <| run_CompletedAt := Some (timestamptz (now_at (w_tick w0))) |>));
    [done|simpl in *; lia|done|eapply same_core_trans; [|exact Hc0]; exact Hc|try done..].
  unfold table_phase, run_phase in *. simpl. destruct E1 as [E1|E1]; rewrite E1 in *;
      destruct (run_Status run); try done; constructor.
Qed.

Lemma AcknowledgeCancellation_moved a w : pg_inv w → moved w (AcknowledgeCancellation a w).2.
Proof.
  intros Hi. apply transition_moved; [done|]. intros tnow run w0 _ Hi0 Hrun Hp.
  do 2 okp_step; [by apply moved_core|okp_step|]. apply negb_false_iff, bool_decide_eq_true in E0.
  do 2 okp_step. set (w1 := mkWorld (w_tick w0 + 1) (w_st w0)).
  assert (Hm : moved w0 w1) by (apply moved_core; [simpl; lia|done|done]).
  eapply okp_mono; [apply finalize_moved; [apply Hm|done|done]|]. intros u w' _ [Hm' _]. by eapply moved_trans.
Qed.

(** A change of the current attempt alone. *)
Lemma attempt_moved w0 w' run G :
  pg_inv w0 → w_tick w0 ≤ w_tick w' → scanRun (w_st w0) (run_ID run) = Some run →
  same_core ((w_st w0) <| relay_attempts :=
               alter (on_attempt G) (att_ID (run_Attempt run)) (relay_attempts (w_st w0)) |>) (w_st w') →
  keeps_key G → terminal_phase (run_phase run) = false →
  let a := run_Attempt run in
  table_phase (run_Status run, att_Status (G a)) = true →
  rtc Lifecycle.transition (run_phase run) (run_Status run, att_Status (G a)) →
  att_Number (G a) = att_Number a →
  (att_LeaseToken (G a) = att_LeaseToken a ∨ issued "lease" (w_tick w0) (w_tick w') (att_LeaseToken (G a))) →
  moved w0 w'.
Proof.
  intros Hi Ht Hrun Hc HG Hterm a Hp Htr Hn Htok.
  eapply (commit_change w0 (run_ID run) run (λ r, r) (λ r, r) G w'); try done.
  - eapply same_core_trans; [|exact Hc]. split; simpl; [by rewrite alter_run_id|done].
  - simpl. intros Hs. destruct (scanRun_Some _ _ _ Hrun) as (row & arow & Er & Ea & Erun). rewrite Erun in *.
    by eapply (pi_cancelling _ Hi).
  - constructor; simpl; auto; [by rewrite Hterm|destruct Htok; auto].
Qed.

Lemma held_open run :
  table_phase (run_phase run) = true →
  att_Status (run_Attempt run) = AttemptLeased ∨ att_Status (run_Attempt run) = AttemptRunning →
  terminal_phase (run_phase run) = false.
Proof. unfold table_phase, run_phase. intros Hp [Ha|Ha]; rewrite Ha in *; by destruct (run_Status run). Qed.

Lemma Renew_moved a ttl w : pg_inv w → moved w (Renew a ttl w).2.
Proof.
  intros Hi. apply transaction_moved; [done|]. intros now w0 _ _ Hi0.
  do 2 okp_step. destruct (scanRun (w_st w0) (asg_RunID a)) as [run|] eqn:Hrun; [|okp_step].
  pose proof (pi_phase _ Hi0 _ _ Hrun) as Hp. pose proof (scanRun_ID _ _ _ Hi0 Hrun) as Hid.
  do 4 okp_step; [okp_step..|]. apply andb_false_iff in E0. rewrite !negb_false_iff, !bool_decide_eq_true in E0.
  repeat okp_step. eapply (attempt_moved w0 _ run);
    [done|simpl; lia|by rewrite Hid|by split|done|by apply held_open|done|apply rtc_refl|done|by left].
Qed.

Lemma lease_run_moved tnow nodeID ttl run request w :
  pg_inv w → scanRun (w_st w) (run_ID run) = Some run → claimable tnow run = true →
  okp (lease_run tnow nodeID ttl run request) (λ _ w', moved w w') w.
Proof.
  intros Hi Hrun Hcl. unfold claimable in Hcl. apply andb_true_iff in Hcl as [[Hs%bool_decide_eq_true _]%andb_true_iff Hst].
  assert (Ha : att_Status (run_Attempt run) = AttemptQueued ∨ att_Status (run_Attempt run) = AttemptLeased).
  { apply orb_true_iff in Hst as [[?%bool_decide_eq_true _]%andb_true_iff|[?%bool_decide_eq_true _]%andb_true_iff]; auto. }
  unfold lease_run. do 3 okp_step.
  apply (okp_mono _ (λ _ w1, same_core (w_st w) (w_st w1))); [destruct (_ && _); repeat okp_step; done|].
  intros u w1 Ht1 Hs1. simpl in Ht1. repeat okp_step.
  eapply (attempt_moved w _ run); [done|simpl in *; lia|done|eapply same_core_trans; [|exact Hc]| | | | | |].
  - destruct Hs1 as [Hr1 Ha1]. split; simpl; [done|by rewrite Ha1].
  - done.
  - unfold terminal_phase, run_phase. simpl. by rewrite Hs.
  - unfold run_phase. simpl. by rewrite Hs.
  - unfold run_phase. simpl. rewrite Hs. destruct Ha as [->| ->]; [apply rtc_once; constructor|].
    eapply rtc_l; [constructor|]. apply rtc_once. constructor.
  - done.
  - right. simpl. exists (w_tick w1). split; [simpl in *; lia|done].
Qed.

Lemma claim_scan_moved tnow n ttl ids w :
  pg_inv w → okp (claim_scan tnow n ttl ids) (λ _ w', moved w w') w.
Proof.
  revert w. induction ids as [|id ids IH]; intros w Hi; simpl; [okp_step|]. repeat okp_step.
  set (w1 := mkWorld _ _). assert (Hnext : okp (claim_scan tnow n ttl ids) (λ _ w', moved w w') w1).
  { apply okp_moved_after; [done|simpl; lia|done|auto]. }
  destruct (scanRun _ id) as [run|] eqn:Hrun; simpl; [|done].
  destruct (relay_runs (w_st w) !! id) as [row|] eqn:Er; simpl; [|done].
  okp_step; [done|]. apply orb_false_iff in E as [[_ Hcl%negb_false_iff]%orb_false_iff _].
  apply okp_moved_after; [done|simpl; lia|done|]. intros Hi1. apply lease_run_moved; [done| |done].
  by rewrite (scanRun_ID _ _ _ Hi Hrun).
Qed.

Lemma Claim_moved nodeID ttl w : pg_inv w → moved w (Claim nodeID ttl w).2.
Proof.
  intros Hi. apply transaction_moved; [done|]. intros now w0 _ _ Hi0. do 2 okp_step.
  destruct (scanNode _ _ _) as [n|]; [|okp_step]. do 3 okp_step.
  apply okp_moved_after; [done|simpl; lia|done|]. apply claim_scan_moved.
Qed.
End operations.
