(* ===== verification/PostgresSystem.v ===== *)
(** * PostgresSystem: every operation on the tables, and the properties

    Submission, recovery and the operations that leave runs alone; the
    operations as a type, their histories, and what holds along them. *)

From S2P Require Import Prelude GoStrings Json Types Matching Event Lifecycle Demo MemorySystem Scenario Postgres PostgresProps.

Section operations.
Context `{HostLaws} `{Encoder} `{Semver} `{Server}.
Implicit Types w : World Tables.

(** ** Submission *)
Lemma moved_insert w w' id row a :
  pg_inv w → w_tick w ≤ w_tick w' →
  relay_runs (w_st w) !! id = None → relay_attempts (w_st w) !! att_ID a = None →
  relay_runs (w_st w') = <[id := row]> (relay_runs (w_st w)) →
  relay_attempts (w_st w') = <[att_ID a := mkAttemptRow id a]> (relay_attempts (w_st w)) →
  run_ID (rw_Run row) = id → rw_CurrentAttempt row = att_ID a → att_LeaseToken a = "" →
  run_Status (rw_Run row) = RunQueued → att_Status a = AttemptQueued →
  moved w w'.
Proof.
  intros Hi Ht Hnr Hna Hr Ha Hid Hcur Htok Hs Has.
  assert (Hold : ∀ id' run, scanRun (w_st w) id' = Some run → scanRun (w_st w') id' = Some run).
  { intros id' run (row' & arow & Er & Ea & ->)%scanRun_Some. unfold scanRun.
    rewrite Hr, lookup_insert_ne, Er by congruence. cbn [mbind option_bind].
    rewrite Ha, lookup_insert_ne, Ea by congruence. done. }
  split; [done|]. split.
  - constructor.
    + intros id' row'. rewrite Hr. destruct (decide (id' = id)) as [->|Hne];
        [rewrite lookup_insert_eq; by intros [= <-]|rewrite lookup_insert_ne by done; apply (pi_key _ Hi)].
    + intros id' row'. rewrite Hr. destruct (decide (id' = id)) as [->|Hne].
      * rewrite lookup_insert_eq. intros [= <-]. exists (mkAttemptRow id a). by rewrite Ha, Hcur, lookup_insert_eq.
      * rewrite lookup_insert_ne by done. intros Er. destruct (pi_current _ Hi _ _ Er) as (x & Ex & Hx).
        exists x. by rewrite Ha, lookup_insert_ne by congruence.
    + intros aid arow. rewrite Ha. destruct (decide (aid = att_ID a)) as [->|Hne];
        [rewrite lookup_insert_eq; by intros [= <-]|rewrite lookup_insert_ne by done; apply (pi_attempt _ Hi)].
    + intros aid arow. rewrite Ha. destruct (decide (aid = att_ID a)) as [->|Hne].
      * rewrite lookup_insert_eq. intros [= <-]. by left.
      * rewrite lookup_insert_ne by done. intros Hx.
        destruct (pi_lease _ Hi _ _ Hx); [by left|right; by eapply issued_mono].
    + intros id' run Hrun. destruct (decide (id' = id)) as [->|Hne].
      * unfold scanRun in Hrun. rewrite Hr, lookup_insert_eq in Hrun. cbn [mbind option_bind] in Hrun.
        rewrite Ha, Hcur, lookup_insert_eq in Hrun. cbn [mbind option_bind] in Hrun. injection Hrun as <-.
        unfold run_phase. simpl. by rewrite Hs, Has.
      * destruct (scanRun_Some _ _ _ Hrun) as (row' & arow & Er & _ & _). rewrite Hr, lookup_insert_ne in Er by done.
        destruct (pi_current _ Hi _ _ Er) as (x & Ex & _).
        assert (Hrun0 : scanRun (w_st w) id' = Some ((rw_Run row') <| run_Attempt := aw_Attempt x |>)).
        { unfold scanRun. rewrite Er. cbn [mbind option_bind]. by rewrite Ex. }
        pose proof (Hold _ _ Hrun0) as Hrun1. rewrite Hrun in Hrun1. injection Hrun1 as ->. by eapply pi_phase.
    + intros id' row'. rewrite Hr. destruct (decide (id' = id)) as [->|Hne];
        [rewrite lookup_insert_eq; intros [= <-]; congruence|rewrite lookup_insert_ne by done; apply (pi_cancelling _ Hi)].
  - intros id' run Hrun. exists run. split; [by apply Hold|apply run_change_refl].
Qed.

Lemma reads_query {A} (f : Tables → A) : reads (query f).
Proof. intros w. unfold query, statement, host, gets, raise, mbind, M_bind, mret, M_ret. simpl.
  destruct (db_fault_at _); simpl; split; (lia || done). Qed.
Lemma GetRun_reads id : reads (GetRun id).
Proof.
  unfold GetRun. apply reads_bind; [apply reads_query|]. intros [run|] w; simpl; split; (lia || done).
Qed.

Lemma moved_then_reads {A B} (m : MD A) (k : A → MD B) w :
  moved w (m w).2 → (∀ a, reads (k a)) → moved w ((m ≫= k) w).2.
Proof.
  intros Hm Hk. unfold mbind, M_bind. destruct (m w) as [[a|e] w1]; simpl in *; [|done].
  destruct (Hk a w1) as [Ht Hs]. eapply moved_trans; [exact Hm|]. apply moved_core; [done|by rewrite Hs|apply Hm].
Qed.

Lemma moved_host {A B} (f : nat → A) (k : A → MD B) w :
  pg_inv w → (∀ a w1, w_st w1 = w_st w → pg_inv w1 → moved w1 (k a w1).2) → moved w ((host f ≫= k) w).2.
Proof.
  intros Hi Hk. set (w1 := mkWorld (w_tick w + 1) (w_st w)).
  assert (Hm : moved w w1) by (apply moved_core; [simpl; lia|done|done]).
  eapply moved_trans; [exact Hm|]. apply (Hk (f (w_tick w)) w1); [done|apply Hm].
Qed.

Lemma Submit_moved request w : pg_inv w → moved w (Submit request w).2.
Proof.
  intros Hi. unfold Submit, newControlPlaneID, time_now.
  apply moved_host; [done|]. intros runID w1 _ Hi1. apply moved_host; [done|]. intros attemptID w2 _ Hi2.
  apply moved_host; [done|]. intros now w3 _ Hi3. apply moved_then_reads; [|apply GetRun_reads].
  apply transaction_moved; [done|]. intros tnow w0 _ _ Hi0. do 2 okp_step.
  destruct (find_scope request _); [do 3 okp_step; by apply moved_core; [simpl; lia|..]|].
  do 2 okp_step. destruct (relay_runs _ !! _) eqn:Hno; [okp_step|]. repeat okp_step.
  destruct Hc as [Hr1 Ha1], Hc0 as [Hr2 Ha2].
  eapply (moved_insert w0); [done|simpl in *; lia|exact Hno|exact Hno0|rewrite Hr2, Hr1; done|rewrite Ha2, Ha1; done|..];
    done.
Qed.

Lemma CancelRun_moved runID request w : pg_inv w → moved w (CancelRun runID request w).2.
Proof.
  intros Hi. unfold CancelRun. apply moved_then_reads; [|intros _; apply GetRun_reads].
  apply transaction_moved; [done|]. intros tnow w0 _ _ Hi0. do 2 okp_step.
  destruct (scanRun _ runID) as [run|] eqn:Hrun; [|okp_step]. do 2 okp_step.
  apply okp_moved_after; [done|simpl; lia|done|]. intros Hi1. eapply okp_mono; [apply requestCancel_moved; [done|]|].
  - by rewrite (scanRun_ID _ _ _ Hi0 Hrun).
  - by intros u w' _ [Hm _].
Qed.

(** ** Recovery *)

(** The runs that are selected. *)
Definition selected (P : Run → bool) (t : Tables) (ids : list string) : Prop :=
  NoDup ids ∧ ∀ id, id ∈ ids → ∃ run, scanRun t id = Some run ∧ P run = true.

Lemma ordered_perm key rows : ordered key rows ≡ₚ map run_ID rows.
Proof.
  unfold ordered. rewrite merge_sort_Permutation. rewrite map_map. simpl. done.
Qed.

Lemma NoDup_map_filter {A} (f : A → string) P (l : list A) : NoDup (map f l) → NoDup (map f (List.filter P l)).
Proof.
  induction l as [|x l IH]; simpl; [done|]. intros [Hx Hl]%NoDup_cons. destruct (P x); simpl; [|by apply IH].
  apply NoDup_cons. split; [|by apply IH]. intros Hin. apply Hx.
  apply list_elem_of_In, in_map_iff in Hin as (y & <- & [Hy _]%filter_In). by apply list_elem_of_In, in_map.
Qed.
Lemma NoDup_scanned w ids : pg_inv w → NoDup ids → NoDup (map run_ID (omap (scanRun (w_st w)) ids)).
Proof.
  intros Hi. induction 1 as [|id ids Hnin Hnd IH]; simpl; [constructor|].
  destruct (scanRun (w_st w) id) as [run|] eqn:Hrun; simpl; [|done]. constructor; [|done].
  rewrite (scanRun_ID _ _ _ Hi Hrun). intros Hin.
  apply list_elem_of_In, in_map_iff in Hin as (y & Hy & Hiny).
  apply list_elem_of_In, list_elem_of_omap in Hiny as (id' & Hid' & Hy').
  rewrite (scanRun_ID _ _ _ Hi Hy') in Hy. congruence.
Qed.

Lemma okp_select_unlocked P key limit w :
  pg_inv w →
  okp (select_unlocked P key limit) (λ ids w', w_st w' = w_st w ∧ selected P (w_st w) ids) w.
Proof.
  intros Hi. unfold select_unlocked. repeat okp_step. split; [done|].
  set (rows := List.filter _ (select_runs P _)).
  assert (Hrows : ∀ r, In r rows → scanRun (w_st w) (run_ID r) = Some r ∧ P r = true).
  { intros r [[Hr HP]%filter_In _]%filter_In.
    apply list_elem_of_In, list_elem_of_omap in Hr as (id & _ & Hr). split; [|done]. by rewrite (scanRun_ID _ _ _ Hi Hr). }
  assert (Hnd : NoDup (ordered key rows)).
  { rewrite ordered_perm. apply NoDup_map_filter, NoDup_map_filter, (NoDup_scanned w); [done|]. apply NoDup_elements. }
  split.
  - rewrite <- (take_drop (Z.to_nat limit) (ordered key rows)) in Hnd. by apply NoDup_app in Hnd as [? _].
  - intros id Hid. assert (Hin : id ∈ ordered key rows).
    { rewrite <- (take_drop (Z.to_nat limit) (ordered key rows)). apply elem_of_app. by left. }
    rewrite ordered_perm in Hin. apply list_elem_of_In, in_map_iff in Hin as (r & <- & Hr). eauto.
Qed.

(** A loop whose iterations move the tables and touch only their own run. *)
Lemma for_each_moved {A} (body : A → MD ()) (key : A → string) (I : A → Tables → Prop) xs w :
  NoDup (map key xs) → pg_inv w → (∀ x, x ∈ xs → I x (w_st w)) →
  (∀ x w, pg_inv w → I x (w_st w) → okp (body x) (λ _ w', moved w w' ∧ only (key x) (w_st w) (w_st w')) w) →
  (∀ x id t t', key x ≠ id → only id t t' → I x t → I x t') →
  okp (for_each body xs) (λ _ w', moved w w') w.
Proof.
  intros Hnd Hi HI Hbody Hframe. revert w Hi HI. induction xs as [|x xs IH]; intros w Hi HI; simpl.
  { okp_step. apply moved_core; done || lia. }
  apply NoDup_cons in Hnd as [Hx Hnd]. okp_step. eapply okp_mono; [apply Hbody; [done|apply HI; by left]|].
  intros u w1 _ [Hm Honly]. cbn beta. eapply okp_mono; [apply IH; [done|apply Hm|]|].
  - intros y Hy. eapply Hframe; [|exact Honly|apply HI; by right].
    intros Heq. apply Hx. rewrite <- Heq. apply list_elem_of_In, in_map. by apply list_elem_of_In.
  - intros u' w2 _ Hm2. by eapply moved_trans.
Qed.

(** ** The retry of a lost attempt *)

(** A new row of relay_attempts that no run points to yet. *)
Lemma spare_attempt w id a :
  pg_inv w → relay_attempts (w_st w) !! att_ID a = None → att_LeaseToken a = "" →
  let w' := mkWorld (w_tick w) ((w_st w) <| relay_attempts :=
                                  <[att_ID a := mkAttemptRow id a]> (relay_attempts (w_st w)) |>) in
  pg_inv w' ∧ ∀ id', scanRun (w_st w') id' = scanRun (w_st w) id'.
Proof.
  intros Hi Hno Htok w'.
  assert (Hscan : ∀ id', scanRun (w_st w') id' = scanRun (w_st w) id').
  { intros id'. unfold scanRun. simpl. destruct (relay_runs (w_st w) !! id') as [row|] eqn:Er; [|done].
    cbn [mbind option_bind]. destruct (pi_current _ Hi _ _ Er) as (x & Ex & _).
    by rewrite lookup_insert_ne by congruence. }
  split; [|done]. constructor; simpl.
  - apply (pi_key _ Hi).
  - intros id' row Er. destruct (pi_current _ Hi _ _ Er) as (x & Ex & Hx). exists x.
    by rewrite lookup_insert_ne by congruence.
  - intros aid arow. destruct (decide (aid = att_ID a)) as [->|Hne];
      [rewrite lookup_insert_eq; by intros [= <-]|rewrite lookup_insert_ne by done; apply (pi_attempt _ Hi)].
  - intros aid arow. destruct (decide (aid = att_ID a)) as [->|Hne];
      [rewrite lookup_insert_eq; intros [= <-]; by left|rewrite lookup_insert_ne by done; apply (pi_lease _ Hi)].
  - intros id' run. change (scanRun (w_st w') id' = Some run → table_phase (run_phase run) = true).
    rewrite Hscan. apply (pi_phase _ Hi).
  - apply (pi_cancelling _ Hi).
Qed.

(** The lost attempt is closed and the run points to the fresh one. *)
Lemma retry_moved w w' run F f G a :
  pg_inv w → w_tick w ≤ w_tick w' → scanRun (w_st w) (run_ID run) = Some run →
  run_phase run = (RunRunning, AttemptRunning) →
  relay_attempts (w_st w) !! att_ID a = None →
  relay_runs (w_st w') = alter F (run_ID run) (relay_runs (w_st w)) →
  relay_attempts (w_st w') =
    <[att_ID a := mkAttemptRow (run_ID run) a]> (alter (on_attempt G) (att_ID (run_Attempt run)) (relay_attempts (w_st w))) →
  row_change F f → (∀ row, rw_CurrentAttempt (F row) = att_ID a) → keeps_key G →
  att_LeaseToken (G (run_Attempt run)) = att_LeaseToken (run_Attempt run) →
  let run' := (f run) <| run_Attempt := a |> in
  identity run' = identity run → run_phase run' = (RunQueued, AttemptQueued) → att_LeaseToken a = "" →
  issued "attempt" (w_tick w) (w_tick w') (att_ID a) → (att_Number (run_Attempt run) < att_Number a)%Z →
  run_CancelRequestedAt run' = run_CancelRequestedAt run → run_CancelReason run' = run_CancelReason run →
  moved w w' ∧ only (run_ID run) (w_st w) (w_st w').
Proof.
  intros Hi Ht Hrun Hph Hno Hr Ha HF Hcur HG Htok run' Hid Hph' Htok' Hissued Hnum Hc1 Hc2.
  destruct (spare_attempt w (run_ID run) a Hi Hno Htok') as [Hi1 Hscan1]. set (w1 := mkWorld _ _) in *.
  assert (Hne : att_ID (run_Attempt run) ≠ att_ID a).
  { destruct (scanRun_Some _ _ _ Hrun) as (row & arow & Er & Ea & _).
    rewrite <- (current_ID _ _ _ _ Hi Hrun Er). congruence. }
  assert (Hm : moved w1 w' ∧ only (run_ID run) (w_st w1) (w_st w')).
  { apply (moved_row w1 w' (run_ID run) run F f G (mkAttemptRow (run_ID run) a)); try done.
    - by rewrite Hscan1.
    - rewrite Ha. simpl. by rewrite alter_insert_ne by done.
    - intros row _. rewrite Hcur, Ha. by rewrite lookup_insert_eq.
    - change (table_phase (run_phase run') = true). by rewrite Hph'.
    - change (run_Status run' = RunCancelling → is_Some (run_CancelRequestedAt run')). pose proof (f_equal fst Hph') as Hs. simpl in *. congruence.
    - by left.
    - change (run_change (w_tick w1) (w_tick w') run run'). constructor; try done.
      + rewrite Hph, Hph'. apply rtc_once. constructor.
      + unfold terminal_phase. by rewrite Hph.
      + by right; left.
      + by right. }
  destruct Hm as [(Ht1 & Hi' & Hall) Ho]. split.
  - split; [done|]. split; [done|]. intros id' r Hr'. apply Hall. by rewrite Hscan1.
  - intros id' r Hne' Hr'. apply Ho; [done|]. by rewrite Hscan1.
Qed.

Lemma recover_attempt_moved tnow now run request w :
  pg_inv w → scanRun (w_st w) (run_ID run) = Some run → expired now run = true →
  okp (recover_attempt tnow now (run, request)) (λ _ w', moved w w' ∧ only (run_ID run) (w_st w) (w_st w')) w.
Proof.
  intros Hi Hrun Hexp. unfold recover_attempt. okp_step.
  { (* a cancelling run *)
    apply bool_decide_eq_true in E. unfold must_scan. do 3 okp_step. rewrite Hrun. okp_step.
    set (w1 := mkWorld _ _). assert (Hm : moved w w1) by (apply moved_core; [simpl; lia|done|done]).
    eapply okp_mono; [apply finalize_moved; [apply Hm|exact Hrun|done]|].
    intros u w' _ [Hm' Ho]. split; [by eapply moved_trans|exact Ho]. }
  apply bool_decide_eq_false in E.
  assert (Hph : run_Status run = RunRunning ∧ att_Status (run_Attempt run) = AttemptRunning).
  { unfold expired in Hexp. apply andb_true_iff in Hexp as [Hexp _].
    apply orb_true_iff in Hexp as [[?%bool_decide_eq_true ?%bool_decide_eq_true]%andb_true_iff|
                                   [?%bool_decide_eq_true _]%andb_true_iff]; done. }
  destruct Hph as [Hs Ha]. do 5 okp_step.
  - (* no attempts left *)
    repeat okp_step.
    eapply (commit_change w (run_ID run) run _
              (λ r, r <| run_Status := RunFailed |> <| run_Error := "attempt lease expired" |>
                      <| run_CompletedAt := Some (timestamptz now) |>)
              (λ a, a <| att_Status := AttemptLost |> <| att_CompletedAt := Some (timestamptz now) |>));
      [done|simpl in *; lia|done|
       eapply same_core_trans; [|exact Hc0]; destruct Hc as [Hr1 Ha1]; split; simpl in *; [by rewrite Hr1|by rewrite Ha1]|
       by repeat split|done..| |by left].
    apply change_in_place; try done; unfold run_phase, terminal_phase; simpl; rewrite Hs; [done|].
    rewrite Ha. apply rtc_once. constructor.
  - (* another attempt *)
    repeat okp_step. destruct Hc as [Hr1 Ha1], Hc0 as [Hr2 Ha2].
    match goal with |- moved _ ?w' ∧ _ => set (w2 := w') in * end.
    eapply (retry_moved w w2 run _ (λ r, r <| run_Status := RunQueued |> <| run_Error := "" |>
              <| run_StartedAt := None |> <| run_CompletedAt := None |>)
              (λ a, a <| att_Status := AttemptLost |> <| att_CompletedAt := Some (timestamptz now) |>)
              (queued_attempt _ _ _)).
    + done.
    + simpl in *; lia.
    + done.
    + unfold run_phase. by rewrite Hs, Ha.
    + simpl in Hno. rewrite Ha1 in Hno. simpl in Hno. apply lookup_alter_None in Hno. exact Hno.
    + rewrite Hr2. simpl. rewrite Hr1. done.
    + rewrite Ha2. simpl. rewrite Ha1. done.
    + by repeat split.
    + done.
    + done.
    + done.
    + done.
    + done.
    + done.
    + simpl. eexists. split; [|done]. simpl in *; lia.
    + simpl. lia.
    + done.
    + done.
Qed.

Definition expired_items (t : Tables) (ids : list string) : list (Run * Request) :=
  omap (λ id, run ← scanRun t id; row ← relay_runs t !! id; Some (run, rw_Request row)) ids.

Lemma expired_items_spec w P ids :
  pg_inv w → selected P (w_st w) ids →
  NoDup (map (λ item, run_ID item.1) (expired_items (w_st w) ids)) ∧
  ∀ item, item ∈ expired_items (w_st w) ids →
    run_ID item.1 ∈ ids ∧ scanRun (w_st w) (run_ID item.1) = Some item.1 ∧ P item.1 = true.
Proof.
  intros Hi [Hnd Hsel]. induction Hnd as [|id ids Hnin Hnd IH]; simpl.
  { split; [constructor|]. intros item Hx. by apply elem_of_nil in Hx. }
  destruct IH as [IH1 IH2]; [intros x Hx; apply Hsel; by right|].
  destruct (Hsel id) as (run & Hrun & HP); [by left|]. rewrite Hrun. cbn [mbind option_bind].
  destruct (relay_runs (w_st w) !! id) as [row|] eqn:Er; cbn [mbind option_bind].
  - pose proof (scanRun_ID _ _ _ Hi Hrun) as Hid. split.
    + simpl. constructor; [|done]. rewrite Hid. intros Hin.
      apply list_elem_of_In, in_map_iff in Hin as (item & Heq & Hin). apply list_elem_of_In, IH2 in Hin as [Hin _].
      congruence.
    + intros item [->|Hx]%elem_of_cons; simpl; [rewrite Hid; split; [by left|done]|].
      destruct (IH2 item Hx) as (? & ? & ?). split; [by right|done].
  - split; [done|]. intros item Hx. destruct (IH2 item Hx) as (? & ? & ?). split; [by right|done].
Qed.

Lemma Reconcile_moved now limit w : pg_inv w → moved w (Reconcile now limit w).2.
Proof.
  intros Hi. apply transaction_moved; [done|]. intros tnow w0 _ _ Hi0. okp_step.
  eapply okp_mono; [by apply okp_select_unlocked|]. intros ids w1 Ht1 [Hs1 [Hnd Hsel]]. cbn beta. okp_step.
  assert (Hm1 : moved w0 w1) by (apply moved_core; [done|by rewrite Hs1|done]).
  pose proof (proj1 (proj2 Hm1)) as Hi1.
  eapply okp_mono; [apply (for_each_moved _ (λ id, id) (λ id t, is_Some (scanRun t id)))|].
  - by rewrite map_id.
  - done.
  - intros id Hid. rewrite Hs1. destruct (Hsel id Hid) as (run & Hrun & _). eauto.
  - intros id w2 Hi2 [run Hrun]. unfold cancel_overdue, must_scan. do 3 okp_step. rewrite Hrun. okp_step.
    set (w3 := mkWorld _ _). assert (Hm : moved w2 w3) by (apply moved_core; [simpl; lia|done|done]).
    pose proof (scanRun_ID _ _ _ Hi2 Hrun) as Hid. rewrite <- Hid.
    eapply okp_mono; [apply requestCancel_moved; [apply Hm|by rewrite Hid]|].
    intros u w' _ [Hm' Ho]. split; [by eapply moved_trans|exact Ho].
  - intros id id' t t' Hne Ho [r Hr]. exists r. by apply Ho.
  - intros u w2 _ Hm. pose proof (proj1 (proj2 Hm)) as Hi2. cbn beta.
    do 2 okp_step; [okp_step; by eapply moved_trans|]. okp_step.
    eapply okp_mono; [by apply okp_select_unlocked|]. intros ids2 w3 Ht3 [Hs3 [Hnd3 Hsel3]]. cbn beta. do 3 okp_step.
    assert (Hi3 : pg_inv w3) by (eapply inv_core; [exact Ht3|by rewrite Hs3|done]).
    rewrite <- Hs3 in Hsel3. destruct (expired_items_spec w3 (expired now) ids2 Hi3) as [Hnd4 Hitems]; [by split|].
    eapply okp_mono; [apply (for_each_moved _ (λ item, run_ID item.1)
                               (λ item t, scanRun t (run_ID item.1) = Some item.1 ∧ expired now item.1 = true))|].
    + exact Hnd4.
    + done.
    + intros item Hx. by destruct (Hitems item Hx) as (_ & ? & ?).
    + intros [run request] w4 Hi4 [Hrun Hexp]. by apply recover_attempt_moved.
    + intros item id t t' Hne Ho [Hrun Hexp]. split; [by apply Ho|done].
    + intros u' w5 _ Hm5. okp_step. eapply moved_trans; [exact Hm1|]. eapply moved_trans; [exact Hm|].
      eapply moved_trans; [|exact Hm5].
      apply moved_core; [done|by rewrite Hs3|done].
Qed.

(** ** The operations that leave runs and attempts alone *)
Ltac okp_steps :=
  repeat first [okp_step | match goal with |- okp (match ?x with _ => _ end) _ _ => destruct x end; cbn beta iota].
Ltac quiet := okp_steps; apply moved_core; [simpl in *; lia|simpl in *; done|done].

Lemma AppendEvent_moved runID attemptID lease ty data ids w :
  pg_inv w → moved w (AppendEvent runID attemptID lease ty data ids w).2.
Proof.
  intros Hi. apply transition_moved; [done|]. intros tnow run w0 _ Hi0 _ _. do 3 okp_step; [quiet|].
  do 2 okp_step. destruct (List.find _ _) as [old|]; [apply okp_lift_res; intros; quiet|].
  okp_step. apply okp_lift_res. intros encoded _. do 2 okp_step. apply okp_put_event. intros t' Ht'.
  apply moved_core; [simpl; lia|done|done].
Qed.
Lemma AddArtifact_moved a artifact w : pg_inv w → moved w (AddArtifact a artifact w).2.
Proof. intros Hi. apply transition_moved; [done|]. intros tnow run w0 _ Hi0 _ _. quiet. Qed.
Lemma ReserveCapability_moved a key hash request w : pg_inv w → moved w (ReserveCapability a key hash request w).2.
Proof.
  intros Hi. apply transition_moved; [done|]. intros tnow run w0 _ Hi0 _ _. do 7 okp_step.
  apply (okp_mono _ (λ _ w1, same_core (w_st w0) (w_st w1))); [repeat okp_step; done|].
  intros u w1 Ht1 Hc1. do 2 okp_step. destruct (List.find _ _) as [row|]; [|okp_step]. do 2 okp_step.
  apply moved_core; [simpl in *; lia|done|done].
Qed.
Lemma FinishCapability_moved a rsv result cause w : pg_inv w → moved w (FinishCapability a rsv result cause w).2.
Proof. intros Hi. apply transition_moved; [done|]. intros tnow run w0 _ Hi0 _ _. quiet. Qed.
Lemma CreateInteraction_moved a request w : pg_inv w → moved w (CreateInteraction a request w).2.
Proof.
  intros Hi. apply transition_moved; [done|]. intros tnow run w0 _ Hi0 _ _. okp_step; [okp_step|].
  quiet.
Qed.
Lemma GetInteraction_moved a id w : pg_inv w → moved w (GetInteraction a id w).2.
Proof. intros Hi. apply transition_moved; [done|]. intros tnow run w0 _ Hi0 _ _. quiet. Qed.
Lemma ResolveInteraction_moved id response tenant project w :
  pg_inv w → moved w (ResolveInteraction id response tenant project w).2.
Proof. intros Hi. apply transaction_moved; [done|]. intros tnow w0 _ _ Hi0. quiet. Qed.

Lemma reads_moved {A} (m : MD A) w : reads m → pg_inv w → moved w (m w).2.
Proof. intros Hm Hi. destruct (Hm w) as [Ht Hs]. apply moved_core; [done|by rewrite Hs|done]. Qed.

(** Single statements outside a transaction, on nodes only. *)
Definition stays {A} (m : MD A) : Prop := ∀ w, w_tick w ≤ w_tick (m w).2 ∧ same_core (w_st w) (w_st (m w).2).
Lemma stays_bind {A B} (m : MD A) (k : A → MD B) : stays m → (∀ a, stays (k a)) → stays (m ≫= k).
Proof.
  intros Hm Hk w. destruct (Hm w) as [Ht Hs]. unfold mbind, M_bind. destruct (m w) as [[a|e] w1]; simpl in *; [|done].
  destruct (Hk a w1) as [Ht' Hs']. split; [lia|by eapply same_core_trans].
Qed.
Lemma stays_reads {A} (m : MD A) : reads m → stays m.
Proof. intros Hm w. destruct (Hm w) as [Ht Hs]. split; [done|by rewrite Hs]. Qed.
Lemma stays_moved {A} (m : MD A) w : stays m → pg_inv w → moved w (m w).2.
Proof. intros Hm Hi. destruct (Hm w) as [Ht Hs]. by apply moved_core. Qed.
Lemma reads_statement : reads (S := Tables) statement.
Proof. unfold statement. apply reads_bind; [apply reads_host|]. intros [e|]; [apply reads_raise|apply reads_ret]. Qed.
Lemma node_reads id : reads (node id).
Proof.
  unfold node. apply reads_bind; [apply reads_host|]. intros now. apply reads_bind; [apply reads_query|].
  intros [n|]; [apply reads_ret|apply reads_raise].
Qed.
Lemma stays_nodes f : stays (modify (λ t : Tables, t <| relay_nodes := f t |>)).
Proof. intros w. split; simpl; (lia || done). Qed.

Lemma RegisterNode_stays registration : stays (RegisterNode registration).
Proof.
  unfold RegisterNode. apply stays_bind; [apply stays_reads, reads_host|]. intros now.
  apply stays_bind; [apply stays_reads, reads_statement|]. intros _. destruct (negb _); [apply stays_reads, reads_raise|].
  apply stays_bind; [apply stays_nodes|]. intros _. apply stays_reads, node_reads.
Qed.
Lemma Heartbeat_stays id : stays (Heartbeat id).
Proof.
  unfold Heartbeat. apply stays_bind; [apply stays_reads, reads_host|]. intros now.
  apply stays_bind; [apply stays_reads, reads_query|]. intros [row|]; [|apply stays_reads, reads_raise].
  apply stays_bind; [apply stays_nodes|]. intros _. apply stays_reads, node_reads.
Qed.
Lemma Nodes_reads : reads Nodes.
Proof. unfold Nodes. apply reads_bind; [apply reads_host|]. intros now. apply reads_query. Qed.
Lemma run_exists_reads id : reads (run_exists id).
Proof. unfold run_exists. apply reads_bind; [apply reads_query|]. intros [?|]; [apply reads_ret|apply reads_raise]. Qed.
Lemma EventsAfter_reads id n : reads (EventsAfter id n).
Proof. unfold EventsAfter. apply reads_bind; [apply run_exists_reads|]. intros _. apply reads_query. Qed.
Lemma Artifacts_reads id : reads (Artifacts id).
Proof. unfold Artifacts. apply reads_bind; [apply run_exists_reads|]. intros _. apply reads_query. Qed.
Lemma Artifact_reads id : reads (Artifact_ id).
Proof. unfold Artifact_. apply reads_bind; [apply reads_query|]. intros [?|]; [apply reads_ret|apply reads_raise]. Qed.
Lemma ListRuns_reads tenant project session limit : reads (ListRuns tenant project session limit).
Proof.
  unfold ListRuns. apply reads_bind; [apply reads_statement|]. intros _.
  apply reads_bind; [apply reads_range|]. intros ids. apply reads_gets.
Qed.
Lemma Attempts_reads id : reads (Attempts id).
Proof.
  unfold Attempts. apply reads_bind; [apply reads_statement|]. intros _.
  apply reads_bind; [apply reads_range|]. intros ids. apply reads_bind; [apply reads_gets|]. intros values.
  destruct (_ =s 0); [apply reads_raise|apply reads_ret].
Qed.
Lemma Interactions_reads id : reads (Interactions id).
Proof.
  unfold Interactions. apply reads_bind; [apply reads_statement|]. intros _.
  apply reads_bind; [apply reads_range|]. intros ids. apply reads_gets.
Qed.

(** ** Every operation of the storage *)
Definition pg_exec (op : Op) : MD () :=
  match op with
  | OpRegisterNode registration => RegisterNode registration ;; mret ()
  | OpHeartbeat nodeID => Heartbeat nodeID ;; mret ()
  | OpNodes => Nodes ;; mret ()
  | OpSubmit request => Submit request ;; mret ()
  | OpClaim nodeID leaseTTL => Claim nodeID leaseTTL ;; mret ()
  | OpRenew a leaseTTL => Renew a leaseTTL ;; mret ()
  | OpReconcile now limit => Reconcile now limit ;; mret ()
  | OpCancelRun runID request => CancelRun runID request ;; mret ()
  | OpAcknowledgeCancellation a => AcknowledgeCancellation a
  | OpStart a => Start a
  | OpAppendEvent runID attemptID lease eventType data eventIDs =>
      AppendEvent runID attemptID lease eventType data eventIDs
  | OpComplete a result => Complete a result
  | OpFail a cause => Fail a cause
  | OpGetRun runID => GetRun runID ;; mret ()
  | OpEventsAfter runID after => EventsAfter runID after ;; mret ()
  | OpAddArtifact a artifact => AddArtifact a artifact
  | OpArtifacts runID => Artifacts runID ;; mret ()
  | OpArtifact artifactID => Artifact_ artifactID ;; mret ()
  | OpReserveCapability a key hash request => ReserveCapability a key hash request ;; mret ()
  | OpFinishCapability a reservation result cause => FinishCapability a reservation result cause
  | OpListRuns tenant project session limit => ListRuns tenant project session limit ;; mret ()
  | OpAttempts runID => Attempts runID ;; mret ()
  | OpCreateInteraction a request => CreateInteraction a request ;; mret ()
  | OpGetInteraction a id => GetInteraction a id ;; mret ()
  | OpInteractions runID => Interactions runID ;; mret ()
  | OpResolveInteraction id response tenant project => ResolveInteraction id response tenant project ;; mret ()
  end.

Definition pg_play (ops : list Op) (w : World Tables) : World Tables :=
  foldl (λ w op, (pg_exec op w).2) w ops.

(** What any sequence of operations leads to from empty tables. *)
Definition pg_reachable (w : World Tables) : Prop := ∃ tick ops, w = pg_play ops (mkWorld tick empty_tables).

Lemma pg_exec_moved op w : pg_inv w → moved w (pg_exec op w).2.
Proof.
  intros Hi. destruct op; simpl;
    try (apply moved_then_reads; [|intros _; apply reads_ret]);
    eauto using Submit_moved, Claim_moved, Renew_moved, Reconcile_moved, CancelRun_moved,
      AcknowledgeCancellation_moved, Start_moved, AppendEvent_moved, Complete_moved, Fail_moved, AddArtifact_moved,
      ReserveCapability_moved, FinishCapability_moved, CreateInteraction_moved, GetInteraction_moved,
      ResolveInteraction_moved, stays_moved, RegisterNode_stays, Heartbeat_stays.
  all: apply reads_moved; [|done];
    eauto using Nodes_reads, GetRun_reads, EventsAfter_reads, Artifacts_reads, Artifact_reads, ListRuns_reads,
      Attempts_reads, Interactions_reads.
Qed.

Lemma pg_play_moved ops w : pg_inv w → moved w (pg_play ops w).
Proof.
  revert w. induction ops as [|op ops IH]; intros w Hi; simpl; [by apply moved_core|].
  pose proof (pg_exec_moved op w Hi) as Hm. eapply moved_trans; [exact Hm|]. apply IH, Hm.
Qed.

Lemma pg_inv_empty tick : pg_inv (mkWorld tick empty_tables).
Proof. constructor; simpl; intros id ?; try rewrite lookup_empty; try done. Qed.
Lemma pg_reachable_inv w : pg_reachable w → pg_inv w.
Proof. intros (tick & ops & ->). apply pg_play_moved, pg_inv_empty. Qed.
End operations.

(** ** The properties *)
Section properties.
Context `{HostLaws} `{Encoder} `{Semver} `{Server}.

(** C14: the PostgreSQL storage refines the lifecycle as the in-memory storage
    does, whatever statements or commits fail: between any two points of a
    history a run is still there, its submission data are untouched, its
    statuses moved along the abstract machine, a terminal run is as it was in
    every field, and a cancelling run is always held by a node, so that its
    cancellation can still be settled. *)
Theorem tables_follow_lifecycle (w : World Tables) (ops : list Op) (id : string) (run : Run) :
  pg_reachable w → scanRun (w_st w) id = Some run →
  ∃ run', scanRun (w_st (pg_play ops w)) id = Some run' ∧ identity run' = identity run ∧
    rtc Lifecycle.transition (run_phase run) (run_phase run') ∧
    (terminalRunStatus (run_Status run) = true → run' = run) ∧
    (run_Status run' = RunCancelling →
       att_Status (run_Attempt run') = AttemptLeased ∨ att_Status (run_Attempt run') = AttemptRunning).
Proof.
  intros Hw Hrun. destruct (pg_play_moved ops w (pg_reachable_inv _ Hw)) as (_ & Hi & Hall).
  destruct (Hall id run Hrun) as (run' & Hrun' & [C1 C2 C3 _ _ _]). exists run'. split_and!; try done.
  - intros Ht. apply C3. unfold terminal_phase, run_phase, terminalRunStatus in *. simpl. by destruct (run_Status run).
  - apply cancelling_phase. exact (pi_phase _ Hi _ _ Hrun').
Qed.

(** A call that the storage refuses for its lease, or that a statement of it fails;
    either way the tables are as they were. *)
Definition refused {A} (m : MD A) (w : World Tables) : Prop :=
  (∃ e, (m w).1 = Err e ∧ (e = sentinel ErrInvalidLease ∨ ∃ n, db_fault_at n = Some e)) ∧ w_st (m w).2 = w_st w.

Lemma refused_bind {A B} (m : MD A) (k : A → MD B) w : refused m w → refused (m ≫= k) w.
Proof.
  unfold refused, mbind, M_bind. intros [(e & He & Hc) Hs]. destruct (m w) as [[a|e'] w']; simpl in *; [done|].
  injection He as ->. eauto.
Qed.

(** A transaction whose body only reads, until it finds the token wrong. *)
Lemma refused_transaction {A} (body : Z → Run → MD A) id w run :
  scanRun (w_st w) id = Some run →
  (∀ now w', w_st w' = w_st w → (body now run w').1 = Err (sentinel ErrInvalidLease)) →
  refused (transaction (λ now, row ← query (λ t, scanRun t id);
             match row with None => raise (sentinel ErrNotFound) | Some run => body now run end)) w.
Proof.
  intros Hr Hb. unfold refused, transaction, query, statement, host, gets, raise, mret, M_ret, mbind, M_bind.
  destruct (db_fault_at (w_tick w)) as [e|] eqn:Hf; cbn; [eauto 7|].
  destruct (db_fault_at (w_tick w + 1 + 1)) as [e|] eqn:Hf2; cbn; [eauto 7|]. rewrite Hr.
  specialize (Hb (db_now_at (w_tick w + 1)) (mkWorld (w_tick w + 1 + 1 + 1) (w_st w)) eq_refl).
  destruct (body _ _ _) as [[a|e] w']; [done|]. cbn in *. injection Hb as ->. eauto 7.
Qed.

Lemma wrong_token run a :
  asg_LeaseToken a ≠ att_LeaseToken (run_Attempt run) → att_LeaseToken (run_Attempt run) =s asg_LeaseToken a = false.
Proof. intros Hne. by apply bool_decide_eq_false_2. Qed.

(** Under another token than the current one every lease-guarded operation is refused. *)
Lemma stale_refused op id att tok w run :
  presented op = Some (id, att, tok) → scanRun (w_st w) id = Some run → att_LeaseToken (run_Attempt run) ≠ tok →
  refused (pg_exec op) w.
Proof.
  intros Hp Hr Hne.
  assert (Hguard : ∀ A (a : Assignment) (change : Z → Run → MD A), asg_RunID a = id → asg_LeaseToken a = tok → refused (transition a change) w).
  { intros A a change Ha Ht. unfold transition. rewrite Ha. apply (refused_transaction _ id w run); [done|].
    intros now w' _. rewrite wrong_token by congruence. by rewrite orb_true_r. }
  destruct op; try done; simpl in Hp; injection Hp as <- <- <-; simpl;
    first [by apply Hguard|apply refused_bind; first [by apply Hguard|idtac]].
  unfold Renew. apply (refused_transaction _ (asg_RunID a) w run); [done|]. intros now w' _.
  unfold time_now, host, mbind, M_bind. cbn. rewrite wrong_token by congruence. by rewrite orb_true_r.
Qed.

(** C17: a lease token that was superseded is never accepted again: whatever
    happened since, every operation of the storage that is made under a lease -
    renewing, starting, reporting, recording events, artifacts, capability calls
    and interactions - is refused when it presents that token (with
    ErrInvalidLease, unless a statement failed before) and leaves the tables as
    they are. *)
Theorem superseded_token_refused (w : World Tables) (id : string) (r r1 : Run) (ops1 ops2 : list Op) (op : Op) (att : string) :
  let w2 := pg_play ops2 (pg_play ops1 w) in
  pg_reachable w → scanRun (w_st w) id = Some r → att_LeaseToken (run_Attempt r) ≠ "" →
  scanRun (w_st (pg_play ops1 w)) id = Some r1 →
  att_LeaseToken (run_Attempt r1) ≠ att_LeaseToken (run_Attempt r) →
  presented op = Some (id, att, att_LeaseToken (run_Attempt r)) →
  refused (pg_exec op) w2.
Proof.
  intros w2 Hw Hr Hne Hr1 Hd Hp.
  pose proof (pg_reachable_inv _ Hw) as Hi. destruct (pg_play_moved ops1 w Hi) as (Ht1 & Hi1 & Hall1).
  destruct (pg_play_moved ops2 _ Hi1) as (Ht2 & Hi2 & Hall2). fold w2 in Ht2, Hi2, Hall2.
  destruct (Hall2 id r1 Hr1) as (r2 & Hr2 & Hch).
  assert (Hissued : issued "lease" 0 (w_tick w) (att_LeaseToken (run_Attempt r))).
  { destruct (scanRun_Some _ _ _ Hr) as (row & arow & _ & Ea & ->). simpl in *.
    by destruct (pi_lease _ Hi _ _ Ea). }
  eapply stale_refused; [exact Hp|exact Hr2|]. exact (token_never_returns _ _ _ _ _ _ Hissued Hd Ht1 Hch).
Qed.
End properties.

(** ** A run whose node is lost and whose next attempt is leased anew *)
#[export] Instance plain_server : Server := {|
  db_now_at n := Z.of_nat n; db_fault_at _ := None; db_commit_at _ := None; db_locked_at _ _ := false;
  timestamptz t := t; jsonb j := j |}.

Definition pg_queued : World Tables :=
  pg_play [OpRegisterNode demo_registration; OpSubmit (demo_request "k" "")] (mkWorld 0 empty_tables).
Definition pg_id : string := default "" (head (elements (dom (relay_runs (w_st pg_queued))))).
Definition pg_scanned (w : World Tables) : Run := default (rw_Run (new_run_row zero "" "" 0)) (scanRun (w_st w) pg_id).
Definition pg_lease (w : World Tables) : Assignment :=
  mkAssignment pg_id (att_ID (run_Attempt (pg_scanned w))) (att_LeaseToken (run_Attempt (pg_scanned w))) 0 zero.
Definition pg_leased : World Tables := pg_play [OpClaim "node" 25] pg_queued.
Definition pg_running : World Tables := pg_play [OpStart (pg_lease pg_leased)] pg_leased.

Lemma pg_reachable_play w ops : pg_reachable w → pg_reachable (pg_play ops w).
Proof. intros (tick & ops0 & ->). exists tick, (ops0 ++ ops). unfold pg_play. by rewrite foldl_app. Qed.
Lemma pg_reachable_empty : pg_reachable (mkWorld 0 empty_tables).
Proof. by exists 0, []. Qed.
Ltac pg_reach := repeat apply pg_reachable_play; apply pg_reachable_empty.

Lemma tables_follow_lifecycle_witness :
  ∃ run', scanRun (w_st (pg_play [OpReconcile 50 10; OpClaim "node" 100] pg_running)) pg_id = Some run' ∧
    identity run' = identity (pg_scanned pg_running) ∧
    rtc Lifecycle.transition (run_phase (pg_scanned pg_running)) (run_phase run') ∧
    (terminalRunStatus (run_Status (pg_scanned pg_running)) = true → run' = pg_scanned pg_running) ∧
    (run_Status run' = RunCancelling →
       att_Status (run_Attempt run') = AttemptLeased ∨ att_Status (run_Attempt run') = AttemptRunning).
Proof. apply (tables_follow_lifecycle pg_running); [pg_reach|vm_compute; reflexivity]. Defined.

(** The first holder asks to renew. *)
Lemma superseded_token_refused_witness :
  let w2 := pg_play [OpNodes] (pg_play [OpReconcile 50 10; OpClaim "node" 100] pg_running) in
  refused (pg_exec (OpRenew (pg_lease pg_running) 25)) w2.
Proof.
  apply (superseded_token_refused pg_running pg_id (pg_scanned pg_running)
           (pg_scanned (pg_play [OpReconcile 50 10; OpClaim "node" 100] pg_running))
           [OpReconcile 50 10; OpClaim "node" 100] [OpNodes] (OpRenew (pg_lease pg_running) 25)
           (asg_AttemptID (pg_lease pg_running))); [pg_reach|..];
    vm_compute; first [reflexivity|discriminate].
Defined.

(** The holder of a run that has ended can still reserve a capability call, and
    is told to execute it: the guard of the in-memory storage, which wants a
    running attempt, is missing. *)
Example reserved_after_the_end :
  let leased := pg_play [OpClaim "node" 200] pg_queued in
  let a := pg_lease leased in
  let w := pg_play [OpStart a; OpComplete a demo_result] leased in
  run_Status (pg_scanned w) = RunSucceeded ∧
  ∃ call, (ReserveCapability a "key" "hash"
             (mkCapRequest "" pg_id "" (mkPrincipal "" "" "") "deploy" "1" "write" "" None) w).1
          = Ok (mkReservation call true None "").
Proof. split; [vm_compute; reflexivity|]. eexists. vm_compute. reflexivity. Qed.
