(* ===== verification/Codec.v ===== *)
(** * Codec: what encoding/json does with a Go value

    [json.Marshal] and [json.Decoder.Decode] walk a struct by its fields and
    their tags.  A [Codec] is that walk for one type, between its values and the
    tree of a document (Json): [enc] the encoder, [dec] the decoder into a
    variable that already holds a value, [dec true] under
    [DisallowUnknownFields], [empty] the test of [omitempty], [init] the zero
    value.  [got c a a0] is what the receiver's variable holds when [a] was sent
    and it held [a0] before, for an [a] that [fits] (a Go [int] is 64 bits);
    [lawful] is the round trip.  A struct is a list of [Field]s; its codec is
    lawful when those of its fields are and their names differ.

    Strings are valid UTF-8.  A nil slice and an empty one are the same list. *)

From S2P Require Import Prelude GoStrings Json.

Record Codec (A : Type) := mkCodec {
  enc : A → Json;
  dec : bool → Json → A → Res A;
  empty : A → bool;
  init : A;
  got : A → A → A;
  fits : A → bool
}.
Arguments mkCodec {A}.
Arguments enc {A} _ _.
Arguments dec {A} _ _ _ _.
Arguments empty {A} _ _.
Arguments init {A} _.
Arguments got {A} _ _ _.
Arguments fits {A} _ _.

Definition lawful {A} (c : Codec A) : Prop :=
  ∀ strict a a0, fits c a = true → dec c strict (enc c a) a0 = Ok (got c a a0).

(** What a fresh variable of the receiver holds. *)
Definition received {A} (c : Codec A) (a : A) : A := got c a (init c).
Definition Unmarshal {A} (c : Codec A) (strict : bool) (j : Json) : Res A := dec c strict j (init c).

Lemma lawful_Unmarshal {A} (c : Codec A) strict a :
  lawful c → fits c a = true → Unmarshal c strict (enc c a) = Ok (received c a).
Proof. intros Hc. apply Hc. Qed.

Definition type_error : Error := errors_New "json: cannot unmarshal value".
Definition unknown_field (k : string) : Error := errors_New ("json: unknown field " +:+ k).

(** ** Numbers

    [strconv.ParseInt] on a JSON number: a sign and digits. *)
Definition digit (c : Ascii.ascii) : option N :=
  let n := Ascii.N_of_ascii c in if ((48 <=? n) && (n <=? 57))%N then Some (n - 48)%N else None.
Fixpoint digits_value (acc : N) (s : string) : option N :=
  match s with
  | EmptyString => Some acc
  | String c s => d ← digit c; digits_value (acc * 10 + d) s
  end.
Definition minus : Ascii.ascii := Ascii.ascii_of_nat 45.
Definition parse_int (s : string) : option Z :=
  match s with
  | EmptyString => None
  | String c rest =>
      if bool_decide (c = minus)
      then (if rest =s "" then None else n ← digits_value 0 rest; Some (- Z.of_N n)%Z)
      else n ← digits_value 0 s; Some (Z.of_N n)
  end.

Lemma digit_pretty n : (n < 10)%N → digit (pretty_N_char n) = Some n.
Proof.
  intros Hn. assert (Hc : n ∈ [0;1;2;3;4;5;6;7;8;9]%N).
  { rewrite !elem_of_cons. lia. }
  repeat (apply elem_of_cons in Hc as [->|Hc]; [reflexivity|]). by apply elem_of_nil in Hc.
Qed.

Lemma digits_pretty_go x s acc :
  ∃ p, digits_value acc (pretty_N_go x s) = digits_value (acc * p + x) s.
Proof.
  revert s acc. induction (N.lt_wf_0 x) as [x _ IH]. intros s acc.
  destruct (decide (x = 0)%N) as [->|Hx].
  - exists 1%N. rewrite pretty_N_go_0. f_equal. lia.
  - rewrite pretty_N_go_step by lia.
    destruct (IH (x `div` 10)%N ltac:(apply N.div_lt; lia) (String (pretty_N_char (x `mod` 10)) s) acc) as [p ->].
    exists (p * 10)%N. cbn [digits_value]. rewrite digit_pretty by (apply N.mod_lt; lia). cbn.
    f_equal. pose proof (N.div_mod x 10 ltac:(lia)). lia.
Qed.

Lemma digits_pretty n : digits_value 0 (pretty n) = Some n.
Proof.
  unfold pretty, pretty_N. destruct (decide (n = 0)%N) as [->|]; [reflexivity|].
  destruct (digits_pretty_go n "" 0) as [p ->]. simpl. by rewrite N.mul_0_l.
Qed.

Lemma pretty_N_no_minus (n : N) s : pretty n ≠ String minus s.
Proof.
  intros He. pose proof (digits_pretty n) as Hd. rewrite He in Hd. discriminate Hd.
Qed.

Lemma pretty_N_nonempty (n : N) : pretty n ≠ "".
Proof.
  intros He. pose proof (digits_pretty n) as Hd. rewrite He in Hd. injection Hd as <-. discriminate He.
Qed.

Lemma parse_int_N (n : N) : parse_int (pretty n) = Some (Z.of_N n).
Proof.
  pose proof (digits_pretty n) as Hd. pose proof (pretty_N_no_minus n) as Hm. pose proof (pretty_N_nonempty n) as Hn.
  unfold parse_int. destruct (pretty n) as [|c rest]; [done|].
  rewrite bool_decide_eq_false_2 by (intros ->; by apply (Hm rest)). by rewrite Hd.
Qed.

Lemma parse_int_pretty (z : Z) : parse_int (pretty z) = Some z.
Proof.
  destruct z as [|p|p]; [reflexivity|..].
  - exact (parse_int_N (Npos p)).
  - change (pretty (Z.neg p)) with (String minus (pretty (Npos p))). unfold parse_int.
    rewrite bool_decide_eq_true_2 by done.
    rewrite bool_decide_eq_false_2 by apply pretty_N_nonempty. by rewrite digits_pretty.
Qed.

(** ** Plain values *)
Section res.
Context {A B : Type}.
Definition res_bind (r : Res A) (k : A → Res B) : Res B := match r with Ok a => k a | Err e => Err e end.
Fixpoint res_map (f : A → Res B) (l : list A) : Res (list B) :=
  match l with
  | [] => Ok []
  | x :: l => match f x with
              | Ok y => match res_map f l with Ok ys => Ok (y :: ys) | Err e => Err e end
              | Err e => Err e
              end
  end.
Lemma res_map_ok f l (g : A → B) : Forall (λ x, f x = Ok (g x)) l → res_map f l = Ok (map g l).
Proof. induction 1 as [|x l Hx _ IH]; simpl; [done|]. by rewrite Hx, IH. Qed.
End res.

Definition str : Codec string := {|
  enc := JStr;
  dec _ j s := match j with JNull => Ok s | JStr s' => Ok s' | _ => Err type_error end;
  empty s := s =s ""; init := ""; got s _ := s; fits _ := true |}.
Definition boolean : Codec bool := {|
  enc := JBool;
  dec _ j b := match j with JNull => Ok b | JBool b' => Ok b' | _ => Err type_error end;
  empty := negb; init := false; got b _ := b; fits _ := true |}.

Definition int64 (z : Z) : bool := ((- 2 ^ 63 <=? z) && (z <? 2 ^ 63))%Z.
Definition int : Codec Z := {|
  enc z := JNum (pretty z);
  dec _ j z := match j with
               | JNull => Ok z
               | JNum s => match parse_int s with
                           | Some z' => if int64 z' then Ok z' else Err type_error
                           | None => Err type_error
                           end
               | _ => Err type_error
               end;
  empty z := z =s 0%Z; init := 0%Z; got z _ := z; fits := int64 |}.

(** [time.Time]: its text is the host's; [parse_time] reads it back. *)
Class TimeParser := parse_time : string → option Z.
Class TimeLaws `{Host} `{TimeParser} : Prop := parse_fmt_time : ∀ t, parse_time (fmt_time t) = Some t.
Definition time `{Host} `{TimeParser} : Codec Z := {|
  enc t := JStr (fmt_time t);
  dec _ j t := match j with
               | JNull => Ok t
               | JStr s => match parse_time s with Some t' => Ok t' | None => Err type_error end
               | _ => Err type_error
               end;
  empty _ := false; init := 0%Z; got t _ := t; fits _ := true |}.

(** A string type with constants. *)
Definition enum `{EqDecision A} (text : A → string) (of_text : string → option A) (zero : A) : Codec A := {|
  enc a := JStr (text a);
  dec _ j a := match j with
               | JNull => Ok a
               | JStr s => match of_text s with Some a' => Ok a' | None => Err type_error end
               | _ => Err type_error
               end;
  empty a := text a =s ""; init := zero; got a _ := a; fits a := of_text (text a) =s Some a |}.

(** [json.RawMessage]: a nil message is written as null, and null is read as the
    message null. *)
Definition raw : Codec (option Json) := {|
  enc v := default JNull v;
  dec _ j _ := Ok (Some j);
  empty v := v =s None; init := None; got v _ := Some (default JNull v); fits _ := true |}.

(** A pointer. *)
Definition ptr {A} (c : Codec A) : Codec (option A) := {|
  enc v := match v with None => JNull | Some a => enc c a end;
  dec strict j v := match j with
                    | JNull => Ok None
                    | _ => res_bind (dec c strict j (default (init c) v)) (λ a, Ok (Some a))
                    end;
  empty v := negb (bool_decide (is_Some v)); init := None;
  got v v0 := match v with None => None | Some a => Some (got c a (default (init c) v0)) end;
  fits v := match v with
            | None => true
            | Some a => fits c a && match enc c a with JNull => false | _ => true end
            end |}.

(** A slice; its elements are read into fresh variables. *)
Definition slice {A} (c : Codec A) : Codec (list A) := {|
  enc l := JArr (map (enc c) l);
  dec strict j _ := match j with
                    | JNull => Ok []
                    | JArr l => res_map (Unmarshal c strict) l
                    | _ => Err type_error
                    end;
  empty l := length l =s 0; init := []; got l _ := map (received c) l; fits := forallb (fits c) |}.

(** [map[string]string]: members are added to the map the variable holds. *)
Definition label (kv : string * Json) : Res (string * string) :=
  res_bind (Unmarshal str false kv.2) (λ v, Ok (kv.1, v)).
Definition add_labels (m : gmap string string) (l : list (string * string)) : gmap string string :=
  foldl (λ m kv, <[kv.1 := kv.2]> m) m l.
Definition labels : Codec (gmap string string) := {|
  enc m := JObj (obj_members (JStr <$> m));
  dec _ j m := match j with
               | JNull => Ok ∅
               | JObj l => res_bind (res_map label l) (λ kvs, Ok (add_labels m kvs))
               | _ => Err type_error
               end;
  empty m := size m =s 0; init := ∅; got m m0 := m ∪ m0; fits _ := true |}.

(** ** Structs

    A member is looked up by its exact name, then by its name up to case: the
    ASCII letters, and the two other runes that fold to one (the Kelvin sign and
    the long s). *)
Record Field (R : Type) := mkField {
  f_name : string;
  f_omit : R → bool;
  f_enc : R → Json;
  f_dec : bool → Json → R → Res R;
  f_got : R → R → R;
  f_fits : R → bool
}.
Arguments mkField {R}.
Arguments f_name {R} _.
Arguments f_omit {R} _ _.
Arguments f_enc {R} _ _.
Arguments f_dec {R} _ _ _ _.
Arguments f_got {R} _ _ _.
Arguments f_fits {R} _ _.

Definition field {R T} (name : string) (c : Codec T) (proj : R → T) `{!Setter proj} (omitempty : bool)
    : Field R := {|
  f_name := name;
  f_omit r := omitempty && empty c (proj r);
  f_enc r := enc c (proj r);
  f_dec strict j r := res_bind (dec c strict j (proj r)) (λ v, Ok (r <| proj := v |>));
  f_got r r0 := r0 <| proj := got c (proj r) (proj r0) |>;
  f_fits r := fits c (proj r) |}.

(** An embedded struct lends its fields. *)
Definition embed {R T} (proj : R → T) `{!Setter proj} (f : Field T) : Field R := {|
  f_name := f_name f;
  f_omit r := f_omit f (proj r);
  f_enc r := f_enc f (proj r);
  f_dec strict j r := res_bind (f_dec f strict j (proj r)) (λ v, Ok (r <| proj := v |>));
  f_got r r0 := r0 <| proj := f_got f (proj r) (proj r0) |>;
  f_fits r := f_fits f (proj r) |}.

Fixpoint fold_name (s : string) : string :=
  match s with
  | EmptyString => ""
  | String a s1 =>
      let n := code a in
      if ((65 <=? n) && (n <=? 90))%nat then String (byte_of (n + 32)) (fold_name s1)
      else match s1 with
           | String b s2 =>
               if ((n =? 197) && (code b =? 191))%nat then String (byte_of 115) (fold_name s2)
               else match s2 with
                    | String c s3 =>
                        if ((n =? 226) && (code b =? 132) && (code c =? 170))%nat
                        then String (byte_of 107) (fold_name s3)
                        else String a (fold_name s1)
                    | EmptyString => String a (fold_name s1)
                    end
           | EmptyString => String a (fold_name s1)
           end
  end.

Section struct.
Context {R : Type}.

Definition find_field (fields : list (Field R)) (k : string) : option (Field R) :=
  match list_find (λ f, f_name f = k) fields with
  | Some (_, f) => Some f
  | None => snd <$> list_find (λ f, fold_name (f_name f) = fold_name k) fields
  end.

Fixpoint dec_members (fields : list (Field R)) (strict : bool) (l : list (string * Json)) (r : R) : Res R :=
  match l with
  | [] => Ok r
  | (k, j) :: l =>
      match find_field fields k with
      | Some f => res_bind (f_dec f strict j r) (dec_members fields strict l)
      | None => if strict then Err (unknown_field k) else dec_members fields strict l r
      end
  end.

Definition members (fields : list (Field R)) (r : R) : list (string * Json) :=
  omap (λ f, if f_omit f r then None else Some (f_name f, f_enc f r)) fields.

(** What the members of [r] make of [r0]. *)
Fixpoint copied (fields : list (Field R)) (r r0 : R) : R :=
  match fields with
  | [] => r0
  | f :: fields => copied fields r (if f_omit f r then r0 else f_got f r r0)
  end.

Definition struct (fields : list (Field R)) (zero : R) : Codec R := {|
  enc r := JObj (members fields r);
  dec strict j r := match j with
                    | JNull => Ok r
                    | JObj l => dec_members fields strict l r
                    | _ => Err type_error
                    end;
  empty _ := false; init := zero; got := copied fields; fits r := forallb (λ f, f_fits f r) fields |}.
End struct.

(** ** The round trip *)
Lemma str_lawful : lawful str.
Proof. done. Qed.
Lemma boolean_lawful : lawful boolean.
Proof. done. Qed.
Lemma int_lawful : lawful int.
Proof. intros strict z z0 Hz. simpl in *. by rewrite parse_int_pretty, Hz. Qed.
Lemma time_lawful `{TimeLaws} : lawful time.
Proof. intros strict t t0 _. simpl. by rewrite parse_fmt_time. Qed.
Lemma enum_lawful `{EqDecision A} text of_text (zero : A) : lawful (enum text of_text zero).
Proof. intros strict a a0 Ha%bool_decide_eq_true. simpl. by rewrite Ha. Qed.
Lemma raw_lawful : lawful raw.
Proof. done. Qed.

Lemma ptr_lawful {A} (c : Codec A) : lawful c → lawful (ptr c).
Proof.
  intros Hc strict [a|] v0; simpl; [|done]. intros [Ha Hn]%andb_true_iff.
  destruct (enc c a) eqn:He; try done; by rewrite <- He, Hc.
Qed.

Lemma slice_lawful {A} (c : Codec A) : lawful c → lawful (slice c).
Proof.
  intros Hc strict l l0 Hl. simpl in *. induction l as [|a l IH]; simpl in *; [done|].
  apply andb_true_iff in Hl as [Ha Hl]. rewrite lawful_Unmarshal by done. by rewrite IH.
Qed.

Lemma add_labels_union l m : add_labels m l = list_to_map (reverse l) ∪ m.
Proof.
  revert m. induction l as [|[k v] l IH]; intros m; simpl; [by rewrite map_empty_union|].
  rewrite IH, reverse_cons, list_to_map_app. simpl. rewrite <- map_union_assoc. f_equal.
  by rewrite <- insert_union_l, map_empty_union.
Qed.

Definition json_string (j : Json) : string := match j with JStr s => s | _ => "" end.

Lemma label_members (m : gmap string string) :
  res_map label (obj_members (JStr <$> m)) = Ok (prod_map id json_string <$> obj_members (JStr <$> m)).
Proof.
  apply res_map_ok, Forall_forall. intros [k j] Hin. unfold obj_members in Hin.
  apply list_elem_of_In, in_map_iff in Hin as (k' & [= -> <-] & Hk).
  apply list_elem_of_In in Hk. rewrite merge_sort_Permutation, elem_of_elements in Hk.
  apply elem_of_dom in Hk as [j' Hj']. rewrite Hj'. apply lookup_fmap_Some in Hj' as (s & <- & _). done.
Qed.

Lemma labels_lawful : lawful labels.
Proof.
  intros strict m m0 _. simpl. rewrite label_members. simpl.
  rewrite add_labels_union, <- fmap_reverse, (list_to_map_fmap (M := gmap string)).
  fold (obj_map (obj_members (JStr <$> m))). rewrite obj_map_members, <- map_fmap_compose.
  do 2 f_equal. apply map_fmap_id.
Qed.

(** ** The round trip of structs *)
Definition lawful_field {R} (f : Field R) : Prop :=
  ∀ strict r r0, f_fits f r = true → f_dec f strict (f_enc f r) r0 = Ok (f_got f r r0).

Lemma field_lawful {R T} name (c : Codec T) (proj : R → T) `{!Setter proj} omitempty :
  lawful c → lawful_field (field name c proj omitempty).
Proof. intros Hc strict r r0 Hr. simpl. by rewrite Hc. Qed.
Lemma embed_lawful {R T} (proj : R → T) `{!Setter proj} (f : Field T) :
  lawful_field f → lawful_field (embed proj f).
Proof. intros Hf strict r r0 Hr. simpl. by rewrite Hf. Qed.

Section round_trip.
Context {R : Type}.
Implicit Types (fields sent : list (Field R)).

Lemma find_field_here fields f : NoDup (f_name <$> fields) → f ∈ fields → find_field fields (f_name f) = Some f.
Proof.
  intros Hnd Hf. unfold find_field.
  assert (Hl : snd <$> list_find (λ g, f_name g = f_name f) fields = Some f).
  { induction fields as [|g fields IH]; [by apply elem_of_nil in Hf|]. simpl.
    apply NoDup_cons in Hnd as [Hg Hnd]. apply elem_of_cons in Hf as [->|Hf].
    - by rewrite decide_True.
    - rewrite decide_False; [|intros He; apply Hg; rewrite He; by apply (list_elem_of_fmap_2 f_name)].
      specialize (IH Hnd Hf). by destruct (list_find _ fields) as [[i h]|]. }
  destruct (list_find _ fields) as [[i g]|]; simpl in Hl; [by injection Hl as ->|done].
Qed.

(** The receiver knows the member and reads it as the sender means it. *)
Definition known fields (f : Field R) : Prop :=
  ∃ g, find_field fields (f_name f) = Some g ∧ ∀ strict j r, f_dec g strict j r = f_dec f strict j r.

Lemma dec_members_sent fields sent strict r r0 :
  Forall (known fields) sent → Forall lawful_field sent → forallb (λ f, f_fits f r) sent = true →
  dec_members fields strict (members sent r) r0 = Ok (copied sent r r0).
Proof.
  intros Hk Hl. revert r0. induction sent as [|f sent IH]; intros r0 Hr; [done|].
  apply Forall_cons in Hk as [(g & Hg & Hdec) Hk]. apply Forall_cons in Hl as [Hf Hl].
  simpl in Hr. apply andb_true_iff in Hr as [Hfr Hr]. unfold members. simpl.
  destruct (f_omit f r); simpl; [by apply IH|].
  rewrite Hg, Hdec, Hf by done. simpl. by apply IH.
Qed.

Lemma struct_lawful fields zero :
  NoDup (f_name <$> fields) → Forall lawful_field fields → lawful (struct fields zero).
Proof.
  intros Hnd Hl strict r r0 Hr. apply dec_members_sent; [|done..].
  apply Forall_forall. intros f Hf. exists f. split; [by apply find_field_here|done].
Qed.

(** A struct arrives field by field. *)
Lemma copied_cons f fields r r0 r1 :
  f_got f r r0 = r1 → (f_omit f r = true → r0 = r1) → copied (f :: fields) r r0 = copied fields r r1.
Proof. intros Hg Ho. simpl. destruct (f_omit f r); [by rewrite Ho|by rewrite Hg]. Qed.
End round_trip.

Lemma received_slice {A} (c : Codec A) l (f : A → A) :
  (∀ a, received c a = f a) → received (slice c) l = map f l.
Proof. intros Hf. simpl. by apply map_ext. Qed.
