(* ===== verification/Wire.v ===== *)
(** * Wire: the protocol structs as JSON documents

    The codecs of the structs of types.go and controlplane/types.go by their
    tags, and of the bodies that transport/httpapi/handler.go decodes into local
    structs.  Each codec is lawful; [received] is the value itself except where a
    tag says ["-"]: the run of an artifact and the lease token of an attempt do
    not travel.  A status that the constants do not name is a decoding error. *)

From S2P Require Import Prelude GoStrings Json Types Codec.

#[export] Instance eta_WorkspaceSpec : Eta WorkspaceSpec := λ w,
  mkWorkspaceSpec (ws_Kind w) (ws_Source w) (ws_Ref w) (ws_Subdir w) (ws_Ephemeral w).
#[export] Instance eta_RuntimeRequirement : Eta RuntimeRequirement := λ r,
  mkRuntimeRequirement (rr_ID r) (rr_Provider r) (rr_Model r) (rr_Version r) (rr_Labels r).
#[export] Instance eta_Source : Eta Source := λ s,
  mkSource (src_Kind s) (src_ExternalID s) (src_URL s) (src_Metadata s).
#[export] Instance eta_Input : Eta Input := λ i,
  mkInput (in_Type i) (in_Version i) (in_Prompt i) (in_Data i).
#[export] Instance eta_Fragment : Eta InstructionFragment := λ f,
  mkFragment (frag_ID f) (frag_Version f) (frag_Title f) (frag_Content f).
#[export] Instance eta_Bundle : Eta InstructionBundle := λ b,
  mkBundle (ib_Runtime b) (ib_Host b) (ib_Workspace b) (ib_Agent b) (ib_Turn b).
#[export] Instance eta_ContextItem : Eta ContextItem := λ c,
  mkContextItem (ctx_Type c) (ctx_Version c) (ctx_ExternalID c) (ctx_Revision c) (ctx_CapturedAt c) (ctx_Data c).
#[export] Instance eta_Principal : Eta Principal := λ p, mkPrincipal (pr_Type p) (pr_ID p) (pr_AccountableID p).
#[export] Instance eta_Grant : Eta CapabilityGrant := λ g,
  mkGrant (gr_Name g) (gr_Version g) (gr_Effect g) (gr_Resources g).
#[export] Instance eta_CapResult : Eta CapabilityResult := λ r, mkCapResult (cres_CallID r) (cres_Output r).
#[export] Instance eta_Result : Eta Result := λ r, mkResult (res_Summary r) (res_Output r) (res_Artifacts r).
#[export] Instance eta_InteractionRequest : Eta InteractionRequest := λ r,
  mkInteractionRequest (ir_Kind r) (ir_Prompt r) (ir_Data r).
#[export] Instance eta_RuntimeModel : Eta RuntimeModel := λ m,
  mkRuntimeModel (rm_ID m) (rm_DisplayName m) (rm_Description m) (rm_Default m).
#[export] Instance eta_Capability : Eta Capability := λ c, mkCapability (cap_Name c) (cap_Version c) (cap_Kind c).
#[export] Instance eta_LeaseUpdate : Eta LeaseUpdate := λ u,
  mkLeaseUpdate (lu_LeaseExpiresAt u) (lu_CancelRequested u) (lu_CancelReason u).
#[export] Instance eta_CancelRequest : Eta CancelRequest := λ c,
  mkCancelRequest (cancel_Reason c) (cancel_RequestedBy c).

(** ** Statuses *)
Definition AttemptStatus_text (s : AttemptStatus) : string :=
  match s with
  | AttemptQueued => "queued" | AttemptLeased => "leased" | AttemptRunning => "running"
  | AttemptSucceeded => "succeeded" | AttemptFailed => "failed" | AttemptLost => "lost"
  | AttemptCancelled => "cancelled"
  end.
Definition text_in {A} (text : A → string) (all : list A) (s : string) : option A :=
  snd <$> list_find (λ a, text a = s) all.
Definition run_status : Codec RunStatus :=
  enum RunStatus_text
    (text_in RunStatus_text [RunQueued; RunRunning; RunCancelling; RunCancelled; RunSucceeded; RunFailed]) RunQueued.
Definition attempt_status : Codec AttemptStatus :=
  enum AttemptStatus_text
    (text_in AttemptStatus_text [AttemptQueued; AttemptLeased; AttemptRunning; AttemptSucceeded;
                                 AttemptFailed; AttemptLost; AttemptCancelled]) AttemptQueued.
Definition InteractionKind_of (s : string) : InteractionKind :=
  if s =s "input" then InteractionInput else if s =s "approval" then InteractionApproval else InteractionOther s.
Definition interaction_kind : Codec InteractionKind :=
  enum InteractionKind_text (λ s, Some (InteractionKind_of s)) (InteractionOther "").

(** ** types.go *)
Section wire.
Context `{Host} `{TimeParser}.

Definition fields_WorkspaceSpec : list (Field WorkspaceSpec) :=
  [field "kind" str ws_Kind true; field "source" str ws_Source true; field "ref" str ws_Ref true;
   field "subdir" str ws_Subdir true; field "ephemeral" boolean ws_Ephemeral true].
Definition wire_WorkspaceSpec := struct fields_WorkspaceSpec (mkWorkspaceSpec "" "" "" "" false).
Definition fields_RetryPolicy : list (Field RetryPolicy) :=
  [field "max_attempts" int retry_MaxAttempts true; field "backoff" str retry_Backoff true].
Definition wire_RetryPolicy := struct fields_RetryPolicy (mkRetryPolicy 0 "").
Definition fields_RuntimeRequirement : list (Field RuntimeRequirement) :=
  [field "id" str rr_ID true; field "provider" str rr_Provider false; field "model" str rr_Model true;
   field "version" str rr_Version true; field "labels" labels rr_Labels true].
Definition wire_RuntimeRequirement := struct fields_RuntimeRequirement (mkRuntimeRequirement "" "" "" "" ∅).
Definition fields_Source : list (Field Source) :=
  [field "kind" str src_Kind false; field "external_id" str src_ExternalID false;
   field "url" str src_URL true; field "metadata" raw src_Metadata true].
Definition wire_Source := struct fields_Source (mkSource "" "" "" None).
Definition fields_Input : list (Field Input) :=
  [field "type" str in_Type false; field "version" str in_Version false;
   field "prompt" str in_Prompt false; field "data" raw in_Data true].
Definition wire_Input := struct fields_Input (mkInput "" "" "" None).
Definition fields_Fragment : list (Field InstructionFragment) :=
  [field "id" str frag_ID false; field "version" str frag_Version false;
   field "title" str frag_Title false; field "content" str frag_Content false].
Definition wire_Fragment := struct fields_Fragment (mkFragment "" "" "" "").
Definition fields_Bundle : list (Field InstructionBundle) :=
  [field "runtime" (slice wire_Fragment) ib_Runtime true; field "host" (slice wire_Fragment) ib_Host true;
   field "workspace" (slice wire_Fragment) ib_Workspace true; field "agent" (slice wire_Fragment) ib_Agent true;
   field "turn" (slice wire_Fragment) ib_Turn true].
Definition wire_Bundle := struct fields_Bundle (mkBundle [] [] [] [] []).
Definition fields_ContextItem : list (Field ContextItem) :=
  [field "type" str ctx_Type false; field "version" str ctx_Version false;
   field "external_id" str ctx_ExternalID true; field "revision" str ctx_Revision true;
   field "captured_at" time ctx_CapturedAt false; field "data" raw ctx_Data true].
Definition wire_ContextItem := struct fields_ContextItem (mkContextItem "" "" "" "" 0 None).
Definition fields_Principal : list (Field Principal) :=
  [field "type" str pr_Type false; field "id" str pr_ID false; field "accountable_id" str pr_AccountableID true].
Definition wire_Principal := struct fields_Principal (mkPrincipal "" "" "").
Definition fields_Grant : list (Field CapabilityGrant) :=
  [field "name" str gr_Name false; field "version" str gr_Version false; field "effect" str gr_Effect false;
   field "resources" (slice str) gr_Resources true].
Definition wire_Grant := struct fields_Grant (mkGrant "" "" "" []).

Definition fields_Request : list (Field Request) :=
  [field "tenant_id" str req_TenantID true; field "project_id" str req_ProjectID true;
   field "session_id" str req_SessionID true; field "agent_id" str req_AgentID false;
   field "idempotency_key" str req_IdempotencyKey false; field "runtime" wire_RuntimeRequirement req_Runtime false;
   field "source" wire_Source req_Source false; field "input" wire_Input req_Input false;
   field "instructions" wire_Bundle req_Instructions true; field "context" (slice wire_ContextItem) req_Context true;
   field "capabilities" (slice wire_Grant) req_Capabilities true;
   field "principal" wire_Principal req_Principal false; field "retry" wire_RetryPolicy req_Retry true;
   field "timeout" str req_Timeout true; field "workspace" wire_WorkspaceSpec req_Workspace true].
Definition wire_Request : Codec Request := struct fields_Request zero.

Definition fields_CapabilityRequest : list (Field CapabilityRequest) :=
  [field "call_id" str cr_CallID false; field "run_id" str cr_RunID false; field "agent_id" str cr_AgentID false;
   field "principal" wire_Principal cr_Principal false; field "name" str cr_Name false;
   field "version" str cr_Version false; field "effect" str cr_Effect false;
   field "resource" str cr_Resource true; field "input" raw cr_Input true].
Definition wire_CapabilityRequest :=
  struct fields_CapabilityRequest (mkCapRequest "" "" "" (mkPrincipal "" "" "") "" "" "" "" None).
Definition fields_CapabilityResult : list (Field CapabilityResult) :=
  [field "call_id" str cres_CallID false; field "output" raw cres_Output true].
Definition wire_CapabilityResult := struct fields_CapabilityResult (mkCapResult "" None).
(** capability.go *)
Definition fields_Reservation : list (Field CapabilityReservation) :=
  [field "call_id" str rsv_CallID false; field "execute" boolean rsv_Execute false;
   field "result" (ptr wire_CapabilityResult) rsv_Result true; field "error" str rsv_Error true].
Definition wire_Reservation := struct fields_Reservation (mkReservation "" false None "").

Definition fields_Artifact : list (Field Artifact) :=
  [field "id" str art_ID true; field "type" str art_Type false; field "ref" str art_Ref false;
   field "name" str art_Name true; field "content_type" str art_ContentType true;
   field "size" int art_Size true; field "sha256" str art_SHA256 true].
Definition wire_Artifact : Codec Artifact := struct fields_Artifact zero.
Definition fields_Result : list (Field Result) :=
  [field "summary" str res_Summary false; field "output" raw res_Output true;
   field "artifacts" (slice wire_Artifact) res_Artifacts true].
Definition wire_Result := struct fields_Result (mkResult "" None []).
Definition fields_Attempt : list (Field Attempt) :=
  [field "id" str att_ID false; field "number" int att_Number false; field "node_id" str att_NodeID true;
   field "lease_expires_at" (ptr time) att_LeaseExpiresAt true; field "available_at" (ptr time) att_AvailableAt true;
   field "status" attempt_status att_Status false; field "started_at" (ptr time) att_StartedAt true;
   field "completed_at" (ptr time) att_CompletedAt true].
Definition wire_Attempt : Codec Attempt := struct fields_Attempt zero.

Definition zero_Run : Run :=
  mkRun "" "" "" "" "" "" (mkRuntimeRequirement "" "" "" "" ∅) (mkSource "" "" "" None) RunQueued zero None ""
    0 None None None None "" None.
Definition fields_Run : list (Field Run) :=
  [field "id" str run_ID false; field "tenant_id" str run_TenantID true; field "project_id" str run_ProjectID true;
   field "session_id" str run_SessionID true; field "agent_id" str run_AgentID false;
   field "idempotency_key" str run_IdempotencyKey false; field "runtime" wire_RuntimeRequirement run_Runtime false;
   field "source" wire_Source run_Source false; field "status" run_status run_Status false;
   field "attempt" wire_Attempt run_Attempt false; field "result" (ptr wire_Result) run_Result true;
   field "error" str run_Error true; field "created_at" time run_CreatedAt false;
   field "started_at" (ptr time) run_StartedAt true; field "completed_at" (ptr time) run_CompletedAt true;
   field "deadline_at" (ptr time) run_DeadlineAt true;
   field "cancel_requested_at" (ptr time) run_CancelRequestedAt true;
   field "cancel_reason" str run_CancelReason true; field "cancelled_at" (ptr time) run_CancelledAt true].
Definition wire_Run : Codec Run := struct fields_Run zero_Run.
Definition fields_Event : list (Field Event) :=
  [field "id" str ev_ID false; field "run_id" str ev_RunID false; field "attempt_id" str ev_AttemptID true;
   field "sequence" int ev_Sequence false; field "type" str ev_Type false; field "data" raw ev_Data true;
   field "created_at" time ev_CreatedAt false].
Definition wire_Event := struct fields_Event (mkEvent "" "" "" 0 "" None 0).
Definition fields_InteractionRequest : list (Field InteractionRequest) :=
  [field "kind" interaction_kind ir_Kind false; field "prompt" str ir_Prompt false; field "data" raw ir_Data true].
Definition wire_InteractionRequest :=
  struct fields_InteractionRequest (mkInteractionRequest (InteractionOther "") "" None).
Definition fields_Interaction : list (Field Interaction) :=
  [field "id" str ia_ID false; field "run_id" str ia_RunID false; field "attempt_id" str ia_AttemptID false;
   field "kind" interaction_kind ia_Kind false; field "state" str ia_State false; field "prompt" str ia_Prompt false;
   field "data" raw ia_Data true; field "response" raw ia_Response true;
   field "created_at" time ia_CreatedAt false; field "resolved_at" (ptr time) ia_ResolvedAt true].
Definition wire_Interaction :=
  struct fields_Interaction (mkInteraction "" "" "" (InteractionOther "") "" "" None None 0 None).

(** ** controlplane/types.go *)
Definition fields_RuntimeModel : list (Field RuntimeModel) :=
  [field "id" str rm_ID false; field "display_name" str rm_DisplayName true;
   field "description" str rm_Description true; field "default" boolean rm_Default true].
Definition wire_RuntimeModel := struct fields_RuntimeModel (mkRuntimeModel "" "" "" false).
Definition fields_Runtime : list (Field Runtime) :=
  [field "id" str rt_ID false; field "provider" str rt_Provider false; field "version" str rt_Version true;
   field "state" str rt_State true; field "message" str rt_Message true;
   field "default_model" str rt_DefaultModel true; field "models" (slice str) rt_Models true;
   field "model_catalog" (slice wire_RuntimeModel) rt_ModelCatalog true;
   field "checked_at" (ptr time) rt_CheckedAt true].
Definition wire_Runtime := struct fields_Runtime (mkRuntime "" "" "" "" "" "" [] [] None).
Definition fields_Capability : list (Field Capability) :=
  [field "name" str cap_Name false; field "version" str cap_Version false; field "kind" str cap_Kind false].
Definition wire_Capability := struct fields_Capability (mkCapability "" "" "").
Definition fields_NodeRegistration : list (Field NodeRegistration) :=
  [field "id" str reg_ID false; field "version" str reg_Version true;
   field "protocol_version" str reg_ProtocolVersion false; field "labels" labels reg_Labels true;
   field "runtimes" (slice wire_Runtime) reg_Runtimes false;
   field "capabilities" (slice wire_Capability) reg_Capabilities true; field "capacity" int reg_Capacity false].
Definition zero_NodeRegistration : NodeRegistration := mkRegistration "" "" "" ∅ [] [] 0.
Definition wire_NodeRegistration := struct fields_NodeRegistration zero_NodeRegistration.
Definition fields_Node : list (Field Node) :=
  map (embed node_Registration) fields_NodeRegistration ++
  [field "active" int node_Active false; field "last_seen" time node_LastSeen false;
   field "state" str node_State false].
Definition wire_Node := struct fields_Node (mkNode zero_NodeRegistration 0 0 "").
Definition fields_Assignment : list (Field Assignment) :=
  [field "run_id" str asg_RunID false; field "attempt_id" str asg_AttemptID false;
   field "lease_token" str asg_LeaseToken false; field "lease_expires_at" time asg_LeaseExpiresAt false;
   field "request" wire_Request asg_Request false].
Definition wire_Assignment := struct fields_Assignment (mkAssignment "" "" "" 0 zero).
Definition fields_LeaseUpdate : list (Field LeaseUpdate) :=
  [field "lease_expires_at" time lu_LeaseExpiresAt false; field "cancel_requested" boolean lu_CancelRequested false;
   field "cancel_reason" str lu_CancelReason true].
Definition wire_LeaseUpdate := struct fields_LeaseUpdate (mkLeaseUpdate 0 false "").
Definition fields_CancelRequest : list (Field CancelRequest) :=
  [field "reason" str cancel_Reason true; field "requested_by" str cancel_RequestedBy true].
Definition wire_CancelRequest := struct fields_CancelRequest (mkCancelRequest "" "").
End wire.

(** ** Lawfulness *)
Create HintDb wire.
#[export] Hint Resolve str_lawful boolean_lawful int_lawful time_lawful raw_lawful ptr_lawful slice_lawful
  labels_lawful field_lawful embed_lawful : wire.

Lemma run_status_lawful : lawful run_status.
Proof. apply enum_lawful. Qed.
Lemma attempt_status_lawful : lawful attempt_status.
Proof. apply enum_lawful. Qed.
Lemma interaction_kind_lawful : lawful interaction_kind.
Proof. apply enum_lawful. Qed.
#[export] Hint Resolve run_status_lawful attempt_status_lawful interaction_kind_lawful : wire.

(** The members have different names and lawful codecs. *)
Ltac struct_lawful :=
  apply struct_lawful; [apply (bool_decide_unpack _); vm_compute; reflexivity
                       |repeat (apply Forall_cons; split); [auto 10 with wire..|apply Forall_nil; exact I]].

Section laws.
Context `{TimeLaws}.

Lemma WorkspaceSpec_lawful : lawful wire_WorkspaceSpec.
Proof. struct_lawful. Qed.
Lemma RetryPolicy_lawful : lawful wire_RetryPolicy.
Proof. struct_lawful. Qed.
Lemma RuntimeRequirement_lawful : lawful wire_RuntimeRequirement.
Proof. struct_lawful. Qed.
Lemma Source_lawful : lawful wire_Source.
Proof. struct_lawful. Qed.
Lemma Input_lawful : lawful wire_Input.
Proof. struct_lawful. Qed.
Lemma Fragment_lawful : lawful wire_Fragment.
Proof. struct_lawful. Qed.
#[local] Hint Resolve WorkspaceSpec_lawful RetryPolicy_lawful RuntimeRequirement_lawful Source_lawful Input_lawful
  Fragment_lawful : wire.
Lemma Bundle_lawful : lawful wire_Bundle.
Proof. struct_lawful. Qed.
Lemma ContextItem_lawful : lawful wire_ContextItem.
Proof. struct_lawful. Qed.
Lemma Principal_lawful : lawful wire_Principal.
Proof. struct_lawful. Qed.
Lemma Grant_lawful : lawful wire_Grant.
Proof. struct_lawful. Qed.
#[local] Hint Resolve Bundle_lawful ContextItem_lawful Principal_lawful Grant_lawful : wire.
Lemma Request_lawful : lawful wire_Request.
Proof. struct_lawful. Qed.
Lemma CapabilityRequest_lawful : lawful wire_CapabilityRequest.
Proof. struct_lawful. Qed.
Lemma CapabilityResult_lawful : lawful wire_CapabilityResult.
Proof. struct_lawful. Qed.
Lemma Artifact_lawful : lawful wire_Artifact.
Proof. struct_lawful. Qed.
Lemma Attempt_lawful : lawful wire_Attempt.
Proof. struct_lawful. Qed.
#[local] Hint Resolve Request_lawful CapabilityRequest_lawful CapabilityResult_lawful Artifact_lawful Attempt_lawful : wire.
Lemma Reservation_lawful : lawful wire_Reservation.
Proof. struct_lawful. Qed.
Lemma Result_lawful : lawful wire_Result.
Proof. struct_lawful. Qed.
#[local] Hint Resolve Reservation_lawful Result_lawful : wire.
Lemma Run_lawful : lawful wire_Run.
Proof. struct_lawful. Qed.
Lemma Event_lawful : lawful wire_Event.
Proof. struct_lawful. Qed.
Lemma InteractionRequest_lawful : lawful wire_InteractionRequest.
Proof. struct_lawful. Qed.
Lemma Interaction_lawful : lawful wire_Interaction.
Proof. struct_lawful. Qed.
Lemma RuntimeModel_lawful : lawful wire_RuntimeModel.
Proof. struct_lawful. Qed.
Lemma Capability_lawful : lawful wire_Capability.
Proof. struct_lawful. Qed.
#[local] Hint Resolve RuntimeModel_lawful Capability_lawful : wire.
Lemma Runtime_lawful : lawful wire_Runtime.
Proof. struct_lawful. Qed.
#[local] Hint Resolve Runtime_lawful : wire.
Lemma NodeRegistration_lawful : lawful wire_NodeRegistration.
Proof. struct_lawful. Qed.
Lemma Node_lawful : lawful wire_Node.
Proof. struct_lawful. Qed.
Lemma Assignment_lawful : lawful wire_Assignment.
Proof. struct_lawful. Qed.
Lemma LeaseUpdate_lawful : lawful wire_LeaseUpdate.
Proof. struct_lawful. Qed.
Lemma CancelRequest_lawful : lawful wire_CancelRequest.
Proof. struct_lawful. Qed.
End laws.
#[export] Hint Resolve Request_lawful CapabilityRequest_lawful CapabilityResult_lawful Artifact_lawful
  Reservation_lawful Result_lawful Run_lawful Attempt_lawful Event_lawful InteractionRequest_lawful Interaction_lawful
  NodeRegistration_lawful Node_lawful Assignment_lawful LeaseUpdate_lawful CancelRequest_lawful : wire.

