(* ===== verification/WireProps.v ===== *)
(** * WireProps: what arrives when a protocol struct is sent

    [received] is the identity on every struct of the protocol except where a tag
    says ["-"]: an artifact arrives without its run, an attempt without its lease
    token, and so do the results and runs that hold them. *)

From S2P Require Import Prelude GoStrings Json Types Codec Wire.

(** One field: sent, it arrives as [v]; omitted, [v] was there. *)
Lemma copied_field {R T} name (c : Codec T) (proj : R → T) `{!Setter proj} omitempty fields r r0 v r1 x :
  (omitempty && empty c (proj r) = false → got c (proj r) (proj r0) = v) →
  r0 <| proj := v |> = r1 →
  (omitempty && empty c (proj r) = true → r1 = r0) →
  copied fields r r1 = x → copied (field name c proj omitempty :: fields) r r0 = x.
Proof.
  intros Hs <- Ho <-. cbn [copied f_omit f_got field].
  destruct (omitempty && empty c (proj r)); [by rewrite Ho|by rewrite Hs].
Qed.

(** An omitted member is one that holds the zero value. *)
Ltac omitted :=
  let Ho := fresh "Ho" in
  intros Ho; cbn in Ho; try discriminate Ho;
  first [ apply bool_decide_eq_true in Ho | apply negb_true_iff in Ho ];
  repeat match goal with
    | H : length ?l = 0 |- _ => apply nil_length_inv in H
    | H : size ?m = 0 |- _ => apply map_size_empty_inv in H
    | H : bool_decide (is_Some ?v) = false |- _ => destruct v; [discriminate H|clear H]
    end; subst; reflexivity.

Lemma received_strings (l : list string) : map (received str) l = l.
Proof. apply map_id. Qed.
Lemma labels_fresh (m : gmap string string) : m ∪ ∅ = m.
Proof. apply map_union_empty. Qed.
Lemma option_eta {A} (v : option A) : match v with None => None | Some a => Some a end = v.
Proof. by destruct v. Qed.
#[export] Hint Rewrite received_strings labels_fresh @option_eta : received.

(** A message that is sent is not nil. *)
Ltac arrived :=
  let Ho := fresh "Ho" in
  intros Ho; cbn in Ho;
  lazymatch type of Ho with
  | bool_decide (?v = None) = _ => transitivity v; [destruct v; [reflexivity|discriminate Ho]|reflexivity]
  | _ => cbn; autorewrite with received; reflexivity
  end.

(** Field by field; the structs inside arrive by the lemmas proved before. *)
Ltac arrives :=
  intros []; cbn [got struct init];
  repeat (eapply copied_field; [arrived|cbn; reflexivity|omitted|]);
  reflexivity.

Section received.
Context `{Host} `{TimeParser}.
Lemma WorkspaceSpec_received a : got wire_WorkspaceSpec a (mkWorkspaceSpec "" "" "" "" false) = a.
Proof. unfold wire_WorkspaceSpec, fields_WorkspaceSpec. revert a. arrives. Qed.
#[local] Opaque wire_WorkspaceSpec.
#[local] Hint Rewrite WorkspaceSpec_received : received.
Lemma RetryPolicy_received a : got wire_RetryPolicy a (mkRetryPolicy 0 "") = a.
Proof. unfold wire_RetryPolicy, fields_RetryPolicy. revert a. arrives. Qed.
#[local] Opaque wire_RetryPolicy.
#[local] Hint Rewrite RetryPolicy_received : received.
Lemma RuntimeRequirement_received a : got wire_RuntimeRequirement a (mkRuntimeRequirement "" "" "" "" ∅) = a.
Proof. unfold wire_RuntimeRequirement, fields_RuntimeRequirement. revert a. arrives. Qed.
#[local] Opaque wire_RuntimeRequirement.
#[local] Hint Rewrite RuntimeRequirement_received : received.
Lemma Source_received a : got wire_Source a (mkSource "" "" "" None) = a.
Proof. unfold wire_Source, fields_Source. revert a. arrives. Qed.
#[local] Opaque wire_Source.
#[local] Hint Rewrite Source_received : received.
Lemma Input_received a : got wire_Input a (mkInput "" "" "" None) = a.
Proof. unfold wire_Input, fields_Input. revert a. arrives. Qed.
#[local] Opaque wire_Input.
#[local] Hint Rewrite Input_received : received.
Lemma Fragment_received a : got wire_Fragment a (mkFragment "" "" "" "") = a.
Proof. unfold wire_Fragment, fields_Fragment. revert a. arrives. Qed.
#[local] Opaque wire_Fragment.
#[local] Hint Rewrite Fragment_received : received.
Lemma Fragments_received l : map (received wire_Fragment) l = l.
Proof. rewrite <- (map_id l) at 2. apply map_ext. intros a. apply Fragment_received. Qed.
#[local] Hint Rewrite Fragments_received : received.
Lemma Bundle_received a : got wire_Bundle a (mkBundle [] [] [] [] []) = a.
Proof. unfold wire_Bundle, fields_Bundle. revert a. arrives. Qed.
#[local] Opaque wire_Bundle.
#[local] Hint Rewrite Bundle_received : received.
Lemma ContextItem_received a : got wire_ContextItem a (mkContextItem "" "" "" "" 0 None) = a.
Proof. unfold wire_ContextItem, fields_ContextItem. revert a. arrives. Qed.
#[local] Opaque wire_ContextItem.
#[local] Hint Rewrite ContextItem_received : received.
Lemma ContextItems_received l : map (received wire_ContextItem) l = l.
Proof. rewrite <- (map_id l) at 2. apply map_ext. intros a. apply ContextItem_received. Qed.
#[local] Hint Rewrite ContextItems_received : received.
Lemma Principal_received a : got wire_Principal a (mkPrincipal "" "" "") = a.
Proof. unfold wire_Principal, fields_Principal. revert a. arrives. Qed.
#[local] Opaque wire_Principal.
#[local] Hint Rewrite Principal_received : received.
Lemma Grant_received a : got wire_Grant a (mkGrant "" "" "" []) = a.
Proof. unfold wire_Grant, fields_Grant. revert a. arrives. Qed.
#[local] Opaque wire_Grant.
#[local] Hint Rewrite Grant_received : received.
Lemma Grants_received l : map (received wire_Grant) l = l.
Proof. rewrite <- (map_id l) at 2. apply map_ext. intros a. apply Grant_received. Qed.
#[local] Hint Rewrite Grants_received : received.
Lemma Request_received a : got wire_Request a zero = a.
Proof. unfold wire_Request, fields_Request. revert a. arrives. Qed.
#[local] Opaque wire_Request.
#[local] Hint Rewrite Request_received : received.
Lemma CapabilityRequest_received a : got wire_CapabilityRequest a (mkCapRequest "" "" "" (mkPrincipal "" "" "") "" "" "" "" None) = a.
Proof. unfold wire_CapabilityRequest, fields_CapabilityRequest. revert a. arrives. Qed.
#[local] Opaque wire_CapabilityRequest.
#[local] Hint Rewrite CapabilityRequest_received : received.
Lemma CapabilityResult_received a : got wire_CapabilityResult a (mkCapResult "" None) = a.
Proof. unfold wire_CapabilityResult, fields_CapabilityResult. revert a. arrives. Qed.
#[local] Opaque wire_CapabilityResult.
#[local] Hint Rewrite CapabilityResult_received : received.
Lemma ptr_CapabilityResult_received v :
  match v with None => None | Some a => Some (got wire_CapabilityResult a (init wire_CapabilityResult)) end = v.
Proof. destruct v as [r|]; [|done]. cbn. f_equal. apply CapabilityResult_received. Qed.
#[local] Hint Rewrite ptr_CapabilityResult_received : received.
Lemma Reservation_received a : got wire_Reservation a (mkReservation "" false None "") = a.
Proof. unfold wire_Reservation, fields_Reservation. revert a. arrives. Qed.
#[local] Opaque wire_Reservation.
#[local] Hint Rewrite Reservation_received : received.
Lemma Artifact_received a : got wire_Artifact a zero = a <| art_RunID := "" |>.
Proof. unfold wire_Artifact, fields_Artifact. revert a. arrives. Qed.
#[local] Opaque wire_Artifact.
#[local] Hint Rewrite Artifact_received : received.

(** What travels of the structs that hold an artifact or an attempt. *)
Definition sent_Artifact (a : Artifact) : Artifact := a <| art_RunID := "" |>.
Definition sent_Result (r : Result) : Result := r <| res_Artifacts := map sent_Artifact (res_Artifacts r) |>.
Definition sent_Attempt (a : Attempt) : Attempt := a <| att_LeaseToken := "" |>.
Definition sent_Run (r : Run) : Run :=
  r <| run_Attempt := sent_Attempt (run_Attempt r) |> <| run_Result := sent_Result <$> run_Result r |>.

Lemma Artifacts_received l : map (received wire_Artifact) l = map sent_Artifact l.
Proof. apply map_ext. intros a. apply Artifact_received. Qed.
#[local] Hint Rewrite Artifacts_received : received.
Lemma Result_received a : got wire_Result a (mkResult "" None []) = sent_Result a.
Proof. unfold wire_Result, fields_Result. revert a. arrives. Qed.
#[local] Opaque wire_Result.
#[local] Hint Rewrite Result_received : received.
Lemma ptr_Result_received v :
  match v with None => None | Some a => Some (got wire_Result a (init wire_Result)) end = sent_Result <$> v.
Proof. destruct v as [r|]; [|done]. cbn. f_equal. apply Result_received. Qed.
#[local] Hint Rewrite ptr_Result_received : received.
Lemma Attempt_received a : got wire_Attempt a zero = sent_Attempt a.
Proof. unfold wire_Attempt, fields_Attempt. revert a. arrives. Qed.
#[local] Opaque wire_Attempt.
#[local] Hint Rewrite Attempt_received : received.
Lemma Run_received a : got wire_Run a zero_Run = sent_Run a.
Proof. unfold wire_Run, fields_Run. revert a. arrives. Qed.
#[local] Opaque wire_Run.
#[local] Hint Rewrite Run_received : received.
Lemma Event_received a : got wire_Event a (mkEvent "" "" "" 0 "" None 0) = a.
Proof. unfold wire_Event, fields_Event. revert a. arrives. Qed.
#[local] Opaque wire_Event.
#[local] Hint Rewrite Event_received : received.
Lemma InteractionRequest_received a : got wire_InteractionRequest a (mkInteractionRequest (InteractionOther "") "" None) = a.
Proof. unfold wire_InteractionRequest, fields_InteractionRequest. revert a. arrives. Qed.
#[local] Opaque wire_InteractionRequest.
#[local] Hint Rewrite InteractionRequest_received : received.
Lemma Interaction_received a : got wire_Interaction a (mkInteraction "" "" "" (InteractionOther "") "" "" None None 0 None) = a.
Proof. unfold wire_Interaction, fields_Interaction. revert a. arrives. Qed.
#[local] Opaque wire_Interaction.
#[local] Hint Rewrite Interaction_received : received.
Lemma RuntimeModel_received a : got wire_RuntimeModel a (mkRuntimeModel "" "" "" false) = a.
Proof. unfold wire_RuntimeModel, fields_RuntimeModel. revert a. arrives. Qed.
#[local] Opaque wire_RuntimeModel.
#[local] Hint Rewrite RuntimeModel_received : received.
Lemma RuntimeModels_received l : map (received wire_RuntimeModel) l = l.
Proof. rewrite <- (map_id l) at 2. apply map_ext. intros a. apply RuntimeModel_received. Qed.
#[local] Hint Rewrite RuntimeModels_received : received.
Lemma Capability_received a : got wire_Capability a (mkCapability "" "" "") = a.
Proof. unfold wire_Capability, fields_Capability. revert a. arrives. Qed.
#[local] Opaque wire_Capability.
#[local] Hint Rewrite Capability_received : received.
Lemma Capabilities_received l : map (received wire_Capability) l = l.
Proof. rewrite <- (map_id l) at 2. apply map_ext. intros a. apply Capability_received. Qed.
#[local] Hint Rewrite Capabilities_received : received.
Lemma Runtime_received a : got wire_Runtime a (mkRuntime "" "" "" "" "" "" [] [] None) = a.
Proof. unfold wire_Runtime, fields_Runtime. revert a. arrives. Qed.
#[local] Opaque wire_Runtime.
#[local] Hint Rewrite Runtime_received : received.
Lemma Runtimes_received l : map (received wire_Runtime) l = l.
Proof. rewrite <- (map_id l) at 2. apply map_ext. intros a. apply Runtime_received. Qed.
#[local] Hint Rewrite Runtimes_received : received.
Lemma NodeRegistration_received a : got wire_NodeRegistration a zero_NodeRegistration = a.
Proof. unfold wire_NodeRegistration, fields_NodeRegistration. revert a. arrives. Qed.
#[local] Opaque wire_NodeRegistration.
#[local] Hint Rewrite NodeRegistration_received : received.
Lemma Assignment_received a : got wire_Assignment a (mkAssignment "" "" "" 0 zero) = a.
Proof. unfold wire_Assignment, fields_Assignment. revert a. arrives. Qed.
#[local] Opaque wire_Assignment.
#[local] Hint Rewrite Assignment_received : received.
Lemma LeaseUpdate_received a : got wire_LeaseUpdate a (mkLeaseUpdate 0 false "") = a.
Proof. unfold wire_LeaseUpdate, fields_LeaseUpdate. revert a. arrives. Qed.
#[local] Opaque wire_LeaseUpdate.
#[local] Hint Rewrite LeaseUpdate_received : received.
Lemma CancelRequest_received a : got wire_CancelRequest a (mkCancelRequest "" "") = a.
Proof. unfold wire_CancelRequest, fields_CancelRequest. revert a. arrives. Qed.
#[local] Opaque wire_CancelRequest.
#[local] Hint Rewrite CancelRequest_received : received.

Lemma copied_embed fields (rest : list (Field Node)) r r0 :
  copied (map (embed node_Registration) fields ++ rest) r r0 =
  copied rest r (r0 <| node_Registration := copied fields (node_Registration r) (node_Registration r0) |>).
Proof.
  revert r0. induction fields as [|f fields IH]; intros [reg active seen state]; [done|].
  cbn [map app copied embed f_omit f_got]. rewrite IH. destruct r as [reg' active' seen' state']. cbn.
  by destruct (f_omit f reg').
Qed.
Lemma Node_received a : got wire_Node a (mkNode zero_NodeRegistration 0 0 "") = a.
Proof.
  unfold wire_Node, fields_Node. cbn [got struct]. rewrite copied_embed.
  change (copied fields_NodeRegistration) with (got wire_NodeRegistration). cbn [node_Registration].
  rewrite NodeRegistration_received. by destruct a.
Qed.
End received.
