(* ===== verification/Url.v ===== *)
(** * Url: escaped path segments (net/url)

    [PathEscape] writes a segment so that it holds no slash; [PathUnescape]
    reads it back.  A request line carries the escaped path; the multiplexer
    splits it before it unescapes the segments. *)

From S2P Require Import Prelude GoStrings.

Definition upperhex (n : nat) : Ascii.ascii := byte_of (if (n <? 10)%nat then 48 + n else 55 + n).
Definition unhex (c : Ascii.ascii) : option nat :=
  let n := code c in
  if ((48 <=? n) && (n <=? 57))%nat then Some (n - 48)
  else if ((65 <=? n) && (n <=? 70))%nat then Some (n - 55)
  else if ((97 <=? n) && (n <=? 102))%nat then Some (n - 87)
  else None.

(** [shouldEscape(c, encodePathSegment)] *)
Definition unreserved (c : Ascii.ascii) : bool :=
  let n := code c in
  ((48 <=? n) && (n <=? 57) || (65 <=? n) && (n <=? 90) || (97 <=? n) && (n <=? 122) ||
   bool_decide (n ∈ [45; 95; 46; 126; 36; 38; 43; 58; 61; 64]))%nat.
Definition percent : Ascii.ascii := byte_of 37.
Definition slash_byte : Ascii.ascii := byte_of 47.

Definition high_digit (c : Ascii.ascii) : Ascii.ascii := upperhex (code c / 16).
Definition low_digit (c : Ascii.ascii) : Ascii.ascii := upperhex (code c mod 16).
Definition hex_byte (x y : nat) : Ascii.ascii := byte_of (16 * x + y).
Arguments high_digit : simpl never.
Arguments low_digit : simpl never.
Arguments hex_byte : simpl never.
Arguments unhex : simpl never.
Arguments unreserved : simpl never.

Fixpoint PathEscape (s : string) : string :=
  match s with
  | EmptyString => ""
  | String c s =>
      if unreserved c then String c (PathEscape s)
      else String percent (String (high_digit c) (String (low_digit c) (PathEscape s)))
  end.

Fixpoint PathUnescape (s : string) : option string :=
  match s with
  | EmptyString => Some ""
  | String c s =>
      if bool_decide (c = percent) then
        match s with
        | String a (String b s) =>
            x ← unhex a; y ← unhex b; rest ← PathUnescape s; Some (String (hex_byte x y) rest)
        | _ => None
        end
      else rest ← PathUnescape s; Some (String c rest)
  end.

(** Every byte comes back, and none becomes a slash. *)
Definition byte_ok (c : Ascii.ascii) : bool :=
  if unreserved c then negb (bool_decide (c = percent)) && negb (bool_decide (c = slash_byte))
  else match unhex (high_digit c), unhex (low_digit c) with
       | Some x, Some y => bool_decide (hex_byte x y = c)
       | _, _ => false
       end && negb (bool_decide (high_digit c = slash_byte)) &&
       negb (bool_decide (low_digit c = slash_byte)).
Lemma bytes_ok c : byte_ok c = true.
Proof. destruct c as [[] [] [] [] [] [] [] []]; reflexivity. Qed.

Lemma PathUnescape_escape s : PathUnescape (PathEscape s) = Some s.
Proof.
  induction s as [|c s IH]; [done|]. pose proof (bytes_ok c) as Hc. unfold byte_ok in Hc. simpl.
  destruct (unreserved c).
  - apply andb_true_iff in Hc as [Hc _]. simpl. apply negb_true_iff in Hc. by rewrite Hc, IH.
  - simpl. destruct (unhex (high_digit c)) as [x|]; [|done].
    destruct (unhex (low_digit c)) as [y|]; [|done].
    rewrite !andb_true_iff in Hc. destruct Hc as [[Hc%bool_decide_eq_true _] _]. simpl. by rewrite IH, Hc.
Qed.

Lemma PathEscape_no_slash s : has_char slash_byte (PathEscape s) = false.
Proof.
  induction s as [|c s IH]; [done|]. pose proof (bytes_ok c) as Hc. unfold byte_ok in Hc. simpl.
  destruct (unreserved c); simpl.
  - rewrite IH. apply andb_true_iff in Hc as [_ Hc%negb_true_iff].
    apply bool_decide_eq_false in Hc. by rewrite bool_decide_eq_false_2 by congruence.
  - rewrite !andb_true_iff, !negb_true_iff in Hc. destruct Hc as [[_ H1%bool_decide_eq_false] H2%bool_decide_eq_false].
    rewrite !bool_decide_eq_false_2 by (done || congruence). by rewrite IH.
Qed.

Lemma unescape_cons (c : Ascii.ascii) s :
  c ≠ percent → PathUnescape (String c s) = (rest ← PathUnescape s; Some (String c rest)).
Proof. intros Hc. simpl. by rewrite bool_decide_eq_false_2. Qed.

Lemma unescape_segment s t rest :
  PathUnescape t = Some rest → PathUnescape (PathEscape s +:+ t) = Some (s +:+ rest).
Proof.
  intros Ht. induction s as [|c s IH]; [done|]. pose proof (bytes_ok c) as Hc. unfold byte_ok in Hc. simpl.
  destruct (unreserved c).
  - apply andb_true_iff in Hc as [Hc _]. rewrite !str_cons_app. simpl. apply negb_true_iff in Hc. by rewrite Hc, IH.
  - rewrite !str_cons_app. simpl. destruct (unhex (high_digit c)) as [x|]; [|done].
    destruct (unhex (low_digit c)) as [y|]; [|done].
    rewrite !andb_true_iff in Hc. destruct Hc as [[Hc%bool_decide_eq_true _] _]. simpl. by rewrite IH, Hc.
Qed.

(** ** Splitting a path at its slashes *)
Lemma str_rev_app_spec s acc : str_rev_app s acc = str_rev s +:+ acc.
Proof.
  unfold str_rev. revert acc. induction s as [|c s IH]; intros acc; [done|]. simpl.
  rewrite (IH (String c acc)), (IH (String c "")). by rewrite str_app_assoc.
Qed.
Lemma str_rev_cons c s : str_rev (String c s) = str_rev s +:+ String c "".
Proof. apply (str_rev_app_spec s). Qed.

Lemma split_segment sep a b cur :
  has_char sep a = false → split_byte sep (a +:+ String sep b) cur = (str_rev cur +:+ a) :: split_byte sep b "".
Proof.
  revert cur. induction a as [|c a IH]; intros cur Ha.
  - rewrite str_nil_app. simpl. by rewrite bool_decide_eq_true_2, str_app_nil_r.
  - simpl in Ha. apply orb_false_iff in Ha as [Hc Ha]. rewrite str_cons_app. simpl.
    apply bool_decide_eq_false in Hc. rewrite bool_decide_eq_false_2 by congruence.
    rewrite IH by done. by rewrite str_rev_cons, str_app_assoc.
Qed.
Lemma split_last sep a cur : has_char sep a = false → split_byte sep a cur = [str_rev cur +:+ a].
Proof.
  revert cur. induction a as [|c a IH]; intros cur Ha; [simpl; by rewrite str_app_nil_r|].
  simpl in Ha. apply orb_false_iff in Ha as [Hc Ha]. simpl.
  apply bool_decide_eq_false in Hc. rewrite bool_decide_eq_false_2 by congruence.
  rewrite IH by done. by rewrite str_rev_cons, str_app_assoc.
Qed.

(** A path written segment by segment. *)
Fixpoint slashed (segs : list string) : string :=
  match segs with [] => "" | s :: segs => String slash_byte (s +:+ slashed segs) end.
Definition slash_free (s : string) : Prop := has_char slash_byte s = false.

Lemma split_slashed segs cur :
  slash_free cur → Forall slash_free segs → split_byte slash_byte (cur +:+ slashed segs) "" = cur :: segs.
Proof.
  intros Hcur Hs. revert cur Hcur. induction Hs as [|s segs Hs _ IH]; intros cur Hcur; simpl.
  - rewrite str_app_nil_r. by rewrite split_last.
  - rewrite split_segment by done. f_equal. by apply IH.
Qed.
Lemma Split_slashed segs : Forall slash_free segs → Split (slashed segs) slash_byte = "" :: segs.
Proof. intros Hs. apply (split_slashed segs ""); done. Qed.

Lemma PathEscape_inj s s' : PathEscape s = PathEscape s' → s = s'.
Proof.
  intros He. pose proof (PathUnescape_escape s) as H1. rewrite He, PathUnescape_escape in H1. congruence.
Qed.

(** A segment that is fixed, or an escaped value. *)
Definition escapes (seg value : string) : Prop :=
  seg = PathEscape value.
Lemma PathUnescape_slashed segs values :
  Forall2 escapes segs values → PathUnescape (slashed segs) = Some (slashed values).
Proof.
  induction 1 as [|seg value segs values -> _ IH]; [done|]. cbn [slashed].
  rewrite unescape_cons by done. by rewrite (unescape_segment _ _ _ IH).
Qed.
Lemma unescape_segments segs values :
  Forall2 escapes segs values → map (λ s, default s (PathUnescape s)) segs = values.
Proof.
  induction 1 as [|seg value segs values -> _ IH]; [done|]. simpl. by rewrite PathUnescape_escape, IH.
Qed.
Lemma escapes_slash_free segs values : Forall2 escapes segs values → Forall slash_free segs.
Proof. induction 1 as [|seg value segs values ->]; constructor; [apply PathEscape_no_slash|done]. Qed.

Lemma has_char_rev c s : has_char c (str_rev s) = has_char c s.
Proof.
  induction s as [|d s IH]; [done|]. rewrite str_rev_cons, has_char_app, IH. simpl.
  by rewrite orb_false_r, orb_comm.
Qed.

Lemma split_spec s cur : slash_free cur →
  ∃ x l, split_byte slash_byte s cur = x :: l ∧ str_rev cur +:+ s = x +:+ slashed l ∧
    slash_free x ∧ Forall slash_free l.
Proof.
  revert cur. induction s as [|c s IH]; intros cur Hcur; simpl.
  - exists (str_rev cur), []. split_and!; try done. by unfold slash_free; rewrite has_char_rev.
  - case_bool_decide as Hc.
    + subst c. destruct (IH "") as (x & l & -> & Hs & Hx & Hl); [done|]. exists (str_rev cur), (x :: l).
      split_and!; [done| |by unfold slash_free; rewrite has_char_rev|by constructor].
      cbn [slashed]. by rewrite <- Hs.
    + destruct (IH (String c cur)) as (x & l & -> & Hs & Hx & Hl).
      { unfold slash_free. simpl. rewrite bool_decide_eq_false_2 by congruence. exact Hcur. }
      exists x, l. split_and!; try done. by rewrite <- Hs, str_rev_cons, str_app_assoc.
Qed.

(** ** Searching a path

    A pattern that begins with a slash and holds no other occurs in a path where
    a segment begins with the rest of it. *)
Lemma prefix_slashed p a segs :
  slash_free p → slash_free a → String.prefix p (a +:+ slashed segs) = true → String.prefix p a = true.
Proof.
  intros Hp Ha Hpre. apply prefix_split in Hpre as [?|(q & -> & Hq & Hpre)]; [done|]. exfalso.
  unfold slash_free in Hp. rewrite has_char_app in Hp. apply orb_false_iff in Hp as [_ Hp].
  destruct q as [|c q]; [done|]. destruct segs as [|s segs]; [done|]. cbn [slashed] in Hpre.
  rewrite prefix_cons in Hpre. destruct (Ascii.ascii_dec c slash_byte) as [->|]; [|done].
  simpl in Hp. discriminate Hp.
Qed.

Lemma Index_slashed p cur segs :
  slash_free p → slash_free cur → Forall slash_free segs → Forall (λ s, String.prefix p s = false) segs →
  Index (cur +:+ slashed segs) (String slash_byte p) = None.
Proof.
  intros Hp Hcur Hs Hno. revert cur Hcur. induction Hs as [|s segs Hs _ IH]; intros cur Hcur.
  - cbn [slashed]. rewrite str_app_nil_r. induction cur as [|c cur IHc]; [done|].
    unfold slash_free in Hcur. simpl in Hcur. apply orb_false_iff in Hcur as [Hc Hcur].
    rewrite Index_cons, prefix_cons. destruct (Ascii.ascii_dec slash_byte c) as [<-|]; [done|]. by rewrite IHc.
  - apply Forall_cons in Hno as [Hsp Hno]. specialize (IH Hno). cbn [slashed].
    induction cur as [|c cur IHc].
    + rewrite str_nil_app, Index_cons, prefix_cons. destruct (Ascii.ascii_dec slash_byte slash_byte); [|done].
      destruct (String.prefix p (s +:+ slashed segs)) eqn:E; [|by rewrite IH].
      apply prefix_slashed in E; [congruence|done..].
    + unfold slash_free in Hcur. simpl in Hcur. apply orb_false_iff in Hcur as [Hc Hcur].
      rewrite str_cons_app, Index_cons, prefix_cons.
      destruct (Ascii.ascii_dec slash_byte c) as [<-|]; [done|]. by rewrite IHc.
Qed.

Lemma Contains_app a b : Contains (a +:+ b) b = true.
Proof.
  unfold Contains. apply negb_true_iff, bool_decide_eq_false. induction a as [|c a IH].
  - rewrite str_nil_app. pose proof (prefix_app b "") as Hb. rewrite str_app_nil_r in Hb.
    destruct b as [|c b]; [done|]. by rewrite Index_cons, Hb.
  - rewrite str_cons_app, Index_cons. destruct (String.prefix _ _); [done|]. by destruct (Index (a +:+ b) b).
Qed.

(** Letters are not escaped. *)
Fixpoint all_unreserved (s : string) : bool :=
  match s with EmptyString => true | String c s => unreserved c && all_unreserved s end.
Lemma prefix_escaped p s :
  all_unreserved p = true → String.prefix p (PathEscape s) = true → String.prefix p s = true.
Proof.
  revert s. induction p as [|c p IH]; intros s Hp; [by destruct s|]. simpl in Hp. apply andb_true_iff in Hp as [Hc Hp].
  destruct s as [|d s]; [by cbn|]. cbn [PathEscape]. destruct (unreserved d) eqn:Hd; rewrite !prefix_cons.
  - destruct (Ascii.ascii_dec c d); [by apply IH|done].
  - destruct (Ascii.ascii_dec c percent) as [->|]; [discriminate Hc|done].
Qed.
