(* ===== verification/Http.v ===== *)
(** * Http: messages, answers and authentication (transport/httpapi/auth.go, handler.go)

    A request is the parts of it the code reads; its path is still escaped, its
    body is text.  Here are the answers the handlers give, the errors as status
    codes, the authentication in front of every route and the patterns of
    [http.ServeMux]; the handlers are in Handler, the stream in Stream.

    [parse_first] is what [Decoder.Decode] reads (the first value of a text),
    [parse_all] what [json.Unmarshal] reads (a text that is one value). *)

From S2P Require Import Prelude GoStrings Json Types Codec Wire Url Matching Event Memory Service.

Class JsonParser := { parse_first : string → Res Json; parse_all : string → Res Json }.
(** A document is read back from its text, with the line feed [Encoder.Encode] adds or without. *)
Class ParserLaws `{Encoder} `{JsonParser} : Prop := {
  parse_first_text : ∀ j, parse_first (json_text j) = Ok j;
  parse_all_text : ∀ j, parse_all (json_text j) = Ok j;
  parse_all_line : ∀ j, parse_all (json_text j +:+ nl) = Ok j
}.

(** ** Requests and answers *)
Record HttpRequest := mkHttpRequest {
  rq_Method : string;
  rq_Path : string;
  rq_Query : gmap string string;
  rq_Header : gmap string string;
  rq_Cookie : option string;
  rq_TLS : bool;
  rq_Body : string
}.
Record Cookie := mkCookie { ck_Value : string; ck_Secure : bool }.
(** An answer as it reaches the client: [rs_Body] is what arrives of the body,
    and [rs_Broken] the error that ends it when it breaks off.  A handler
    writes a whole one. *)
Record HttpResponse := mkAnswer {
  rs_Status : Z; rs_Header : gmap string string; rs_SetCookie : option Cookie; rs_Body : string;
  rs_Broken : option Error }.
Abbreviation mkHttpResponse status header cookie body := (mkAnswer status header cookie body None).

(** [r.URL.Path] and the segments the multiplexer matches; a request whose path
    does not unescape is refused before any handler runs. *)
Definition url_path (r : HttpRequest) : string := default "" (PathUnescape (rq_Path r)).
Definition raw_segments (r : HttpRequest) : list string := tail (Split (rq_Path r) slash_byte).
Definition segments (r : HttpRequest) : list string :=
  map (λ s, default s (PathUnescape s)) (raw_segments r).
(** [cleanPath] leaves the path alone. *)
Definition clean_path (r : HttpRequest) : bool :=
  forallb (λ s, negb (s =s ".") && negb (s =s "..")) (raw_segments r) &&
  forallb (λ s, negb (s =s "")) (removelast (raw_segments r)).

(** [io.LimitReader] and [http.MaxBytesReader]: eight mebibytes. *)
Definition body_limit : Z := 8388608.
Definition fits_body (s : string) : bool := (Z.of_nat (String.length s) <=? body_limit)%Z.
Definition limited (s : string) : string := if fits_body s then s else str_take (Z.to_nat body_limit) s.

(** ** Bodies that are local structs of the handlers *)
Record ResolveBody := mkResolveBody { rb_Response : option Json }.
Record InteractionBody := mkInteractionBody { ib_Assignment : Assignment; ib_Request : InteractionRequest }.
Record EventBody := mkEventBody {
  eb_EventID : string; eb_RunID : string; eb_LeaseToken : string; eb_Type : string; eb_Data : option Json }.
Record ReserveBody := mkReserveBody {
  vb_Assignment : Assignment; vb_Key : string; vb_Hash : string; vb_Request : CapabilityRequest }.
Record FinishBody := mkFinishBody {
  fb_Assignment : Assignment; fb_Reservation : CapabilityReservation; fb_Result : CapabilityResult; fb_Error : string }.
Record CompleteBody := mkCompleteBody { cb_Assignment : Assignment; cb_Result : Result }.
Record FailBody := mkFailBody { lb_Assignment : Assignment; lb_Error : string }.
Record SessionBody := mkSessionBody { sb_Token : string }.
Record HealthBody := mkHealthBody { hb_Status : string }.
(** [BuildInfo] of version.go. *)
Record BuildInfo := mkBuildInfo { bi_Version : string; bi_ProtocolVersion : string }.

#[export] Instance eta_ResolveBody : Eta ResolveBody := λ b, mkResolveBody (rb_Response b).
#[export] Instance eta_InteractionBody : Eta InteractionBody := λ b,
  mkInteractionBody (ib_Assignment b) (ib_Request b).
#[export] Instance eta_EventBody : Eta EventBody := λ b,
  mkEventBody (eb_EventID b) (eb_RunID b) (eb_LeaseToken b) (eb_Type b) (eb_Data b).
#[export] Instance eta_ReserveBody : Eta ReserveBody := λ b,
  mkReserveBody (vb_Assignment b) (vb_Key b) (vb_Hash b) (vb_Request b).
#[export] Instance eta_FinishBody : Eta FinishBody := λ b,
  mkFinishBody (fb_Assignment b) (fb_Reservation b) (fb_Result b) (fb_Error b).
#[export] Instance eta_CompleteBody : Eta CompleteBody := λ b, mkCompleteBody (cb_Assignment b) (cb_Result b).
#[export] Instance eta_FailBody : Eta FailBody := λ b, mkFailBody (lb_Assignment b) (lb_Error b).
#[export] Instance eta_SessionBody : Eta SessionBody := λ b, mkSessionBody (sb_Token b).
#[export] Instance eta_HealthBody : Eta HealthBody := λ b, mkHealthBody (hb_Status b).
#[export] Instance eta_BuildInfo : Eta BuildInfo := λ b, mkBuildInfo (bi_Version b) (bi_ProtocolVersion b).

Definition zero_Assignment : Assignment := mkAssignment "" "" "" 0 zero.

Section bodies.
Context `{Host} `{TimeParser}.
Definition fields_ResolveBody : list (Field ResolveBody) := [field "response" raw rb_Response false].
Definition body_Resolve := struct fields_ResolveBody (mkResolveBody None).
Definition fields_InteractionBody : list (Field InteractionBody) :=
  [field "assignment" wire_Assignment ib_Assignment false; field "request" wire_InteractionRequest ib_Request false].
Definition body_Interaction :=
  struct fields_InteractionBody (mkInteractionBody zero_Assignment (mkInteractionRequest (InteractionOther "") "" None)).
Definition fields_EventBody : list (Field EventBody) :=
  [field "event_id" str eb_EventID false; field "run_id" str eb_RunID false;
   field "lease_token" str eb_LeaseToken false; field "type" str eb_Type false; field "data" raw eb_Data true].
Definition body_Event := struct fields_EventBody (mkEventBody "" "" "" "" None).
Definition fields_ReserveBody : list (Field ReserveBody) :=
  [field "assignment" wire_Assignment vb_Assignment false; field "idempotency_key" str vb_Key false;
   field "request_hash" str vb_Hash false; field "request" wire_CapabilityRequest vb_Request false].
Definition body_Reserve :=
  struct fields_ReserveBody
    (mkReserveBody zero_Assignment "" "" (mkCapRequest "" "" "" (mkPrincipal "" "" "") "" "" "" "" None)).
Definition fields_FinishBody : list (Field FinishBody) :=
  [field "assignment" wire_Assignment fb_Assignment false; field "reservation" wire_Reservation fb_Reservation false;
   field "result" wire_CapabilityResult fb_Result false; field "error" str fb_Error true].
Definition body_Finish :=
  struct fields_FinishBody (mkFinishBody zero_Assignment (mkReservation "" false None "") (mkCapResult "" None) "").
Definition fields_CompleteBody : list (Field CompleteBody) :=
  [field "assignment" wire_Assignment cb_Assignment false; field "result" wire_Result cb_Result false].
Definition body_Complete := struct fields_CompleteBody (mkCompleteBody zero_Assignment (mkResult "" None [])).
Definition fields_FailBody : list (Field FailBody) :=
  [field "assignment" wire_Assignment lb_Assignment false; field "error" str lb_Error false].
Definition body_Fail := struct fields_FailBody (mkFailBody zero_Assignment "").
Definition fields_SessionBody : list (Field SessionBody) := [field "token" str sb_Token false].
Definition body_Session := struct fields_SessionBody (mkSessionBody "").
Definition fields_HealthBody : list (Field HealthBody) := [field "status" str hb_Status false].
Definition body_Health := struct fields_HealthBody (mkHealthBody "").
Definition fields_BuildInfo : list (Field BuildInfo) :=
  [field "version" str bi_Version false; field "protocol_version" str bi_ProtocolVersion false].
Definition wire_BuildInfo := struct fields_BuildInfo (mkBuildInfo "" "").
End bodies.

(** ** Answers *)
Definition status_text (status : Z) : string :=
  match status with
  | 200 => "OK" | 201 => "Created" | 202 => "Accepted" | 204 => "No Content"
  | 301 => "Moved Permanently" | 307 => "Temporary Redirect" | 400 => "Bad Request" | 401 => "Unauthorized"
  | 403 => "Forbidden" | 404 => "Not Found" | 405 => "Method Not Allowed" | 409 => "Conflict" | 410 => "Gone"
  | 426 => "Upgrade Required" | 500 => "Internal Server Error" | _ => ""
  end%Z.
Definition http_StatusOK : Z := 200.
Definition http_StatusCreated : Z := 201.
Definition http_StatusAccepted : Z := 202.
Definition http_StatusNoContent : Z := 204.
Definition http_StatusBadRequest : Z := 400.
Definition http_StatusUnauthorized : Z := 401.
Definition http_StatusForbidden : Z := 403.
Definition http_StatusNotFound : Z := 404.
Definition http_StatusConflict : Z := 409.
Definition http_StatusGone : Z := 410.
Definition http_StatusUpgradeRequired : Z := 426.

Section answers.
Context `{Encoder}.

Definition writeJSON (status : Z) (value : Json) : HttpResponse :=
  mkHttpResponse status {[ "Content-Type" := "application/json" ]} None (json_text value +:+ nl).
Definition error_json (message : string) : Json := JObj [("error", JStr message)].

(** Of the sentinels an error wraps, the last one tested decides. *)
Definition error_status (err : Error) : Z :=
  if errors_Is err ErrIncompatibleProtocol then http_StatusUpgradeRequired
  else if errors_Is err ErrRunCancelled then http_StatusGone
  else if errors_Is err ErrInvalidTransition then http_StatusConflict
  else if errors_Is err ErrInvalidLease then http_StatusUnauthorized
  else if errors_Is err ErrNotFound then http_StatusNotFound
  else http_StatusBadRequest.
Definition writeError (err : Error) : HttpResponse := writeJSON (error_status err) (error_json (err_msg err)).

Definition respond {A} (c : Codec A) (status : Z) (r : Res A) : HttpResponse :=
  match r with Err err => writeError err | Ok value => writeJSON status (enc c value) end.
Definition respondList {A} (c : Codec A) (status : Z) (r : Res (list A)) : HttpResponse := respond (slice c) status r.
Definition no_content : HttpResponse := mkHttpResponse http_StatusNoContent ∅ None "".
Definition respondEmpty (r : Res ()) : HttpResponse :=
  match r with Err err => writeError err | Ok _ => no_content end.
End answers.

(** ** Authentication (auth.go) *)
Record Token := mkToken { tok_Value : string; tok_Scope : AccessScope }.
Abbreviation Authenticator := (string → option AccessScope).

(** [StaticTokens.Authenticate]: the first token with the value. *)
Fixpoint Authenticate (tokens : list Token) (value : string) : option AccessScope :=
  match tokens with
  | [] => None
  | candidate :: tokens => if value =s tok_Value candidate then Some (tok_Scope candidate) else Authenticate tokens value
  end.

(** The token a request presents: the bearer token, else the console's cookie. *)
Definition presented (r : HttpRequest) : string :=
  let header := map_get (rq_Header r) "Authorization" in
  if HasPrefix header "Bearer " then TrimSpace (TrimPrefix header "Bearer ") else default "" (rq_Cookie r).

Definition public_path (path : string) : bool :=
  (path =s "/health") || (path =s "/version") || (path =s "/console") ||
  HasPrefix path "/console/" || (path =s "/v1/console/session").
Definition node_route (r : HttpRequest) : bool :=
  HasPrefix (url_path r) "/v1/attempts/" || (rq_Method r =s "POST") && HasPrefix (url_path r) "/v1/nodes/".

(** The scope the request runs under, or the refusal. *)
Inductive Admission := Admitted_ (ctx : Ctx) | Refused (status : Z) (message : string).

Definition authenticate (auth : option Authenticator) (r : HttpRequest) : Admission :=
  match auth with
  | None => Admitted_ None
  | Some authenticator =>
      if public_path (url_path r) then Admitted_ None
      else if presented r =s "" then Refused http_StatusUnauthorized "bearer token is required"
      else match authenticator (presented r) with
           | None => Refused http_StatusUnauthorized "invalid bearer token"
           | Some scope =>
               if node_route r && negb (sc_Kind scope =s AccessNode)
               then Refused http_StatusForbidden "node token is required"
               else if negb (node_route r) && negb (sc_Kind scope =s AccessHost)
               then Refused http_StatusForbidden "host token is required"
               else
                 let parts := Split (url_path r) slash_byte in
                 let third := nth 3 parts "" in
                 if (sc_Kind scope =s AccessNode) && HasPrefix (url_path r) "/v1/nodes/" &&
                    (3 <? length parts)%nat && negb (third =s "register") &&
                    negb (sc_Subject scope =s "") && negb (third =s sc_Subject scope)
                 then Refused http_StatusForbidden "node identity mismatch"
                 else Admitted_ (Some scope)
           end
  end.

(** ** The multiplexer *)
Inductive Pattern := Lit (s : string) | Var | Rest.

Fixpoint match_path (pattern : list Pattern) (path : list string) : option (list string) :=
  match pattern, path with
  | [], [] => Some []
  | [Rest], _ :: _ => Some []
  | Lit s :: pattern, x :: path => if s =s x then match_path pattern path else None
  | Var :: pattern, x :: path => if x =s "" then None else args ← match_path pattern path; Some (x :: args)
  | _, _ => None
  end.
Definition method_matches (pattern method : string) : bool :=
  (pattern =s method) || (pattern =s "GET") && (method =s "HEAD").

(** The prefixes the authentication looks for. *)
Lemma attempts_prefix x l : HasPrefix (slashed ("v1" :: "attempts" :: x :: l)) "/v1/attempts/" = true.
Proof. apply (prefix_app "/v1/attempts/" (x +:+ slashed l)). Qed.
Lemma nodes_prefix x l : HasPrefix (slashed ("v1" :: "nodes" :: x :: l)) "/v1/nodes/" = true.
Proof. apply (prefix_app "/v1/nodes/" (x +:+ slashed l)). Qed.
Lemma method_cases pattern method :
  method_matches pattern method = true → method = pattern ∨ pattern = "GET" ∧ method = "HEAD".
Proof. unfold method_matches. repeat case_bool_decide; naive_solver. Qed.
