(* ===== verification/Stream.v ===== *)
(** * Stream: the event stream over HTTP (handler.go streamEvents, client.go StreamEvents)

    The server writes the events behind the cursor as server-sent events, polls
    for more, and stops after the run is terminal; the client scans the lines
    and hands each event on.  Before every call of the handler others use the
    service ([peers_at]); what ends a wait, and whether a write fails, the host says.
    The loop takes as many rounds as its fuel. *)

From S2P Require Import Prelude GoStrings Json Types Codec Wire Url Matching Event Memory Service Http.

(** [strconv.Atoi]: the number and whether it is one; out of range, the bound. *)
Definition Atoi (s : string) : Z * bool :=
  match s with
  | EmptyString => (0%Z, false)
  | String c rest =>
      let signed := bool_decide (c = minus) || bool_decide (c = byte_of 43) in
      let digits := if signed then rest else s in
      if digits =s "" then (0%Z, false)
      else match digits_value 0 digits with
           | None => (0%Z, false)
           | Some n =>
               let z := if bool_decide (c = minus) then (- Z.of_N n)%Z else Z.of_N n in
               if int64 z then (z, true)
               else ((if (z <? 0)%Z then - 2 ^ 63 else 2 ^ 63 - 1)%Z, false)
           end
  end.

Inductive Wake := ContextDone | Keepalive | Poll.
Class Waiting := { wake_at : nat → Wake; broken_at : nat → bool }.
Class Peers (X : Type) := peers_at : nat → M X ().

Definition streamTerminal (status : RunStatus) : bool :=
  (status =s RunSucceeded) || (status =s RunFailed) || (status =s RunCancelled).

Section frames.
Context `{Host} `{TimeParser} `{Encoder}.

(** ["id: %d\nevent: relay.event\ndata: %s\n\n"] *)
Definition frame (event : Event) : string :=
  "id: " +:+ pretty (ev_Sequence event) +:+ nl +:+ "event: relay.event" +:+ nl +:+
  "data: " +:+ json_text (enc wire_Event event) +:+ nl +:+ nl.
Definition keepalive : string := ": keepalive" +:+ nl +:+ nl.
End frames.

Section stream.
Context `{Host} `{TimeParser} `{Encoder} `{Waiting} {S B : Type} `{Storage S} `{BlobStore B} `{Peers (ServiceState S B)}.
Abbreviation MX := (M (ServiceState S B)).

(** What the handler has written and the sequence of the last event in it. *)
Record Stream := mkStream { sm_after : Z; sm_written : string }.

(** A call of the handler; others may have used the service before it. *)
Definition serve {A} (m : MX A) : MX (Res A) :=
  n ← host id;
  try (peers_at n) ;;
  try m.

(** [false]: the write failed. *)
Definition write (text : string) (s : Stream) : MX (bool * Stream) :=
  broken ← host broken_at;
  mret (if broken : bool then (false, s) else (true, mkStream (sm_after s) (sm_written s +:+ text))).

Fixpoint writeEvents (values : list Event) (s : Stream) : MX (bool * Stream) :=
  match values with
  | [] => mret (true, s)
  | event :: values =>
      if (ev_Sequence event <=? sm_after s)%Z then writeEvents values s
      else
        r ← write (frame event) s;
        let '(ok, s) := (r : bool * Stream) in
        if ok then writeEvents values (mkStream (ev_Sequence event) (sm_written s)) else mret (false, s)
  end.

(** The loop; the flag says that the handler is still waiting. *)
Fixpoint stream_loop (fuel : nat) (ctx : Ctx) (runID : string) (s : Stream) : MX (bool * Stream) :=
  match fuel with
  | O => mret (true, s)
  | Datatypes.S fuel =>
      r ← serve (GetRun ctx runID);
      match r with
      | Err _ => mret (false, s)
      | Ok run =>
          if streamTerminal (run_Status run) then
            r ← serve (EventsAfter ctx runID (sm_after s));
            match r with
            | Ok values => r ← writeEvents values s; mret (false, (r : bool * Stream).2)
            | Err _ => mret (false, s)
            end
          else
            wake ← host wake_at;
            match wake with
            | ContextDone => mret (false, s)
            | Keepalive =>
                r ← write keepalive s;
                let '(ok, s) := (r : bool * Stream) in
                if ok then stream_loop fuel ctx runID s else mret (false, s)
            | Poll =>
                r ← serve (EventsAfter ctx runID (sm_after s));
                match r with
                | Err _ => mret (false, s)
                | Ok values =>
                    r ← writeEvents values s;
                    let '(ok, s) := (r : bool * Stream) in
                    if ok then stream_loop fuel ctx runID s else mret (false, s)
                end
            end
      end
  end.

(** The cursor of a request: the query, else the header of a reconnecting reader. *)
Definition stream_after (r : HttpRequest) : option Z :=
  let value := if map_get (rq_Query r) "after" =s "" then map_get (rq_Header r) "Last-Event-ID"
               else map_get (rq_Query r) "after" in
  if value =s "" then Some 0%Z
  else let '(n, ok) := Atoi value in if negb ok || (n <? 0)%Z then None else Some n.

Definition stream_header : gmap string string :=
  {[ "Content-Type" := "text/event-stream"; "Cache-Control" := "no-cache, no-transform";
     "Connection" := "keep-alive"; "X-Accel-Buffering" := "no" ]}.

Definition streamEvents (rounds : nat) (runID : string) (ctx : Ctx) (r : HttpRequest) : MX HttpResponse :=
  match stream_after r with
  | None => mret (writeJSON http_StatusBadRequest (error_json "after must be a non-negative event sequence"))
  | Some after =>
      r ← serve (EventsAfter ctx runID after);
      match r with
      | Err err => mret (writeError err)
      | Ok events =>
          r ← writeEvents events (mkStream after "");
          let '(ok, s) := (r : bool * Stream) in
          if ok then
            r ← stream_loop rounds ctx runID s;
            mret (mkHttpResponse http_StatusOK stream_header None (sm_written (r : bool * Stream).2))
          else mret (mkHttpResponse http_StatusOK stream_header None (sm_written s))
      end
  end.
End stream.
