(* ===== verification/Handler.v ===== *)
(** * Handler: the routes of the HTTP server (transport/httpapi/handler.go)

    One definition per handler, with the path values it reads as arguments;
    [routes] registers them as [NewHandlerWithAuth] does and [ServeHTTP] runs a
    request: the authentication first, then the multiplexer.  A handler always
    answers; what the service did stays done when the answer is an error.

    Static files of the console are not modelled: their route answers with an
    empty body.  So do the refusals of [http.ServeMux] itself. *)

From S2P Require Import Prelude GoStrings Json Types Codec Wire Url Matching Event Memory Service Http Stream.

(** [stream_rounds] bounds the polls of one event stream. *)
Record Server := mkServer {
  srv_Options : Options; srv_Auth : option Authenticator; srv_Version : string; srv_Rounds : nat }.

Section handlers.
Context `{Host} `{TimeParser} `{Encoder} `{JsonParser} `{Waiting} {S B : Type} `{Storage S} `{BlobStore B}
  `{Peers (ServiceState S B)} (server : Server).
Let service := srv_Options server.
Abbreviation MX := (M (ServiceState S B)).

(** [decode]: the body, strictly. *)
Definition decode {A} (c : Codec A) (r : HttpRequest) (k : A → MX HttpResponse) : MX HttpResponse :=
  match res_bind (parse_first (limited (rq_Body r))) (Unmarshal c true) with
  | Err err => mret (writeJSON http_StatusBadRequest (error_json (err_msg err)))
  | Ok value => k value
  end.
Definition answer {A} (m : MX A) (write : Res A → HttpResponse) : MX HttpResponse :=
  r ← try m; mret (write r).
Definition mismatch : MX HttpResponse := mret (writeError (errors_New "attempt ID mismatch")).
Definition forbidden (message : string) : HttpResponse := writeJSON http_StatusForbidden (error_json message).

(** ** Host routes *)
Definition limit_of (r : HttpRequest) : Z := (Atoi (map_get (rq_Query r) "limit")).1.

Definition consoleSession (ctx : Ctx) (r : HttpRequest) : MX HttpResponse :=
  decode body_Session r (λ value,
    let session := mkHttpResponse http_StatusNoContent ∅ (Some (mkCookie (sb_Token value) (rq_TLS r))) "" in
    match srv_Auth server with
    | None => mret session
    | Some auth =>
        match auth (sb_Token value) with
        | Some scope =>
            if sc_Kind scope =s AccessHost then mret session
            else mret (writeJSON http_StatusUnauthorized (error_json "invalid host token"))
        | None => mret (writeJSON http_StatusUnauthorized (error_json "invalid host token"))
        end
    end).

Definition h_submit (ctx : Ctx) (r : HttpRequest) : MX HttpResponse :=
  decode wire_Request r (λ value, answer (Submit ctx value) (respond wire_Run http_StatusAccepted)).
Definition h_listRuns (ctx : Ctx) (r : HttpRequest) : MX HttpResponse :=
  answer (ListRuns ctx (limit_of r)) (respondList wire_Run http_StatusOK).
Definition h_sessionRuns (sessionID : string) (ctx : Ctx) (r : HttpRequest) : MX HttpResponse :=
  answer (SessionRuns ctx sessionID (limit_of r)) (respondList wire_Run http_StatusOK).
Definition h_getRun (runID : string) (ctx : Ctx) (r : HttpRequest) : MX HttpResponse :=
  answer (GetRun ctx runID) (respond wire_Run http_StatusOK).
Definition h_attempts (runID : string) (ctx : Ctx) (r : HttpRequest) : MX HttpResponse :=
  answer (Attempts ctx runID) (respondList wire_Attempt http_StatusOK).
Definition h_interactions (runID : string) (ctx : Ctx) (r : HttpRequest) : MX HttpResponse :=
  answer (Interactions ctx runID) (respondList wire_Interaction http_StatusOK).
Definition h_resolveInteraction (interactionID : string) (ctx : Ctx) (r : HttpRequest) : MX HttpResponse :=
  decode body_Resolve r (λ value,
    answer (ResolveInteraction ctx interactionID (rb_Response value)) (respond wire_Interaction http_StatusOK)).
Definition h_events (runID : string) (ctx : Ctx) (r : HttpRequest) : MX HttpResponse :=
  answer (Events ctx runID) (respondList wire_Event http_StatusOK).
Definition h_artifacts (runID : string) (ctx : Ctx) (r : HttpRequest) : MX HttpResponse :=
  answer (Artifacts ctx runID) (respondList wire_Artifact http_StatusOK).
Definition h_downloadArtifact (artifactID : string) (ctx : Ctx) (r : HttpRequest) : MX HttpResponse :=
  answer (OpenArtifact ctx artifactID) (λ res,
    match res with
    | Err err => writeError err
    | Ok (metadata, content) =>
        let header := if art_ContentType metadata =s "" then ∅
                      else {[ "Content-Type" := art_ContentType metadata ]} in
        let header := if art_Name metadata =s "" then header
                      else <["Content-Disposition" := "attachment; filename=" +:+ fmt_quote (art_Name metadata)]> header in
        let header := <["Content-Length" := pretty (art_Size metadata)]> header in
        mkHttpResponse http_StatusOK header None content
    end).
Definition h_cancelRun (runID : string) (ctx : Ctx) (r : HttpRequest) : MX HttpResponse :=
  decode wire_CancelRequest r (λ value, answer (CancelRun ctx runID value) (respond wire_Run http_StatusOK)).
Definition h_nodes (ctx : Ctx) (r : HttpRequest) : MX HttpResponse :=
  answer (Nodes service) (respondList wire_Node http_StatusOK).

(** ** Node routes *)
Definition h_register (ctx : Ctx) (r : HttpRequest) : MX HttpResponse :=
  decode wire_NodeRegistration r (λ value,
    let refuse := match ctx with
                  | Some scope => (sc_Kind scope =s AccessNode) && negb (sc_Subject scope =s "") &&
                                  negb (sc_Subject scope =s reg_ID value)
                  | None => false
                  end in
    if refuse then mret (forbidden "node identity mismatch")
    else answer (RegisterNode value) (respond wire_Node http_StatusOK)).
Definition h_heartbeat (nodeID : string) (ctx : Ctx) (r : HttpRequest) : MX HttpResponse :=
  answer (Heartbeat nodeID) (respond wire_Node http_StatusOK).
Definition h_claim (nodeID : string) (ctx : Ctx) (r : HttpRequest) : MX HttpResponse :=
  answer (Claim service nodeID) (λ res,
    match res with
    | Err err => if errors_Is err ErrNoAssignment then no_content else respond wire_Assignment http_StatusOK res
    | Ok _ => respond wire_Assignment http_StatusOK res
    end).
Definition h_start (attemptID : string) (ctx : Ctx) (r : HttpRequest) : MX HttpResponse :=
  decode wire_Assignment r (λ value,
    if negb (asg_AttemptID value =s attemptID) then mismatch else answer (Start value) respondEmpty).
Definition h_renew (attemptID : string) (ctx : Ctx) (r : HttpRequest) : MX HttpResponse :=
  decode wire_Assignment r (λ value,
    if negb (asg_AttemptID value =s attemptID) then mismatch
    else answer (Renew service value) (respond wire_LeaseUpdate http_StatusOK)).
Definition h_appendEvent (attemptID : string) (ctx : Ctx) (r : HttpRequest) : MX HttpResponse :=
  decode body_Event r (λ value,
    answer (AppendEvent (eb_RunID value) attemptID (eb_LeaseToken value) (eb_Type value)
              (AnyJson (default JNull (eb_Data value))) [eb_EventID value]) respondEmpty).
Definition upload_limit : Z := 268435456.
Definition h_uploadArtifact (attemptID : string) (ctx : Ctx) (r : HttpRequest) : MX HttpResponse :=
  let assignment := mkAssignment (map_get (rq_Query r) "run_id") attemptID
                      (map_get (rq_Header r) "X-Relay-Lease-Token") 0 zero in
  let artifact := mkArtifact "" "" (map_get (rq_Query r) "type") "" (map_get (rq_Query r) "name")
                    (map_get (rq_Header r) "Content-Type") 0 "" in
  if (asg_RunID assignment =s "") || (asg_LeaseToken assignment =s "") || (art_Type artifact =s "")
  then mret (writeJSON http_StatusBadRequest (error_json "run_id, lease token, and artifact type are required"))
  else
    let reader := if (Z.of_nat (String.length (rq_Body r)) <=? upload_limit)%Z then Ok (rq_Body r)
                  else Err (errors_New "http: request body too large") in
    answer (UploadArtifact assignment artifact reader) (respond wire_Artifact http_StatusCreated).
Definition h_reserveCapability (attemptID : string) (ctx : Ctx) (r : HttpRequest) : MX HttpResponse :=
  decode body_Reserve r (λ value,
    if negb (asg_AttemptID (vb_Assignment value) =s attemptID) then mismatch
    else answer (ReserveCapability (vb_Assignment value) (vb_Key value) (vb_Hash value) (vb_Request value))
           (respond wire_Reservation http_StatusOK)).
Definition h_finishCapability (attemptID callID : string) (ctx : Ctx) (r : HttpRequest) : MX HttpResponse :=
  decode body_Finish r (λ value,
    if negb (asg_AttemptID (fb_Assignment value) =s attemptID) || negb (rsv_CallID (fb_Reservation value) =s callID)
    then mret (writeError (errors_New "capability call identity mismatch"))
    else answer (FinishCapability (fb_Assignment value) (fb_Reservation value) (fb_Result value) (fb_Error value))
           respondEmpty).
Definition h_createInteraction (attemptID : string) (ctx : Ctx) (r : HttpRequest) : MX HttpResponse :=
  decode body_Interaction r (λ value,
    if negb (asg_AttemptID (ib_Assignment value) =s attemptID) then mismatch
    else answer (CreateInteraction (ib_Assignment value) (ib_Request value))
           (respond wire_Interaction http_StatusCreated)).
Definition h_getInteraction (attemptID interactionID : string) (ctx : Ctx) (r : HttpRequest) : MX HttpResponse :=
  let a := mkAssignment (map_get (rq_Query r) "run_id") attemptID
             (map_get (rq_Header r) "X-Relay-Lease-Token") 0 zero in
  answer (GetInteraction a interactionID) (respond wire_Interaction http_StatusOK).
Definition h_complete (attemptID : string) (ctx : Ctx) (r : HttpRequest) : MX HttpResponse :=
  decode body_Complete r (λ value,
    if negb (asg_AttemptID (cb_Assignment value) =s attemptID) then mismatch
    else answer (Complete (cb_Assignment value) (cb_Result value)) respondEmpty).
Definition h_fail (attemptID : string) (ctx : Ctx) (r : HttpRequest) : MX HttpResponse :=
  decode body_Fail r (λ value,
    if negb (asg_AttemptID (lb_Assignment value) =s attemptID) then mismatch
    else answer (Fail (lb_Assignment value) (lb_Error value)) respondEmpty).
Definition h_acknowledgeCancellation (attemptID : string) (ctx : Ctx) (r : HttpRequest) : MX HttpResponse :=
  decode wire_Assignment r (λ value,
    if negb (asg_AttemptID value =s attemptID) then mismatch
    else answer (AcknowledgeCancellation value) respondEmpty).

(** ** Routes *)
Record Route := mkRoute {
  route_Method : string;
  route_Pattern : list Pattern;
  route_Handler : list string → Ctx → HttpRequest → MX HttpResponse
}.
Definition arg (args : list string) (i : nat) : string := nth i args "".
Definition CurrentBuild : BuildInfo := mkBuildInfo (srv_Version server) ProtocolVersion.
Definition plain (status : Z) : HttpResponse := mkHttpResponse status ∅ None "".

(** [http.Redirect], which writes a link for a GET. *)
Definition quote : string := String (byte_of 34) "".
Definition redirect (r : HttpRequest) (url : string) : HttpResponse :=
  mkHttpResponse 307 {[ "Location" := url; "Content-Type" := "text/html; charset=utf-8" ]} None
    (if rq_Method r =s "GET" then "<a href=" +:+ quote +:+ url +:+ quote +:+ ">Temporary Redirect</a>." +:+ nl +:+ nl else "").

(** [NewHandlerWithAuth], in the order of the source. *)
Definition routes : list Route := [
  mkRoute "GET" [Lit "console"; Rest] (λ _ _ _, mret (plain 200));
  mkRoute "GET" [Lit "console"] (λ _ _ r, mret (redirect r "/console/"));
  mkRoute "POST" [Lit "v1"; Lit "console"; Lit "session"] (λ _, consoleSession);
  mkRoute "GET" [Lit "health"] (λ _ _ _, mret (writeJSON http_StatusOK (JObj [("status", JStr "ok")])));
  mkRoute "GET" [Lit "version"] (λ _ _ _, mret (writeJSON http_StatusOK (enc wire_BuildInfo CurrentBuild)));
  mkRoute "POST" [Lit "v1"; Lit "runs"] (λ _, h_submit);
  mkRoute "GET" [Lit "v1"; Lit "runs"] (λ _, h_listRuns);
  mkRoute "GET" [Lit "v1"; Lit "sessions"; Var; Lit "runs"] (λ a, h_sessionRuns (arg a 0));
  mkRoute "GET" [Lit "v1"; Lit "runs"; Var] (λ a, h_getRun (arg a 0));
  mkRoute "GET" [Lit "v1"; Lit "runs"; Var; Lit "attempts"] (λ a, h_attempts (arg a 0));
  mkRoute "GET" [Lit "v1"; Lit "runs"; Var; Lit "interactions"] (λ a, h_interactions (arg a 0));
  mkRoute "POST" [Lit "v1"; Lit "interactions"; Var; Lit "resolve"] (λ a, h_resolveInteraction (arg a 0));
  mkRoute "GET" [Lit "v1"; Lit "runs"; Var; Lit "events"] (λ a, h_events (arg a 0));
  mkRoute "GET" [Lit "v1"; Lit "runs"; Var; Lit "events"; Lit "stream"]
    (λ a, streamEvents (srv_Rounds server) (arg a 0));
  mkRoute "GET" [Lit "v1"; Lit "runs"; Var; Lit "artifacts"] (λ a, h_artifacts (arg a 0));
  mkRoute "GET" [Lit "v1"; Lit "artifacts"; Var] (λ a, h_downloadArtifact (arg a 0));
  mkRoute "POST" [Lit "v1"; Lit "runs"; Var; Lit "cancel"] (λ a, h_cancelRun (arg a 0));
  mkRoute "GET" [Lit "v1"; Lit "nodes"] (λ _, h_nodes);
  mkRoute "POST" [Lit "v1"; Lit "nodes"; Lit "register"] (λ _, h_register);
  mkRoute "POST" [Lit "v1"; Lit "nodes"; Var; Lit "heartbeat"] (λ a, h_heartbeat (arg a 0));
  mkRoute "POST" [Lit "v1"; Lit "nodes"; Var; Lit "claim"] (λ a, h_claim (arg a 0));
  mkRoute "POST" [Lit "v1"; Lit "attempts"; Var; Lit "start"] (λ a, h_start (arg a 0));
  mkRoute "POST" [Lit "v1"; Lit "attempts"; Var; Lit "renew"] (λ a, h_renew (arg a 0));
  mkRoute "POST" [Lit "v1"; Lit "attempts"; Var; Lit "events"] (λ a, h_appendEvent (arg a 0));
  mkRoute "POST" [Lit "v1"; Lit "attempts"; Var; Lit "artifacts"] (λ a, h_uploadArtifact (arg a 0));
  mkRoute "POST" [Lit "v1"; Lit "attempts"; Var; Lit "capability-calls"; Lit "reserve"]
    (λ a, h_reserveCapability (arg a 0));
  mkRoute "POST" [Lit "v1"; Lit "attempts"; Var; Lit "capability-calls"; Var; Lit "finish"]
    (λ a, h_finishCapability (arg a 0) (arg a 1));
  mkRoute "POST" [Lit "v1"; Lit "attempts"; Var; Lit "interactions"] (λ a, h_createInteraction (arg a 0));
  mkRoute "GET" [Lit "v1"; Lit "attempts"; Var; Lit "interactions"; Var] (λ a, h_getInteraction (arg a 0) (arg a 1));
  mkRoute "POST" [Lit "v1"; Lit "attempts"; Var; Lit "complete"] (λ a, h_complete (arg a 0));
  mkRoute "POST" [Lit "v1"; Lit "attempts"; Var; Lit "fail"] (λ a, h_fail (arg a 0));
  mkRoute "POST" [Lit "v1"; Lit "attempts"; Var; Lit "cancelled"] (λ a, h_acknowledgeCancellation (arg a 0))
].

(** The first route whose pattern and method match; no request matches two. *)
Fixpoint find_route (l : list Route) (method : string) (path : list string)
    : option (Ctx → HttpRequest → MX HttpResponse) :=
  match l with
  | [] => None
  | route :: l =>
      match match_path (route_Pattern route) path with
      | Some args => if method_matches (route_Method route) method then Some (route_Handler route args)
                     else find_route l method path
      | None => find_route l method path
      end
  end.
Definition path_known (path : list string) : bool :=
  existsb (λ route, bool_decide (is_Some (match_path (route_Pattern route) path))) routes.

(** [http.ServeMux.ServeHTTP] *)
Definition dispatch (ctx : Ctx) (r : HttpRequest) : MX HttpResponse :=
  if negb (clean_path r) then mret (plain 301)
  else match find_route routes (rq_Method r) (segments r) with
       | Some handler => handler ctx r
       | None => mret (plain (if path_known (segments r) then 405 else 404))
       end.

(** [Handler.ServeHTTP]; a path that does not unescape is refused by the server. *)
Definition ServeHTTP (r : HttpRequest) : MX HttpResponse :=
  match PathUnescape (rq_Path r) with
  | None => mret (plain 400)
  | Some _ =>
      match authenticate (srv_Auth server) r with
      | Refused status message => mret (writeJSON status (error_json message))
      | Admitted_ ctx => dispatch ctx r
      end
  end.
End handlers.
