(* ===== verification/HttpClient.v ===== *)
(** * HttpClient: the HTTP client of the control plane (transport/httpapi/client.go)

    [do] sends one request and turns the answer into a value or an error: a
    sentinel of the protocol when both the status and the text say so, an opaque
    error otherwise.  The transport below [http.Client.Do] is an interface:
    it delivers a request and returns an answer, or fails. *)

From S2P Require Import Prelude GoStrings Json Types Codec Wire Url Matching Event Memory Service Http Stream.

Definition cr : string := String (byte_of 13) EmptyString.

Class Transport (X : Type) := Do : HttpRequest → M X HttpResponse.

Definition get (path : string) : HttpRequest := mkHttpRequest "GET" path ∅ ∅ None false "".
#[export] Instance eta_HttpRequest : Eta HttpRequest := λ r,
  mkHttpRequest (rq_Method r) (rq_Path r) (rq_Query r) (rq_Header r) (rq_Cookie r) (rq_TLS r) (rq_Body r).

Definition success (r : HttpResponse) : bool := ((200 <=? rs_Status r) && (rs_Status r <? 300))%Z.
Definition Status (r : HttpResponse) : string := pretty (rs_Status r) +:+ " " +:+ status_text (rs_Status r).

(** [io.ReadAll(io.LimitReader(response.Body, 8<<20))]: a body that breaks off
    behind the limit is read without an error. *)
Definition read_body (r : HttpResponse) : Res string :=
  match rs_Broken r with
  | Some err => if (Z.of_nat (String.length (rs_Body r)) <? body_limit)%Z then Err err else Ok (limited (rs_Body r))
  | None => Ok (limited (rs_Body r))
  end.

Section client.
Context `{Host} `{TimeParser} `{Encoder} `{JsonParser} {X : Type} `{Transport X} (token : string).
Abbreviation MT := (M X).

(** [Client.authorize] *)
Definition authorize (r : HttpRequest) : HttpRequest :=
  if token =s "" then r else r <| rq_Header := <["Authorization" := "Bearer " +:+ token]> (rq_Header r) |>.

(** The message of a failed request: the member [error] of the body, else the body. *)
Definition failure_message (body : string) : string :=
  let message := match parse_all body with
                 | Ok (JObj l) => match obj_map l !! "error" with Some (JStr s) => s | _ => "" end
                 | _ => ""
                 end in
  if message =s "" then body else message.

(** Status and text together name a sentinel. *)
Definition protocol_error (status : Z) (message : string) : option Sentinel :=
  let named s := if HasPrefix message (sentinel_text s) then Some s else None in
  if status =s http_StatusNotFound then named ErrNotFound
  else if status =s http_StatusUnauthorized then named ErrInvalidLease
  else if status =s http_StatusConflict then named ErrInvalidTransition
  else if status =s http_StatusGone then named ErrRunCancelled
  else if status =s http_StatusUpgradeRequired then named ErrIncompatibleProtocol
  else None.
Definition response_error (r : HttpResponse) (body : string) : Error :=
  let message := failure_message body in
  match protocol_error (rs_Status r) message with
  | Some s => wrapf s message
  | None => errors_New ("relay HTTP " +:+ Status r +:+ ": " +:+ message)
  end.

Definition request (method path : string) (query : gmap string string) (input : option Json) : HttpRequest :=
  mkHttpRequest method path query (if input is Some _ then {[ "Content-Type" := "application/json" ]} else ∅)
    None false (if input is Some j then json_text j else "").

(** The first half of [Client.do]: the body of a successful answer, none for 204. *)
Definition exchange (method path : string) (query : gmap string string) (input : option Json)
    : MT (option string) :=
  response ← Do (authorize (request method path query input));
  if rs_Status response =s http_StatusNoContent then
    if Contains path "/claim" then raise (sentinel ErrNoAssignment) else mret None
  else
    body ← lift_res (read_body response);
    if negb (success response) then raise (response_error response body)
    else mret (Some body).

(** [do] with an output, and without. *)
Definition decode_response {A} (c : Codec A) (body : string) : Res A :=
  if body =s "" then Ok (init c)
  else match res_bind (parse_all body) (Unmarshal c false) with
       | Ok value => Ok value
       | Err err => Err (mkError (err_is err) ("decode Relay response: " +:+ err_msg err))
       end.
Definition do_out {A} (c : Codec A) (method path : string) (query : gmap string string) (input : option Json) : MT A :=
  body ← exchange method path query input;
  match body with None => mret (init c) | Some body => lift_res (decode_response c body) end.
Definition do_empty (method path : string) (input : option Json) : MT () :=
  exchange method path ∅ input ;; mret ().

Definition c_Health : MT () :=
  out ← do_out body_Health "GET" "/health" ∅ None;
  if hb_Status out =s "ok" then mret ()
  else raise (errors_New ("relay HTTP: unhealthy server status " +:+ fmt_quote (hb_Status out))).
Definition c_BuildInfo : MT BuildInfo := do_out wire_BuildInfo "GET" "/version" ∅ None.

(** ** Host operations *)
Definition run_path (runID : string) : string := "/v1/runs/" +:+ PathEscape runID.
Definition limit_query (limit : Z) : gmap string string := {[ "limit" := pretty limit ]}.

Definition c_Submit (request : Request) : MT Run :=
  do_out wire_Run "POST" "/v1/runs" ∅ (Some (enc wire_Request request)).
Definition c_GetRun (runID : string) : MT Run := do_out wire_Run "GET" (run_path runID) ∅ None.
Definition c_ListRuns (limit : Z) : MT (list Run) :=
  do_out (slice wire_Run) "GET" "/v1/runs" (limit_query limit) None.
Definition c_SessionRuns (sessionID : string) (limit : Z) : MT (list Run) :=
  do_out (slice wire_Run) "GET" ("/v1/sessions/" +:+ PathEscape sessionID +:+ "/runs") (limit_query limit) None.
Definition c_Attempts (runID : string) : MT (list Attempt) :=
  do_out (slice wire_Attempt) "GET" (run_path runID +:+ "/attempts") ∅ None.
Definition c_Interactions (runID : string) : MT (list Interaction) :=
  do_out (slice wire_Interaction) "GET" (run_path runID +:+ "/interactions") ∅ None.
Definition c_ResolveInteraction (id : string) (response : option Json) : MT Interaction :=
  do_out wire_Interaction "POST" ("/v1/interactions/" +:+ PathEscape id +:+ "/resolve") ∅
    (Some (JObj [("response", default JNull response)])).
Definition c_Events (runID : string) : MT (list Event) :=
  do_out (slice wire_Event) "GET" (run_path runID +:+ "/events") ∅ None.
Definition c_Artifacts (runID : string) : MT (list Artifact) :=
  do_out (slice wire_Artifact) "GET" (run_path runID +:+ "/artifacts") ∅ None.
Definition c_CancelRun (runID : string) (request : CancelRequest) : MT Run :=
  do_out wire_Run "POST" (run_path runID +:+ "/cancel") ∅ (Some (enc wire_CancelRequest request)).
Definition c_Nodes : MT (list Node) := do_out (slice wire_Node) "GET" "/v1/nodes" ∅ None.

(** The operations that do not go through [do] know no sentinel. *)
Definition opaque_error (r : HttpResponse) : Error :=
  errors_New ("relay HTTP " +:+ Status r +:+ ": " +:+ TrimSpace (limited (rs_Body r))).
(** The body is handed to the caller, who reads it to its end. *)
Definition c_OpenArtifact (artifactID : string) : MT string :=
  response ← Do (authorize (get ("/v1/artifacts/" +:+ PathEscape artifactID)));
  if negb (success response) then raise (opaque_error response)
  else match rs_Broken response with Some err => raise err | None => mret (rs_Body response) end.

(** ** Node operations *)
Definition attempt_path (attemptID : string) : string := "/v1/attempts/" +:+ PathEscape attemptID.

Definition c_RegisterNode (value : NodeRegistration) : MT Node :=
  do_out wire_Node "POST" "/v1/nodes/register" ∅ (Some (enc wire_NodeRegistration value)).
Definition c_Heartbeat (nodeID : string) : MT Node :=
  do_out wire_Node "POST" ("/v1/nodes/" +:+ PathEscape nodeID +:+ "/heartbeat") ∅ (Some (JObj [])).
Definition c_Claim (nodeID : string) : MT Assignment :=
  do_out wire_Assignment "POST" ("/v1/nodes/" +:+ PathEscape nodeID +:+ "/claim") ∅ (Some (JObj [])).
Definition c_Start (value : Assignment) : MT () :=
  do_empty "POST" (attempt_path (asg_AttemptID value) +:+ "/start") (Some (enc wire_Assignment value)).
Definition c_Renew (value : Assignment) : MT LeaseUpdate :=
  do_out wire_LeaseUpdate "POST" (attempt_path (asg_AttemptID value) +:+ "/renew") ∅ (Some (enc wire_Assignment value)).
Definition c_AppendEvent (runID attemptID lease eventType : string) (data : Any) (eventIDs : list string) : MT () :=
  j ← lift_res (marshal data);
  do_empty "POST" (attempt_path attemptID +:+ "/events")
    (Some (JObj [("data", j); ("event_id", JStr (default "" (head eventIDs))); ("lease_token", JStr lease);
                 ("run_id", JStr runID); ("type", JStr eventType)])).
Definition c_Complete (value : Assignment) (result : Result) : MT () :=
  do_empty "POST" (attempt_path (asg_AttemptID value) +:+ "/complete")
    (Some (JObj [("assignment", enc wire_Assignment value); ("result", enc wire_Result result)])).
Definition c_Fail (value : Assignment) (cause : string) : MT () :=
  do_empty "POST" (attempt_path (asg_AttemptID value) +:+ "/fail")
    (Some (JObj [("assignment", enc wire_Assignment value); ("error", JStr cause)])).
Definition c_AcknowledgeCancellation (value : Assignment) : MT () :=
  do_empty "POST" (attempt_path (asg_AttemptID value) +:+ "/cancelled") (Some (enc wire_Assignment value)).
Definition c_ReserveCapability (a : Assignment) (key hash : string) (request : CapabilityRequest)
    : MT CapabilityReservation :=
  do_out wire_Reservation "POST" (attempt_path (asg_AttemptID a) +:+ "/capability-calls/reserve") ∅
    (Some (JObj [("assignment", enc wire_Assignment a); ("idempotency_key", JStr key);
                 ("request", enc wire_CapabilityRequest request); ("request_hash", JStr hash)])).
Definition c_FinishCapability (a : Assignment) (reservation : CapabilityReservation) (result : CapabilityResult)
    (cause : string) : MT () :=
  do_empty "POST" (attempt_path (asg_AttemptID a) +:+ "/capability-calls/" +:+ PathEscape (rsv_CallID reservation) +:+ "/finish")
    (Some (JObj [("assignment", enc wire_Assignment a); ("error", JStr cause);
                 ("reservation", enc wire_Reservation reservation); ("result", enc wire_CapabilityResult result)])).
Definition c_CreateInteraction (a : Assignment) (request : InteractionRequest) : MT Interaction :=
  do_out wire_Interaction "POST" (attempt_path (asg_AttemptID a) +:+ "/interactions") ∅
    (Some (JObj [("assignment", enc wire_Assignment a); ("request", enc wire_InteractionRequest request)])).

(** An error of reading is ignored here: the part that arrived is decoded. *)
Definition c_GetInteraction (a : Assignment) (id : string) : MT Interaction :=
  response ← Do (authorize (mkHttpRequest "GET" (attempt_path (asg_AttemptID a) +:+ "/interactions/" +:+ PathEscape id)
    {[ "run_id" := asg_RunID a ]} {[ "X-Relay-Lease-Token" := asg_LeaseToken a ]} None false ""));
  if negb (success response) then raise (opaque_error response)
  else lift_res (res_bind (parse_all (limited (rs_Body response))) (Unmarshal wire_Interaction false)).

Definition c_UploadArtifact (a : Assignment) (artifact : Artifact) (content : string) : MT Artifact :=
  let header := {[ "X-Relay-Lease-Token" := asg_LeaseToken a ]} : gmap string string in
  let header := if art_ContentType artifact =s "" then header
                else <["Content-Type" := art_ContentType artifact]> header in
  response ← Do (authorize (mkHttpRequest "POST" (attempt_path (asg_AttemptID a) +:+ "/artifacts")
    {[ "run_id" := asg_RunID a; "type" := art_Type artifact; "name" := art_Name artifact ]} header None false content));
  body ← lift_res (read_body response);
  if negb (success response) then raise (opaque_error response)
  else lift_res (res_bind (parse_all body) (Unmarshal wire_Artifact false)).

(** ** The event stream *)
Definition ErrEventStreamInterrupted : Error :=
  errors_New "relay HTTP: event stream ended before a terminal event".
(** [bufio.ScanLines]: the carriage return before a line feed is dropped. *)
Definition drop_cr (line : string) : string := if HasSuffix line cr then str_take (String.length line - 1) line else line.
Definition scan_lines (body : string) : list string :=
  let parts := Split body newline in
  map drop_cr (if last parts =s Some "" then removelast parts else parts).
(** The scanner's buffer ends at two mebibytes. *)
Definition line_limit : Z := 2097152.

(** The lines that arrived, then [scanner.Err()]: what broke the body off, if anything. *)
Fixpoint scan_events (handle : Event → MT ()) (broken : option Error) (lines : list string) (after : Z) (data : string) (terminal : bool) : MT () :=
  match lines with
  | [] =>
      match broken with
      | Some err => raise err
      | None => if terminal then mret () else raise ErrEventStreamInterrupted
      end
  | line :: lines =>
      if (line_limit <=? Z.of_nat (String.length line))%Z then raise (errors_New "bufio.Scanner: token too long")
      else if line =s "" then
        if data =s "" then scan_events handle broken lines after "" terminal
        else match res_bind (parse_all data) (Unmarshal wire_Event false) with
             | Err err => raise (mkError (err_is err) ("decode Relay event stream: " +:+ err_msg err))
             | Ok event =>
                 if (ev_Sequence event <=? after)%Z then scan_events handle broken lines after "" terminal
                 else
                   handle event ;;
                   scan_events handle broken lines (ev_Sequence event) ""
                     (terminal || bool_decide (ev_Type event ∈ ["run.succeeded"; "run.failed"; "run.cancelled"]))
             end
      else if HasPrefix line "data:" then
        scan_events handle broken lines after
          ((if data =s "" then "" else data +:+ nl) +:+ TrimSpace (TrimPrefix line "data:")) terminal
      else scan_events handle broken lines after data terminal
  end.

Definition stream_request (runID : string) (after : Z) : HttpRequest :=
  authorize (mkHttpRequest "GET" (run_path runID +:+ "/events/stream") {[ "after" := pretty after ]}
    {[ "Accept" := "text/event-stream"; "Last-Event-ID" := pretty after ]} None false "").
Definition c_StreamEvents (runID : string) (after : Z) (handle : Event → MT ()) : MT () :=
  response ← Do (stream_request runID after);
  if negb (success response) then
    body ← lift_res (read_body response);
    if rs_Status response =s http_StatusNotFound
    then raise (wrapf ErrNotFound (TrimSpace body))
    else raise (opaque_error response)
  else scan_events handle (rs_Broken response) (scan_lines (rs_Body response)) after "" false.
End client.
