(* ===== verification/HttpServed.v ===== *)
(** * HttpServed: a request of the client on the server

    Which handler a request of HttpClient reaches, under which scope, and what
    becomes of its body and of the answer. *)

From S2P Require Import Prelude GoStrings Json Types Codec Wire WireProps Url Matching Event Memory Service Http Stream Handler HttpClient.

(** ** Names in paths *)
Definition plain_id (s : string) : Prop := s ≠ "" ∧ s ≠ "." ∧ s ≠ "..".

Lemma escaped_plain seg value : escapes seg value → plain_id value → plain_id seg.
Proof.
  intros -> (Hne & Hd & Hdd). split_and!.
  - intros He. apply Hne. by apply (PathEscape_inj value "").
  - intros He. apply Hd. by apply (PathEscape_inj value ".").
  - intros He. apply Hdd. by apply (PathEscape_inj value "..").
Qed.

Lemma forallb_plain (P : string → bool) l : Forall plain_id l → (∀ s, plain_id s → P s = true) → forallb P l = true.
Proof. intros Hl HP. apply forallb_forall. intros s Hs. apply HP. rewrite Forall_forall in Hl. apply Hl. by apply list_elem_of_In. Qed.

Lemma removelast_Forall {A} (P : A → Prop) l : Forall P l → Forall P (removelast l).
Proof. induction 1 as [|x l Hx Hl IH]; [done|]. simpl. destruct l; [done|]. by constructor. Qed.

Section served.
Context `{Host} `{TimeParser} `{Encoder} `{JsonParser} `{Waiting} {S B : Type} `{Storage S} `{BlobStore B}
  `{Peers (ServiceState S B)} (server : Server).

Lemma clean_slashed r segs values :
  rq_Path r = slashed segs → Forall2 escapes segs values → Forall plain_id values → clean_path r = true.
Proof.
  intros Hp Hs Hv. assert (Hplain : Forall plain_id segs).
  { clear Hp. induction Hs; constructor; decompose_Forall_hyps; eauto using escaped_plain. }
  unfold clean_path, raw_segments. rewrite Hp, Split_slashed by by eapply escapes_slash_free. cbn [tail].
  rewrite !forallb_plain; auto using removelast_Forall.
  - intros s (Hne & _). by rewrite bool_decide_eq_false_2.
  - intros s (_ & Hd & Hdd). by rewrite !bool_decide_eq_false_2.
Qed.

(** The request is admitted and its path names a route. *)
Lemma served r segs values ctx handler w :
  rq_Path r = slashed segs → Forall2 escapes segs values → Forall plain_id values →
  authenticate (srv_Auth server) r = Admitted_ ctx →
  find_route (routes server) (rq_Method r) values = Some handler →
  ServeHTTP server r w = handler ctx r w.
Proof.
  intros Hp Hs Hv Ha Hr. unfold ServeHTTP. rewrite Hp, (PathUnescape_slashed _ _ Hs), Ha. unfold dispatch.
  rewrite (clean_slashed r segs values) by done. cbn [negb]. unfold segments, raw_segments.
  rewrite Hp, Split_slashed by by eapply escapes_slash_free. cbn [tail].
  by rewrite (unescape_segments _ _ Hs), Hr.
Qed.
End served.

(** ** Credentials *)
Definition credentials (auth : option Authenticator) (token : string) (ctx : Ctx) : Prop :=
  match auth with
  | None => ctx = None
  | Some a => token ≠ "" ∧ TrimSpace token = token ∧ ∃ scope, a token = Some scope ∧ ctx = Some scope
  end.

(** A node route needs a node's scope, and the name in the path its own; any
    other route needs a host's scope. *)
Definition may_call (ctx : Ctx) (node : bool) (name : option string) : Prop :=
  match ctx with
  | None => True
  | Some scope =>
      sc_Kind scope = (if node then AccessNode else AccessHost) ∧
      match name with
      | Some id => sc_Subject scope = "" ∨ sc_Subject scope = id
      | None => True
      end
  end.

Lemma presented_token token r : token ≠ "" → TrimSpace token = token → presented (authorize token r) = token.
Proof.
  intros Hne Ht. unfold authorize. rewrite bool_decide_eq_false_2 by done. unfold presented, map_get. cbn [rq_Header].
  change (rq_Header (r <| rq_Header := <["Authorization":="Bearer " +:+ token]> (rq_Header r) |>))
    with (<["Authorization":="Bearer " +:+ token]> (rq_Header r)).
  rewrite lookup_insert_eq. cbn [default from_option id]. unfold HasPrefix. rewrite prefix_app.
  unfold TrimPrefix, HasPrefix. by rewrite prefix_app, str_drop_app.
Qed.

(** The name in the path of a node route is compared with the token's subject. *)
Definition named_node (values : list string) (name : option string) : Prop :=
  HasPrefix (slashed values) "/v1/nodes/" = true →
  Forall slash_free values ∧ (values !! 2 = Some "register" ∨ values !! 2 = name).

Lemma admitted auth token ctx r segs values name :
  credentials auth token ctx →
  may_call ctx (HasPrefix (slashed values) "/v1/attempts/" ||
                (rq_Method r =s "POST") && HasPrefix (slashed values) "/v1/nodes/") name →
  rq_Path r = slashed segs → Forall2 escapes segs values → public_path (slashed values) = false →
  named_node values name →
  authenticate auth (authorize token r) = Admitted_ ctx.
Proof.
  intros Hc Hm Hp Hs Hpub Hn. unfold authenticate. destruct auth as [a|]; simpl in Hc; [|by subst].
  destruct Hc as (Hne & Htrim & scope & Hscope & ->). destruct Hm as [Hkind Hsub].
  assert (Hurl : url_path (authorize token r) = slashed values).
  { unfold url_path, authorize. destruct (token =s ""); cbn [rq_Path upd]; by rewrite Hp, (PathUnescape_slashed _ _ Hs). }
  assert (Hmethod : rq_Method (authorize token r) = rq_Method r).
  { unfold authorize. by destruct (token =s ""). }
  unfold node_route. rewrite Hurl, Hmethod, Hpub, presented_token by done.
  rewrite (bool_decide_eq_false_2 (token = "")) by done. rewrite Hscope.
  set (node := HasPrefix (slashed values) "/v1/attempts/" || _) in *.
  assert (Hk : (sc_Kind scope =s AccessNode) = node ∧ (sc_Kind scope =s AccessHost) = negb node).
  { rewrite Hkind. by destruct node. }
  destruct Hk as [-> ->]. replace (node && negb node) with false by by destruct node.
  replace (negb node && negb (negb node)) with false by by destruct node. cbn [andb].
  destruct (HasPrefix (slashed values) "/v1/nodes/") eqn:Hnodes; [|by rewrite andb_false_r].
  destruct (Hn Hnodes) as [Hfree Hv]. rewrite Split_slashed by done.
  destruct (_ && negb (nth 3 ("" :: values) "" =s "register") && _ && _) eqn:E; [exfalso|done].
  rewrite !andb_true_iff, !negb_true_iff, !bool_decide_eq_false in E. destruct E as [[[Hlen Hreg] Hsubj] Hthird].
  destruct Hlen as [_ Hlen%Nat.ltb_lt].
  cbn [nth] in *. rewrite nth_lookup in Hreg, Hthird.
  destruct Hv as [Hv|Hv]; rewrite Hv in *; [done|].
  destruct name as [id|]; simpl in *; [destruct Hsub; congruence|].
  apply lookup_ge_None in Hv. lia.
Qed.

(** ** Bodies *)
Lemma fits_limited s : fits_body s = true → limited s = s.
Proof. unfold limited. by intros ->. Qed.

Lemma lawful_received {A} (c : Codec A) strict a v :
  lawful c → fits c a = true → got c a (init c) = v → Unmarshal c strict (enc c a) = Ok v.
Proof. intros Hc Ha <-. by apply lawful_Unmarshal. Qed.

(** One member, in the order the client sends them. *)
Lemma dec_member {R} (fields : list (Field R)) strict k j l r f :
  find_field fields k = Some f →
  dec_members fields strict ((k, j) :: l) r = res_bind (f_dec f strict j r) (dec_members fields strict l).
Proof. intros Hf. simpl. by rewrite Hf. Qed.

Section sent_bodies.
Context `{TimeLaws}.

Lemma dec_Assignment a a0 : fits wire_Assignment a = true → a0 = zero_Assignment → dec wire_Assignment true (enc wire_Assignment a) a0 = Ok a.
Proof. intros Ha ->. by rewrite Assignment_lawful, Assignment_received. Qed.
Lemma dec_Result r r0 : fits wire_Result r = true → r0 = init wire_Result → dec wire_Result true (enc wire_Result r) r0 = Ok (sent_Result r).
Proof. intros Hr ->. by rewrite Result_lawful, Result_received. Qed.
Lemma dec_CapabilityRequest r r0 :
  fits wire_CapabilityRequest r = true → r0 = init wire_CapabilityRequest →
  dec wire_CapabilityRequest true (enc wire_CapabilityRequest r) r0 = Ok r.
Proof. intros Hr ->. by rewrite CapabilityRequest_lawful, CapabilityRequest_received. Qed.
Lemma dec_Reservation r r0 :
  fits wire_Reservation r = true → r0 = init wire_Reservation →
  dec wire_Reservation true (enc wire_Reservation r) r0 = Ok r.
Proof. intros Hr ->. by rewrite Reservation_lawful, Reservation_received. Qed.
Lemma dec_CapabilityResult r r0 :
  fits wire_CapabilityResult r = true → r0 = init wire_CapabilityResult →
  dec wire_CapabilityResult true (enc wire_CapabilityResult r) r0 = Ok r.
Proof. intros Hr ->. by rewrite CapabilityResult_lawful, CapabilityResult_received. Qed.
Lemma dec_InteractionRequest r r0 :
  fits wire_InteractionRequest r = true → r0 = init wire_InteractionRequest →
  dec wire_InteractionRequest true (enc wire_InteractionRequest r) r0 = Ok r.
Proof. intros Hr ->. by rewrite InteractionRequest_lawful, InteractionRequest_received. Qed.

Ltac members :=
  intros; unfold Unmarshal; cbn [dec struct];
  repeat (erewrite dec_member by reflexivity; cbn [f_dec field id fst snd prod_map];
          first [ rewrite dec_Assignment by (done || reflexivity) | rewrite dec_Result by (done || reflexivity)
                | rewrite dec_CapabilityRequest by (done || reflexivity) | rewrite dec_Reservation by (done || reflexivity)
                | rewrite dec_CapabilityResult by (done || reflexivity)
                | rewrite dec_InteractionRequest by (done || reflexivity) | idtac ]; cbn [res_bind dec str raw]);
  reflexivity.

Lemma sent_Resolve j : Unmarshal body_Resolve true (JObj [("response", j)]) = Ok (mkResolveBody (Some j)).
Proof. unfold body_Resolve, fields_ResolveBody. members. Qed.
Lemma sent_Event j id lease run kind :
  Unmarshal body_Event true
    (JObj [("data", j); ("event_id", JStr id); ("lease_token", JStr lease); ("run_id", JStr run); ("type", JStr kind)]) =
  Ok (mkEventBody id run lease kind (Some j)).
Proof. unfold body_Event, fields_EventBody. members. Qed.
Lemma sent_Complete a r :
  fits wire_Assignment a = true → fits wire_Result r = true →
  Unmarshal body_Complete true (JObj [("assignment", enc wire_Assignment a); ("result", enc wire_Result r)]) =
  Ok (mkCompleteBody a (sent_Result r)).
Proof. unfold body_Complete, fields_CompleteBody. members. Qed.
Lemma sent_Fail a cause :
  fits wire_Assignment a = true →
  Unmarshal body_Fail true (JObj [("assignment", enc wire_Assignment a); ("error", JStr cause)]) = Ok (mkFailBody a cause).
Proof. unfold body_Fail, fields_FailBody. members. Qed.
Lemma sent_Reserve a key hash r :
  fits wire_Assignment a = true → fits wire_CapabilityRequest r = true →
  Unmarshal body_Reserve true
    (JObj [("assignment", enc wire_Assignment a); ("idempotency_key", JStr key);
           ("request", enc wire_CapabilityRequest r); ("request_hash", JStr hash)]) = Ok (mkReserveBody a key hash r).
Proof. unfold body_Reserve, fields_ReserveBody. members. Qed.
Lemma sent_Finish a rsv r cause :
  fits wire_Assignment a = true → fits wire_Reservation rsv = true → fits wire_CapabilityResult r = true →
  Unmarshal body_Finish true
    (JObj [("assignment", enc wire_Assignment a); ("error", JStr cause); ("reservation", enc wire_Reservation rsv);
           ("result", enc wire_CapabilityResult r)]) = Ok (mkFinishBody a rsv r cause).
Proof. unfold body_Finish, fields_FinishBody. members. Qed.
Lemma sent_Interaction a r :
  fits wire_Assignment a = true → fits wire_InteractionRequest r = true →
  Unmarshal body_Interaction true
    (JObj [("assignment", enc wire_Assignment a); ("request", enc wire_InteractionRequest r)]) =
  Ok (mkInteractionBody a r).
Proof. unfold body_Interaction, fields_InteractionBody. members. Qed.
End sent_bodies.

Lemma digits_plus acc s : digits_value acc (String (byte_of 43) s) = None.
Proof. done. Qed.

(** A number in a query. *)
Lemma Atoi_pretty z : int64 z = true → Atoi (pretty z) = (z, true).
Proof.
  intros Hz. assert (HN : ∀ n, Z.of_N n = z → Atoi (pretty n) = (z, true)).
  { intros n Hn. pose proof (digits_pretty n) as Hd. pose proof (pretty_N_no_minus n) as Hm.
    pose proof (pretty_N_nonempty n) as Hne. unfold Atoi. destruct (pretty n) as [|c rest]; [done|].
    rewrite (bool_decide_eq_false_2 (c = minus)) by (intros ->; by apply (Hm rest)).
    rewrite (bool_decide_eq_false_2 (c = byte_of 43)) by (intros ->; by rewrite digits_plus in Hd).
    cbn [orb]. rewrite bool_decide_eq_false_2 by done. by rewrite Hd, Hn, Hz. }
  destruct z as [|p|p]; [exact (HN 0%N eq_refl)|exact (HN (Npos p) eq_refl)|].
  change (pretty (Z.neg p)) with (String minus (pretty (Npos p))). unfold Atoi.
  rewrite (bool_decide_eq_true_2 (minus = minus)) by done. cbn [orb].
  rewrite bool_decide_eq_false_2 by apply pretty_N_nonempty. rewrite digits_pretty.
  change (- Z.of_N (N.pos p))%Z with (Z.neg p). by rewrite Hz.
Qed.

Section answers.
Context `{Host} `{TimeParser} `{Encoder} `{JsonParser} `{!ParserLaws} `{Waiting} {S B : Type} `{Storage S} `{BlobStore B}
  `{Peers (ServiceState S B)} (server : Server) (token : string).
Abbreviation X := (ServiceState S B).
Abbreviation MX := (M (ServiceState S B)).

(** The transport that takes every request to the server. *)
#[local] Instance server_transport : Transport X := ServeHTTP server.

Lemma decode_sent {A} (c : Codec A) r j v (k : A → MX HttpResponse) w :
  rq_Body r = json_text j → fits_body (json_text j) = true → Unmarshal c true j = Ok v →
  decode c r k w = k v w.
Proof.
  intros Hb Hf Hv. unfold decode. rewrite Hb, fits_limited, parse_first_text by done.
  cbn [res_bind]. by rewrite Hv.
Qed.

(** The error the client makes of the server's. *)
Definition remote_error (e : Error) : Error :=
  let response := writeError e in response_error response (rs_Body response).
Definition error_fits (e : Error) : Prop := fits_body (rs_Body (writeError e)) = true.

(** What the client gets when the server answered [response]. *)
Definition delivered (method path : string) (response : HttpResponse) : Res (option string) :=
  if rs_Status response =s http_StatusNoContent
  then if Contains path "/claim" then Err (sentinel ErrNoAssignment) else Ok None
  else res_bind (read_body response) (λ body,
    if negb (success response) then Err (response_error response body) else Ok (Some body)).

Lemma exchange_served method path query input w w' response :
  ServeHTTP server (authorize token (request method path query input)) w = (Ok response, w') →
  exchange token method path query input w = (delivered method path response, w').
Proof.
  intros Hd. unfold exchange, mbind, M_bind, Do, server_transport. rewrite Hd. unfold delivered.
  destruct (_ =s _); [by destruct (Contains _ _)|]. destruct (read_body response); [|done]. by destruct (success response).
Qed.

Lemma delivered_error method path e : error_fits e → delivered method path (writeError e) = Err (remote_error e).
Proof.
  intros Hf. unfold delivered, read_body. change (rs_Broken (writeError e)) with (@None Error).
  rewrite (fits_limited _ Hf). cbn [res_bind].
  assert (E : (rs_Status (writeError e) =s http_StatusNoContent) = false ∧ success (writeError e) = false).
  { unfold writeError, error_status. by repeat case_match. }
  by destruct E as [-> ->].
Qed.

(** One call with an output: the answer of the service, carried over. *)
Definition answer_fits {A} (c : Codec A) (r : Res A) : Prop :=
  match r with
  | Ok a => fits c a = true ∧ fits_body (json_text (enc c a) +:+ nl) = true
  | Err e => error_fits e
  end.
Definition carried_over {A} (f : A → A) (r : Res A) : Res A :=
  match r with Ok a => Ok (f a) | Err e => Err (remote_error e) end.

Lemma do_out_served {A} (c : Codec A) (f : A → A) method path query input status (m : MX A) w :
  status ∈ [http_StatusOK; http_StatusCreated; http_StatusAccepted] →
  ServeHTTP server (authorize token (request method path query input)) w = answer m (respond c status) w →
  lawful c → (∀ a, got c a (init c) = f a) → answer_fits c (m w).1 →
  do_out token c method path query input w = (carried_over f (m w).1, (m w).2).
Proof.
  intros Hst Hd Hc Hf Ha. unfold do_out, mbind, M_bind.
  assert (Hw : ServeHTTP server (authorize token (request method path query input)) w =
               (Ok (respond c status (m w).1), (m w).2)).
  { rewrite Hd. unfold answer, try, mbind, M_bind. by destruct (m w). }
  rewrite (exchange_served _ _ _ _ _ _ _ Hw). destruct (m w) as [[a|e] w1]; simpl in *.
  2:{ by rewrite delivered_error. }
  destruct Ha as [Hfit Hbody]. unfold delivered, read_body. cbn [rs_Status rs_Body rs_Broken writeJSON].
  rewrite (fits_limited _ Hbody). cbn [res_bind].
  assert (E : (status =s http_StatusNoContent) = false ∧ success (writeJSON status (enc c a)) = true).
  { unfold success. repeat (apply elem_of_cons in Hst as [->|Hst]; [done|]). by apply elem_of_nil in Hst. }
  destruct E as [-> ->]. cbn [negb]. unfold lift_res, decode_response.
  destruct (_ =s "") eqn:E.
  - apply bool_decide_eq_true in E. by destruct (json_text (enc c a)).
  - rewrite parse_all_line. cbn [res_bind]. by rewrite (lawful_received c false a (f a)).
Qed.

Lemma do_empty_served method path input (m : MX ()) w :
  Contains path "/claim" = false →
  ServeHTTP server (authorize token (request method path ∅ input)) w = answer m respondEmpty w →
  match (m w).1 with Ok _ => True | Err e => error_fits e end →
  do_empty token method path input w = (carried_over (λ u, u) (m w).1, (m w).2).
Proof.
  intros Hp Hd Ha. unfold do_empty, mbind, M_bind.
  assert (Hw : ServeHTTP server (authorize token (request method path ∅ input)) w =
               (Ok (respondEmpty (m w).1), (m w).2)).
  { rewrite Hd. unfold answer, try, mbind, M_bind. by destruct (m w). }
  rewrite (exchange_served _ _ _ _ _ _ _ Hw). destruct (m w) as [[[]|e] w1]; simpl in *.
  - unfold delivered. simpl. by rewrite Hp.
  - by rewrite delivered_error.
Qed.

(** ** Errors *)
Definition protocol : list Sentinel :=
  [ErrNotFound; ErrInvalidLease; ErrInvalidTransition; ErrRunCancelled; ErrIncompatibleProtocol].
(** At most one sentinel of the protocol, and the message begins with its text. *)
Definition wire_error (e : Error) : Prop :=
  ∀ s, s ∈ protocol → errors_Is e s = true →
    HasPrefix (err_msg e) (sentinel_text s) = true ∧ ∀ s', s' ∈ protocol → errors_Is e s' = (s =s s').

Lemma failure_message_error msg : failure_message (json_text (error_json msg) +:+ nl) = msg ∨ msg = "".
Proof.
  unfold failure_message. rewrite parse_all_line. cbn [error_json]. unfold obj_map. simpl.
  rewrite lookup_insert_eq. destruct (msg =s "") eqn:E; [|by left]. right. by apply bool_decide_eq_true in E.
Qed.

Lemma remote_error_named e s :
  HasPrefix (err_msg e) (sentinel_text s) = true →
  protocol_error (error_status e) (err_msg e) = Some s → remote_error e = wrapf s (err_msg e).
Proof.
  intros Hp Hs. unfold remote_error, response_error. cbn [rs_Body rs_Status writeError writeJSON].
  destruct (failure_message_error (err_msg e)) as [Hm|Hm]; [by rewrite Hm, Hs|].
  rewrite Hm in Hp. by destruct s.
Qed.

Lemma remote_error_opaque e : error_status e = http_StatusBadRequest → err_is (remote_error e) = [].
Proof. intros Hs. unfold remote_error, response_error. cbn [rs_Body rs_Status writeError writeJSON]. by rewrite Hs. Qed.

Lemma remote_error_Is e s : wire_error e → s ∈ protocol → errors_Is (remote_error e) s = errors_Is e s.
Proof.
  intros He Hs. destruct (decide (Exists (λ s0, errors_Is e s0 = true) protocol)) as [Hex|Hno].
  - apply Exists_exists in Hex as (s0 & Hin & Hs0). destruct (He s0 Hin Hs0) as [Hp Hu].
    rewrite (remote_error_named e s0 Hp), errors_Is_wrapf, (Hu s Hs); [done|].
    assert (Hst : error_status e = match s0 with
      | ErrNotFound => 404 | ErrInvalidLease => 401 | ErrInvalidTransition => 409 | ErrRunCancelled => 410
      | ErrIncompatibleProtocol => 426 | _ => 400 end%Z).
    { unfold error_status. rewrite !Hu by (apply (bool_decide_unpack _); reflexivity).
      repeat (apply elem_of_cons in Hin as [->|Hin]; [reflexivity|]). by apply elem_of_nil in Hin. }
    rewrite Hst. unfold protocol_error.
    repeat (apply elem_of_cons in Hin as [->|Hin]; [cbn -[sentinel_text]; by rewrite Hp|]). by apply elem_of_nil in Hin.
  - apply not_Exists_Forall in Hno; [|intros ?; apply _]. rewrite Forall_forall in Hno.
    assert (Hf : ∀ s0, s0 ∈ protocol → errors_Is e s0 = false) by (intros; by apply not_true_iff_false, Hno).
    unfold errors_Is at 1. rewrite remote_error_opaque; [by rewrite Hf|].
    unfold error_status. by rewrite !Hf by (apply (bool_decide_unpack _); reflexivity).
Qed.

Lemma remote_error_protocol e s : s ∈ err_is (remote_error e) → s ∈ protocol.
Proof.
  unfold remote_error, response_error, protocol_error. repeat case_match; simplify_eq; cbn;
    rewrite ?list_elem_of_singleton; intros Hs; try by apply elem_of_nil in Hs.
  all: subst s; apply (bool_decide_unpack _); reflexivity.
Qed.
End answers.

(** ** Reaching the handler *)
Section find.
Context {S B : Type}.
Lemma find_skip (route : Route (S := S) (B := B)) l m p :
  match_path (route_Pattern route) p = None ∨ method_matches (route_Method route) m = false →
  find_route (route :: l) m p = find_route l m p.
Proof. intros [Hr|Hr]; simpl; rewrite Hr; [done|]. by destruct (match_path _ _). Qed.
Lemma find_here (route : Route (S := S) (B := B)) l m p args :
  match_path (route_Pattern route) p = Some args → method_matches (route_Method route) m = true →
  find_route (route :: l) m p = Some (route_Handler route args).
Proof. intros Hp Hm. simpl. by rewrite Hp, Hm. Qed.
End find.

(** Routes before the one that matches are skipped one by one. *)
Ltac no_match := cbn [match_path route_Pattern route_Method]; repeat case_bool_decide; solve [done | congruence].
Ltac route :=
  repeat match goal with Hid : plain_id _ |- _ => destruct Hid as (? & _ & _) end;
  repeat match goal with Hx : ?P |- _ => lazymatch P with _ ≠ _ => fail | _ => clear Hx end end;
  unfold routes;
  repeat first
    [ rewrite find_skip by first [right; reflexivity | left; no_match]
    | erewrite find_here by first [reflexivity | no_match]; reflexivity ].
Ltac plain_ids := repeat (apply Forall_cons; split); [..|apply Forall_nil; exact I];
  lazymatch goal with
  | Hid : plain_id ?s |- plain_id ?s => exact Hid
  | |- _ => unfold plain_id; split_and!; discriminate
  end.
