(* ===== verification/HttpProps.v ===== *)
(** * HttpProps: the control plane over HTTP

    [Call] is an operation a host or a node asks of the control plane; [direct]
    makes it on the service under a scope, [remote] through the HTTP client and
    the HTTP server.  Both have the same effect, and the same answer up to what
    the protocol carries. *)

From S2P Require Import Prelude GoStrings Json Types Codec Wire WireProps Url Matching Event Memory Service Http Stream Handler HttpClient HttpServed.

Inductive Call : Type → Type :=
  | CallSubmit (request : Request) : Call Run
  | CallGetRun (runID : string) : Call Run
  | CallListRuns (limit : Z) : Call (list Run)
  | CallSessionRuns (sessionID : string) (limit : Z) : Call (list Run)
  | CallAttempts (runID : string) : Call (list Attempt)
  | CallInteractions (runID : string) : Call (list Interaction)
  | CallResolveInteraction (id : string) (response : option Json) : Call Interaction
  | CallEvents (runID : string) : Call (list Event)
  | CallArtifacts (runID : string) : Call (list Artifact)
  | CallCancelRun (runID : string) (request : CancelRequest) : Call Run
  | CallNodes : Call (list Node)
  | CallRegisterNode (registration : NodeRegistration) : Call Node
  | CallHeartbeat (nodeID : string) : Call Node
  | CallClaim (nodeID : string) : Call Assignment
  | CallStart (a : Assignment) : Call ()
  | CallRenew (a : Assignment) : Call LeaseUpdate
  | CallAppendEvent (runID attemptID lease eventType : string) (data : Any) (eventIDs : list string) : Call ()
  | CallComplete (a : Assignment) (result : Result) : Call ()
  | CallFail (a : Assignment) (cause : string) : Call ()
  | CallAcknowledgeCancellation (a : Assignment) : Call ()
  | CallReserveCapability (a : Assignment) (key hash : string) (request : CapabilityRequest) : Call CapabilityReservation
  | CallFinishCapability (a : Assignment) (reservation : CapabilityReservation) (result : CapabilityResult)
      (cause : string) : Call ()
  | CallCreateInteraction (a : Assignment) (request : InteractionRequest) : Call Interaction
  | CallGetInteraction (a : Assignment) (id : string) : Call Interaction
  | CallUploadArtifact (a : Assignment) (artifact : Artifact) (content : string) : Call Artifact.

(** An assignment by its names alone. *)
Definition bare (a : Assignment) : Assignment := mkAssignment (asg_RunID a) (asg_AttemptID a) (asg_LeaseToken a) 0 zero.
Definition bare_artifact (a : Artifact) : Artifact := mkArtifact "" "" (art_Type a) "" (art_Name a) (art_ContentType a) 0 "".

(** The call as it arrives: what its route has no place for is gone, and a nil
    message is the message null. *)
Definition carried {A} (call : Call A) : Call A :=
  match call in Call A return Call A with
  | CallResolveInteraction id response => CallResolveInteraction id (Some (default JNull response))
  | CallAppendEvent runID attemptID lease eventType data eventIDs =>
      CallAppendEvent runID attemptID lease eventType
        (AnyJson (match marshal data with Ok j => j | Err _ => JNull end)) [default "" (head eventIDs)]
  | CallComplete a result => CallComplete a (sent_Result result)
  | CallGetInteraction a id => CallGetInteraction (bare a) id
  | CallUploadArtifact a artifact content => CallUploadArtifact (bare a) (bare_artifact artifact) content
  | call => call
  end.

(** What the answer loses on the way. *)
Definition arrives {A} (call : Call A) : A → A :=
  match call in Call A return A → A with
  | CallSubmit _ | CallGetRun _ | CallCancelRun _ _ => sent_Run
  | CallListRuns _ | CallSessionRuns _ _ => map sent_Run
  | CallAttempts _ => map sent_Attempt
  | CallArtifacts _ => map sent_Artifact
  | CallUploadArtifact _ _ _ => sent_Artifact
  | _ => λ a, a
  end.

Definition on_node {A} (call : Call A) : bool :=
  match call with
  | CallSubmit _ | CallGetRun _ | CallListRuns _ | CallSessionRuns _ _ | CallAttempts _ | CallInteractions _
  | CallResolveInteraction _ _ | CallEvents _ | CallArtifacts _ | CallCancelRun _ _ | CallNodes => false
  | _ => true
  end.
Definition node_named {A} (call : Call A) : option string :=
  match call with
  | CallRegisterNode registration => Some (reg_ID registration)
  | CallHeartbeat nodeID | CallClaim nodeID => Some nodeID
  | _ => None
  end.
(** [Client.do] knows the sentinels of the protocol; two operations do without it. *)
Definition through_do {A} (call : Call A) : bool :=
  match call with CallGetInteraction _ _ | CallUploadArtifact _ _ _ => false | _ => true end.

Section http.
Context `{TimeLaws} `{Encoder} `{JsonParser} `{!ParserLaws} `{Waiting} {S B : Type} `{Storage S}
  `{BlobStore B} `{Peers (ServiceState S B)} (server : Server) (token : string).
Abbreviation X := (ServiceState S B).
Abbreviation MX := (M (ServiceState S B)).

Definition direct {A} (ctx : Ctx) (call : Call A) : MX A :=
  match call in Call A return MX A with
  | CallSubmit request => Submit ctx request
  | CallGetRun runID => GetRun ctx runID
  | CallListRuns limit => ListRuns ctx limit
  | CallSessionRuns sessionID limit => SessionRuns ctx sessionID limit
  | CallAttempts runID => Attempts ctx runID
  | CallInteractions runID => Interactions ctx runID
  | CallResolveInteraction id response => ResolveInteraction ctx id response
  | CallEvents runID => Events ctx runID
  | CallArtifacts runID => Artifacts ctx runID
  | CallCancelRun runID request => CancelRun ctx runID request
  | CallNodes => Nodes (srv_Options server)
  | CallRegisterNode registration => RegisterNode registration
  | CallHeartbeat nodeID => Heartbeat nodeID
  | CallClaim nodeID => Claim (srv_Options server) nodeID
  | CallStart a => Start a
  | CallRenew a => Renew (srv_Options server) a
  | CallAppendEvent runID attemptID lease eventType data eventIDs =>
      AppendEvent runID attemptID lease eventType data eventIDs
  | CallComplete a result => Complete a result
  | CallFail a cause => Fail a cause
  | CallAcknowledgeCancellation a => AcknowledgeCancellation a
  | CallReserveCapability a key hash request => ReserveCapability a key hash request
  | CallFinishCapability a reservation result cause => FinishCapability a reservation result cause
  | CallCreateInteraction a request => CreateInteraction a request
  | CallGetInteraction a id => GetInteraction a id
  | CallUploadArtifact a artifact content => UploadArtifact a artifact (Ok content)
  end.

#[local] Instance over_http : Transport X := server_transport server.
Definition remote {A} (call : Call A) : MX A :=
  match call in Call A return MX A with
  | CallSubmit request => c_Submit token request
  | CallGetRun runID => c_GetRun token runID
  | CallListRuns limit => c_ListRuns token limit
  | CallSessionRuns sessionID limit => c_SessionRuns token sessionID limit
  | CallAttempts runID => c_Attempts token runID
  | CallInteractions runID => c_Interactions token runID
  | CallResolveInteraction id response => c_ResolveInteraction token id response
  | CallEvents runID => c_Events token runID
  | CallArtifacts runID => c_Artifacts token runID
  | CallCancelRun runID request => c_CancelRun token runID request
  | CallNodes => c_Nodes token
  | CallRegisterNode registration => c_RegisterNode token registration
  | CallHeartbeat nodeID => c_Heartbeat token nodeID
  | CallClaim nodeID => c_Claim token nodeID
  | CallStart a => c_Start token a
  | CallRenew a => c_Renew token a
  | CallAppendEvent runID attemptID lease eventType data eventIDs =>
      c_AppendEvent token runID attemptID lease eventType data eventIDs
  | CallComplete a result => c_Complete token a result
  | CallFail a cause => c_Fail token a cause
  | CallAcknowledgeCancellation a => c_AcknowledgeCancellation token a
  | CallReserveCapability a key hash request => c_ReserveCapability token a key hash request
  | CallFinishCapability a reservation result cause => c_FinishCapability token a reservation result cause
  | CallCreateInteraction a request => c_CreateInteraction token a request
  | CallGetInteraction a id => c_GetInteraction token a id
  | CallUploadArtifact a artifact content => c_UploadArtifact token a artifact content
  end.

(** ** Reaching the handler *)
Lemma reach_any ctx r segs values handler node name w :
  credentials (srv_Auth server) token ctx →
  rq_Path r = slashed segs → Forall2 escapes segs values → Forall plain_id values →
  may_call ctx node name →
  (HasPrefix (slashed values) "/v1/attempts/" ||
   (rq_Method r =s "POST") && HasPrefix (slashed values) "/v1/nodes/") = node →
  public_path (slashed values) = false → named_node values name →
  find_route (routes server) (rq_Method r) values = Some handler →
  ServeHTTP server (authorize token r) w = handler ctx (authorize token r) w.
Proof.
  intros Hc Hp Hs Hv Hm Hnode Hpub Hn Hr.
  assert (Hpath : rq_Path (authorize token r) = slashed segs) by (unfold authorize; by destruct (token =s "")).
  assert (Hmethod : rq_Method (authorize token r) = rq_Method r) by (unfold authorize; by destruct (token =s "")).
  apply (served server _ segs values); [done..| |by rewrite Hmethod].
  apply (admitted _ _ _ _ segs values name); [done| |done..]. by rewrite Hnode.
Qed.
Lemma reach ctx method path segs values query input handler node name w :
  credentials (srv_Auth server) token ctx →
  path = slashed segs → Forall2 escapes segs values → Forall plain_id values →
  may_call ctx node name →
  (HasPrefix (slashed values) "/v1/attempts/" ||
   (method =s "POST") && HasPrefix (slashed values) "/v1/nodes/") = node →
  public_path (slashed values) = false → named_node values name →
  find_route (routes server) method values = Some handler →
  ServeHTTP server (authorize token (request method path query input)) w =
    handler ctx (authorize token (request method path query input)) w.
Proof. intros. by eapply (reach_any ctx (request method path query input) segs values). Qed.

(** ** What can be sent, and what can be answered *)
Definition input_fits {A} (c : Codec A) (a : A) : Prop := fits c a = true ∧ fits_body (json_text (enc c a)) = true.
(** [Client.do] takes a 204 on a path with a segment that begins with "claim" for
    the answer of a claim. *)
Definition claim_free (s : string) : Prop := HasPrefix s "claim" = false.
Definition attempt_id (a : Assignment) : Prop := plain_id (asg_AttemptID a) ∧ claim_free (asg_AttemptID a).

Definition sendable {A} (call : Call A) : Prop :=
  match call with
  | CallSubmit request => input_fits wire_Request request
  | CallGetRun id | CallAttempts id | CallInteractions id | CallEvents id | CallArtifacts id => plain_id id
  | CallListRuns limit => int64 limit = true
  | CallSessionRuns id limit => plain_id id ∧ int64 limit = true
  | CallResolveInteraction id response =>
      plain_id id ∧ fits_body (json_text (JObj [("response", default JNull response)])) = true
  | CallCancelRun id request => plain_id id ∧ input_fits wire_CancelRequest request
  | CallNodes => True
  | CallRegisterNode registration => input_fits wire_NodeRegistration registration
  | CallHeartbeat id | CallClaim id => plain_id id ∧ slash_free id
  | CallStart a | CallRenew a | CallAcknowledgeCancellation a => attempt_id a ∧ input_fits wire_Assignment a
  | CallAppendEvent runID attemptID lease kind data ids =>
      plain_id attemptID ∧ claim_free attemptID ∧
      ∃ j, marshal data = Ok j ∧
        fits_body (json_text (JObj [("data", j); ("event_id", JStr (default "" (head ids)));
                                    ("lease_token", JStr lease); ("run_id", JStr runID); ("type", JStr kind)])) = true
  | CallComplete a result =>
      attempt_id a ∧ fits wire_Assignment a = true ∧ fits wire_Result result = true ∧
      fits_body (json_text (JObj [("assignment", enc wire_Assignment a); ("result", enc wire_Result result)])) = true
  | CallFail a cause =>
      attempt_id a ∧ fits wire_Assignment a = true ∧
      fits_body (json_text (JObj [("assignment", enc wire_Assignment a); ("error", JStr cause)])) = true
  | CallReserveCapability a key hash request =>
      attempt_id a ∧ fits wire_Assignment a = true ∧ fits wire_CapabilityRequest request = true ∧
      fits_body (json_text (JObj [("assignment", enc wire_Assignment a); ("idempotency_key", JStr key);
                                  ("request", enc wire_CapabilityRequest request); ("request_hash", JStr hash)])) = true
  | CallFinishCapability a reservation result cause =>
      attempt_id a ∧ plain_id (rsv_CallID reservation) ∧ claim_free (rsv_CallID reservation) ∧
      fits wire_Assignment a = true ∧ fits wire_Reservation reservation = true ∧
      fits wire_CapabilityResult result = true ∧
      fits_body (json_text (JObj [("assignment", enc wire_Assignment a); ("error", JStr cause);
                                  ("reservation", enc wire_Reservation reservation);
                                  ("result", enc wire_CapabilityResult result)])) = true
  | CallCreateInteraction a request =>
      attempt_id a ∧ fits wire_Assignment a = true ∧ fits wire_InteractionRequest request = true ∧
      fits_body (json_text (JObj [("assignment", enc wire_Assignment a);
                                  ("request", enc wire_InteractionRequest request)])) = true
  | CallGetInteraction a id => plain_id (asg_AttemptID a) ∧ plain_id id
  | CallUploadArtifact a artifact content =>
      plain_id (asg_AttemptID a) ∧ asg_RunID a ≠ "" ∧ asg_LeaseToken a ≠ "" ∧ art_Type artifact ≠ "" ∧
      (Z.of_nat (String.length content) <= upload_limit)%Z
  end.

Definition output {A} (call : Call A) : option (Codec A) :=
  match call in Call A return option (Codec A) with
  | CallSubmit _ | CallGetRun _ | CallCancelRun _ _ => Some wire_Run
  | CallListRuns _ | CallSessionRuns _ _ => Some (slice wire_Run)
  | CallAttempts _ => Some (slice wire_Attempt)
  | CallInteractions _ => Some (slice wire_Interaction)
  | CallResolveInteraction _ _ | CallCreateInteraction _ _ | CallGetInteraction _ _ => Some wire_Interaction
  | CallEvents _ => Some (slice wire_Event)
  | CallArtifacts _ => Some (slice wire_Artifact)
  | CallNodes => Some (slice wire_Node)
  | CallRegisterNode _ | CallHeartbeat _ => Some wire_Node
  | CallClaim _ => Some wire_Assignment
  | CallRenew _ => Some wire_LeaseUpdate
  | CallReserveCapability _ _ _ _ => Some wire_Reservation
  | CallUploadArtifact _ _ _ => Some wire_Artifact
  | _ => None
  end.

(** The answer fits into a body; an error wraps at most one sentinel of the
    protocol and begins with its text. *)
Definition answerable {A} (call : Call A) (r : Res A) : Prop :=
  match r with
  | Ok a => match output call with Some c => answer_fits c (Ok a) | None => True end
  | Err e => error_fits e ∧ wire_error e ∧
             (errors_Is e ErrNoAssignment = true → ∀ s, s ∈ protocol → errors_Is e s = false)
  end.

(** The sentinels a caller finds in the error of a call. *)
Definition recognised {A} (call : Call A) : list Sentinel :=
  match call with CallClaim _ => ErrNoAssignment :: protocol | _ => protocol end.

Definition same_answer {A} (call : Call A) (r r' : Res A) : Prop :=
  match r, r' with
  | Ok a, Ok a' => a' = arrives call a
  | Err e, Err e' => ∀ s, s ∈ recognised call → errors_Is e' s = through_do call && errors_Is e s
  | _, _ => False
  end.

(** ** Calls through [Client.do] *)
Definition error_over {A} (call : Call A) (e : Error) : Error :=
  match call with
  | CallClaim _ => if errors_Is e ErrNoAssignment then sentinel ErrNoAssignment else remote_error e
  | _ => remote_error e
  end.
Definition over_wire {A} (call : Call A) (m : MX A) (w : World X) : Res A * World X :=
  (match (m w).1 with Ok a => Ok (arrives call a) | Err e => Err (error_over call e) end, (m w).2).

(** What a call of the client needs to reach its handler. *)
Ltac reaching segs values name :=
  erewrite (reach _ _ _ segs values _ _ _ _ name);
  [ | lazymatch goal with Hc : credentials _ _ _ |- _ => exact Hc end
    | first [reflexivity | cbn [slashed]; rewrite str_app_nil_r; reflexivity]
    | once (by repeat constructor) | plain_ids
    | lazymatch goal with Hm : may_call _ _ _ |- _ => exact Hm end
    | rewrite ?attempts_prefix, ?nodes_prefix; reflexivity | reflexivity
    | first [by intros | intros _; split; [repeat constructor; by unfold slash_free in * | first [by right | by left]]] | route ].

Lemma no_claim segs values :
  Forall2 escapes segs values → Forall claim_free values → Contains (slashed segs) "/claim" = false.
Proof.
  intros Hs Hv. unfold Contains. apply negb_false_iff, bool_decide_eq_true.
  apply (Index_slashed "claim" "" segs); [done|done|by eapply escapes_slash_free|].
  induction Hs as [|seg value segs values -> _ IH]; constructor; decompose_Forall_hyps.
  - destruct (String.prefix "claim" (PathEscape value)) eqn:E; [|done].
    apply prefix_escaped in E; [|done]. unfold claim_free, HasPrefix in *. congruence.
  - by apply IH.
Qed.

Lemma received_fmap {A} (c : Codec A) (f : A → A) l l0 : (∀ a, got c a (init c) = f a) → got (slice c) l l0 = map f l.
Proof. intros Hf. simpl. by apply map_ext. Qed.

Lemma request_body m p q j : rq_Body (authorize token (request m p q (Some j))) = json_text j.
Proof. unfold authorize. by destruct (token =s ""). Qed.
Lemma request_query m p q i : rq_Query (authorize token (request m p q i)) = q.
Proof. unfold authorize. by destruct (token =s ""). Qed.

Ltac fits_in := repeat match goal with Hi : input_fits _ _ |- _ => destruct Hi end.
Ltac ok_status := apply (bool_decide_unpack _); reflexivity.

Section calls.
Context (ctx : Ctx) (Hc : credentials (srv_Auth server) token ctx).

Lemma unmarshal_input {A} (c : Codec A) a :
  lawful c → fits c a = true → got c a (init c) = a → Unmarshal c true (enc c a) = Ok a.
Proof. intros. by apply lawful_received. Qed.
Ltac input_received lemma := apply unmarshal_input; [auto with wire|assumption|apply lemma].
(** The handler decodes what was sent; the names in path and body agree. *)
Tactic Notation "decoded" tactic3(received) :=
  erewrite decode_sent;
  [|apply request_body|lazymatch goal with Hf : fits_body _ = true |- _ => exact Hf end|received];
  cbn [lb_Assignment cb_Assignment vb_Assignment fb_Assignment fb_Reservation ib_Assignment];
  rewrite ?bool_decide_eq_true_2 by reflexivity; reflexivity.
Ltac handler :=
  cbn [route_Handler]; unfold h_submit, h_listRuns, h_sessionRuns, h_getRun, h_attempts, h_interactions, h_resolveInteraction, h_events,
    h_artifacts, h_cancelRun, h_nodes, h_register, h_heartbeat, h_claim, h_start, h_renew, h_appendEvent,
    h_reserveCapability, h_finishCapability, h_createInteraction, h_complete, h_fail, h_acknowledgeCancellation;
  unfold arg; cbn [nth].
Lemma received_same {A} (c : Codec A) l l0 : (∀ a, got c a (init c) = a) → got (slice c) l l0 = l.
Proof. intros Hf. rewrite (received_fmap c (λ a, a)) by done. apply map_id. Qed.
Ltac struct_received :=
  first [ apply Run_received | apply Attempt_received | apply Artifact_received | apply Interaction_received
        | apply Event_received | apply Node_received | apply Assignment_received | apply LeaseUpdate_received
        | apply Reservation_received ].
Ltac all_received :=
  cbn [arrives]; intros;
  first [ struct_received | apply received_fmap; intros; struct_received | apply received_same; intros; struct_received ].
Ltac answered :=
  [> auto with wire | all_received
  | lazymatch goal with Ha : answer_fits _ _ |- _ => exact Ha end | ok_status ].
Lemma limit_sent m p i limit :
  int64 limit = true → limit_of (authorize token (request m p (limit_query limit) i)) = limit.
Proof.
  intros Hl. unfold limit_of. rewrite request_query. unfold limit_query, map_get.
  rewrite lookup_singleton_eq. cbn [default from_option id]. by rewrite Atoi_pretty.
Qed.
Ltac out_get segs values name :=
  eapply (do_out_served server); cycle 1;
  [reaching segs values name; handler; rewrite ?limit_sent by done; reflexivity |..]; answered.
Tactic Notation "out_post" constr(segs) constr(values) constr(name) tactic3(received) :=
  eapply (do_out_served server); cycle 1; [reaching segs values name; handler; decoded received |..]; answered.

Lemma host_calls {A} (call : Call A) w :
  may_call ctx false None → on_node call = false → sendable call →
  answerable call (direct ctx (carried call) w).1 →
  remote call w = over_wire call (direct ctx (carried call)) w.
Proof.
  intros Hm Hhost Hs Ha.
  assert (Hfit : match output call with Some c => answer_fits c (direct ctx (carried call) w).1 | None => True end).
  { unfold answerable in Ha. destruct (output call); [|done].
    destruct (direct ctx (carried call) w) as [[a|e] w1]; [done|]. by destruct Ha. }
  clear Ha. destruct call; try discriminate Hhost; simpl in Hs, Hfit; fits_in.
  - out_post ["v1"; "runs"] ["v1"; "runs"] (@None string) (input_received Request_received).
  - out_get ["v1"; "runs"; PathEscape runID] ["v1"; "runs"; runID] (@None string).
  - out_get ["v1"; "runs"] ["v1"; "runs"] (@None string).
  - destruct Hs. out_get ["v1"; "sessions"; PathEscape sessionID; "runs"] ["v1"; "sessions"; sessionID; "runs"] (@None string).
  - out_get ["v1"; "runs"; PathEscape runID; "attempts"] ["v1"; "runs"; runID; "attempts"] (@None string).
  - out_get ["v1"; "runs"; PathEscape runID; "interactions"] ["v1"; "runs"; runID; "interactions"] (@None string).
  - destruct Hs. out_post ["v1"; "interactions"; PathEscape id; "resolve"] ["v1"; "interactions"; id; "resolve"] (@None string) (apply sent_Resolve).
  - out_get ["v1"; "runs"; PathEscape runID; "events"] ["v1"; "runs"; runID; "events"] (@None string).
  - out_get ["v1"; "runs"; PathEscape runID; "artifacts"] ["v1"; "runs"; runID; "artifacts"] (@None string).
  - destruct Hs. fits_in. out_post ["v1"; "runs"; PathEscape runID; "cancel"] ["v1"; "runs"; runID; "cancel"] (@None string) (input_received CancelRequest_received).
  - out_get ["v1"; "nodes"] ["v1"; "nodes"] (@None string).
Qed.

Tactic Notation "empty_post" constr(segs) constr(values) tactic3(received) :=
  eapply (do_empty_served server);
  [apply (no_claim segs values); [once (by repeat constructor)|once (by repeat constructor; unfold claim_free in *)]
  |reaching segs values (@None string); handler; decoded received
  |by match goal with Ha : answerable _ _ |- _ => unfold answerable in Ha; destruct (direct _ _ _) as [[]?]; [done|by destruct Ha] end].

Lemma node_calls {A} (call : Call A) w :
  may_call ctx true (node_named call) → on_node call = true → through_do call = true → sendable call →
  answerable call (direct ctx (carried call) w).1 →
  remote call w = over_wire call (direct ctx (carried call)) w.
Proof.
  intros Hm Hnode Hdo Hs Ha.
  assert (Hfit : match output call with Some c => answer_fits c (direct ctx (carried call) w).1 | None => True end).
  { unfold answerable in Ha. destruct (output call); [|done].
    destruct (direct ctx (carried call) w) as [[a|e] w1]; [done|]. by destruct Ha. }
  destruct call; try discriminate Hnode; try discriminate Hdo; simpl in Hs, Hfit, Hm; unfold attempt_id in Hs;
    destruct_and? Hs; fits_in.
  - eapply (do_out_served server); cycle 1.
    { reaching ["v1"; "nodes"; "register"] ["v1"; "nodes"; "register"] (Some (reg_ID registration)). handler.
      erewrite decode_sent; [|apply request_body|eassumption|input_received NodeRegistration_received]. cbn beta zeta.
      replace (match ctx with Some scope => _ | None => false end) with false; [reflexivity|].
      destruct ctx as [scope|]; [|done]. destruct Hm as [Hkind [Hsub|Hsub]]; rewrite Hsub.
      - symmetry. rewrite (bool_decide_eq_true_2 ("" = "")) by done. cbn [negb]. by rewrite andb_false_r.
      - symmetry. rewrite (bool_decide_eq_true_2 (reg_ID registration = reg_ID registration)) by done.
        cbn [negb]. by rewrite andb_false_r. }
    { auto with wire. } { all_received. } { eassumption. } ok_status.
  - out_get ["v1"; "nodes"; PathEscape nodeID; "heartbeat"] ["v1"; "nodes"; nodeID; "heartbeat"] (Some nodeID).
  - set (values := ["v1"; "nodes"; nodeID; "claim"]).
    assert (Hr : ∀ w, ServeHTTP server (authorize token (request "POST" ("/v1/nodes/" +:+ PathEscape nodeID +:+ "/claim") ∅
                        (Some (JObj [])))) w = h_claim server nodeID ctx (authorize token (request "POST"
                        ("/v1/nodes/" +:+ PathEscape nodeID +:+ "/claim") ∅ (Some (JObj [])))) w).
    { intros w'. subst values.
      reaching ["v1"; "nodes"; PathEscape nodeID; "claim"] ["v1"; "nodes"; nodeID; "claim"] (Some nodeID). reflexivity. }
    set (m := Claim (srv_Options server) nodeID) in *. cbn [direct carried] in Hfit |- *. fold m in Hfit |- *.
    assert (Hplain : (∀ e, (m w).1 = Err e → errors_Is e ErrNoAssignment = false) →
              c_Claim token nodeID w = (carried_over (λ a, a) (m w).1, (m w).2)).
    { intros He. apply (do_out_served server) with (status := http_StatusOK);
        [ok_status| |auto with wire|all_received|done].
      rewrite Hr. unfold h_claim. fold m. unfold answer, try, mbind, M_bind.
      destruct (m w) as [[a|e] w1]; [done|]. by rewrite (He e). }
    unfold over_wire, error_over. destruct (m w) as [[a|e] w1] eqn:Em; [by apply Hplain|].
    destruct (errors_Is e ErrNoAssignment) eqn:En.
    + unfold remote, c_Claim, do_out, over_http, mbind, M_bind.
      erewrite (exchange_served server).
      2:{ rewrite Hr. unfold h_claim. fold m. unfold answer, try, mbind, M_bind. rewrite Em, En. reflexivity. }
      unfold delivered. cbn [rs_Status no_content]. rewrite bool_decide_eq_true_2 by done.
      pose proof (Contains_app ("/v1/nodes/" +:+ PathEscape nodeID) "/claim") as Hcl.
      rewrite str_app_assoc in Hcl. rewrite Hcl. cbn [fst snd]. by rewrite En.
    + cbn [fst snd]. rewrite En. apply Hplain. by intros e' [= <-].
  - empty_post ["v1"; "attempts"; PathEscape (asg_AttemptID a); "start"] ["v1"; "attempts"; asg_AttemptID a; "start"] (input_received Assignment_received).
  - out_post ["v1"; "attempts"; PathEscape (asg_AttemptID a); "renew"] ["v1"; "attempts"; asg_AttemptID a; "renew"] (@None string) (input_received Assignment_received).
  - lazymatch goal with Hex : ∃ j, _ |- _ => destruct Hex as (j & Hj & ?) end. unfold remote, c_AppendEvent. rewrite Hj. 
    assert (Hcar : carried (CallAppendEvent runID attemptID lease eventType data eventIDs) =
              CallAppendEvent runID attemptID lease eventType (AnyJson j) [default "" (head eventIDs)]).
    { cbn [carried]. by rewrite Hj. }
    rewrite Hcar in *.
    empty_post ["v1"; "attempts"; PathEscape attemptID; "events"] ["v1"; "attempts"; attemptID; "events"] (apply sent_Event).
  - empty_post ["v1"; "attempts"; PathEscape (asg_AttemptID a); "complete"] ["v1"; "attempts"; asg_AttemptID a; "complete"] (apply sent_Complete; assumption).
  - empty_post ["v1"; "attempts"; PathEscape (asg_AttemptID a); "fail"] ["v1"; "attempts"; asg_AttemptID a; "fail"] (apply sent_Fail; assumption).
  - empty_post ["v1"; "attempts"; PathEscape (asg_AttemptID a); "cancelled"] ["v1"; "attempts"; asg_AttemptID a; "cancelled"] (input_received Assignment_received).
  - out_post ["v1"; "attempts"; PathEscape (asg_AttemptID a); "capability-calls"; "reserve"]
      ["v1"; "attempts"; asg_AttemptID a; "capability-calls"; "reserve"] (@None string) (apply sent_Reserve; assumption).
  - empty_post ["v1"; "attempts"; PathEscape (asg_AttemptID a); "capability-calls"; PathEscape (rsv_CallID reservation); "finish"]
      ["v1"; "attempts"; asg_AttemptID a; "capability-calls"; rsv_CallID reservation; "finish"] (apply sent_Finish; assumption).
  - out_post ["v1"; "attempts"; PathEscape (asg_AttemptID a); "interactions"] ["v1"; "attempts"; asg_AttemptID a; "interactions"] (@None string) (apply sent_Interaction; assumption).
Qed.

(** ** The operations beside [Client.do] *)
Lemma sent_query r : rq_Query (authorize token r) = rq_Query r.
Proof. unfold authorize. by destruct (token =s ""). Qed.
Lemma sent_body r : rq_Body (authorize token r) = rq_Body r.
Proof. unfold authorize. by destruct (token =s ""). Qed.
Lemma sent_header r k : k ≠ "Authorization" → map_get (rq_Header (authorize token r)) k = map_get (rq_Header r) k.
Proof.
  intros Hk. unfold authorize. destruct (token =s ""); [done|]. unfold map_get. cbn.
  by rewrite lookup_insert_ne by done.
Qed.

(** What the client makes of a whole answer it reads without [do]. *)
Definition read_opaque {A} (c : Codec A) (response : HttpResponse) : Res A :=
  if negb (success response) then Err (opaque_error response)
  else res_bind (parse_all (limited (rs_Body response))) (Unmarshal c false).
Lemma read_respond {A} (c : Codec A) status (r : Res A) v :
  status ∈ [http_StatusOK; http_StatusCreated; http_StatusAccepted] →
  lawful c → answer_fits c r → (∀ a, got c a (init c) = v a) →
  match r with
  | Ok a => read_opaque c (respond c status r) = Ok (v a)
  | Err _ => ∃ e, read_opaque c (respond c status r) = Err e ∧ err_is e = []
  end.
Proof.
  intros Hst Hlaw Ha Hv. destruct r as [a|e]; unfold read_opaque; cbn [respond].
  - destruct Ha as [Hfit Hbody]. replace (success _) with true.
    + cbn [negb rs_Body writeJSON]. rewrite (fits_limited _ Hbody), parse_all_line. cbn [res_bind].
      by apply lawful_received, Hv.
    + repeat (apply elem_of_cons in Hst as [->|Hst]; [done|]). by apply elem_of_nil in Hst.
  - replace (success (writeError e)) with false; [by eexists|].
    unfold writeError, error_status. by repeat case_match.
Qed.

Definition unnamed {A} (f : A → A) (r r' : Res A) : Prop :=
  match r, r' with Ok a, Ok a' => a' = f a | Err _, Err e' => err_is e' = [] | _, _ => False end.
Lemma unnamed_same {A} (call : Call A) r r' :
  through_do call = false → unnamed (arrives call) r r' → same_answer call r r'.
Proof.
  intros Hdo. destruct r as [a|e], r' as [a'|e']; try done. intros He s _. unfold errors_Is. by rewrite He, Hdo.
Qed.

Lemma opaque_served {A} (c : Codec A) (f : A → A) r status (m : MX A) w (k : HttpResponse → MX A) :
  status ∈ [http_StatusOK; http_StatusCreated; http_StatusAccepted] →
  ServeHTTP server (authorize token r) w = answer m (respond c status) w →
  lawful c → (∀ a, got c a (init c) = f a) → answer_fits c (m w).1 →
  (∀ response w', rs_Broken response = None → k response w' = (read_opaque c response, w')) →
  let '(r', w') := (response ← Do (Transport := over_http) (authorize token r); k response) w in
  w' = (m w).2 ∧ unnamed f (m w).1 r'.
Proof.
  intros Hst Hd Hlaw Hf Ha Hk. unfold mbind, M_bind, Do, over_http, server_transport. rewrite Hd.
  unfold answer, try, mbind, M_bind. destruct (m w) as [r0 w1] eqn:Em. cbn [fst snd mret M_ret] in *. rewrite Hk by by destruct r0.
  pose proof (read_respond c status r0 f Hst Hlaw Ha Hf) as Hr. split; [done|].
  destruct r0 as [a|e]; [by rewrite Hr|]. by destruct Hr as (e' & -> & ?).
Qed.

Ltac reaching_any segs values :=
  erewrite (reach_any _ _ segs values _ _ (@None string));
  [ | lazymatch goal with Hc : credentials _ _ _ |- _ => exact Hc end
    | first [reflexivity | cbn [slashed rq_Path]; rewrite str_app_nil_r; reflexivity]
    | once (by repeat constructor) | plain_ids
    | lazymatch goal with Hm : may_call _ _ _ |- _ => exact Hm end
    | cbn [rq_Method]; rewrite ?attempts_prefix, ?nodes_prefix; reflexivity | reflexivity | by intros | route ].

Lemma beside_do {A} (call : Call A) w :
  may_call ctx true (node_named call) → through_do call = false → sendable call →
  answerable call (direct ctx (carried call) w).1 →
  let '(r', w') := remote call w in
  w' = (direct ctx (carried call) w).2 ∧ same_answer call (direct ctx (carried call) w).1 r'.
Proof.
  intros Hm Hdo Hs Ha.
  assert (Hfit : match output call with Some c => answer_fits c (direct ctx (carried call) w).1 | None => True end).
  { unfold answerable in Ha. destruct (output call); [|done].
    destruct (direct ctx (carried call) w) as [[a|e] w1]; [done|]. by destruct Ha. }
  destruct call; try discriminate Hdo; simpl in Hs, Hfit, Hm; destruct_and? Hs.
  - lazymatch goal with |- let '(_, _) := ?m w in _ => set (served := m w) end.
    enough (Ho : let '(r', w') := served in w' = (GetInteraction (bare a) id w).2 ∧ unnamed (λ a, a) (GetInteraction (bare a) id w).1 r').
    { destruct served as [r' w']. destruct Ho as [-> Ho]. split; [done|]. by apply unnamed_same. }
    apply (opaque_served wire_Interaction (λ a, a) _ http_StatusOK); [ok_status| |auto with wire|all_received|done|].
    + reaching_any ["v1"; "attempts"; PathEscape (asg_AttemptID a); "interactions"; PathEscape id]
        ["v1"; "attempts"; asg_AttemptID a; "interactions"; id].
      cbn [route_Handler]. unfold h_getInteraction, arg. cbn [nth].
      rewrite sent_query, sent_header by done. reflexivity.
    + intros response w' _. unfold read_opaque. by destruct (negb _).
  - lazymatch goal with |- let '(_, _) := ?m w in _ => set (served := m w) end.
    set (m := UploadArtifact (bare a) (bare_artifact artifact) (Ok content)) in *.
    enough (Ho : let '(r', w') := served in w' = (m w).2 ∧ unnamed sent_Artifact (m w).1 r').
    { destruct served as [r' w']. destruct Ho as [-> Ho]. split; [done|]. by apply unnamed_same. }
    apply (opaque_served wire_Artifact sent_Artifact _ http_StatusCreated); [ok_status| |auto with wire|all_received|done|].
    + reaching_any ["v1"; "attempts"; PathEscape (asg_AttemptID a); "artifacts"]
        ["v1"; "attempts"; asg_AttemptID a; "artifacts"].
      cbn [route_Handler]. unfold h_uploadArtifact, arg. cbn [nth]. rewrite sent_query, sent_body, !sent_header by done.
      cbn [rq_Query rq_Header rq_Body]. set (query := {[ "run_id" := _; "type" := _; "name" := _ ]} : gmap string string).
      assert (Hq : map_get query "run_id" = asg_RunID a ∧ map_get query "type" = art_Type artifact ∧
                   map_get query "name" = art_Name artifact).
      { unfold map_get, query. split_and!; by simplify_map_eq. }
      destruct Hq as (-> & -> & ->).
      set (header := if art_ContentType artifact =s "" then _ else _).
      assert (Hh : map_get header "X-Relay-Lease-Token" = asg_LeaseToken a ∧
                   map_get header "Content-Type" = art_ContentType artifact).
      { unfold header, map_get. case_bool_decide as Ht; split; simplify_map_eq; try done. }
      destruct Hh as (-> & ->). cbn [asg_RunID asg_LeaseToken art_Type].
      rewrite !bool_decide_eq_false_2 by done. cbn [orb]. rewrite (proj2 (Z.leb_le _ _)) by done. reflexivity.
    + intros response w' Hb. unfold read_opaque, read_body, mbind, M_bind. rewrite Hb. cbn. by destruct (negb _).
Qed.

Lemma error_over_Is {A} (call : Call A) e s :
  wire_error e → (errors_Is e ErrNoAssignment = true → ∀ s, s ∈ protocol → errors_Is e s = false) →
  s ∈ recognised call → errors_Is (error_over call e) s = errors_Is e s.
Proof.
  intros He Hno Hs.
  assert (Hplain : s ∈ protocol → errors_Is (remote_error e) s = errors_Is e s) by by apply remote_error_Is.
  destruct call; try by apply Hplain. cbn [recognised error_over] in *. apply elem_of_cons in Hs as [->|Hs].
  - destruct (errors_Is e ErrNoAssignment) eqn:En; [done|].
    apply not_true_iff_false. intros Hr. unfold errors_Is in Hr. apply bool_decide_eq_true in Hr.
    apply remote_error_protocol in Hr. exact (bool_decide_pack _ Hr).
  - destruct (errors_Is e ErrNoAssignment) eqn:En; [|by apply Hplain]. rewrite (Hno eq_refl s Hs), errors_Is_sentinel.
    apply bool_decide_eq_false. intros <-. exact (bool_decide_pack _ Hs).
Qed.

(** Over any storage whose errors the protocol can carry. *)
Lemma served_remotely {A} (call : Call A) w :
  may_call ctx (on_node call) (node_named call) → sendable call →
  answerable call (direct ctx (carried call) w).1 →
  let '(r, w1) := direct ctx (carried call) w in
  let '(r', w2) := remote call w in
  w2 = w1 ∧ same_answer call r r'.
Proof.
  intros Hm Hs Ha. destruct (through_do call) eqn:Hdo.
  - assert (Ho : remote call w = over_wire call (direct ctx (carried call)) w).
    { destruct (on_node call) eqn:Hn; [by apply node_calls|]. apply host_calls; [|done..].
      by destruct call. }
    rewrite Ho. unfold over_wire. destruct (direct ctx (carried call) w) as [[a|e] w1]; cbn [fst snd]; [done|].
    destruct Ha as (_ & He & Hno). split; [done|]. intros s Hrec. rewrite Hdo. by apply error_over_Is.
  - assert (Hn : on_node call = true) by by destruct call.
    rewrite Hn in Hm. pose proof (beside_do call w Hm Hdo Hs Ha) as Ho.
    destruct (remote call w) as [r' w2]. destruct (direct ctx (carried call) w) as [r w1]. naive_solver.
Qed.
End calls.
End http.
