(* ===== verification/HttpErrors.v ===== *)
(** * HttpErrors: the errors of the service, as the protocol needs them

    The client finds a sentinel again when the error of the server wraps at most
    one and begins with its text.  Every error of the service over the in-memory
    storage does. *)

From S2P Require Import Prelude GoStrings Json Types Codec Wire Matching Event Memory Service Url Http Stream Handler HttpClient HttpServed HttpProps.

Definition plain_error (e : Error) : Prop :=
  err_is e = [] ∨ ∃ s, err_is e = [s] ∧ HasPrefix (err_msg e) (sentinel_text s) = true.

Lemma plain_New msg : plain_error (errors_New msg).
Proof. by left. Qed.
Lemma plain_sentinel s : plain_error (sentinel s).
Proof.
  right. exists s. split; [done|]. unfold HasPrefix. cbn [sentinel err_msg].
  rewrite <- (str_app_nil_r (sentinel_text s)) at 2. apply prefix_app.
Qed.
Lemma plain_wrapf s msg : plain_error (wrapf s msg).
Proof. right. exists s. split; [done|]. unfold HasPrefix. cbn [wrapf err_msg]. apply prefix_app. Qed.

Lemma plain_wire e :
  plain_error e → wire_error e ∧ (errors_Is e ErrNoAssignment = true → ∀ s, s ∈ protocol → errors_Is e s = false).
Proof.
  intros [He|(s & He & Hp)]; unfold wire_error, errors_Is; rewrite He.
  - split; [intros s _ Hs|intros Hs]; apply bool_decide_eq_true in Hs; by apply elem_of_nil in Hs.
  - split.
    + intros s' Hin Hs. apply bool_decide_eq_true, list_elem_of_singleton in Hs as ->. split; [done|].
      intros s' _. apply bool_decide_ext. rewrite list_elem_of_singleton. done.
    + intros Hs. apply bool_decide_eq_true, list_elem_of_singleton in Hs as <-. intros s' Hin.
      apply bool_decide_eq_false. rewrite list_elem_of_singleton. intros ->. exact (bool_decide_pack _ Hin).
Qed.

(** Errors are plain. *)
Definition plainly {S A} (m : M S A) : Prop := ∀ w, match (m w).1 with Ok _ => True | Err e => plain_error e end.

Create HintDb plain.

Section plainly.
Context {S : Type}.
Lemma plainly_bind {A B} (m : M S A) (k : A → M S B) : plainly m → (∀ a, plainly (k a)) → plainly (m ≫= k).
Proof. intros Hm Hk w. unfold mbind, M_bind. specialize (Hm w). destruct (m w) as [[a|e] w1]; [apply Hk|exact Hm]. Qed.
Lemma plainly_ret {A} (a : A) : plainly (mret (M := M S) a).
Proof. done. Qed.
Lemma plainly_raise {A} e : plain_error e → plainly (raise (A := A) (S := S) e).
Proof. by intros He w. Qed.
Lemma plainly_gets {A} (f : S → A) : plainly (gets f).
Proof. done. Qed.
Lemma plainly_modify (f : S → S) : plainly (modify f).
Proof. done. Qed.
Lemma plainly_host {A} (f : nat → A) : plainly (S := S) (host f).
Proof. done. Qed.
Lemma plainly_try {A} (m : M S A) : plainly (try m).
Proof. intros w. unfold try. by destruct (m w). Qed.
Lemma plainly_lift {A} (r : Res A) : (∀ e, r = Err e → plain_error e) → plainly (S := S) (lift_res r).
Proof. intros Hr w. unfold lift_res. cbn. destruct r; [done|by apply Hr]. Qed.
Lemma plainly_for_each {A} (body : A → M S ()) xs : (∀ x, plainly (body x)) → plainly (for_each body xs).
Proof. intros Hb. induction xs as [|x xs IH]; [apply plainly_ret|]. by apply plainly_bind. Qed.
Lemma plainly_range_map `{Host} {V} (f : S → gmap string V) : plainly (range_map f).
Proof. by apply plainly_bind. Qed.
Lemma plainly_time `{Host} : plainly (S := S) time_now.
Proof. done. Qed.
End plainly.
#[export] Hint Resolve plainly_ret plainly_gets plainly_modify plainly_host plainly_try plainly_range_map plainly_time
  plain_New plain_sentinel plain_wrapf : plain.
#[export] Hint Resolve plainly_raise plainly_for_each : plain.

(** Through binds and branches. *)
Ltac plainly := intros;
  repeat first
    [ solve [eauto with plain]
    | apply plainly_bind; [|intros ?]
    | apply plainly_for_each; intros ?
    | match goal with |- plainly (match ?x with _ => _ end) => destruct x end
    | match goal with |- plainly (if ?x then _ else _) => destruct x end
    | match goal with |- plainly (let '(_, _) := ?x in _) => destruct x end ].

Section storage.
Context `{Host} `{Encoder} `{Semver}.

Lemma plainly_find_run id : plainly (find_run id).
Proof. done. Qed.
Lemma plainly_put_run r : plainly (put_run r).
Proof. done. Qed.
Lemma plainly_find_node id : plainly (find_node id).
Proof. done. Qed.
Lemma plainly_put_node id n : plainly (put_node id n).
Proof. done. Qed.
Lemma plainly_newID S p : plainly (S := S) (newControlPlaneID p).
Proof. unfold newControlPlaneID. plainly. Qed.
#[local] Hint Resolve plainly_find_run plainly_put_run plainly_find_node plainly_put_node plainly_newID : plain.
Lemma plainly_run_at id : plainly (run_at id).
Proof. unfold run_at. plainly. Qed.
Lemma plainly_appendEvent_as id r ty d now : plainly (appendEvent_as id r ty d now).
Proof. done. Qed.
#[local] Hint Resolve plainly_run_at plainly_appendEvent_as : plain.
Lemma plainly_appendEvent r ty v : plainly (appendEvent r ty v).
Proof. unfold appendEvent. plainly. Qed.
Lemma plainly_releaseNode id : plainly (releaseNode id).
Proof. unfold releaseNode. plainly. Qed.
#[local] Hint Resolve plainly_appendEvent plainly_releaseNode : plain.
Lemma plainly_requeueExpired r now : plainly (requeueExpired r now).
Proof. unfold requeueExpired. plainly. Qed.
Lemma plainly_finalize r now : plainly (finalizeCancellation r now).
Proof. unfold finalizeCancellation. plainly. Qed.
#[local] Hint Resolve plainly_requeueExpired plainly_finalize : plain.
Lemma plainly_cancelRunLocked r c now : plainly (cancelRunLocked r c now).
Proof. unfold cancelRunLocked. plainly. Qed.
Lemma plainly_authorize id a l : plainly (Memory.authorize id a l).
Proof. unfold Memory.authorize. plainly. Qed.
#[local] Hint Resolve plainly_cancelRunLocked plainly_authorize : plain.
Lemma plainly_assignment a : plainly (authorize_assignment a).
Proof. apply plainly_authorize. Qed.
#[local] Hint Resolve plainly_assignment : plain.

Lemma plainly_claim_sweep now id : plainly (claim_sweep now id).
Proof. unfold claim_sweep. plainly. Qed.
Lemma plainly_grant_lease n ttl now r q : plainly (grant_lease n ttl now r q).
Proof. unfold grant_lease. plainly. Qed.
#[local] Hint Resolve plainly_claim_sweep plainly_grant_lease : plain.
Lemma plainly_claim_scan n ttl now ids : plainly (claim_scan n ttl now ids).
Proof. induction ids as [|id ids IH]; cbn [claim_scan]; plainly. Qed.
#[local] Hint Resolve plainly_claim_scan : plain.
Lemma plainly_Claim n ttl : plainly (Memory.Claim n ttl).
Proof. unfold Memory.Claim. plainly. Qed.
Lemma plainly_lease_over r : plainly (lease_over r).
Proof. unfold lease_over. plainly. Qed.
Lemma plainly_conflict what : plain_error (conflict what).
Proof. apply plain_wrapf. Qed.
#[local] Hint Resolve plainly_lease_over plainly_conflict : plain.
Lemma plainly_marshal data e : marshal data = Err e → plain_error e.
Proof. destruct data; [done|done|]. intros [= <-]. apply plain_New. Qed.
Lemma plainly_SameEvent t d t' d' : plainly (S := MemoryStorage) (lift_res (SameEvent t d t' d')).
Proof.
  apply plainly_lift. intros e. unfold SameEvent. destruct (marshal d') eqn:Hm; [|intros [= <-]; by eapply plainly_marshal].
  destruct (_ || _); [|done]. intros [= <-]. apply plain_wrapf.
Qed.
#[local] Hint Resolve plainly_SameEvent : plain.
Lemma plainly_AppendEvent id att lease ty data ids : plainly (Memory.AppendEvent id att lease ty data ids).
Proof.
  unfold Memory.AppendEvent. destruct (marshal data) eqn:Hm; [plainly|]. apply plainly_marshal in Hm. plainly.
Qed.
Lemma plainly_RegisterNode_ (registration : NodeRegistration) : plainly (Memory.RegisterNode registration).
Proof. unfold Memory.RegisterNode. plainly. Qed.
Lemma plainly_Heartbeat n : plainly (Memory.Heartbeat n).
Proof. unfold Memory.Heartbeat. plainly. Qed.
Lemma plainly_Nodes : plainly (Memory.Nodes).
Proof. unfold Memory.Nodes. plainly. Qed.
Lemma plainly_Submit q : plainly (Memory.Submit q).
Proof. unfold Memory.Submit. plainly. Qed.
Lemma plainly_Renew a ttl : plainly (Memory.Renew a ttl).
Proof. unfold Memory.Renew. plainly. Qed.
Lemma plainly_Start a : plainly (Memory.Start a).
Proof. unfold Memory.Start. plainly. Qed.
Lemma plainly_Complete a r : plainly (Memory.Complete a r).
Proof. unfold Memory.Complete. plainly. Qed.
Lemma plainly_Fail a c : plainly (Memory.Fail a c).
Proof. unfold Memory.Fail. plainly. Qed.
Lemma plainly_CancelRun id c : plainly (Memory.CancelRun id c).
Proof. unfold Memory.CancelRun. plainly. Qed.
Lemma plainly_AcknowledgeCancellation a : plainly (Memory.AcknowledgeCancellation a).
Proof. unfold Memory.AcknowledgeCancellation. plainly. Qed.
Lemma plainly_GetRun id : plainly (Memory.GetRun id).
Proof. unfold Memory.GetRun. plainly. Qed.
Lemma plainly_EventsAfter id n : plainly (Memory.EventsAfter id n).
Proof. unfold Memory.EventsAfter. plainly. Qed.
Lemma plainly_AddArtifact a art : plainly (Memory.AddArtifact a art).
Proof. unfold Memory.AddArtifact. plainly. Qed.
Lemma plainly_Artifacts id : plainly (Memory.Artifacts id).
Proof. unfold Memory.Artifacts. plainly. Qed.
Lemma plainly_Artifact id : plainly (Memory.Artifact_ id).
Proof. unfold Memory.Artifact_. plainly. Qed.
Lemma plainly_ReserveCapability a k h q : plainly (Memory.ReserveCapability a k h q).
Proof. unfold Memory.ReserveCapability. plainly. Qed.
Lemma plainly_FinishCapability a r res c : plainly (Memory.FinishCapability a r res c).
Proof. unfold Memory.FinishCapability. plainly. Qed.
Lemma plainly_ListRuns t p s l : plainly (Memory.ListRuns t p s l).
Proof. unfold Memory.ListRuns. plainly. Qed.
Lemma plainly_Attempts id : plainly (Memory.Attempts id).
Proof. unfold Memory.Attempts. plainly. Qed.
Lemma plainly_CreateInteraction a q : plainly (Memory.CreateInteraction a q).
Proof. unfold Memory.CreateInteraction. plainly. Qed.
Lemma plainly_GetInteraction a id : plainly (Memory.GetInteraction a id).
Proof. unfold Memory.GetInteraction. plainly. Qed.
Lemma plainly_Interactions id : plainly (Memory.Interactions id).
Proof. unfold Memory.Interactions. plainly. Qed.
Lemma plainly_ResolveInteraction id r t p : plainly (Memory.ResolveInteraction id r t p).
Proof. unfold Memory.ResolveInteraction. plainly. Qed.
End storage.

#[export] Hint Resolve plainly_Claim plainly_AppendEvent plainly_RegisterNode_ plainly_Heartbeat plainly_Nodes plainly_Submit plainly_Renew plainly_Start plainly_Complete plainly_Fail plainly_CancelRun plainly_AcknowledgeCancellation plainly_GetRun plainly_EventsAfter plainly_AddArtifact plainly_Artifacts plainly_Artifact plainly_ReserveCapability plainly_FinishCapability plainly_ListRuns plainly_Attempts plainly_CreateInteraction plainly_GetInteraction plainly_Interactions plainly_ResolveInteraction : plain.

(** ** The service *)
Section service.
Context `{HostLaws} `{TimeParser} `{Encoder} `{Semver}.
Abbreviation Svc := (ServiceState MemoryStorage MemoryBlobStore.State).

Lemma plainly_on_storage {A} (m : M MemoryStorage A) : plainly m → plainly (S := Svc) (on_storage m).
Proof. intros Hm w. unfold on_storage. specialize (Hm (mkWorld (w_tick w) (sv_storage (w_st w)))). by destruct (m _). Qed.
Lemma plainly_on_blobs {A} (m : M MemoryBlobStore.State A) : plainly m → plainly (S := Svc) (on_blobs m).
Proof. intros Hm w. unfold on_blobs. specialize (Hm (mkWorld (w_tick w) (sv_blobs (w_st w)))). by destruct (m _). Qed.
Ltac stored := apply plainly_on_storage; first
  [ exact (plainly_Claim _ _) | exact (plainly_AppendEvent _ _ _ _ _ _) | exact (plainly_RegisterNode_ _) | exact
    (plainly_Heartbeat _) | exact (plainly_Nodes) | exact (plainly_Submit _) | exact (plainly_Renew _ _) | exact
    (plainly_Start _) | exact (plainly_Complete _ _) | exact (plainly_Fail _ _) | exact (plainly_CancelRun _ _) |
    exact (plainly_AcknowledgeCancellation _) | exact (plainly_GetRun _) | exact (plainly_EventsAfter _ _) | exact
    (plainly_AddArtifact _ _) | exact (plainly_Artifacts _) | exact (plainly_Artifact _) | exact
    (plainly_ReserveCapability _ _ _ _) | exact (plainly_FinishCapability _ _ _ _) | exact (plainly_ListRuns _ _ _
    _) | exact (plainly_Attempts _) | exact (plainly_CreateInteraction _ _) | exact (plainly_GetInteraction _ _) |
    exact (plainly_Interactions _) | exact (plainly_ResolveInteraction _ _ _ _) ].

Lemma plainly_try_bind {A B} (m : M Svc A) (k : Res A → M Svc B) :
  plainly m → (∀ a, plainly (k (Ok a))) → (∀ e, plain_error e → plainly (k (Err e))) → plainly (try m ≫= k).
Proof.
  intros Hm Ha He w. unfold mbind, M_bind, try. specialize (Hm w).
  destruct (m w) as [[a|e] w1]; [apply Ha|by apply He].
Qed.
Lemma plainly_scope ctx r : plainly (S := Svc) (lift_res (authorizeRunScope ctx r)).
Proof.
  apply plainly_lift. intros e. unfold authorizeRunScope. repeat case_match; try done; intros [= <-]; apply plain_sentinel.
Qed.
#[local] Hint Resolve plainly_scope : plain.
Lemma plainly_visible ctx id : plainly (S := Svc) (GetRun ctx id).
Proof. unfold GetRun. apply plainly_bind; [stored|]. plainly. Qed.
Lemma plainly_upload a art content : plainly (S := Svc) (UploadArtifact a art (Ok content)).
Proof.
  unfold UploadArtifact. apply plainly_bind; [by apply plainly_newID|]. intros id.
  apply plainly_bind; [by apply plainly_on_blobs|]. intros size.
  apply plainly_try_bind; [stored|plainly|]. intros e He. apply plainly_bind; [apply plainly_try|]. intros _.
  by apply plainly_raise.
Qed.

(** Every operation a host or a node asks for. *)
Lemma plainly_direct server ctx {A} (call : Call A) : plainly (direct (S := MemoryStorage) (B := MemoryBlobStore.State) server ctx call).
Proof.
  destruct call; cbn [direct]; try (by stored); try (by apply plainly_upload); try apply plainly_visible;
    try (apply plainly_bind; [apply plainly_visible|intros ?]; by stored).
  - unfold Submit. cbv zeta. repeat case_match; try (apply plainly_raise, plain_New); stored.
  - unfold CancelRun. apply plainly_bind; [stored|]. intros r. apply plainly_bind; [apply plainly_scope|]. intros _. stored.
  - unfold Nodes. apply plainly_bind; [stored|]. plainly.
  - unfold RegisterNode. repeat case_match; try (apply plainly_raise; auto with plain); stored.
  - unfold CreateInteraction. case_match; [apply plainly_raise, plain_New|stored].
Qed.
End service.

(** ** The control plane over HTTP *)
Section transparent.
Context `{HostLaws} `{TimeParser} `{!TimeLaws} `{Encoder} `{Semver} `{JsonParser} `{!ParserLaws} `{Waiting}
  `{Peers (ServiceState MemoryStorage MemoryBlobStore.State)} (server : Server) (token : string).

(** The answer fits into a body. *)
Definition answer_small {A} (call : Call A) (r : Res A) : Prop :=
  match r with
  | Ok a => match output call with Some c => answer_fits c (Ok a) | None => True end
  | Err e => error_fits e
  end.

(** C5: an operation made through the HTTP client, on a server that admits its
    token, does to the service exactly what the same operation does when it is
    made directly under the scope of the token, and returns the same answer: the
    value without the fields the protocol leaves out, or an error in which the
    caller finds the same sentinels of the protocol (none, for the two operations
    that read the answer themselves).  The names in the path are neither empty
    nor dots, and the messages fit into a body. *)
Theorem http_transparent ctx {A} (call : Call A) (w : World (ServiceState MemoryStorage MemoryBlobStore.State)) :
  credentials (srv_Auth server) token ctx → may_call ctx (on_node call) (node_named call) → sendable call →
  answer_small call (direct server ctx (carried call) w).1 →
  let '(r, w1) := direct server ctx (carried call) w in
  let '(r', w2) := remote server token call w in
  w2 = w1 ∧ same_answer call r r'.
Proof.
  intros Hc Hm Hs Ha. apply served_remotely; [done..|]. pose proof (plainly_direct server ctx (carried call) w) as Hp.
  destruct (direct server ctx (carried call) w) as [[a|e] w1]; [exact Ha|]. by destruct (plain_wire e Hp).
Qed.
End transparent.
