(* ===== verification/HttpAccess.v ===== *)
(** * HttpAccess: who reaches the service over HTTP

    The authentication decides on the unescaped path, the multiplexer on the
    unescaped segments.  The two agree on every route: a request either gets an
    answer that does not touch the service, or its handler runs under the scope
    of a token of the right kind. *)

From S2P Require Import Prelude GoStrings Json Types Codec Wire Url Matching Event Memory Service Http Stream Handler.

(** ** A path and its segments *)
(** A path is its segments, each after a slash. *)
Lemma path_slashed r :
  HasPrefix (rq_Path r) "/" = true → rq_Path r = slashed (raw_segments r) ∧ Forall slash_free (raw_segments r).
Proof.
  unfold raw_segments, HasPrefix. intros Hp. apply prefix_spec in Hp as [s Hs]. rewrite Hs. clear Hs.
  destruct (split_spec ("/" +:+ s) "") as (x & l & Hsplit & He & Hx & Hl); [done|].
  unfold Split. rewrite Hsplit. cbn [tail]. split; [|done]. destruct x as [|c x]; [exact He|exfalso].
  simpl in He. injection He as <- _. discriminate Hx.
Qed.

Lemma unescape_app s t p :
  t = "" ∨ HasPrefix t "/" = true → PathUnescape (s +:+ t) = Some p →
  ∃ a b, PathUnescape s = Some a ∧ PathUnescape t = Some b ∧ p = a +:+ b.
Proof.
  intros Ht. remember (String.length s) as n eqn:Hn. revert s p Hn.
  induction (lt_wf n) as [n _ IH]. intros s p ->.
  destruct s as [|c s]; [intros Hp; by exists "", p|]. rewrite str_cons_app. simpl.
  case_bool_decide as Hc.
  - assert (Hslash : ∀ x rest, t = String x rest → unhex x = None).
    { intros x rest ->. destruct Ht as [?|Hx]; [done|]. unfold HasPrefix in Hx.
      apply prefix_spec in Hx as [? [= -> _]]. reflexivity. }
    destruct s as [|x [|y s]]; rewrite ?str_cons_app, ?str_nil_app.
    + destruct t as [|x [|y t]]; [done|done|]. by rewrite (Hslash x (String y t)).
    + destruct t as [|y t]; [done|]. rewrite (Hslash y t) by done. by destruct (unhex x).
    + destruct (unhex x) as [n|]; [|done]. destruct (unhex y) as [m|]; [|done]. simpl.
      destruct (PathUnescape (s +:+ t)) as [q|] eqn:Hq; [|done]. intros [= <-].
      destruct (IH (String.length s) ltac:(simpl; lia) s q eq_refl Hq) as (a & b & -> & -> & ->).
      simpl. eauto.
  - destruct (PathUnescape (s +:+ t)) as [q|] eqn:Hq; [|done]. intros [= <-].
    destruct (IH (String.length s) ltac:(simpl; lia) s q eq_refl Hq) as (a & b & -> & -> & ->).
      simpl. eauto.
Qed.

Lemma unescape_slashed segs p :
  PathUnescape (slashed segs) = Some p → p = slashed (map (λ s, default s (PathUnescape s)) segs).
Proof.
  revert p. induction segs as [|s segs IH]; intros p; [by intros [= <-]|]. cbn [slashed map].
  rewrite unescape_cons by done. destruct (PathUnescape (s +:+ slashed segs)) as [q|] eqn:Hq; [|done].
  intros [= <-]. apply unescape_app in Hq as (a & b & -> & Hb & ->).
  - by rewrite <- (IH _ Hb).
  - destruct segs; [by left|right]. apply (prefix_app "/").
Qed.
Lemma url_segments r p :
  HasPrefix (rq_Path r) "/" = true → PathUnescape (rq_Path r) = Some p →
  url_path r = slashed (segments r).
Proof.
  intros Hr Hp. unfold url_path. rewrite Hp. destruct (path_slashed r Hr) as [Hs _]. rewrite Hs in Hp.
  cbn [default from_option id]. by apply unescape_slashed.
Qed.

(** The third part of a node path is the node's name, or its text before a slash. *)
Lemma third_part a b c d l :
  slash_free a → slash_free b →
  let third := nth 3 (Split (slashed (a :: b :: c :: d :: l)) slash_byte) "" in
  c = third ∨ HasPrefix c (third +:+ "/") = true.
Proof.
  intros Ha Hb. cbn [slashed]. unfold Split.
  assert (Hs : ∀ s, split_byte slash_byte (String slash_byte s) "" = "" :: split_byte slash_byte s "").
  { intros s. exact (split_segment slash_byte "" s "" eq_refl). }
  rewrite Hs, (split_segment slash_byte a), (split_segment slash_byte b) by done. cbn [nth].
  cbn [nth]. destruct (split_spec c "") as (x & rest & _ & He & Hx & _); [done|].
  change (str_rev "" +:+ c) with c in He. subst c. destruct rest as [|y rest]; cbn [slashed].
  - left. by rewrite str_app_nil_r, (split_segment slash_byte x).
  - right. rewrite str_app_assoc, str_cons_app, (split_segment slash_byte x) by done. cbn [nth].
    rewrite str_nil_app. unfold HasPrefix.
    replace (x +:+ String slash_byte (y +:+ slashed rest)) with ((x +:+ "/") +:+ y +:+ slashed rest)
      by apply str_app_assoc.
    apply prefix_app.
Qed.

Lemma split_length segs t cur : length segs < length (split_byte slash_byte (t +:+ slashed segs) cur).
Proof.
  revert t cur. induction segs as [|s segs IH]; intros t; induction t as [|c t IHt]; intros cur;
    rewrite ?str_nil_app, ?str_cons_app; cbn [slashed split_byte].
  - simpl. lia.
  - case_bool_decide; [simpl; lia|apply IHt].
  - rewrite bool_decide_eq_true_2 by done. simpl. pose proof (IH s ""). lia.
  - case_bool_decide; [|apply IHt]. simpl. specialize (IHt ""). simpl in IHt. lia.
Qed.

(** ** Routes *)
Section access.
Context `{Host} `{TimeParser} `{Encoder} `{JsonParser} `{Waiting} {S B : Type} `{Storage S} `{BlobStore B}
  `{Peers (ServiceState S B)} (server : Server).
Abbreviation MX := (M (ServiceState S B)).

Lemma find_route_inv (l : list Route) method path handler :
  find_route l method path = Some handler →
  ∃ route args, route ∈ l ∧ match_path (route_Pattern route) path = Some args ∧
    method_matches (route_Method route) method = true ∧ handler = (route_Handler route args : Ctx → HttpRequest → MX HttpResponse).
Proof.
  induction l as [|route l IH]; [done|]. simpl. destruct (match_path _ path) as [args|] eqn:Hp.
  - destruct (method_matches _ method) eqn:Hm.
    + intros [= <-]. exists route, args. split_and!; [by left|done..].
    + intros Hf. destruct (IH Hf) as (route' & args' & ? & ?). exists route', args'. split; [by right|done].
  - intros Hf. destruct (IH Hf) as (route' & args' & ? & ?). exists route', args'. split; [by right|done].
Qed.

(** The routes of nodes: what follows an attempt, and what is sent to a node. *)
Definition of_nodes (method : string) (segs : list string) : bool :=
  (nth 0 segs "" =s "v1") && ((nth 1 segs "" =s "attempts") || (method =s "POST") && (nth 1 segs "" =s "nodes")).
Definition public (segs : list string) : bool :=
  (nth 0 segs "" =s "health") || (nth 0 segs "" =s "version") || (nth 0 segs "" =s "console") ||
  (nth 0 segs "" =s "v1") && (nth 1 segs "" =s "console").

(** What a pattern says of a path. *)
Lemma match_lit x ps path args :
  match_path (Lit x :: ps) path = Some args → ∃ path', path = x :: path' ∧ match_path ps path' = Some args.
Proof. destruct path as [|y path]; simpl; [done|]. case_bool_decide; [subst; eauto|done]. Qed.
Lemma match_var ps path args :
  match_path (Var :: ps) path = Some args →
  ∃ x path' args', path = x :: path' ∧ args = x :: args' ∧ match_path ps path' = Some args'.
Proof.
  destruct path as [|y path]; simpl; [done|]. case_bool_decide; [done|].
  destruct (match_path ps path) as [args'|] eqn:E; [|done]. intros [= <-]. eauto 6.
Qed.
Lemma match_nil path args : match_path [] path = Some args → path = [] ∧ args = [].
Proof. destruct path; [by intros [= <-]|done]. Qed.

Ltac path_of Hp :=
  cbn [route_Pattern] in Hp;
  repeat first
    [ apply match_lit in Hp as (? & -> & Hp) | apply match_var in Hp as (? & ? & ? & -> & -> & Hp)
    | apply match_nil in Hp as [-> ->] ].

(** A request without an effect: its answer does not depend on the service. *)
Definition inert (r : HttpRequest) : Prop :=
  ∃ response : HttpResponse, ∀ w, ServeHTTP server r w = (Ok response, w).

(** On the paths that name a route, the authentication reads the path as the
    multiplexer does. *)
Lemma routes_agree method segs (handler : Ctx → HttpRequest → MX HttpResponse) :
  find_route (routes server) method segs = Some handler →
  public_path (slashed segs) = public segs ∧
  (public segs = false →
   HasPrefix (slashed segs) "/v1/attempts/" || (method =s "POST") && HasPrefix (slashed segs) "/v1/nodes/" =
   of_nodes method segs).
Proof.
  intros Hf. apply find_route_inv in Hf as (route & args & Hin & Hp & Hm & _). unfold routes in Hin.
  repeat (apply elem_of_cons in Hin as [->|Hin]; [path_of Hp|]); [..|by apply elem_of_nil in Hin].
  all: split; [try reflexivity|intros Hpub; try discriminate Hpub; rewrite ?attempts_prefix, ?nodes_prefix; try reflexivity].
  - destruct x as [|y x]; [discriminate Hp|]. unfold public_path.
    replace (HasPrefix _ _) with true by (symmetry; apply (prefix_app "/console/" (y +:+ slashed x))).
    by rewrite !orb_true_r.
  - destruct (method_cases _ _ Hm) as [->|[_ ->]]; reflexivity.
Qed.

(** The routes anyone may use answer alone. *)
Lemma public_inert method segs (handler : Ctx → HttpRequest → MX HttpResponse) ctx r :
  find_route (routes server) method segs = Some handler → public segs = true →
  ∃ response : HttpResponse, ∀ w, handler ctx r w = (Ok response, w).
Proof.
  intros Hf. apply find_route_inv in Hf as (route & args & Hin & Hp & _ & ->). unfold routes in Hin.
  repeat (apply elem_of_cons in Hin as [->|Hin]; [path_of Hp; intros Hpub; try discriminate Hpub|]);
    [..|by apply elem_of_nil in Hin]; cbn [route_Handler]; try by eexists.
  unfold consoleSession, decode. repeat case_match; by eexists.
Qed.

(** The node a request speaks for: the one its path names, or the one it registers. *)
Definition acts_for (r : HttpRequest) (id : string) : Prop :=
  rq_Method r = "POST" ∧
  ((∃ op, segments r = ["v1"; "nodes"; id; op]) ∨
   segments r = ["v1"; "nodes"; "register"] ∧
   ∃ registration, res_bind (parse_first (limited (rq_Body r))) (Unmarshal wire_NodeRegistration true) = Ok registration ∧
     reg_ID registration = id).

(** The authentication compares the third part of the unescaped path, so a slash
    in the name ends the comparison, and the name register is taken for the route. *)
Definition answers_to (subject id : string) : Prop :=
  id = subject ∨ HasPrefix id (subject +:+ "/") = true ∨ id = "register" ∨ HasPrefix id "register/" = true.

Lemma identity_checked third subject id :
  id = third ∨ HasPrefix id (third +:+ "/") = true →
  negb (third =s "register") && negb (subject =s "") && negb (third =s subject) = false →
  subject = "" ∨ answers_to subject id.
Proof.
  unfold answers_to. intros Hid Hc. rewrite !andb_false_iff, !negb_false_iff, !bool_decide_eq_true in Hc.
  destruct Hc as [[->| ->]| ->]; naive_solver.
Qed.

(** The admission of a token, read off the checks. *)
Lemma admission auth r scope :
  auth (presented r) = Some scope → public_path (url_path r) = false → presented r ≠ "" →
  (∃ status message, authenticate (Some auth) r = Refused status message) ∨
  authenticate (Some auth) r = Admitted_ (Some scope) ∧
  sc_Kind scope = (if node_route r then AccessNode else AccessHost) ∧
  (sc_Kind scope = AccessNode → HasPrefix (url_path r) "/v1/nodes/" = true →
   let parts := Split (url_path r) slash_byte in
   (3 < length parts)%nat →
   negb (nth 3 parts "" =s "register") && negb (sc_Subject scope =s "") && negb (nth 3 parts "" =s sc_Subject scope) =
   false).
Proof.
  intros Hauth Hpub Hne. unfold authenticate. rewrite Hpub, Hauth, bool_decide_eq_false_2 by done.
  destruct (node_route r); cbn [negb andb].
  - destruct (decide (sc_Kind scope = AccessNode)) as [Hk|]; [|rewrite bool_decide_eq_false_2 by done; left; eauto].
    rewrite bool_decide_eq_true_2 by done. cbn [negb andb].
    destruct (HasPrefix (url_path r) "/v1/nodes/"); [|right; split_and!; [done..|by intros]].
    destruct (_ && negb (sc_Subject scope =s "") && _) eqn:E; [left; eauto|right]. split_and!; [done..|].
    intros _ _ Hlen. apply Nat.ltb_lt in Hlen. by rewrite Hlen in E.
  - destruct (decide (sc_Kind scope = AccessHost)) as [Hk|]; [|rewrite bool_decide_eq_false_2 by done; left; eauto].
    rewrite bool_decide_eq_true_2 by done. rewrite (bool_decide_eq_false_2 (sc_Kind scope = AccessNode)) by congruence.
    right. split_and!; [done..|congruence].
Qed.

(** What the admission says of the request, by its segments. *)
Lemma identity_of_segments r scope :
  url_path r = slashed (segments r) →
  (HasPrefix (url_path r) "/v1/nodes/" = true →
   let parts := Split (url_path r) slash_byte in
   (3 < length parts)%nat →
   negb (nth 3 parts "" =s "register") && negb (sc_Subject scope =s "") && negb (nth 3 parts "" =s sc_Subject scope) =
   false) →
  ∀ id op, segments r = ["v1"; "nodes"; id; op] → sc_Subject scope = "" ∨ answers_to (sc_Subject scope) id.
Proof.
  intros Hu Hc id op Hseg. rewrite Hu, Hseg in Hc. specialize (Hc (nodes_prefix _ _)). cbn zeta in Hc.
  eapply identity_checked; [apply (third_part "v1" "nodes" id op []); done|]. apply Hc.
  pose proof (split_length ["v1"; "nodes"; id; op] "" "") as Hl. rewrite str_nil_app in Hl. simpl in *. lia.
Qed.

Lemma register_route : find_route (routes server) "POST" ["v1"; "nodes"; "register"] = Some h_register.
Proof. reflexivity. Qed.

(** A registration under another name is refused before the service sees it. *)
Lemma registration_identity r scope :
  sc_Kind scope = AccessNode →
  (∃ response : HttpResponse, ∀ w, (h_register (Some scope) r : MX HttpResponse) w = (Ok response, w)) ∨
  ∀ registration,
    res_bind (parse_first (limited (rq_Body r))) (Unmarshal wire_NodeRegistration true) = Ok registration →
    sc_Subject scope = "" ∨ sc_Subject scope = reg_ID registration.
Proof.
  intros Hk. unfold h_register, decode.
  destruct (res_bind _ _) as [registration|e]; [|left; by eexists]. rewrite bool_decide_eq_true_2 by done.
  cbn [andb]. destruct (decide (sc_Subject scope = "")); [right; by left|].
  destruct (decide (sc_Subject scope = reg_ID registration)); [right; intros ? [= <-]; by right|].
  left. rewrite !bool_decide_eq_false_2 by done. by eexists.
Qed.

(** C12: with authentication, a request either gets an answer that neither
    depends on the service nor changes it, or it presents a valid token and its
    handler runs under the scope of that token: a node's token on the routes of
    nodes, a host's on the others.  A token with a subject speaks only for the
    node of that name; the comparison stops at a slash in the name of the path,
    and lets a node called register pass. *)
Theorem access_control r auth :
  srv_Auth server = Some auth → HasPrefix (rq_Path r) "/" = true →
  inert r ∨
  ∃ scope (handler : Ctx → HttpRequest → MX HttpResponse),
    presented r ≠ "" ∧ auth (presented r) = Some scope ∧
    sc_Kind scope = (if of_nodes (rq_Method r) (segments r) then AccessNode else AccessHost) ∧
    (∀ id, acts_for r id → sc_Subject scope = "" ∨ answers_to (sc_Subject scope) id) ∧
    find_route (routes server) (rq_Method r) (segments r) = Some handler ∧
    ∀ w, ServeHTTP server r w = handler (Some scope) r w.
Proof.
  intros Hs Hr. unfold inert, ServeHTTP. rewrite Hs.
  destruct (PathUnescape (rq_Path r)) as [p|] eqn:Hp; [|left; by eexists].
  pose proof (url_segments r p Hr Hp) as Hu.
  destruct (authenticate (Some auth) r) as [ctx|status message] eqn:Ha; [|left; by eexists].
  unfold dispatch. destruct (negb (clean_path r)); [left; by eexists|].
  destruct (find_route _ _ _) as [handler|] eqn:Hf; [|left; by eexists].
  destruct (routes_agree _ _ _ Hf) as [Hpub Hnode]. rewrite <- Hu in Hpub, Hnode.
  destruct (public (segments r)) eqn:Hpublic.
  { left. by eapply public_inert. }
  specialize (Hnode eq_refl). fold (node_route r) in Hnode.
  assert (Hpres : presented r ≠ "" ∧ ∃ scope, auth (presented r) = Some scope).
  { unfold authenticate in Ha. rewrite Hpub in Ha. case_bool_decide; [done|].
    destruct (auth (presented r)); [eauto|done]. }
  destruct Hpres as [Hne [scope Hscope]].
  destruct (admission auth r scope Hscope Hpub Hne) as [(? & ? & ?)|(Ha' & Hkind & Hid)]; [congruence|].
  assert (ctx = Some scope) as -> by congruence. rewrite Hnode in Hkind.
  destruct (decide (rq_Method r = "POST" ∧ segments r = ["v1"; "nodes"; "register"])) as [[Hm Hseg]|Hno].
  - rewrite Hm, Hseg in Hkind. assert (handler = h_register) as ->.
    { rewrite Hm, Hseg in Hf. pose proof register_route. congruence. }
    destruct (registration_identity r scope Hkind) as [?|Hreg]; [by left|right].
    exists scope, h_register. rewrite Hm, Hseg. split_and!; try done.
    intros id [_ [[op Hop]|(_ & registration & Hdec & <-)]]; [congruence|].
    destruct (Hreg _ Hdec) as [?| ->]; [by left|right; by left].
  - right. exists scope, handler. split_and!; try done. intros id [Hm [[op Hop]|[Hop _]]]; [|exfalso; apply Hno; split; assumption].
    eapply identity_of_segments; [exact Hu| |exact Hop]. apply Hid. by rewrite Hkind, Hm, Hop.
Qed.
End access.
