(* ===== verification/HttpStream.v ===== *)
(** * HttpStream: what a reader of an event stream gets

    The text a stream writes is a row of [Chunk]s, the frames of consecutive
    events of the log among comments that keep the connection open, however
    others use the service meanwhile.  A reader who receives any prefix of it
    hands on the events whose frames arrived whole. *)

From S2P Require Import Prelude GoStrings Json Types Codec Wire WireProps Matching Event Lifecycle Memory MemoryEffect MemoryInv MemoryOps MemoryRuns MemoryRecover MemorySystem MemoryCalls Service ServiceProps Url Http Stream Handler HttpClient HttpServed HttpProps.

Inductive Chunk := Sent (e : Event) | Alive.
Definition sent (chunks : list Chunk) : list Event :=
  omap (λ c, match c with Sent e => Some e | Alive => None end) chunks.

Section text.
Context `{Host} `{TimeParser} `{Encoder}.
Definition chunk_text (c : Chunk) : string := match c with Sent e => frame e | Alive => keepalive end.
Fixpoint text (chunks : list Chunk) : string :=
  match chunks with [] => "" | c :: chunks => chunk_text c +:+ text chunks end.
Lemma text_app a b : text (a ++ b) = text a +:+ text b.
Proof. induction a as [|c a IH]; simpl; [done|]. by rewrite IH, str_app_assoc. Qed.
Lemma text_snoc a c : text (a ++ [c]) = text a +:+ chunk_text c.
Proof. rewrite text_app. simpl. by rewrite str_app_nil_r. Qed.
End text.
Lemma sent_app a b : sent (a ++ b) = sent a ++ sent b.
Proof. unfold sent. by rewrite omap_app. Qed.

(** ** The server *)
Section server.
Context `{HostLaws} `{TimeParser} `{Encoder} `{Semver} `{Waiting} `{Peers Svc}.

Definition log (w : World Svc) (id : string) : list Event := map_get (ms_events (sv_storage (w_st w))) id.
(** Others call the storage, in any order. *)
Definition orderly : Prop :=
  ∀ n w, ∃ ops, ops_ok ops ∧ storage_of (peers_at n w).2 = play ops (storage_of w).
Definition visible (ctx : Ctx) (id : string) (w : World Svc) : Prop :=
  inv (storage_of w) ∧ ∃ r, ms_runs (sv_storage (w_st w)) !! id = Some r ∧ in_caller_scope ctx r.
(** Later, whatever others did. *)
Definition later (w w' : World Svc) : Prop := inv (storage_of w') ∧ evolves (storage_of w) (storage_of w').

Lemma later_refl w : inv (storage_of w) → later w w.
Proof. intros Hi. split; [done|apply evolves_refl]. Qed.
Lemma later_trans w1 w2 w3 : later w1 w2 → later w2 w3 → later w1 w3.
Proof. intros [_ E1] [I2 E2]. split; [done|]. by eapply evolves_trans. Qed.
Lemma later_tick w k : inv (storage_of w) → later w (mkWorld (w_tick w + k) (w_st w)).
Proof. intros Hi. by destruct (stays_tick (storage_of w) k Hi) as (? & ? & _). Qed.
Lemma later_visible ctx id w w' : visible ctx id w → later w w' → visible ctx id w'.
Proof.
  intros [Hi (r & Hr & Hs)] [Hi' He]. split; [done|]. destruct (evo_runs _ _ He id r Hr) as (r' & Hr' & Hc).
  exists r'. split; [exact Hr'|]. pose proof (rc_identity _ _ _ _ Hc) as Hid. unfold identity in Hid.
  unfold in_caller_scope in *. destruct ctx; [|done]. by injection Hid as _ -> -> _ _ _ _ _ _ _.
Qed.
Lemma later_log w w' id : later w w' → log w id `prefix_of` log w' id.
Proof. intros [_ He]. apply (evo_events _ _ He). Qed.
Lemma later_terminal w w' id r :
  later w w' → ms_runs (sv_storage (w_st w)) !! id = Some r → terminal_phase (run_phase r) = true →
  ms_runs (sv_storage (w_st w')) !! id = Some r.
Proof.
  intros [_ He] Hr Ht. destruct (evo_runs _ _ He id r Hr) as (r' & Hr' & Hc).
  by rewrite (rc_terminal _ _ _ _ Hc Ht) in Hr'.
Qed.

Lemma visible_GetRun ctx id w :
  visible ctx id w → ∃ r, GetRun ctx id w = (Ok r, w) ∧ ms_runs (sv_storage (w_st w)) !! id = Some r.
Proof.
  intros [_ (r & Hr & Hs)]. exists r. split; [|done].
  unfold GetRun, lift_res, mbind, M_bind. rewrite on_storage_GetRun, Hr.
  by destruct (authorizeRunScope_spec ctx r) as [[_ ->]|[Hn _]].
Qed.
Lemma visible_EventsAfter ctx id n w :
  visible ctx id w → EventsAfter ctx id n w = (Ok (drop (Z.to_nat n) (log w id)), w).
Proof.
  intros Hv. destruct (visible_GetRun ctx id w Hv) as (r & Hg & Hr).
  unfold EventsAfter, mbind at 1, M_bind at 1. rewrite Hg. unfold on_storage.
  pose proof (read_log (storage_of w) id r n (proj1 Hv) Hr) as Hl.
  transitivity (let '(r0, w') := Memory.EventsAfter id n (storage_of w) in
    (r0, mkWorld (w_tick w') (mkService (w_st w') (sv_blobs (w_st w))))); [reflexivity|].
  rewrite Hl. by destruct w as [t [s b]].
Qed.

Lemma serve_spec (Ho : orderly) {A} (m : M Svc A) w :
  inv (storage_of w) → ∃ w1, serve m w = (Ok (m w1).1, (m w1).2) ∧ later w w1.
Proof.
  intros Hi. set (w0 := mkWorld (w_tick w + 1) (w_st w)).
  exists (peers_at (w_tick w) w0).2. split.
  - unfold serve, host, try, mbind, M_bind. unfold id. change (mkWorld _ _) with w0.
    destruct (peers_at (w_tick w) w0) as [? w1]. cbn [snd]. by destruct (m w1).
  - pose proof (later_tick w 1 Hi) as Ht. eapply later_trans; [exact Ht|]. fold w0.
    destruct (Ho (w_tick w) w0) as (ops & Hops & He). unfold later. rewrite He. apply play_inv; [done|apply Ht].
Qed.

(** What the stream has written, [es], follows the cursor [after] in the log. *)
Definition written (w : World Svc) (id : string) (after : Z) (s : Stream) (es : list Event) : Prop :=
  (∃ chunks, sm_written s = text chunks ∧ sent chunks = es) ∧
  es `prefix_of` drop (Z.to_nat after) (log w id) ∧ sm_after s = (after + Z.of_nat (length es))%Z.

Lemma written_later w w' id after s es : later w w' → written w id after s es → written w' id after s es.
Proof.
  intros Hl (Hc & Hp & Ha). split_and!; [done| |done]. etrans; [exact Hp|].
  destruct (later_log w w' id Hl) as [l ->]. rewrite drop_app. by eexists.
Qed.

Definition unbroken : Prop := ∀ n, broken_at n = false.

Lemma write_spec t s (w : World Svc) :
  ∃ ok, write t s w = (Ok (ok, if ok : bool then mkStream (sm_after s) (sm_written s +:+ t) else s),
                       mkWorld (w_tick w + 1) (w_st w)) ∧ (unbroken → ok = true).
Proof.
  exists (negb (broken_at (w_tick w))). unfold write, host, mbind, M_bind.
  split; [by destruct (broken_at _)|]. by intros ->.
Qed.

(** Events that follow the cursor are written one after another. *)
Lemma writeEvents_spec w id after values s es :
  inv (storage_of w) → (0 ≤ after)%Z → written w id after s es →
  es ++ values `prefix_of` drop (Z.to_nat after) (log w id) →
  ∃ ok s' w' es', writeEvents values s w = (Ok (ok, s'), w') ∧ later w w' ∧ written w' id after s' es' ∧
    (ok = true → es' = es ++ values) ∧ (unbroken → ok = true) ∧ log w' id = log w id.
Proof.
  revert w s es. induction values as [|e values IH]; intros w s es Hi Ha Hw Hp.
  - exists true, s, w, es. rewrite app_nil_r. split_and!; try done. by apply later_refl.
  - assert (Hseq : ev_Sequence e = (sm_after s + 1)%Z).
    { destruct Hw as (_ & _ & ->). destruct Hp as [rest Hp].
      assert (Hl : log w id !! (Z.to_nat after + length es)%nat = Some e).
      { rewrite <- lookup_drop, Hp, <- (app_assoc es), lookup_app_r, Nat.sub_diag by lia. done. }
      destruct (inv_events _ Hi id _ _ Hl) as [-> _]. lia. }
    cbn [writeEvents]. rewrite (proj2 (Z.leb_gt _ _)) by lia. unfold mbind at 1, M_bind at 1.
    destruct (write_spec (frame e) s w) as (ok & -> & Hok).
    set (w1 := mkWorld _ _). assert (Hl1 : later w w1) by by apply later_tick.
    destruct ok; [|exists false, s, w1, es; by split_and!].
    destruct (IH w1 (mkStream (ev_Sequence e) (sm_written s +:+ frame e)) (es ++ [e])) as
      (ok & s' & w' & es' & Hwe & Hl & Hwr & Hfull & Hun & Hlog); [apply Hl1|done| |by rewrite <- app_assoc|].
    { destruct Hw as ((chunks & Ht & Hs) & _ & Hsa). split_and!.
      - exists (chunks ++ [Sent e]). cbn [sm_written]. by rewrite Ht, text_snoc, sent_app, Hs.
      - etrans; [|exact Hp]. exists values. by rewrite <- app_assoc.
      - cbn [sm_after]. rewrite length_app, Hseq, Hsa. simpl. lia. }
    exists ok, s', w', es'. split_and!; try done; [by eapply later_trans|].
    intros Hok'. rewrite (Hfull Hok'). by rewrite <- app_assoc.
Qed.

(** The handler reads the log behind its cursor and writes it out. *)
Lemma caught_up w ctx id after s es :
  visible ctx id w → (0 ≤ after)%Z → written w id after s es →
  ∃ values, EventsAfter ctx id (sm_after s) w = (Ok values, w) ∧ es ++ values = drop (Z.to_nat after) (log w id).
Proof.
  intros Hv Ha (_ & [rest Hrest] & Hsa). exists rest. rewrite (visible_EventsAfter _ _ _ _ Hv), Hrest. split; [|done].
  do 2 f_equal. rewrite Hsa, Z2Nat.inj_add, Nat2Z.id, <- drop_drop by lia. rewrite Hrest. by rewrite drop_app_length.
Qed.

Context (Ho : orderly) (ctx : Ctx) (id : string) (after : Z) (Hafter : (0 ≤ after)%Z).

(** One reading of the log and the writing of what it gave. *)
Lemma read_write w s es :
  visible ctx id w → written w id after s es →
  ∃ ok s' w' es', later w w' ∧ written w' id after s' es' ∧ (unbroken → ok = true) ∧
    (ok = true → es' = drop (Z.to_nat after) (log w' id)) ∧
    ∀ A (k : bool * Stream → M Svc A) (kerr : Error → M Svc A),
      (r ← serve (EventsAfter ctx id (sm_after s));
       match r with Ok values => r ← writeEvents values s; k r | Err e => kerr e end) w = k (ok, s') w'.
Proof.
  intros Hv Hw. destruct (serve_spec Ho (EventsAfter ctx id (sm_after s)) w (proj1 Hv)) as (w1 & Hs & Hl1).
  pose proof (later_visible _ _ _ _ Hv Hl1) as Hv1. pose proof (written_later _ _ _ _ _ _ Hl1 Hw) as Hw1.
  destruct (caught_up w1 ctx id after s es Hv1 Hafter Hw1) as (values & He & Hvals).
  destruct (writeEvents_spec w1 id after values s es (proj1 Hv1) Hafter Hw1) as
    (ok & s' & w' & es' & Hwe & Hl & Hwr & Hfull & Hun & Hlog); [by rewrite Hvals|].
  exists ok, s', w', es'. split_and!; [by eapply later_trans|done|done| |].
  - intros Hok. by rewrite (Hfull Hok), Hvals, Hlog.
  - intros A k kerr. unfold mbind at 1, M_bind at 1. rewrite Hs, He. cbn [fst snd].
    unfold mbind, M_bind. by rewrite Hwe.
Qed.

Definition ended (w : World Svc) : Prop :=
  ∃ r, ms_runs (sv_storage (w_st w)) !! id = Some r ∧ terminal_phase (run_phase r) = true.
Lemma ended_later w w' : ended w → later w w' → ended w'.
Proof. intros (r & Hr & Ht) Hl. exists r. split; [by eapply later_terminal|done]. Qed.
Lemma streamTerminal_phase r : streamTerminal (run_Status r) = terminal_phase (run_phase r).
Proof. unfold streamTerminal, terminal_phase, run_phase. by destruct (run_Status r). Qed.

Ltac four := refine (conj _ (conj _ (conj _ _))).
Lemma stream_loop_spec fuel : ∀ w s es,
  visible ctx id w → written w id after s es →
  ∃ waiting s' w' es', stream_loop fuel ctx id s w = (Ok (waiting, s'), w') ∧
    later w w' ∧ written w' id after s' es' ∧
    (unbroken → 0 < fuel → ended w → es' = drop (Z.to_nat after) (log w' id)).
Proof.
  induction fuel as [|fuel IH]; intros w s es Hv Hw.
  { exists true, s, w, es. four; [done|apply later_refl, Hv|done|lia]. }
  cbn [stream_loop]. unfold mbind at 1, M_bind at 1.
  destruct (serve_spec Ho (GetRun ctx id) w (proj1 Hv)) as (w1 & -> & Hl1).
  pose proof (later_visible _ _ _ _ Hv Hl1) as Hv1. pose proof (written_later _ _ _ _ _ _ Hl1 Hw) as Hw1.
  destruct (visible_GetRun ctx id w1 Hv1) as (r & -> & Hr). cbn [fst snd]. rewrite streamTerminal_phase.
  destruct (terminal_phase (run_phase r)) eqn:Hterm.
  { destruct (read_write w1 s es Hv1 Hw1) as (ok & s' & w' & es' & Hl & Hwr & Hun & Hfull & Hk).
    rewrite Hk. exists false, s', w', es'. four; [done|by eapply later_trans|done|auto]. }
  assert (Hnot : ended w → False).
  { intros Hend. destruct (ended_later w w1 Hend Hl1) as (r' & Hr' & Ht'). congruence. }
  unfold mbind at 1, M_bind at 1. unfold host. set (w2 := mkWorld (w_tick w1 + 1) (w_st w1)).
  assert (Hl2 : later w w2) by (eapply later_trans; [exact Hl1|apply later_tick, Hv1]).
  pose proof (later_visible _ _ _ _ Hv Hl2) as Hv2. pose proof (written_later _ _ _ _ _ _ Hl2 Hw) as Hw2.
  destruct (wake_at (w_tick w1)).
  - exists false, s, w2, es. four; try done.
  - unfold mbind, M_bind. destruct (write_spec keepalive s w2) as (ok & -> & _).
    set (w3 := mkWorld (w_tick w2 + 1) (w_st w2)).
    assert (Hl3 : later w w3) by (eapply later_trans; [exact Hl2|apply later_tick, Hv2]).
    pose proof (written_later _ _ _ _ _ _ Hl3 Hw) as Hw3.
    destruct ok; [|exists false, s, w3, es; four; try done; by intros _ _ ?%Hnot].
    destruct (IH w3 (mkStream (sm_after s) (sm_written s +:+ keepalive)) es) as (waiting & s' & w' & es' & -> & Hl & Hwr & _).
    { exact (later_visible _ _ _ _ Hv Hl3). }
    { destruct Hw3 as ((chunks & Ht & Hs) & Hp & Hsa). split_and!; [|done|done].
      exists (chunks ++ [Alive]). cbn [sm_written]. rewrite Ht, text_snoc, sent_app, Hs. by rewrite app_nil_r. }
    exists waiting, s', w', es'. four; [done|by eapply later_trans|done|by intros _ _ ?%Hnot].
  - destruct (read_write w2 s es Hv2 Hw2) as (ok & s' & w3 & es3 & Hl & Hwr & _ & _ & Hk). rewrite Hk.
    assert (Hl3 : later w w3) by by eapply later_trans.
    destruct ok; [|exists false, s', w3, es3; four; try done; by intros _ _ ?%Hnot].
    destruct (IH w3 s' es3 (later_visible _ _ _ _ Hv Hl3) Hwr) as (waiting & s4 & w4 & es4 & -> & Hl4 & Hwr4 & _).
    exists waiting, s4, w4, es4. four; [done|by eapply later_trans|done|by intros _ _ ?%Hnot].
Qed.

Definition empty_stream : Stream := mkStream after "".
Lemma written_empty w : written w id after empty_stream [].
Proof. split_and!; [by exists []|apply prefix_nil|simpl; lia]. Qed.

(** The answer to a reader: an event stream whose text is the events behind the
    cursor, in order, up to some point; to the end of the log when the run had
    ended before. *)
Lemma stream_answer rounds r w :
  visible ctx id w → stream_after r = Some after →
  ∃ w' chunks, streamEvents rounds id ctx r w =
      (Ok (mkHttpResponse http_StatusOK stream_header None (text chunks)), w') ∧
    later w w' ∧ sent chunks `prefix_of` drop (Z.to_nat after) (log w' id) ∧
    (unbroken → 0 < rounds → ended w → sent chunks = drop (Z.to_nat after) (log w' id)).
Proof.
  intros Hv Ha. unfold streamEvents. rewrite Ha.
  destruct (read_write w empty_stream [] Hv (written_empty w)) as (ok & s & w1 & es & Hl & Hw & Hun & Hfull & Hk).
  change after with (sm_after empty_stream) at 1. change (mkStream after "") with empty_stream.
  erewrite Hk. destruct ok.
  - unfold mbind, M_bind.
    destruct (stream_loop_spec rounds w1 s es (later_visible _ _ _ _ Hv Hl) Hw) as
      (waiting & s' & w' & es' & -> & Hl' & ((chunks & Ht & Hs) & Hp & _) & Hend).
    exists w', chunks. cbn [snd]. rewrite Ht, Hs. split_and!; [done|by eapply later_trans|done|].
    intros Hu Hr He. apply Hend; [done..|]. by eapply ended_later.
  - destruct Hw as ((chunks & Ht & Hs) & Hp & _). exists w1, chunks. rewrite Ht, Hs. split_and!; [done..|].
    intros Hu _ _. by specialize (Hun Hu).
Qed.
End server.

(** ** Lines *)
Definition free_of (c : Ascii.ascii) (s : string) : Prop := has_char c s = false.
Lemma free_app c a b : free_of c a → free_of c b → free_of c (a +:+ b).
Proof. unfold free_of. rewrite has_char_app. by intros -> ->. Qed.

Definition cr_byte : Ascii.ascii := byte_of 13.
(** A line as the server writes it: no line feed, no carriage return, not empty. *)
Definition whole_line (s : string) : Prop := s ≠ "" ∧ free_of newline s ∧ free_of cr_byte s.

Lemma Split_line line rest : free_of newline line → Split (line +:+ nl +:+ rest) newline = line :: Split rest newline.
Proof. intros Hl. exact (split_segment newline line rest "" Hl). Qed.
Lemma Split_nonempty s c : Split s c ≠ [].
Proof. unfold Split. generalize "". induction s as [|d s IH]; intros cur; simpl; [done|]. by case_bool_decide. Qed.

Lemma scan_lines_cons line rest : free_of newline line → scan_lines (line +:+ nl +:+ rest) = drop_cr line :: scan_lines rest.
Proof.
  intros Hl. unfold scan_lines. rewrite Split_line by done. pose proof (Split_nonempty rest newline) as Hne.
  destruct (Split rest newline) as [|x l]; [done|]. rewrite last_cons_cons.
  by destruct (last (x :: l) =s Some "").
Qed.
Lemma scan_lines_last line : free_of newline line → line ≠ "" → scan_lines line = [drop_cr line].
Proof.
  intros Hl Hne. unfold scan_lines, Split. rewrite split_last by done. change (str_rev "" +:+ line) with line.
  cbn [last]. by rewrite bool_decide_eq_false_2 by congruence.
Qed.

Lemma drop_cr_whole line : free_of cr_byte line → drop_cr line = line.
Proof.
  intros Hf. unfold drop_cr, HasSuffix, cr. change (String.length (String (byte_of 13) "")) with 1.
  destruct (_ && _) eqn:E; [exfalso|done]. apply andb_true_iff in E as [Hlen%Nat.leb_le He%bool_decide_eq_true].
  revert Hf. unfold free_of. rewrite <- (str_take_drop (String.length line - 1) line), has_char_app, He. simpl.
  by rewrite orb_true_r.
Qed.

(** Lines, then an empty one. *)
Fixpoint block (lines : list string) : string :=
  match lines with [] => nl | line :: lines => line +:+ nl +:+ block lines end.
Definition short (line : string) : Prop := (Z.of_nat (String.length line) < line_limit)%Z.
Definition shown (line : string) : Prop := line ≠ "" ∧ short line.

Lemma scan_block lines rest :
  Forall whole_line lines → scan_lines (block lines +:+ rest) = lines ++ "" :: scan_lines rest.
Proof.
  induction 1 as [|line lines (Hne & Hn & Hc) _ IH]; cbn [block].
  - exact (scan_lines_cons "" rest eq_refl).
  - rewrite !str_app_assoc, scan_lines_cons, drop_cr_whole, IH by done. done.
Qed.

(** A block that was cut short ends before its empty line. *)
Lemma cut_block lines cut u :
  Forall whole_line lines → Forall short lines → block lines = cut +:+ u → u ≠ "" → Forall shown (scan_lines cut).
Proof.
  intros Hl. revert cut. induction Hl as [|line lines (Hne & Hn & Hc) _ IH]; intros cut Hs He Hu; cbn [block] in He.
  - destruct cut as [|c cut]; [constructor|]. exfalso. apply (f_equal String.length) in He.
    rewrite str_length_app in He. destruct u; [done|]. simpl in He. lia.
  - apply Forall_cons in Hs as [Hshort Hs].
    assert (Hpart : ∀ v, line = cut +:+ v → Forall shown (scan_lines cut)).
    { intros v ->. destruct (decide (cut = "")) as [->|Hcut]; [constructor|].
      unfold free_of in Hn, Hc. rewrite has_char_app, orb_false_iff in Hn, Hc.
      rewrite scan_lines_last by naive_solver. rewrite drop_cr_whole by apply Hc. constructor; [|constructor].
      split; [done|]. unfold short in *. rewrite str_length_app in Hshort. lia. }
    apply str_app_split in He as [(v & -> & He)|(v & _ & He & _)]; [|by apply (Hpart v)].
    apply str_app_split in He as [(x & -> & He)|(x & Hx & He & _)].
    + rewrite scan_lines_cons, drop_cr_whole by done. constructor; [done|]. by eapply IH.
    + destruct v as [|c v]; [by apply (Hpart ""); rewrite !str_app_nil_r|].
      exfalso. apply (f_equal String.length) in He. rewrite str_length_app in He. destruct x; [done|]. simpl in He. lia.
Qed.

Lemma digits_free c acc s n : digit c = None → digits_value acc s = Some n → free_of c s.
Proof.
  intros Hc. revert acc. induction s as [|d s IH]; intros acc; [done|]. simpl. destruct (digit d) as [x|] eqn:Hd; [|done].
  intros Hs. unfold free_of. simpl. rewrite bool_decide_eq_false_2 by congruence. by eapply IH.
Qed.
Lemma pretty_free c (z : Z) : digit c = None → c ≠ minus → free_of c (pretty z).
Proof.
  intros Hd Hm. destruct z as [|p|p].
  - exact (digits_free c 0 (pretty 0%N) 0%N Hd (digits_pretty 0)).
  - exact (digits_free c 0 (pretty (Npos p)) _ Hd (digits_pretty (Npos p))).
  - change (pretty (Z.neg p)) with (String minus (pretty (Npos p))). unfold free_of. simpl.
    rewrite bool_decide_eq_false_2 by done. exact (digits_free c 0 _ _ Hd (digits_pretty (Npos p))).
Qed.

(** The encoder writes one line, without space around it. *)
Class LineText `{Encoder} : Prop := {
  text_line : ∀ j, whole_line (json_text j);
  text_trimmed : ∀ j, TrimSpace (json_text j) = json_text j
}.

(** ** The client *)
Section client.
Context `{TimeLaws} `{LineText} `{JsonParser} `{!ParserLaws}.

Definition event_data (e : Event) : string := json_text (enc wire_Event e).
Definition chunk_lines (c : Chunk) : list string :=
  match c with
  | Sent e => ["id: " +:+ pretty (ev_Sequence e); "event: relay.event"; "data: " +:+ event_data e]
  | Alive => [": keepalive"]
  end.
Lemma chunk_block c : chunk_text c = block (chunk_lines c).
Proof. destruct c; simpl; unfold frame, keepalive, event_data; by rewrite ?str_app_assoc. Qed.
Lemma chunk_whole c : Forall whole_line (chunk_lines c).
Proof.
  destruct c as [e|]; simpl.
  - repeat apply Forall_cons_2; [..|apply Forall_nil_2]; (split; [discriminate|]); split; try done;
      (apply free_app; [done|first [by apply pretty_free | by apply text_line]]).
  - repeat constructor; discriminate.
Qed.

(** What the reader asks of an event: it fits into the reader's line buffer. *)
Definition frame_fits (e : Event) : Prop :=
  fits wire_Event e = true ∧ (Z.of_nat (String.length (frame e)) < line_limit)%Z.
Lemma chunk_short c : (∀ e, c = Sent e → frame_fits e) → Forall short (chunk_lines c).
Proof.
  intros Hf. assert (Hlen : (Z.of_nat (String.length (chunk_text c)) < line_limit)%Z).
  { destruct c; [apply Hf; done|reflexivity]. }
  rewrite chunk_block in Hlen. revert Hlen. generalize (chunk_lines c). clear. unfold short.
  induction l as [|line l IH]; cbn [block]; [constructor|]. rewrite !str_length_app. intros Hlen.
  constructor; [lia|]. apply IH. lia.
Qed.

Lemma chunk_shown c : (∀ e, c = Sent e → frame_fits e) → Forall shown (chunk_lines c).
Proof.
  intros Hf. pose proof (chunk_short c Hf) as Hs. pose proof (chunk_whole c) as Hw.
  apply Forall_and. split; [|done]. eapply Forall_impl; [exact Hw|]. by intros line [? _].
Qed.

Definition record_event (e : Event) : M (list Event) () := modify (λ l, l ++ [e]).
Definition is_end (e : Event) : bool := bool_decide (ev_Type e ∈ ["run.succeeded"; "run.failed"; "run.cancelled"]).
(** How a reading ends: [broken] is what ended the body before its end, if anything did. *)
Definition outcome (broken : option Error) (terminal : bool) : Res () :=
  match broken with
  | Some err => Err err
  | None => if terminal then Ok () else Err ErrEventStreamInterrupted
  end.
Context (broken : option Error).

Lemma scan_shown lines after data terminal (w : World (list Event)) :
  Forall shown lines → scan_events record_event broken lines after data terminal w = (outcome broken terminal, w).
Proof.
  intros Hl. revert data. induction Hl as [|line lines [Hne Hs] _ IH]; intros data; cbn [scan_events].
  - destruct broken; [done|by destruct terminal].
  - unfold short in Hs. rewrite (proj2 (Z.leb_gt _ _)) by done. rewrite bool_decide_eq_false_2 by done.
    by destruct (HasPrefix line "data:").
Qed.

Lemma scan_line line lines after data terminal :
  shown line → HasPrefix line "data:" = false →
  scan_events record_event broken (line :: lines) after data terminal = scan_events record_event broken lines after data terminal.
Proof.
  intros [Hne Hs] Hp. cbn [scan_events]. unfold short in Hs. rewrite (proj2 (Z.leb_gt _ _)) by done.
  rewrite bool_decide_eq_false_2 by done. by rewrite Hp.
Qed.

Lemma trim_blank s : TrimSpace s = s → TrimSpace (String (byte_of 32) s) = s.
Proof.
  intros Hs. unfold TrimSpace in *. assert (Hl : TrimLeftSpace (String (byte_of 32) s) = TrimLeftSpace s) by reflexivity.
  by rewrite Hl.
Qed.

Lemma scan_frame e rest after terminal w :
  frame_fits e → (after < ev_Sequence e)%Z →
  scan_events record_event broken (chunk_lines (Sent e) ++ "" :: rest) after "" terminal w =
  scan_events record_event broken rest (ev_Sequence e) "" (terminal || is_end e) (mkWorld (w_tick w) (w_st w ++ [e])).
Proof.
  intros Hf Ha. pose proof (chunk_shown (Sent e) ltac:(by intros ? [= <-])) as Hs.
  unfold chunk_lines in Hs |- *.
  apply Forall_cons in Hs as [L1 Hs]. apply Forall_cons in Hs as [L2 Hs]. apply Forall_cons in Hs as [[_ L3] _].
  cbn [app]. rewrite scan_line, scan_line by done. unfold short in L3.
  cbn [scan_events]. rewrite (proj2 (Z.leb_gt _ _)) by exact L3.
  change (("data: " +:+ event_data e) =s "") with false. change (HasPrefix ("data: " +:+ event_data e) "data:") with true.
  change (line_limit <=? Z.of_nat (String.length ""))%Z with false. change ("" =s "") with true. cbn iota.
  assert (Hd : "" +:+ TrimSpace (TrimPrefix ("data: " +:+ event_data e) "data:") = event_data e)
    by exact (trim_blank (event_data e) (text_trimmed (enc wire_Event e))).
  rewrite Hd. unfold event_data. destruct (text_line (enc wire_Event e)) as (Hne & _).
  rewrite bool_decide_eq_false_2 by done. rewrite parse_all_text. cbn [res_bind].
  rewrite (lawful_received wire_Event false e e) by (try apply Event_received; auto with wire; apply Hf).
  rewrite (proj2 (Z.leb_gt _ _)) by done. reflexivity.
Qed.

Lemma outcome_or terminal a b : outcome broken ((terminal || a) || b) = outcome broken (terminal || (a || b)).
Proof. by rewrite orb_assoc. Qed.

(** A reader of a part of the text. *)
Lemma scan_text chunks : ∀ cut rest after terminal w,
  text chunks = cut +:+ rest → Forall frame_fits (sent chunks) →
  (∀ i e, sent chunks !! i = Some e → ev_Sequence e = (after + 1 + Z.of_nat i)%Z) →
  ∃ got, got `prefix_of` sent chunks ∧ (rest = "" → got = sent chunks) ∧
    scan_events record_event broken (scan_lines cut) after "" terminal w =
    (outcome broken (terminal || existsb is_end got), mkWorld (w_tick w) (w_st w ++ got)).
Proof.
  induction chunks as [|c chunks IH]; intros cut rest after terminal w Ht Hf Hseq; cbn [text] in Ht.
  - destruct cut as [|x cut]; [|done]. exists []. split_and!; [done..|]. cbn.
    rewrite orb_false_r, app_nil_r. destruct broken; by destruct terminal, w.
  - assert (Hfit : ∀ e, c = Sent e → frame_fits e).
    { intros e ->. cbn in Hf. by apply Forall_cons in Hf as [? _]. }
    assert (Hcut : ∀ u, u ≠ "" → chunk_text c = cut +:+ u → rest ≠ "" →
              ∃ got, got `prefix_of` sent (c :: chunks) ∧ (rest = "" → got = sent (c :: chunks)) ∧
                scan_events record_event broken (scan_lines cut) after "" terminal w =
                (outcome broken (terminal || existsb is_end got), mkWorld (w_tick w) (w_st w ++ got))).
    { intros u Hu He Hr. exists []. split_and!; [apply prefix_nil|done|]. rewrite chunk_block in He.
      rewrite (scan_shown _ after "" terminal w (cut_block _ _ _ (chunk_whole c) (chunk_short c Hfit) He Hu)).
      cbn. rewrite orb_false_r, app_nil_r. by destruct w. }
    apply str_app_split in Ht as [(v & -> & Ht)|(v & Hv & He & ->)];
      [|by apply (Hcut v); [..|by destruct v]].
    rewrite chunk_block, scan_block by apply chunk_whole. destruct c as [e|].
    + cbn in Hf. apply Forall_cons in Hf as [Hfe Hf]. pose proof (Hseq 0 e eq_refl) as He.
      rewrite scan_frame by (done || lia).
      destruct (IH v rest (ev_Sequence e) (terminal || is_end e) (mkWorld (w_tick w) (w_st w ++ [e]))) as
        (got & Hp & Hall & ->); [done..| |].
      { intros i x Hx. rewrite (Hseq (S i) x Hx), He. lia. }
      exists (e :: got). split_and!.
      * cbn. destruct Hp as [l Hl]. exists l. cbn. f_equal. exact Hl.
      * intros Hr. cbn. by rewrite (Hall Hr).
      * rewrite outcome_or. cbn [w_tick w_st existsb]. by rewrite <- app_assoc.
    + destruct (IH v rest after terminal w Ht Hf Hseq) as (got & Hp & Hall & Hgot). exists got. split_and!; [done..|].
      cbn [chunk_lines app]. rewrite scan_line by (split; done || done). exact Hgot.
Qed.
End client.

(** ** From the server to the reader *)
Section reader.
Context `{HostLaws} `{TimeParser} `{!TimeLaws} `{Encoder} `{!LineText} `{Semver} `{JsonParser} `{!ParserLaws}
  `{Waiting} `{Peers Svc} (server : Server) (token : string).

Lemma stream_route id : plain_id id →
  find_route (routes server) "GET" ["v1"; "runs"; id; "events"; "stream"] =
  Some (streamEvents (S := MemoryStorage) (B := MemoryBlobStore.State) (srv_Rounds server) id).
Proof. intros Hid. route. Qed.

(** The request of the reader reaches the stream, with its cursor. *)
Lemma stream_reached ctx id after (w : World Svc) :
  credentials (srv_Auth server) token ctx → may_call ctx false None → plain_id id →
  (0 ≤ after)%Z → int64 after = true →
  let r := stream_request token id after in
  ServeHTTP server r w = streamEvents (srv_Rounds server) id ctx r w ∧ stream_after r = Some after.
Proof.
  intros Hc Hm Hid Hpos Hint r. split.
  - apply (reach_any server token ctx _ ["v1"; "runs"; PathEscape id; "events"; "stream"] ["v1"; "runs"; id; "events"; "stream"]
             (streamEvents (srv_Rounds server) id) false None); try done.
    + by repeat constructor.
    + plain_ids.
    + by apply stream_route.
  - subst r. unfold stream_after, stream_request. rewrite sent_query. cbn [rq_Query]. unfold map_get.
    rewrite lookup_singleton_eq. change (default zero (Some (pretty after))) with (pretty after).
    assert (Hne : pretty after ≠ "").
    { intros He. pose proof (Atoi_pretty after Hint) as Hat. rewrite He in Hat. done. }
    rewrite (bool_decide_eq_false_2 _ Hne). cbn iota. rewrite (bool_decide_eq_false_2 _ Hne).
    rewrite Atoi_pretty by done. cbn [negb orb]. by rewrite (proj2 (Z.ltb_ge _ _)).
Qed.

(** C11: the reader of an event stream, over a connection that may break
    anywhere and while others use the service in any way, hands on exactly the
    next events of the log behind its cursor, in order, none twice and none left
    out; it returns the error that broke the connection, if there was one, and
    otherwise no error exactly when the event of the run's end was among them,
    and it gets the whole log of a run that had ended when the
    connection holds. *)
Theorem stream_delivers ctx id after (w : World Svc) :
  orderly → credentials (srv_Auth server) token ctx → may_call ctx false None → plain_id id →
  (0 ≤ after)%Z → int64 after = true → visible ctx id w →
  let '(res, w') := ServeHTTP server (stream_request token id after) w in
  let unread := drop (Z.to_nat after) (log w' id) in
  log w id `prefix_of` log w' id ∧
  ∃ header body, res = Ok (mkHttpResponse http_StatusOK header None body) ∧
  ∀ cut rest broken, body = cut +:+ rest → Forall frame_fits unread →
    let transport : Transport (list Event) := λ _, mret (mkAnswer http_StatusOK header None cut broken) in
    let '(res, seen) := c_StreamEvents token id after record_event (mkWorld 0 []) in
    w_st seen `prefix_of` unread ∧ res = outcome broken (existsb is_end (w_st seen)) ∧
    (rest = "" → unbroken → 0 < srv_Rounds server → ended id w → w_st seen = unread).
Proof.
  intros Ho Hc Hm Hid Hpos Hint Hv.
  destruct (stream_reached ctx id after w Hc Hm Hid Hpos Hint) as [-> Hafter].
  destruct (stream_answer Ho ctx id after Hpos (srv_Rounds server) _ w Hv Hafter) as (w' & chunks & -> & Hl & Hp & Hend).
  split; [by apply later_log|]. exists stream_header, (text chunks). split; [done|].
  intros cut rest broken Hcut Hfit transport.
  destruct (scan_text broken chunks cut rest after false (mkWorld 0 [])) as (got & Hgot & Hall & Hscan); [done|..].
  - destruct Hp as [l Hp]. rewrite Hp in Hfit. by apply Forall_app in Hfit as [? _].
  - intros i e He. destruct Hp as [l Hp].
    assert (Hlog : log w' id !! (Z.to_nat after + i)%nat = Some e).
    { rewrite <- lookup_drop, Hp. by apply lookup_app_l_Some. }
    destruct (inv_events _ (proj1 Hl) id _ _ Hlog) as [-> _]. lia.
  - unfold c_StreamEvents, mbind, M_bind, Do, transport, mret, M_ret. cbn [negb success rs_Status rs_Body rs_Broken].
    change (success _) with true. cbn [negb]. rewrite Hscan. cbn [w_st app]. split_and!; [by etrans|done|].
    intros Hr Hu Hrounds He. by rewrite (Hall Hr), (Hend Hu Hrounds He).
Qed.
End reader.
