(* ===== verification/HttpDemo.v ===== *)
(** * HttpDemo: a parser, a transport and a server that run

    The reader of Demo's document texts, a parser of its times, and a server
    with two tokens in front of the histories of Scenario. *)

From S2P Require Import Prelude GoStrings Json Types Codec Wire Matching Event Lifecycle Demo Memory MemoryEffect MemoryInv MemoryOps MemoryRuns MemoryRecover MemorySystem Scenario Service ServiceProps Url Http Stream Handler HttpClient HttpServed HttpProps HttpErrors HttpAccess HttpStream.

Definition tree_kids (t : gen_tree (bool + (string + string))) :=
  match t with GenNode _ l => l | GenLeaf _ => [] end.
Fixpoint json_of_tree (t : gen_tree (bool + (string + string))) : Json :=
  match t with
  | GenLeaf (inl b) => JBool b
  | GenLeaf (inr (inl s)) => JNum s
  | GenLeaf (inr (inr s)) => JStr s
  | GenNode 0 _ => JNull
  | GenNode 1 l => JArr (map json_of_tree l)
  | GenNode _ l =>
      JObj (map (λ kv, match kv with
                       | GenNode _ [GenLeaf (inr (inr k)); v] => (k, json_of_tree v)
                       | _ => ("", JNull)
                       end) l)
  end.
Lemma json_of_json_tree : ∀ j, json_of_tree (json_tree j) = j.
Proof.
  fix IH 1. intros [|x|x|x|l|l]; simpl; try done; f_equal; rewrite map_map; revert l; fix IHl 1.
  - intros [|x l]; [done|]. simpl. f_equal; [apply IH|apply IHl].
  - intros [|[k x] l]; [done|]. simpl. f_equal; [f_equal; apply IH|apply IHl].
Qed.

Definition demo_read (s : string) : Res Json :=
  match countable.decode (bits (str_drop 1 s)) with
  | Some t => Ok (json_of_tree t)
  | None => Err (errors_New "invalid character")
  end.
#[export] Instance demo_parser : JsonParser := {| parse_first := demo_read; parse_all := demo_read |}.
Lemma demo_read_text j s : demo_read (json_text j +:+ s) = Ok j.
Proof.
  assert (Hb : bits (str_drop 1 (json_text j +:+ s)) = encode (json_tree j)).
  { unfold json_text, demo_encoder. rewrite !str_app_assoc. exact (bits_digits (encode (json_tree j)) s). }
  unfold demo_read. by rewrite Hb, decode_encode, json_of_json_tree.
Qed.

#[export] Instance demo_parser_laws : ParserLaws.
Proof.
  constructor; intros j; [..|apply demo_read_text];
    pose proof (demo_read_text j "") as Ht; rewrite str_app_nil_r in Ht; exact Ht.
Qed.

(** The texts are lines. *)
Lemma str_rev_app_one t c : str_rev (t +:+ String c "") = String c (str_rev t).
Proof.
  induction t as [|d t IH]; [done|]. rewrite str_cons_app, !str_rev_cons, IH. by rewrite str_cons_app.
Qed.
Lemma str_rev_twice s : str_rev (str_rev s) = s.
Proof. induction s as [|c s IH]; [done|]. by rewrite str_rev_cons, str_rev_app_one, IH. Qed.
Lemma strip_stays sp1 sp2 sp3 c s :
  sp1 c = false → (∀ d, sp2 c d = false) → (∀ d e, sp3 c d e = false) → strip sp1 sp2 sp3 (String c s) = String c s.
Proof.
  intros H1 H2 H3. cbn [strip]. rewrite H1. destruct s as [|d s]; [done|]. rewrite H2. destruct s; [done|]. by rewrite H3.
Qed.
Lemma braces_trimmed s : TrimSpace ("{" +:+ s +:+ "}") = "{" +:+ s +:+ "}".
Proof.
  unfold TrimSpace, TrimLeftSpace. rewrite (str_cons_app _ "" (s +:+ "}")), strip_stays; [|reflexivity|intros; reflexivity..].
  unfold TrimRightSpace. rewrite <- (str_cons_app _ s "}"), str_rev_app_one, strip_stays.
  - by rewrite <- str_rev_app_one, str_rev_twice.
  - done.
  - intros d. unfold space2. change (code _) with 125 at 2. by rewrite andb_false_r.
  - intros d e. unfold space3. by rewrite !andb_false_r.
Qed.
Lemma digits_line c p : c ∉ [byte_of 48; byte_of 49] → free_of c (digits p).
Proof.
  intros Hc. rewrite !not_elem_of_cons in Hc. destruct Hc as (H0 & H1 & _). unfold free_of.
  induction p as [p IH|p IH|]; simpl; [| |done]; by rewrite bool_decide_eq_false_2.
Qed.
#[export] Instance demo_lines : LineText.
Proof.
  constructor; intros j; [|apply braces_trimmed]. split; [done|].
  split; (apply (free_app _ "{"); [done|]; apply free_app; [|done]; apply digits_line; rewrite !not_elem_of_cons; split_and!; [done|done|apply not_elem_of_nil]).
Qed.

#[export] Instance demo_times : TimeParser := parse_int.
#[export] Instance demo_times_laws : TimeLaws := parse_int_pretty.

(** A reader of a stream waits by polling, and every write arrives. *)
#[export] Instance demo_waiting : Waiting := {| wake_at _ := Poll; broken_at _ := false |}.

Definition host_scope : AccessScope := mkScope AccessHost "user" "tenant" "project".
Definition node_scope : AccessScope := mkScope AccessNode "node" "" "".
Definition demo_tokens : list Token := [mkToken "host-token" host_scope; mkToken "node-token" node_scope].
Definition demo_server : Server := mkServer (mkOptions 30 10) (Some (Authenticate demo_tokens)) "0.1" 10.
(** Meanwhile the node completes its run. *)
#[export] Instance demo_peers : Peers Svc := λ _, Complete the_lease demo_result.

Lemma node_credentials : credentials (srv_Auth demo_server) "node-token" (Some node_scope).
Proof. split_and!; [discriminate|reflexivity|]. by exists node_scope. Qed.
Lemma host_credentials : credentials (srv_Auth demo_server) "host-token" (Some host_scope).
Proof. split_and!; [discriminate|reflexivity|]. by exists host_scope. Qed.

(** The node completes its run over HTTP. *)
Lemma http_transparent_witness :
  let call := CallComplete the_lease demo_result in
  let '(r, w1) := direct demo_server (Some node_scope) (carried call) (behind running) in
  let '(r', w2) := remote demo_server "node-token" call (behind running) in
  w2 = w1 ∧ same_answer call r r'.
Proof.
  apply (http_transparent demo_server "node-token" (Some node_scope)
           (CallComplete the_lease demo_result) (behind running) node_credentials).
  - by split.
  - unfold sendable, attempt_id, plain_id. split_and!; by vm_compute.
  - by vm_compute.
Defined.

(** The host reads its run over HTTP and finds it completed, without the lease. *)
Example remote_read :
  let w := (remote demo_server "node-token" (CallComplete the_lease demo_result) (behind running)).2 in
  match (remote demo_server "host-token" (CallGetRun the_run) w).1 with
  | Ok r => (run_Status r, run_Result r, att_LeaseToken (run_Attempt r))
  | Err _ => (RunQueued, None, "unanswered")
  end = (RunSucceeded, Some demo_result, "").
Proof. vm_compute. reflexivity. Qed.

(** ** Access *)
Definition claim_of (path : string) : HttpRequest := authorize "node-token" (request "POST" path ∅ (Some (JObj []))).

Lemma access_control_witness :
  let r := claim_of "/v1/nodes/node/claim" in
  inert (S := MemoryStorage) (B := MemoryBlobStore.State) demo_server r ∨
  ∃ scope (handler : Ctx → HttpRequest → M (ServiceState MemoryStorage MemoryBlobStore.State) HttpResponse),
    presented r ≠ "" ∧ Authenticate demo_tokens (presented r) = Some scope ∧
    sc_Kind scope = (if of_nodes (rq_Method r) (segments r) then AccessNode else AccessHost) ∧
    (∀ id, acts_for r id → sc_Subject scope = "" ∨ answers_to (sc_Subject scope) id) ∧
    find_route (routes demo_server) (rq_Method r) (segments r) = Some handler ∧
    ∀ w, ServeHTTP demo_server r w = handler (Some scope) r w.
Proof. apply (access_control demo_server _ (Authenticate demo_tokens)); reflexivity. Defined.

(** The token of node reaches the service as node/other, and not as other. *)
Definition claim_status (path : string) : Z :=
  match (ServeHTTP demo_server (claim_of path) (behind queued)).1 with Ok r => rs_Status r | Err _ => 0%Z end.
Example claim_own : claim_status "/v1/nodes/node/claim" = http_StatusOK.
Proof. vm_compute. reflexivity. Qed.
Example claim_other : claim_status "/v1/nodes/other/claim" = http_StatusForbidden.
Proof. vm_compute. reflexivity. Qed.
Example claim_below : claim_status "/v1/nodes/node%2Fother/claim" = http_StatusNotFound.
Proof. vm_compute. reflexivity. Qed.

(** ** The stream *)
Lemma demo_orderly : orderly.
Proof.
  intros n w. exists [OpComplete the_lease demo_result]. split; [repeat constructor|].
  destruct w as [t [s b]]. unfold peers_at, demo_peers, Complete, on_storage, storage_of, play, after. simpl.
  by destruct (Memory.Complete the_lease demo_result (mkWorld t s)) as [r [t' s']].
Qed.

(** The reader connects while the run goes on; the run ends meanwhile. *)
Lemma stream_delivers_witness :
  let w := behind running in
  let '(res, w') := ServeHTTP demo_server (stream_request "host-token" the_run 1) w in
  let unread := drop (Z.to_nat 1) (log w' the_run) in
  log w the_run `prefix_of` log w' the_run ∧
  ∃ header body, res = Ok (mkHttpResponse http_StatusOK header None body) ∧
  ∀ cut rest broken, body = cut +:+ rest → Forall frame_fits unread →
    let transport : Transport (list Event) := λ _, mret (mkAnswer http_StatusOK header None cut broken) in
    let '(res, seen) := c_StreamEvents "host-token" the_run 1 record_event (mkWorld 0 []) in
    w_st seen `prefix_of` unread ∧ res = outcome broken (existsb is_end (w_st seen)) ∧
    (rest = "" → unbroken → 0 < srv_Rounds demo_server → ended the_run w → w_st seen = unread).
Proof.
  apply (stream_delivers demo_server "host-token" (Some host_scope) the_run 1 (behind running));
    [exact demo_orderly|exact host_credentials|by split|by vm_compute|lia|reflexivity|].
  split; [rewrite storage_of_behind; apply reachable_inv; demo_reach|].
  exists (run_in running the_run). split; [by vm_compute|]. right. split; right; by vm_compute.
Defined.

(** What the reader sees, and its verdict. *)
Definition read_stream (body : string) (broken : option Error) : list string * bool :=
  let transport : Transport (list Event) := λ _, mret (mkAnswer http_StatusOK stream_header None body broken) in
  let '(res, seen) := c_StreamEvents "host-token" the_run 1 record_event (mkWorld 0 []) in
  (ev_Type <$> w_st seen, match res with Ok _ => true | Err _ => false end).
Definition stream_body : string :=
  match (ServeHTTP demo_server (stream_request "host-token" the_run 1) (behind running)).1 with
  | Ok response => rs_Body response
  | Err _ => ""
  end.
Example stream_read : read_stream stream_body None =
  (["attempt.queued"; "attempt.leased"; "attempt.started"; "run.started"; "attempt.succeeded"; "run.succeeded"], true).
Proof. vm_compute. reflexivity. Qed.
(** The connection breaks behind the last frame: the error of the connection is
    returned although the end of the run was read. *)
Example stream_broken_late : (read_stream stream_body (Some (errors_New "unexpected EOF"))).2 = false.
Proof. vm_compute. reflexivity. Qed.
(** The connection breaks inside the last frame. *)
Example stream_broken : read_stream (str_take (String.length stream_body - 10) stream_body) (Some (errors_New "unexpected EOF")) =
  (["attempt.queued"; "attempt.leased"; "attempt.started"; "run.started"; "attempt.succeeded"], false).
Proof. vm_compute. reflexivity. Qed.
(** A reader who comes back after the end of the run, with the last event behind
    its cursor, is told that the stream was interrupted. *)
Definition resumed_body : string :=
  match (ServeHTTP demo_server (stream_request "host-token" the_run 7) (behind succeeded_world)).1 with
  | Ok response => rs_Body response
  | Err _ => "no answer"
  end.
Example stream_resumed : read_stream resumed_body None = ([], false).
Proof. vm_compute. reflexivity. Qed.

Section wire.
#[local] Instance to_demo : Transport Svc := server_transport demo_server.
Example health_served : (c_Health "" (behind start)).1 = Ok ().
Proof. vm_compute. reflexivity. Qed.
Example version_served : (c_BuildInfo "" (behind start)).1 = Ok (mkBuildInfo "0.1" ProtocolVersion).
Proof. vm_compute. reflexivity. Qed.
End wire.
