(* ===== verification/Workspace.v ===== *)
(** * Workspace: the directories runs work in (workspace/manager.go)

    [Prepare] makes the directory of one attempt below the manager's root, or
    checks out a Git worktree there, and returns the subdirectory asked for with
    what cleans up.  A [Disk] is the directories and files there are; links are
    not represented.  Any call may fail half done.  git is an external program:
    [git_at] is what one invocation does to the disk.

    The mutex of the manager keeps Git preparations apart; a preparation is one
    step here. *)

From S2P Require Import Prelude GoStrings Types Url Fs.

Record Disk := mkDisk { dk_dirs : gset string; dk_files : gmap string string }.
Abbreviation MD := (M Disk).

(** What fails, how far a failed call got, and the places of the process. *)
Class Machine := {
  dfault_at : nat → option Error;
  made_at : nat → nat;
  kept_at : nat → string → bool;
  git_at : nat → string → list string → Disk → option Error * string * Disk;
  cwd_at : nat → Res string;
  TempDir : string
}.

(** ** Paths *)
Definition path_elems (p : string) : list string := reverse (resolve true [] (Split p slash)).
Definition abs_path (elems : list string) : string := "/" +:+ Join elems "/".

(** [filepath.Join]: the first elements that are empty do not count. *)
Fixpoint filepath_Join (elems : list string) : string :=
  match elems with
  | [] => ""
  | e :: rest => if e =s "" then filepath_Join rest else Clean (Join elems "/")
  end.
(** [filepath.Dir] of a clean absolute path. *)
Definition filepath_Dir (p : string) : string := abs_path (removelast (path_elems p)).
Definition below (base p : string) : bool := (p =s base) || HasPrefix p (base +:+ "/").

Fixpoint inits (l : list string) : list (list string) :=
  match l with [] => [[]] | x :: l => [] :: map (cons x) (inits l) end.
Definition ancestors (p : string) : list string := map abs_path (inits (path_elems p)).

(** [strings.ReplaceAll] for a non-empty [old]; [skip] bytes belong to the last match. *)
Fixpoint replace_from (old new : string) (skip : nat) (s : string) : string :=
  match s with
  | EmptyString => ""
  | String c rest =>
      match skip with
      | S skip => replace_from old new skip rest
      | O => if HasPrefix s old then new +:+ replace_from old new (String.length old - 1) rest
             else String c (replace_from old new 0 rest)
      end
  end.
Definition ReplaceAll (s old new : string) : string := replace_from old new 0 s.

Definition safeSegment (value : string) : string := ReplaceAll (ReplaceAll value "/" "_") ".." "_".

Section workspace.
Context `{Host} `{Machine}.

(** ** The operating system *)
Definition disk_call : MD () :=
  fault ← host dfault_at;
  match fault with Some e => raise e | None => mret () end.

Definition make_dirs (paths : list string) (d : Disk) : Disk := mkDisk (list_to_set paths ∪ dk_dirs d) (dk_files d).
(** A failure leaves the directories made so far. *)
Definition os_MkdirAll (path : string) : MD () :=
  fault ← host (λ n, (dfault_at n, made_at n));
  match fault with
  | (Some e, n) => modify (make_dirs (take n (ancestors path))) ;; raise e
  | (None, _) =>
      blocked ← gets (λ d, existsb (λ p, bool_decide (is_Some (dk_files d !! p))) (ancestors path));
      if blocked : bool then raise (errors_New "not a directory") else modify (make_dirs (ancestors path))
  end.

Definition keep_paths (keep : string → bool) (d : Disk) : Disk :=
  mkDisk (filter (λ p, keep p = true) (dk_dirs d)) (filter (λ kv, keep kv.1 = true) (dk_files d)).
(** A failure leaves some of what was below the path. *)
Definition os_RemoveAll (path : string) : MD () :=
  fault ← host (λ n, (dfault_at n, kept_at n));
  match fault with
  | (Some e, kept) => modify (keep_paths (λ p, negb (below path p) || kept p)) ;; raise e
  | (None, _) => modify (keep_paths (λ p, negb (below path p)))
  end.

Definition os_Stat (path : string) : MD () :=
  disk_call ;;
  known ← gets (λ d, bool_decide (path ∈ dk_dirs d ∨ is_Some (dk_files d !! path)));
  if known : bool then mret () else raise (sentinel ErrNotExist).
(** [info, err := os.Stat(path); err == nil && info.IsDir()] *)
Definition is_directory (path : string) : MD bool :=
  r ← try disk_call;
  match r with
  | Err _ => mret false
  | Ok _ => gets (λ d, bool_decide (path ∈ dk_dirs d))
  end.

Definition filepath_Abs (path : string) : MD string :=
  if IsAbs path then mret (Clean path)
  else cwd ← host cwd_at; wd ← lift_res cwd; mret (filepath_Join [wd; path]).

(** ** The manager *)
Definition runGit (dir : string) (args : list string) : MD () := λ w,
  let '(failure, output, d) := git_at (w_tick w) dir args (w_st w) in
  let w := mkWorld (w_tick w + 1) d in
  match failure with
  | Some err =>
      (Err (mkError (err_is err)
        ("relay workspace: git " +:+ default "" (head args) +:+ ": " +:+ err_msg err +:+ ": " +:+ TrimSpace output)), w)
  | None => (Ok (), w)
  end.

Record Prepared := mkPrepared { pd_Dir : string; pd_Cleanup : MD () }.

Definition preparedDirectory (root dir subdir : string) (ephemeral : bool) : MD Prepared :=
  let target := if subdir =s "" then dir else filepath_Join [dir; Clean subdir] in
  target ← filepath_Abs target;
  base ← filepath_Abs dir;
  if negb (target =s base) && negb (HasPrefix target (base +:+ "/"))
  then raise (errors_New "relay workspace: subdir escapes workspace")
  else
    dir ← is_directory target;
    if negb dir then raise (errors_New ("relay workspace: subdir is not a directory: " +:+ subdir))
    else mret (mkPrepared target (if ephemeral && negb (root =s "") then os_RemoveAll base else mret ())).

Definition attempt_dir (root runID attemptID : string) : string :=
  filepath_Join [root; "runs"; safeSegment runID; safeSegment attemptID].
Definition mirror_dir (root source : string) : string :=
  filepath_Join [root; "git"; str_take 24 (sha256_hex source) +:+ ".git"].

Definition remove_worktree (mirror worktree : string) : MD () :=
  runGit mirror ["worktree"; "remove"; "--force"; worktree].

Definition prepareGit (root runID attemptID : string) (spec : WorkspaceSpec) : MD Prepared :=
  let mirror := mirror_dir root (ws_Source spec) in
  let worktree := attempt_dir root runID attemptID in
  let ref := if ws_Ref spec =s "" then "HEAD" else ws_Ref spec in
  r ← try (os_Stat mirror);
  match r with
  | Err err =>
      if errors_Is err ErrNotExist then
        os_MkdirAll (filepath_Dir mirror) ;;
        runGit "" ["clone"; "--mirror"; "--"; ws_Source spec; mirror]
      else raise err
  | Ok _ => runGit mirror ["fetch"; "--prune"; "origin"]
  end ;;
  os_MkdirAll (filepath_Dir worktree) ;;
  try (os_RemoveAll worktree) ;;
  runGit mirror ["worktree"; "add"; "--detach"; worktree; ref] ;;
  r ← try (preparedDirectory root worktree (ws_Subdir spec) false);
  match r with
  | Err err => try (remove_worktree mirror worktree) ;; raise err
  | Ok prepared => mret (mkPrepared (pd_Dir prepared) (remove_worktree mirror worktree))
  end.

(** [Manager.Prepare] under the manager's root. *)
Definition Prepare (Root runID attemptID : string) (spec : WorkspaceSpec) : MD Prepared :=
  root ← filepath_Abs (if Root =s "" then filepath_Join [TempDir; "relay-workspaces"] else Root);
  if (ws_Kind spec =s "") || (ws_Kind spec =s "temp") then
    let dir := attempt_dir root runID attemptID in
    os_MkdirAll dir ;;
    preparedDirectory root dir (ws_Subdir spec) (ws_Ephemeral spec || (ws_Kind spec =s "temp"))
  else if ws_Kind spec =s "local" then
    if (ws_Source spec =s "") || negb (IsAbs (ws_Source spec))
    then raise (errors_New "relay workspace: local source must be an absolute path")
    else
      dir ← is_directory (ws_Source spec);
      if negb dir then raise (errors_New ("relay workspace: local source is not a directory: " +:+ ws_Source spec))
      else preparedDirectory "" (ws_Source spec) (ws_Subdir spec) false
  else if ws_Kind spec =s "git" then
    if ws_Source spec =s "" then raise (errors_New "relay workspace: git source is required")
    else prepareGit root runID attemptID spec
  else raise (errors_New ("relay workspace: unsupported kind " +:+ fmt_quote (ws_Kind spec))).
End workspace.
