(* ===== verification/WorkspaceProps.v ===== *)
(** * WorkspaceProps: workspaces stay apart

    Paths as lists of elements, what the calls of the manager leave alone, and
    the isolation of the directories of different attempts. *)

From S2P Require Import Prelude GoStrings Types Url Fs Demo Workspace.

(** ** Paths and their elements *)
Definition good (e : string) : Prop := e ≠ "" ∧ e ≠ "." ∧ e ≠ ".." ∧ slash_free e.

Lemma split_app sep a b cur : split_byte sep (a +:+ String sep b) cur = split_byte sep a cur ++ split_byte sep b "".
Proof.
  revert cur. induction a as [|c a IH]; intros cur.
  - rewrite str_nil_app. simpl. by rewrite bool_decide_eq_true_2.
  - rewrite str_cons_app. simpl. case_bool_decide; [by rewrite IH|apply IH].
Qed.
Lemma Split_app a b : Split (a +:+ "/" +:+ b) slash = Split a slash ++ Split b slash.
Proof. exact (split_app slash a b ""). Qed.
Lemma Split_free s : Forall slash_free (Split s slash).
Proof.
  destruct (split_spec s "") as (x & l & Hs & _ & Hx & Hl); [done|].
  change (Split s slash) with (split_byte slash_byte s ""). rewrite Hs. by constructor.
Qed.
Lemma Split_Join l : l ≠ [] → Forall slash_free l → Split (Join l "/") slash = l.
Proof.
  induction l as [|x l IH]; [done|]. intros _ Hl. apply Forall_cons in Hl as [Hx Hl].
  destruct l as [|y l]; [exact (split_last slash x "" Hx)|].
  change (Join (x :: y :: l) "/") with (x +:+ "/" +:+ Join (y :: l) "/"). rewrite Split_app, IH by done.
  by rewrite (split_last slash x "" Hx : Split x slash = _).
Qed.

Lemma resolve_app r st a b : resolve r st (a ++ b) = resolve r (resolve r st a) b.
Proof.
  revert st. induction a as [|x a IH]; intros st; [done|]. simpl. repeat case_match; apply IH.
Qed.
Lemma resolve_good st l : Forall good l → resolve true st l = reverse l ++ st.
Proof.
  intros Hl. revert st. induction Hl as [|x l (Hne & Hd & Hdd & _) _ IH]; intros st; [done|]. simpl.
  rewrite !bool_decide_eq_false_2 by done. simpl. rewrite IH, reverse_cons. by rewrite <- app_assoc.
Qed.
Lemma good_resolved st l : Forall good st → Forall slash_free l → Forall good (resolve true st l).
Proof.
  intros Hst Hl. revert st Hst. induction Hl as [|x l Hx _ IH]; intros st Hst; [done|]. simpl.
  destruct ((x =s "") || (x =s ".")) eqn:E; [by apply IH|]. apply orb_false_iff in E as [E1 E2].
  apply bool_decide_eq_false in E1, E2. case_bool_decide as E3.
  - destruct st as [|top st]; [by apply IH|]. apply Forall_cons in Hst as [(Ht & ? & Hdd & ?) Hst].
    rewrite bool_decide_eq_false_2 by done. by apply IH.
  - apply IH. by constructor.
Qed.
Lemma path_elems_good p : Forall good (path_elems p).
Proof. apply Forall_reverse, good_resolved; [constructor|apply Split_free]. Qed.

Lemma abs_slashed es : es ≠ [] → abs_path es = slashed es.
Proof.
  unfold abs_path. induction es as [|x es IH]; [done|]. intros _. destruct es as [|y es].
  - simpl. by rewrite str_app_nil_r.
  - specialize (IH ltac:(done)). change (Join (x :: y :: es) "/") with (x +:+ "/" +:+ Join (y :: es) "/").
    rewrite IH. reflexivity.
Qed.
Lemma good_free es : Forall good es → Forall slash_free es.
Proof. intros Hes. eapply Forall_impl; [exact Hes|]. by intros x (_ & _ & _ & ?). Qed.
Lemma Split_abs es : es ≠ [] → Forall good es → Split (abs_path es) slash = "" :: es.
Proof. intros Hne Hes. rewrite abs_slashed by done. by apply Split_slashed, good_free. Qed.
Lemma path_elems_abs es : Forall good es → path_elems (abs_path es) = es.
Proof.
  intros Hes. destruct (decide (es = [])) as [->|Hne]; [reflexivity|]. unfold path_elems. rewrite Split_abs by done.
  cbn [resolve]. rewrite bool_decide_eq_true_2 by done. cbn [orb]. rewrite resolve_good by done.
  by rewrite app_nil_r, reverse_involutive.
Qed.
Lemma IsAbs_abs es : IsAbs (abs_path es) = true.
Proof. apply (prefix_app "/"). Qed.
Lemma Clean_abs p : IsAbs p = true → Clean p = abs_path (path_elems p).
Proof. unfold Clean. by intros ->. Qed.

(** Joining names below a clean path. *)
Lemma Join_abs es parts : Forall good es → parts ≠ [] → Forall slash_free parts →
  filepath_Join (abs_path es :: parts) = abs_path (reverse (resolve true (reverse es) parts)).
Proof.
  intros Hes Hne Hp. cbn [filepath_Join].
  assert (Hj : Join (abs_path es :: parts) "/" = abs_path es +:+ "/" +:+ Join parts "/") by by destruct parts.
  rewrite bool_decide_eq_false_2 by (unfold abs_path; done). rewrite Hj, Clean_abs by apply (prefix_app "/").
  unfold path_elems at 1. rewrite Split_app, Split_Join, resolve_app by done. do 2 f_equal.
  rewrite <- (path_elems_abs es Hes) at 2. unfold path_elems. by rewrite reverse_involutive.
Qed.

(** ** Below *)
Lemma below_split es p : es ≠ [] → Forall good es → below (abs_path es) p = true →
  ∃ rest, Split p slash = "" :: es ++ rest.
Proof.
  intros Hne Hes. unfold below. rewrite orb_true_iff, bool_decide_eq_true. intros [->|Hp].
  - exists []. by rewrite app_nil_r, Split_abs.
  - unfold HasPrefix in Hp. apply prefix_spec in Hp as [t ->]. exists (Split t slash).
    rewrite str_app_assoc, Split_app, Split_abs by done. done.
Qed.
Lemma below_comparable es es' p :
  es ≠ [] → es' ≠ [] → Forall good es → Forall good es' →
  below (abs_path es) p = true → below (abs_path es') p = true → es `prefix_of` es' ∨ es' `prefix_of` es.
Proof.
  intros H1 H2 G1 G2 B1 B2. apply below_split in B1 as [r1 E1]; [|done..]. apply below_split in B2 as [r2 E2]; [|done..].
  apply (prefix_weak_total _ _ (es ++ r1)); [by exists r1|]. exists r2. congruence.
Qed.
Lemma in_ancestors q es : Forall good es → q ∈ ancestors (abs_path es) → ∃ pre, pre `prefix_of` es ∧ q = abs_path pre.
Proof.
  intros Hes. unfold ancestors. rewrite path_elems_abs by done. intros Hq.
  apply list_elem_of_fmap in Hq as (pre & -> & Hpre). exists pre. split; [|done]. clear -Hpre.
  revert pre Hpre. induction es as [|x es IH]; simpl; intros pre Hpre.
  - apply list_elem_of_singleton in Hpre as ->. done.
  - apply elem_of_cons in Hpre as [->|Hpre]; [apply prefix_nil|].
    apply list_elem_of_fmap in Hpre as (pre' & -> & Hpre). destruct (IH pre' Hpre) as [l ->]. by exists l.
Qed.

(** ** Segments *)
Lemma replace_slashes s skip : slash_free (replace_from "/" "_" skip s).
Proof.
  revert skip. induction s as [|c s IH]; intros skip; [done|]. destruct skip as [|skip]; [|apply IH].
  change (replace_from "/" "_" 0 (String c s)) with
    (if HasPrefix (String c s) "/" then "_" +:+ replace_from "/" "_" 0 s else String c (replace_from "/" "_" 0 s)).
  destruct (HasPrefix (String c s) "/") eqn:E; [exact (IH 0)|]. unfold slash_free. simpl.
  rewrite bool_decide_eq_false_2; [exact (IH 0)|]. intros <-.
  unfold HasPrefix in E. rewrite (prefix_app "/" s : String.prefix "/" (String slash_byte s) = true) in E. done.
Qed.
Lemma replace_free c old new skip s :
  has_char c new = false → has_char c s = false → has_char c (replace_from old new skip s) = false.
Proof.
  intros Hn. revert skip. induction s as [|d s IH]; intros skip Hs; [done|]. simpl in Hs.
  apply orb_false_iff in Hs as [Hd Hs]. cbn [replace_from]. destruct skip; [|by apply IH].
  destruct (HasPrefix (String d s) old); [by rewrite has_char_app, Hn, IH|]. simpl. by rewrite Hd, IH.
Qed.
Lemma safe_slash_free s : slash_free (safeSegment s).
Proof. apply replace_free; [done|]. apply replace_slashes. Qed.

(** No segment climbs. *)
Lemma replace_no_dots s : replace_from ".." "_" 0 s ≠ "..".
Proof.
  destruct s as [|a s]; [done|]. cbn [replace_from].
  destruct (HasPrefix (String a s) "..") eqn:Ha; [done|]. intros [= -> Hs].
  destruct s as [|b s]; [done|]. cbn [replace_from] in Hs.
  destruct (HasPrefix (String b s) "..") eqn:Hb; [done|]. injection Hs as -> _.
  rewrite (prefix_app ".." s : HasPrefix (String _ (String _ s)) ".." = true) in Ha. done.
Qed.
Lemma safe_no_dots s : safeSegment s ≠ "..".
Proof. apply replace_no_dots. Qed.

(** An ID that names one directory. *)
Definition plain_segment (s : string) : Prop := good s ∧ Contains s ".." = false.
Lemma replace_absent old new s : Contains s old = false → replace_from old new 0 s = s.
Proof.
  unfold Contains. rewrite negb_false_iff, bool_decide_eq_true. induction s as [|c s IH]; [done|].
  rewrite Index_cons. unfold HasPrefix. cbn [replace_from]. unfold HasPrefix.
  destruct (String.prefix old (String c s)); [done|]. intros Hi. rewrite IH; [done|]. by destruct (Index s old).
Qed.
Lemma replace_slash_absent s : slash_free s → replace_from "/" "_" 0 s = s.
Proof.
  induction s as [|c s IH]; [done|]. unfold slash_free. cbn [has_char replace_from]. rewrite orb_false_iff. intros [Hc Hs].
  apply bool_decide_eq_false in Hc. unfold HasPrefix. rewrite prefix_cons.
  destruct (Ascii.ascii_dec _ c) as [<-|_]; [done|]. by rewrite IH.
Qed.
Lemma safe_plain s : plain_segment s → safeSegment s = s.
Proof.
  intros [(_ & _ & _ & Hs) Hd]. unfold safeSegment, ReplaceAll. rewrite replace_slash_absent by done.
  by apply replace_absent.
Qed.

(** The elements a segment contributes: none when it is empty or a dot. *)
Definition segment (s : string) : list string := if (s =s "") || (s =s ".") then [] else [s].
Lemma resolve_safe st s : resolve true st [safeSegment s] = segment (safeSegment s) ++ st.
Proof.
  unfold segment. cbn [resolve]. destruct (_ || _); [done|].
  rewrite bool_decide_eq_false_2 by apply safe_no_dots. done.
Qed.
Lemma segment_good s : Forall good (segment (safeSegment s)).
Proof.
  unfold segment. destruct (_ || _) eqn:E; [constructor|]. apply orb_false_iff in E as [E1 E2].
  apply bool_decide_eq_false in E1, E2. constructor; [|constructor].
  split_and!; [done|done|apply safe_no_dots|apply safe_slash_free].
Qed.
Lemma segment_plain s : plain_segment s → segment (safeSegment s) = [s].
Proof.
  intros Hs. rewrite safe_plain by done. destruct Hs as [(Hne & Hd & _) _]. unfold segment.
  by rewrite !bool_decide_eq_false_2.
Qed.

Lemma reverse_segment s : reverse (segment s) = segment s.
Proof. unfold segment. by destruct (_ || _). Qed.

Definition attempt_elems (es : list string) (runID attemptID : string) : list string :=
  es ++ "runs" :: segment (safeSegment runID) ++ segment (safeSegment attemptID).
Lemma attempt_elems_good es r a : Forall good es → Forall good (attempt_elems es r a).
Proof.
  intros Hes. apply Forall_app. split; [done|]. constructor; [by repeat split|].
  apply Forall_app. split; apply segment_good.
Qed.
Lemma attempt_dir_abs es r a : Forall good es → attempt_dir (abs_path es) r a = abs_path (attempt_elems es r a).
Proof.
  intros Hes. unfold attempt_dir. rewrite Join_abs; [|done|done|].
  2:{ repeat constructor; apply safe_slash_free. }
  change ["runs"; safeSegment r; safeSegment a] with (["runs"] ++ [safeSegment r] ++ [safeSegment a]).
  rewrite !resolve_app, !resolve_safe. rewrite (resolve_good _ ["runs"]) by (repeat constructor; done).
  unfold attempt_elems. rewrite !reverse_app, !reverse_involutive, !reverse_segment. by rewrite <- !app_assoc.
Qed.
Lemma attempt_elems_plain es r a :
  plain_segment r → plain_segment a → attempt_elems es r a = es ++ ["runs"; r; a].
Proof. intros Hr Ha. unfold attempt_elems. by rewrite !segment_plain. Qed.

Definition mirror_name (source : string) `{Host} : string := str_take 24 (sha256_hex source) +:+ ".git".
Lemma take_free c n s : has_char c s = false → has_char c (str_take n s) = false.
Proof.
  rewrite <- (str_take_drop n s) at 1. rewrite has_char_app. by intros [? _]%orb_false_iff.
Qed.
Lemma mirror_name_good `{Host} source : slash_free (sha256_hex source) → good (mirror_name source).
Proof.
  intros Hs. unfold mirror_name. assert (Hlen : ∀ s, 4 ≤ String.length (s +:+ ".git")).
  { intros s. rewrite str_length_app. simpl. lia. }
  specialize (Hlen (str_take 24 (sha256_hex source))). split_and!.
  1-3: intros He; rewrite He in Hlen; simpl in Hlen; lia.
  unfold slash_free. rewrite has_char_app, take_free by done. done.
Qed.
Lemma mirror_dir_abs `{Host} es source : Forall good es → slash_free (sha256_hex source) →
  mirror_dir (abs_path es) source = abs_path (es ++ ["git"; mirror_name source]).
Proof.
  intros Hes Hs. pose proof (mirror_name_good source Hs) as Hg.
  assert (Hparts : Forall good ["git"; mirror_name source]) by (repeat constructor; done || apply Hg).
  unfold mirror_dir. fold (mirror_name source). rewrite Join_abs; [|done|done|by apply good_free].
  rewrite resolve_good by done. by rewrite reverse_app, !reverse_involutive.
Qed.

(** ** What a call leaves alone *)
Definition same_at (p : string) (d d' : Disk) : Prop :=
  (p ∈ dk_dirs d ↔ p ∈ dk_dirs d') ∧ dk_files d !! p = dk_files d' !! p.
Lemma same_refl p d : same_at p d d.
Proof. by split. Qed.
Lemma same_trans p d1 d2 d3 : same_at p d1 d2 → same_at p d2 d3 → same_at p d1 d3.
Proof. intros [D1 F1] [D2 F2]. split; [by rewrite D1|by rewrite F1]. Qed.

(** git works in the directory it is run in and in those it is given. *)
Class GitLaws `{Machine} : Prop := {
  git_clone : ∀ n source mirror d p, below mirror p = false →
    same_at p d (git_at n "" ["clone"; "--mirror"; "--"; source; mirror] d).2;
  git_fetch : ∀ n mirror d p, below mirror p = false →
    same_at p d (git_at n mirror ["fetch"; "--prune"; "origin"] d).2;
  git_worktree_add : ∀ n mirror worktree ref d p, below mirror p = false → below worktree p = false →
    same_at p d (git_at n mirror ["worktree"; "add"; "--detach"; worktree; ref] d).2;
  git_worktree_remove : ∀ n mirror worktree d p, below mirror p = false → below worktree p = false →
    same_at p d (git_at n mirror ["worktree"; "remove"; "--force"; worktree] d).2
}.

Section frame.
Context `{Host} `{GitLaws} (p : string).

Definition untouched {A} (m : MD A) : Prop := ∀ w, same_at p (w_st w) (w_st (m w).2).

Lemma untouched_pure {A} (m : MD A) : (∀ w, w_st (m w).2 = w_st w) → untouched m.
Proof. intros Hm w. rewrite Hm. apply same_refl. Qed.
Lemma untouched_bind {A B} (m : MD A) (k : A → MD B) : untouched m → (∀ a, untouched (k a)) → untouched (m ≫= k).
Proof.
  intros Hm Hk w. unfold mbind, M_bind. specialize (Hm w). destruct (m w) as [[a|e] w1]; [|done].
  eapply same_trans; [exact Hm|apply Hk].
Qed.
Lemma untouched_try {A} (m : MD A) : untouched m → untouched (try m).
Proof. intros Hm w. unfold try. specialize (Hm w). by destruct (m w). Qed.
Lemma untouched_disk_call : untouched disk_call.
Proof. apply untouched_pure. intros w. unfold disk_call, host, mbind, M_bind. by destruct (dfault_at _). Qed.
Lemma untouched_is_directory path : untouched (is_directory path).
Proof.
  apply untouched_bind; [apply untouched_try, untouched_disk_call|]. intros [?|?]; by apply untouched_pure.
Qed.
Lemma untouched_Stat path : untouched (os_Stat path).
Proof.
  apply untouched_bind; [apply untouched_disk_call|]. intros _. apply untouched_bind; [by apply untouched_pure|].
  intros []; by apply untouched_pure.
Qed.
Lemma untouched_Abs path : untouched (filepath_Abs path).
Proof.
  unfold filepath_Abs. destruct (IsAbs path); [by apply untouched_pure|]. apply untouched_bind; [by apply untouched_pure|].
  intros wd. apply untouched_bind; [by apply untouched_pure|]. intros ?. by apply untouched_pure.
Qed.

Lemma same_make paths d : p ∉ paths → same_at p d (make_dirs paths d).
Proof. intros Hp. split; [|done]. simpl. rewrite elem_of_union, elem_of_list_to_set. tauto. Qed.
Lemma untouched_MkdirAll path : p ∉ ancestors path → untouched (os_MkdirAll path).
Proof.
  intros Hp w. unfold os_MkdirAll, host, mbind, M_bind. destruct (dfault_at _).
  - apply same_make. intros Hin. apply Hp. rewrite <- (take_drop (made_at (w_tick w)) (ancestors path)).
    apply elem_of_app. by left.
  - unfold gets. cbn. destruct (existsb _ _); [apply same_refl|]. by apply same_make.
Qed.
Lemma same_keep keep d : keep p = true → same_at p d (keep_paths keep d).
Proof.
  intros Hp. split; simpl.
  - rewrite elem_of_filter. tauto.
  - destruct (dk_files d !! p) as [v|] eqn:Hv.
    + symmetry. by apply map_lookup_filter_Some.
    + symmetry. apply map_lookup_filter_None. by left.
Qed.
Lemma untouched_RemoveAll path : below path p = false → untouched (os_RemoveAll path).
Proof.
  intros Hp w. unfold os_RemoveAll, host, mbind, M_bind. destruct (dfault_at _); apply same_keep; by rewrite Hp.
Qed.
Lemma untouched_git dir args :
  (∀ n d, same_at p d (git_at n dir args d).2) → untouched (runGit dir args).
Proof.
  intros Hg w. unfold runGit. specialize (Hg (w_tick w) (w_st w)).
  destruct (git_at _ _ _ _) as [[[e|] out] d]; exact Hg.
Qed.
Lemma untouched_remove_worktree mirror worktree :
  below mirror p = false → below worktree p = false → untouched (remove_worktree mirror worktree).
Proof. intros. apply untouched_git. intros. by apply git_worktree_remove. Qed.
End frame.

(** ** What a preparation gives *)
Section lands.
Context `{Host} `{Machine}.

(** The directory exists and lies below [own]. *)
Definition lands (own : string) (m : MD Prepared) : Prop :=
  ∀ w pd, (m w).1 = Ok pd → pd_Dir pd ∈ dk_dirs (w_st (m w).2) ∧ below own (pd_Dir pd) = true.

Lemma lands_raise own e : lands own (raise e).
Proof. by intros w pd. Qed.
Lemma lands_bind {A} own (m : MD A) (k : A → MD Prepared) : (∀ a, lands own (k a)) → lands own (m ≫= k).
Proof. intros Hk w pd. unfold mbind, M_bind. destruct (m w) as [[a|e] w1]; [apply Hk|done]. Qed.

Lemma Abs_clean path : IsAbs path = true → filepath_Abs path = mret (Clean path).
Proof. unfold filepath_Abs. by intros ->. Qed.
Lemma target_abs dir subdir : IsAbs dir = true → IsAbs (if subdir =s "" then dir else filepath_Join [dir; Clean subdir]) = true.
Proof.
  intros Hd. case_bool_decide; [done|]. cbn [filepath_Join]. rewrite bool_decide_eq_false_2 by by destruct dir.
  change (Join [dir; Clean subdir] "/") with (dir +:+ "/" +:+ Clean subdir).
  rewrite Clean_abs; [apply IsAbs_abs|]. unfold IsAbs, HasPrefix in *. apply prefix_spec in Hd as [t ->].
  rewrite str_app_assoc. apply prefix_app.
Qed.

Lemma preparedDirectory_spec root dir subdir ephemeral w :
  IsAbs dir = true →
  let '(res, w1) := preparedDirectory root dir subdir ephemeral w in
  w_st w1 = w_st w ∧
  ∀ pd, res = Ok pd →
    pd_Dir pd ∈ dk_dirs (w_st w1) ∧ below (Clean dir) (pd_Dir pd) = true ∧
    pd_Cleanup pd = if ephemeral && negb (root =s "") then os_RemoveAll (Clean dir) else mret ().
Proof.
  intros Hd. unfold preparedDirectory. rewrite (Abs_clean _ (target_abs dir subdir Hd)), (Abs_clean dir Hd).
  set (target := Clean (if subdir =s "" then dir else filepath_Join [dir; Clean subdir])). unfold mbind, M_bind, mret, M_ret.
  destruct (negb (target =s Clean dir) && negb (HasPrefix target (Clean dir +:+ "/"))) eqn:E; [done|].
  unfold is_directory, disk_call, host, try, gets, raise, mbind, M_bind, mret, M_ret.
  destruct (dfault_at (w_tick w)); [done|]. cbn.
  destruct (bool_decide (target ∈ dk_dirs (w_st w))) eqn:Hin; cbn; [|by split]. apply bool_decide_eq_true in Hin.
  split; [done|]. intros pd [= <-]. cbn. split_and!; [done| |done].
  unfold below. by rewrite <- negb_orb, negb_false_iff in E.
Qed.
Lemma lands_prepared own root dir subdir ephemeral :
  IsAbs dir = true → own = Clean dir → lands own (preparedDirectory root dir subdir ephemeral).
Proof.
  intros Hd -> w pd Hres. pose proof (preparedDirectory_spec root dir subdir ephemeral w Hd) as Hs.
  destruct (preparedDirectory _ _ _ _ w) as [res w1]. cbn [fst snd] in *. destruct Hs as [_ Hs].
  destruct (Hs pd Hres) as (? & ? & _). done.
Qed.

Lemma Clean_abs_path es : Forall good es → Clean (abs_path es) = abs_path es.
Proof. intros Hes. rewrite Clean_abs by apply IsAbs_abs. by rewrite path_elems_abs. Qed.

Lemma lands_ret_bind {A} own a (k : A → MD Prepared) : lands own (k a) → lands own (mret a ≫= k).
Proof. done. Qed.
Lemma lands_git own root runID attemptID spec :
  own = Clean (attempt_dir root runID attemptID) → IsAbs (attempt_dir root runID attemptID) = true →
  lands own (prepareGit root runID attemptID spec).
Proof.
  intros -> Habs. unfold prepareGit. do 5 (apply lands_bind; intros ?). intros w pd. unfold try, mbind, M_bind, mret, M_ret.
  pose proof (preparedDirectory_spec root (attempt_dir root runID attemptID) (ws_Subdir spec) false w Habs) as Hs.
  destruct (preparedDirectory _ _ _ _ w) as [[prepared|e] w1].
  - destruct Hs as [_ Hs]. destruct (Hs prepared eq_refl) as (Hin & Hb & _).
    by intros [= <-].
  - by destruct (remove_worktree _ _ w1).
Qed.

Lemma Prepare_lands Root runID attemptID spec :
  IsAbs Root = true →
  lands (if ws_Kind spec =s "local" then Clean (ws_Source spec) else attempt_dir (Clean Root) runID attemptID)
    (Prepare Root runID attemptID spec).
Proof.
  intros Hroot. unfold Prepare.
  rewrite (bool_decide_eq_false_2 (Root = "")) by by destruct Root. rewrite (Abs_clean Root Hroot). apply lands_ret_bind.
  rewrite (Clean_abs Root Hroot). pose proof (path_elems_good Root) as Hes. set (es := path_elems Root) in *.
  pose proof (attempt_elems_good es runID attemptID Hes) as Hgood.
  assert (Hown : attempt_dir (abs_path es) runID attemptID = Clean (attempt_dir (abs_path es) runID attemptID)).
  { rewrite attempt_dir_abs by done. by rewrite Clean_abs_path. }
  assert (Habs : IsAbs (attempt_dir (abs_path es) runID attemptID) = true) by (rewrite attempt_dir_abs by done; apply IsAbs_abs).
  destruct (decide (ws_Kind spec = "" ∨ ws_Kind spec = "temp")) as [Hk|Hk].
  { replace ((ws_Kind spec =s "") || (ws_Kind spec =s "temp")) with true.
    2:{ symmetry. apply orb_true_iff. rewrite !bool_decide_eq_true. done. }
    rewrite (bool_decide_eq_false_2 (ws_Kind spec = "local")) by (intros He; destruct Hk; congruence).
    apply lands_bind. intros _. by apply lands_prepared. }
  rewrite (bool_decide_eq_false_2 (ws_Kind spec = "")), (bool_decide_eq_false_2 (ws_Kind spec = "temp")) by tauto.
  cbn [orb]. case_bool_decide as Hlocal.
  { destruct ((ws_Source spec =s "") || negb (IsAbs (ws_Source spec))) eqn:E; [apply lands_raise|].
    apply orb_false_iff in E as [_ Hsrc%negb_false_iff].
    apply lands_bind. intros []; cbn [negb]; [by apply lands_prepared|apply lands_raise]. }
  case_bool_decide; [|apply lands_raise]. case_bool_decide; [apply lands_raise|]. by apply lands_git.
Qed.
End lands.

(** ** Attempts apart *)
Section apart.
Context `{Host} `{GitLaws} (es : list string) (Hes : Forall good es).

(** [p] lies in the directory of another attempt. *)
Context (r' a' p : string) (Hr' : plain_segment r') (Ha' : plain_segment a').
Context (Hp : below (abs_path (es ++ ["runs"; r'; a'])) p = true).

Lemma other_good : Forall good (es ++ ["runs"; r'; a']).
Proof. apply Forall_app. split; [done|]. repeat constructor; try done; first [apply Hr' | apply Ha']. Qed.
Lemma app_nonempty (l : list string) x : l ++ x :: [] ≠ [].
Proof. by destruct l. Qed.

Lemma not_ancestor l : Forall good l → ¬ (es ++ ["runs"; r'; a']) `prefix_of` l → p ∉ ancestors (abs_path l).
Proof.
  intros Hl Hno Hin. apply in_ancestors in Hin as (pre & Hpre & ->); [|done]. apply Hno. etrans; [|exact Hpre].
  destruct (below_split (es ++ ["runs"; r'; a']) (abs_path pre)) as [rest Hrest]; [by destruct es|apply other_good|exact Hp|].
  destruct Hpre as [k ->]. apply Forall_app in Hl as [Hpre _]. destruct (decide (pre = [])) as [->|Hne].
  - exfalso. apply (f_equal length) in Hrest. change (length (Split (abs_path []) slash)) with 2 in Hrest.
    cbn [length] in Hrest. rewrite !length_app in Hrest. simpl in Hrest. lia.
  - rewrite Split_abs in Hrest by done. injection Hrest as ->. by exists rest.
Qed.
Lemma not_below l : l ≠ [] → Forall good l →
  ¬ (es ++ ["runs"; r'; a']) `prefix_of` l → ¬ l `prefix_of` (es ++ ["runs"; r'; a']) → below (abs_path l) p = false.
Proof.
  intros Hne Hl L1 L2. destruct (below (abs_path l) p) eqn:Hb; [|done].
  destruct (below_comparable l (es ++ ["runs"; r'; a']) p); [done|by destruct es|done|apply other_good|done|done|tauto|tauto].
Qed.

(** Three names below the root: a prefix only of the same names. *)
Lemma prefix_below l : (es ++ ["runs"; r'; a']) `prefix_of` (es ++ l) → ["runs"; r'; a'] `prefix_of` l.
Proof. intros [k Hk]. exists k. rewrite <- app_assoc in Hk. by apply app_inv_head in Hk. Qed.
Lemma prefix_above l : (es ++ l) `prefix_of` (es ++ ["runs"; r'; a']) → l `prefix_of` ["runs"; r'; a'].
Proof. intros [k Hk]. exists k. rewrite <- app_assoc in Hk. by apply app_inv_head in Hk. Qed.

Context (runID attemptID : string) (spec : WorkspaceSpec).
Context (Hr : plain_segment runID) (Ha : plain_segment attemptID) (Hne : (r', a') ≠ (runID, attemptID)).
Context (Hdigest : slash_free (sha256_hex (ws_Source spec))).
Abbreviation own := (es ++ ["runs"; runID; attemptID]).

Lemma own_dir : attempt_dir (abs_path es) runID attemptID = abs_path own.
Proof. rewrite attempt_dir_abs by done. by rewrite attempt_elems_plain. Qed.
Lemma own_good : Forall good own.
Proof. apply Forall_app. split; [done|]. repeat constructor; try done; first [apply Hr | apply Ha]. Qed.
Lemma other_not_own : ¬ (es ++ ["runs"; r'; a']) `prefix_of` own.
Proof. intros Hpre%prefix_below. destruct Hpre as [k Hk]. injection Hk as -> -> _. done. Qed.
Lemma own_not_other : ¬ own `prefix_of` (es ++ ["runs"; r'; a']).
Proof. intros Hpre%prefix_above. destruct Hpre as [k Hk]. injection Hk as -> -> _. done. Qed.

Lemma own_apart : below (abs_path own) p = false.
Proof. apply not_below; [by destruct es|apply own_good|apply other_not_own|apply own_not_other]. Qed.
Lemma own_made : untouched p (os_MkdirAll (abs_path own)).
Proof. apply untouched_MkdirAll, not_ancestor; [apply own_good|apply other_not_own]. Qed.
Lemma own_parent_made : untouched p (os_MkdirAll (filepath_Dir (abs_path own))).
Proof.
  unfold filepath_Dir. rewrite path_elems_abs by apply own_good. rewrite removelast_app by done. cbn [removelast].
  apply untouched_MkdirAll, not_ancestor.
  - apply Forall_app. split; [done|]. repeat constructor; try done; apply Hr.
  - intros [k Hk]%prefix_below. discriminate Hk.
Qed.
Lemma mirror_good : Forall good (es ++ ["git"; mirror_name (ws_Source spec)]).
Proof. apply Forall_app. split; [done|]. repeat constructor; try done; by apply mirror_name_good. Qed.
Lemma mirror_apart : below (abs_path (es ++ ["git"; mirror_name (ws_Source spec)])) p = false.
Proof.
  apply not_below; [by destruct es|apply mirror_good| |].
  - intros [k Hk]%prefix_below. discriminate Hk.
  - intros [k Hk]%prefix_above. discriminate Hk.
Qed.
Lemma mirror_parent_made : untouched p (os_MkdirAll (filepath_Dir (abs_path (es ++ ["git"; mirror_name (ws_Source spec)])))).
Proof.
  unfold filepath_Dir. rewrite path_elems_abs by apply mirror_good. rewrite removelast_app by done. cbn [removelast].
  apply untouched_MkdirAll, not_ancestor.
  - apply Forall_app. split; [done|]. by repeat constructor.
  - intros [k Hk]%prefix_below. discriminate Hk.
Qed.

(** [p] stays as it is, now and when the workspace is cleaned up. *)
Definition spares (m : MD Prepared) : Prop :=
  untouched p m ∧ ∀ w pd, (m w).1 = Ok pd → untouched p (pd_Cleanup pd).
Lemma spares_raise e : spares (raise e).
Proof. split; [by apply untouched_pure|]. by intros w pd. Qed.
Lemma spares_bind {A} (m : MD A) (k : A → MD Prepared) : untouched p m → (∀ a, spares (k a)) → spares (m ≫= k).
Proof.
  intros Hm Hk. split; [apply untouched_bind; [done|apply Hk]|]. intros w pd. unfold mbind, M_bind.
  destruct (m w) as [[a|e] w1]; [apply Hk|done].
Qed.
Lemma spares_ret_bind {A} a (k : A → MD Prepared) : spares (k a) → spares (mret a ≫= k).
Proof. done. Qed.

Lemma prepared_untouched root dir subdir ephemeral : IsAbs dir = true → untouched p (preparedDirectory root dir subdir ephemeral).
Proof.
  intros Hd. apply untouched_pure. intros w. pose proof (preparedDirectory_spec root dir subdir ephemeral w Hd) as Hs.
  destruct (preparedDirectory _ _ _ _ w). apply Hs.
Qed.
Lemma spares_prepared root dir subdir ephemeral :
  IsAbs dir = true → (ephemeral = false ∨ below (Clean dir) p = false) → spares (preparedDirectory root dir subdir ephemeral).
Proof.
  intros Hd Hb. split; [by apply prepared_untouched|]. intros w pd Hres.
  pose proof (preparedDirectory_spec root dir subdir ephemeral w Hd) as Hs.
  destruct (preparedDirectory _ _ _ _ w) as [res w1]. destruct Hs as [_ Hs]. destruct (Hs pd Hres) as (_ & _ & ->).
  destruct Hb as [-> | Hb]; [by apply untouched_pure|].
  destruct (ephemeral && _); [by apply untouched_RemoveAll|by apply untouched_pure].
Qed.

Lemma spares_git : spares (prepareGit (abs_path es) runID attemptID spec).
Proof.
  unfold prepareGit. rewrite own_dir, mirror_dir_abs by done. fold (mirror_name (ws_Source spec)).
  set (mirror := abs_path (es ++ ["git"; mirror_name (ws_Source spec)])).
  assert (Hadd : ∀ ref, untouched p (runGit mirror ["worktree"; "add"; "--detach"; abs_path own; ref])).
  { intros ref. apply untouched_git. intros. apply git_worktree_add; [apply mirror_apart|apply own_apart]. }
  assert (Hrem : untouched p (remove_worktree mirror (abs_path own))).
  { apply untouched_remove_worktree; [apply mirror_apart|apply own_apart]. }
  apply spares_bind; [apply untouched_try, untouched_Stat|]. intros r.
  apply spares_bind.
  { destruct r as [[]|err].
    - apply untouched_git. intros. apply git_fetch, mirror_apart.
    - destruct (errors_Is err ErrNotExist); [|by apply untouched_pure].
      apply untouched_bind; [apply mirror_parent_made|]. intros _. apply untouched_git. intros. apply git_clone, mirror_apart. }
  intros _. apply spares_bind; [apply own_parent_made|]. intros _.
  apply spares_bind; [apply untouched_try, untouched_RemoveAll, own_apart|]. intros _.
  apply spares_bind; [apply Hadd|]. intros _.
  apply spares_bind; [apply untouched_try, prepared_untouched, IsAbs_abs|]. intros [prepared|err].
  - split; [by apply untouched_pure|]. by intros w pd [= <-].
  - apply spares_bind; [by apply untouched_try|]. intros _. apply spares_raise.
Qed.
End apart.

Section isolation.
Context `{Host} `{GitLaws}.

Lemma Prepare_spares Root runID attemptID spec r' a' p :
  IsAbs Root = true → slash_free (sha256_hex (ws_Source spec)) →
  plain_segment runID → plain_segment attemptID → plain_segment r' → plain_segment a' → (r', a') ≠ (runID, attemptID) →
  below (attempt_dir (Clean Root) r' a') p = true → spares p (Prepare Root runID attemptID spec).
Proof.
  intros Hroot Hdigest Hr Ha Hr' Ha' Hne. rewrite (Clean_abs Root Hroot).
  pose proof (path_elems_good Root) as Hes. set (es := path_elems Root) in *.
  rewrite attempt_dir_abs, attempt_elems_plain by done. intros Hp. unfold Prepare.
  rewrite (bool_decide_eq_false_2 (Root = "")) by by destruct Root. rewrite (Abs_clean Root Hroot).
  rewrite (Clean_abs Root Hroot). fold es. apply spares_ret_bind.
  destruct ((ws_Kind spec =s "") || (ws_Kind spec =s "temp")).
  { rewrite (own_dir es Hes runID attemptID Hr Ha). apply spares_bind; [exact (own_made es Hes r' a' p Hr' Ha' Hp runID attemptID Hr Ha Hne)|]. intros _.
    apply spares_prepared; [apply IsAbs_abs|right].
    rewrite Clean_abs_path by exact (own_good es Hes runID attemptID Hr Ha).
    exact (own_apart es Hes r' a' p Hr' Ha' Hp runID attemptID Hr Ha Hne). }
  case_bool_decide.
  { destruct ((ws_Source spec =s "") || negb (IsAbs (ws_Source spec))) eqn:E; [apply spares_raise|].
    apply orb_false_iff in E as [_ Hsrc%negb_false_iff]. apply spares_bind; [apply untouched_is_directory|].
    intros []; cbn [negb]; [|apply spares_raise]. apply spares_prepared; [done|by left]. }
  case_bool_decide; [|apply spares_raise]. case_bool_decide; [apply spares_raise|]. exact (spares_git es Hes r' a' p Hr' Ha' Hp runID attemptID spec Hr Ha Hne Hdigest).
Qed.

(** C15: the directory a preparation returns exists and lies inside the
    directory of its attempt (inside the source, for a local workspace), however
    the subdirectory is written; and neither the preparation nor the clean-up
    touches anything below the directory of another attempt, also when calls
    fail half way. *)
Theorem workspaces_isolated Root runID attemptID spec w :
  IsAbs Root = true → slash_free (sha256_hex (ws_Source spec)) →
  let '(res, w') := Prepare Root runID attemptID spec w in
  let own := if ws_Kind spec =s "local" then Clean (ws_Source spec) else attempt_dir (Clean Root) runID attemptID in
  (∀ pd, res = Ok pd → pd_Dir pd ∈ dk_dirs (w_st w') ∧ below own (pd_Dir pd) = true) ∧
  (plain_segment runID → plain_segment attemptID →
   ∀ r' a' p, plain_segment r' → plain_segment a' → (r', a') ≠ (runID, attemptID) →
     below (attempt_dir (Clean Root) r' a') p = true →
     same_at p (w_st w) (w_st w') ∧ ∀ pd, res = Ok pd → untouched p (pd_Cleanup pd)).
Proof.
  intros Hroot Hdigest. pose proof (Prepare_lands Root runID attemptID spec Hroot w) as Hl.
  destruct (Prepare Root runID attemptID spec w) as [res w'] eqn:E. split; [exact Hl|].
  intros Hr Ha r' a' p Hr' Ha' Hne Hp.
  destruct (Prepare_spares Root runID attemptID spec r' a' p) as [Hu Hc]; [done..|].
  specialize (Hu w). specialize (Hc w). rewrite E in Hu, Hc. done.
Qed.
End isolation.

(** ** A manager that runs: git that makes directories *)
Definition demo_git (n : nat) (dir : string) (args : list string) (d : Disk) : option Error * string * Disk :=
  match args with
  | "clone" :: _ :: _ :: _ :: [mirror] => (None, "", make_dirs [mirror] d)
  | "worktree" :: "add" :: _ :: [worktree; _] => (None, "", make_dirs [worktree; worktree +:+ "/docs"] d)
  | "worktree" :: "remove" :: _ :: [worktree] => (None, "", keep_paths (λ p, negb (below worktree p)) d)
  | _ => (None, "", d)
  end.
#[export] Instance demo_machine : Machine := {|
  dfault_at _ := None; made_at _ := 0; kept_at _ _ := false; git_at := demo_git;
  cwd_at _ := Ok "/home/relay"; TempDir := "/tmp" |}.
#[export] Instance demo_git_laws : GitLaws.
Proof.
  assert (Hmake : ∀ p d mirror, below mirror p = false → same_at p d (make_dirs [mirror] d)).
  { intros p d mirror Hb. apply same_make. intros ->%list_elem_of_singleton.
    unfold below in Hb. by rewrite bool_decide_eq_true_2 in Hb. }
  constructor.
  - intros n source mirror d p Hb. by apply Hmake.
  - intros. apply same_refl.
  - intros n mirror worktree ref d p _ Hb. apply same_make. rewrite !elem_of_cons, elem_of_nil.
    unfold below in Hb. apply orb_false_iff in Hb as [H1%bool_decide_eq_false H2].
    intros [->|[->|[]]]; [done|]. unfold HasPrefix in H2.
    pose proof (prefix_app (worktree +:+ "/") "docs") as Hx. rewrite str_app_assoc in Hx.
    by rewrite (Hx : String.prefix _ (worktree +:+ "/docs") = true) in H2.
  - intros n mirror worktree d p _ Hb. apply same_keep. by rewrite Hb.
Qed.

Definition git_spec (subdir : string) : WorkspaceSpec := mkWorkspaceSpec "git" "repo" "" subdir false.
Definition empty_disk : World Disk := mkWorld 0 (mkDisk ∅ ∅).

Lemma workspaces_isolated_witness :
  let '(res, w') := Prepare "/data" "run_1" "attempt_1" (git_spec "docs") empty_disk in
  let own := if ws_Kind (git_spec "docs") =s "local" then Clean (ws_Source (git_spec "docs"))
             else attempt_dir (Clean "/data") "run_1" "attempt_1" in
  (∀ pd, res = Ok pd → pd_Dir pd ∈ dk_dirs (w_st w') ∧ below own (pd_Dir pd) = true) ∧
  (plain_segment "run_1" → plain_segment "attempt_1" →
   ∀ r' a' p, plain_segment r' → plain_segment a' → (r', a') ≠ ("run_1", "attempt_1") →
     below (attempt_dir (Clean "/data") r' a') p = true →
     same_at p (w_st empty_disk) (w_st w') ∧ ∀ pd, res = Ok pd → untouched p (pd_Cleanup pd)).
Proof. apply workspaces_isolated; reflexivity. Defined.

Definition prepared_at (spec : WorkspaceSpec) : string :=
  match (Prepare "/data" "run_1" "attempt_1" spec empty_disk).1 with Ok pd => pd_Dir pd | Err e => err_msg e end.
Example prepared_git : prepared_at (git_spec "docs") = "/data/runs/run_1/attempt_1/docs".
Proof. vm_compute. reflexivity. Qed.
Example prepared_outside : prepared_at (git_spec "../attempt_2") = "relay workspace: subdir escapes workspace".
Proof. vm_compute. reflexivity. Qed.
(** Names with separators share a directory. *)
Example shared_directory : attempt_dir "/data" "a/b" "c" = attempt_dir "/data" "a_b" "c".
Proof. vm_compute. reflexivity. Qed.
