(* ===== verification/Process.v ===== *)
(** * Process: child processes and their environments (os/exec, runtime/codex/executor.go)

    A [Command] is what the code hands to [exec.Cmd]; a [Child] is what the
    process then does, as a tree: lines it prints, capability calls it makes
    through the tool bridge, files it writes, input it waits for, and its end.
    The operating system decides which child a command gets.  Also here: the
    environment a runtime passes on, and the writers that bound what is kept of a
    child's output. *)

From S2P Require Import Prelude GoStrings Json Types Fs Codec Url Workspace.

(** ** Commands *)
Record Command := mkCommand {
  cm_Binary : string; cm_Args : list string; cm_Dir : string; cm_Stdin : string; cm_Env : list string }.

Inductive Child :=
  | Prints (line : string) (k : Child)
  | Calls (call : CapabilityCall) (k : Res CapabilityResult → Child)
  | Touches (m : M FS string) (k : Child)
  | Reads (k : string → Child)                 (* the next line of its standard input *)
  | Exits (stderr : list string) (failure : option Error).

(** What the machine has: its environment, the installed programs, the working
    directory and the directory of temporary files. *)
Class Environment := {
  LookupEnv : string → option string;
  os_Environ : list string;
  LookPath : string → bool;
  working_dir : Res string;
  os_TempDir : string;
  spawn : Command → Res Child
}.

Definition Getenv `{Environment} (name : string) : string := default "" (LookupEnv name).

(** A process started without an environment gets the one of its parent. *)
Definition seen_env `{Environment} (command : Command) : list string :=
  match cm_Env command with [] => os_Environ | env => env end.

(** ** Bounded output

    [limitedBuffer] and [limitedWriter]: a write that does not fit is refused
    whole, and ends the copying. *)
Fixpoint limited_copy (overflow : Error) (remaining : Z) (chunks : list string) : string * option Error :=
  match chunks with
  | [] => ("", None)
  | chunk :: chunks =>
      if (remaining <? Z.of_nat (String.length chunk))%Z then ("", Some overflow)
      else let '(kept, err) := limited_copy overflow (remaining - Z.of_nat (String.length chunk)) chunks in
           (chunk +:+ kept, err)
  end.

(** [Cmd.Wait]: the failure of the process, else that of the copying. *)
Definition first_failure (a b : option Error) : option Error := match a with Some e => Some e | None => b end.

Lemma limited_copy_bounded overflow limit chunks :
  (0 <= limit)%Z → (Z.of_nat (String.length (limited_copy overflow limit chunks).1) <= limit)%Z.
Proof.
  revert limit. induction chunks as [|chunk chunks IH]; intros limit Hl; simpl; [lia|].
  destruct (Z.ltb_spec limit (Z.of_nat (String.length chunk))); simpl; [lia|].
  specialize (IH (limit - Z.of_nat (String.length chunk))%Z ltac:(lia)).
  destruct (limited_copy _ _ chunks) as [kept err]. simpl in *. rewrite str_length_app. lia.
Qed.
Lemma limited_copy_whole overflow limit chunks kept :
  limited_copy overflow limit chunks = (kept, None) → kept = foldr String.append "" chunks.
Proof.
  revert limit kept. induction chunks as [|chunk chunks IH]; intros limit kept; simpl; [by intros [= <-]|].
  destruct (_ <? _)%Z; [done|]. destruct (limited_copy _ _ chunks) as [rest err] eqn:E. intros [= <- ->].
  by rewrite (IH _ _ E).
Qed.

(** ** Environments *)
Definition equals : Ascii.ascii := byte_of 61.

(** The name of an entry [name=value]; [EqualFold] on ASCII names. *)
Definition env_name (entry : string) : option string :=
  match Index entry "=" with Some n => Some (str_take n entry) | None => None end.
Definition EqualFold (a b : string) : bool := fold_name a =s fold_name b.
Definition names_entry (name entry : string) : bool :=
  match env_name entry with Some n => EqualFold n name | None => false end.

Fixpoint setEnv (environment : list string) (name value : string) : list string :=
  match environment with
  | [] => [name +:+ "=" +:+ value]
  | entry :: rest =>
      if names_entry name entry then (name +:+ "=" +:+ value) :: rest
      else entry :: setEnv rest name value
  end.

(** The names passed on in any case. *)
Definition allowed_names : list string :=
  ["PATH"; "HOME"; "USER"; "LOGNAME"; "SHELL"; "TMPDIR"; "TMP"; "TEMP";
   "LANG"; "LC_ALL"; "TERM"; "COLORTERM";
   "CODEX_HOME"; "OPENAI_API_KEY"; "OPENAI_BASE_URL"; "OPENAI_ORGANIZATION"; "OPENAI_PROJECT";
   "HTTP_PROXY"; "HTTPS_PROXY"; "ALL_PROXY"; "NO_PROXY";
   "SSL_CERT_FILE"; "SSL_CERT_DIR"; "NODE_EXTRA_CA_CERTS";
   "SystemRoot"; "ComSpec"; "PATHEXT"].

Section environment.
Context `{Environment}.

Fixpoint pass_on (seen : list string) (names : list string) : list string :=
  match names with
  | [] => []
  | name :: names =>
      if (name =s "") || bool_decide (name ∈ seen) then pass_on seen names
      else match LookupEnv name with
           | Some value => (name +:+ "=" +:+ value) :: pass_on (name :: seen) names
           | None => pass_on (name :: seen) names
           end
  end.

(** [filepath.Abs], the path itself when there is no working directory. *)
Definition abs_or_same (path : string) : string :=
  if IsAbs path then Clean path
  else match working_dir with Ok wd => filepath_Join [wd; path] | Err _ => path end.

(** [runtimeEnv]; [order] is the order in which the range visits [config.Env]. *)
Definition runtimeEnv (PassEnv : list string) (Env : gmap string string) (ToolDir : string) (order : list string)
    (bridgeDir toolToken : string) (forkEnv : list string) : list string :=
  let environment := pass_on [] (allowed_names ++ forkEnv ++ PassEnv) in
  let environment := foldl (λ environment name, setEnv environment name (map_get Env name)) environment order in
  let environment :=
    if ToolDir =s "" then environment
    else setEnv environment "PATH" (abs_or_same ToolDir +:+ ":" +:+ default "" (LookupEnv "PATH")) in
  let environment := setEnv environment "RELAY_TOOL_DIR" bridgeDir in
  setEnv environment "RELAY_TOOL_TOKEN" toolToken.
End environment.

(** ** What a child gets to see *)
Lemma env_name_app name value : has_char equals name = false → env_name (name +:+ "=" +:+ value) = Some name.
Proof.
  intros Hn. assert (Hi : Index name "=" = None).
  { induction name as [|c name IH]; [done|]. simpl in Hn. apply orb_false_iff in Hn as [Hc Hn].
    rewrite Index_cons, prefix_cons. destruct (Ascii.ascii_dec _ c) as [<-|]; [by rewrite bool_decide_eq_true_2 in Hc|].
    by rewrite IH. }
  unfold env_name. by rewrite (Index_first equals "" name value eq_refl Hi : Index (name +:+ "=" +:+ value) "=" = _), str_take_app.
Qed.

Definition matching (name : string) (env : list string) : list string := filter (λ e, names_entry name e = true) env.
Definition assign (name value : string) : string := name +:+ "=" +:+ value.

Lemma names_assign n name value :
  has_char equals name = false → names_entry n (assign name value) = EqualFold name n.
Proof. intros Hn. unfold names_entry, assign. by rewrite env_name_app. Qed.
Lemma EqualFold_sym a b : EqualFold a b = EqualFold b a.
Proof. unfold EqualFold. apply bool_decide_ext. naive_solver. Qed.
Lemma names_fold n n' e : EqualFold n n' = true → names_entry n e = names_entry n' e.
Proof.
  unfold names_entry, EqualFold. intros He%bool_decide_eq_true. destruct (env_name e); [|done].
  apply bool_decide_ext. by rewrite He.
Qed.

Lemma setEnv_elem env name value e : e ∈ setEnv env name value → e ∈ env ∨ e = assign name value.
Proof.
  induction env as [|e' env IH]; simpl; [intros ->%list_elem_of_singleton; by right|].
  destruct (names_entry name e'); intros [->|Hin]%elem_of_cons; [by right|left; by right|left; by left|].
  destruct (IH Hin); [left; by right|by right].
Qed.

(** A setting replaces the one entry of its name, whatever its case, and no other. *)
Lemma setEnv_other env name value n :
  has_char equals name = false → EqualFold name n = false → matching n (setEnv env name value) = matching n env.
Proof.
  intros Hn Hf. unfold matching. induction env as [|e env IH]; simpl.
  - rewrite filter_cons_False; [done|]. change (names_entry n (assign name value) ≠ true). by rewrite names_assign, Hf.
  - destruct (names_entry name e) eqn:He.
    + rewrite (filter_cons_False _ (_ +:+ _)) by (change (names_entry n (assign name value) ≠ true); by rewrite names_assign, Hf).
      rewrite filter_cons_False; [done|]. unfold names_entry in *. destruct (env_name e) as [k|]; [|done].
      unfold EqualFold in *. apply bool_decide_eq_true in He. rewrite He. intros ?. congruence.
    + rewrite !filter_cons. by case_decide; rewrite IH.
Qed.
Lemma setEnv_same env name value n :
  has_char equals name = false → EqualFold name n = true → length (matching n env) ≤ 1 →
  matching n (setEnv env name value) = [assign name value].
Proof.
  intros Hn Hf. assert (Ha : names_entry n (assign name value) = true) by by rewrite names_assign.
  unfold matching. induction env as [|e env IH]; simpl; intros Hl.
  - by rewrite filter_cons_True.
  - rewrite (names_fold name n e Hf). destruct (names_entry n e) eqn:He.
    + rewrite filter_cons_True in Hl by done. rewrite filter_cons_True by done. simpl in Hl.
      destruct (filter _ env) eqn:Ef; [done|simpl in Hl; lia].
    + rewrite filter_cons_False in Hl by congruence. rewrite filter_cons_False by congruence. by apply IH.
Qed.

Section child_environment.
Context `{Environment}.

(** The variables of the machine whose names are listed. *)
Lemma pass_on_elem seen names e :
  e ∈ pass_on seen names → ∃ name value, name ∈ names ∧ LookupEnv name = Some value ∧ e = assign name value.
Proof.
  revert seen. induction names as [|name names IH]; intros seen; simpl; [by intros ?%elem_of_nil|].
  destruct (_ || _).
  { intros (n & v & ? & ?)%IH. exists n, v. by split; [right|]. }
  destruct (LookupEnv name) as [value|] eqn:El.
  - intros [->|(n & v & ? & ?)%IH]%elem_of_cons; [exists name, value; by split; [left|]|exists n, v; by split; [right|]].
  - intros (n & v & ? & ?)%IH. exists n, v. by split; [right|].
Qed.
Lemma pass_on_matching n seen names :
  Forall (λ name, has_char equals name = false) names → Forall (λ name, EqualFold name n = false) names →
  matching n (pass_on seen names) = [].
Proof.
  intros Hc Hf. unfold matching. revert seen. induction names as [|name names IH]; intros seen; [done|]. simpl.
  apply Forall_cons in Hc as [Hc Hcs]. apply Forall_cons in Hf as [Hf Hfs].
  destruct (_ || _); [by apply IH|]. destruct (LookupEnv name); [|by apply IH].
  rewrite filter_cons_False; [by apply IH|]. change (names_entry n (assign name s) ≠ true). by rewrite names_assign, Hf.
Qed.

Lemma foldl_setEnv_elem Env order env e :
  e ∈ foldl (λ environment name, setEnv environment name (map_get Env name)) env order →
  e ∈ env ∨ ∃ name, name ∈ order ∧ e = assign name (map_get Env name).
Proof.
  revert env. induction order as [|name order IH]; intros env; simpl; [by left|].
  intros [[Hin|Hin]%setEnv_elem|(n & ? & ?)]%IH; [by left|right; exists name; by split; [left|]|].
  right. exists n. by split; [right|].
Qed.
Lemma foldl_setEnv_one (Env : gmap string string) order env n :
  Forall (λ name, has_char equals name = false) order → length (matching n env) ≤ 1 →
  length (matching n (foldl (λ environment name, setEnv environment name (map_get Env name)) env order)) ≤ 1.
Proof.
  intros Hc. revert env. induction Hc as [|name order Hc _ IH]; intros env Hl; [done|]. simpl. apply IH.
  destruct (EqualFold name n) eqn:Ef; [by rewrite setEnv_same|by rewrite setEnv_other].
Qed.

(** C29: what a runtime process finds in its environment: every entry is a listed
    variable of the machine with its value, a setting of the configuration, the
    extended PATH or one of the two variables of the tool bridge, so nothing else
    of the machine's environment reaches it.  The variables of the bridge are set
    whatever the configuration says: unless the configuration passes them on from
    the machine itself, there is exactly one entry for each, in any case, and it
    has the directory and the token of this execution. *)
Theorem child_environment (PassEnv forkEnv order : list string) (Env : gmap string string)
    (ToolDir bridgeDir toolToken : string) :
  let env := runtimeEnv PassEnv Env ToolDir order bridgeDir toolToken forkEnv in
  let listed := allowed_names ++ forkEnv ++ PassEnv in
  (∀ e, e ∈ env →
     (∃ name value, name ∈ listed ∧ LookupEnv name = Some value ∧ e = assign name value) ∨
     (∃ name, name ∈ order ∧ e = assign name (map_get Env name)) ∨
     (ToolDir ≠ "" ∧ e = assign "PATH" (abs_or_same ToolDir +:+ ":" +:+ default "" (LookupEnv "PATH"))) ∨
     e = assign "RELAY_TOOL_DIR" bridgeDir ∨ e = assign "RELAY_TOOL_TOKEN" toolToken) ∧
  (Forall (λ name, has_char equals name = false) (forkEnv ++ PassEnv ++ order) →
   Forall (λ name, EqualFold name "RELAY_TOOL_DIR" = false ∧ EqualFold name "RELAY_TOOL_TOKEN" = false) (forkEnv ++ PassEnv) →
   matching "RELAY_TOOL_DIR" env = [assign "RELAY_TOOL_DIR" bridgeDir] ∧
   matching "RELAY_TOOL_TOKEN" env = [assign "RELAY_TOOL_TOKEN" toolToken]).
Proof.
  intros env listed. set (env0 := pass_on [] listed).
  set (env1 := foldl (λ environment name, setEnv environment name (map_get Env name)) env0 order).
  set (env2 := if ToolDir =s "" then env1
               else setEnv env1 "PATH" (abs_or_same ToolDir +:+ ":" +:+ default "" (LookupEnv "PATH"))).
  assert (env = setEnv (setEnv env2 "RELAY_TOOL_DIR" bridgeDir) "RELAY_TOOL_TOKEN" toolToken) as -> by done. split.
  - intros e [[He|He]%setEnv_elem|He]%setEnv_elem; [|by do 3 right; left|by do 4 right].
    assert (e ∈ env1 ∨ ToolDir ≠ "" ∧ e = assign "PATH" (abs_or_same ToolDir +:+ ":" +:+ default "" (LookupEnv "PATH"))) as [He'|?].
    { unfold env2 in He. case_bool_decide; [by left|]. apply setEnv_elem in He as [?|?]; auto. }
    + apply foldl_setEnv_elem in He' as [He'|?]; [left|by right; left]. by apply pass_on_elem in He'.
    + by do 2 right; left.
  - intros Hc Hf. apply Forall_app in Hc as [Hc1 Hc], Hc as [Hc2 Hc3].
    assert (Hlisted : Forall (λ name, has_char equals name = false) listed).
    { apply Forall_app. split; [apply (bool_decide_unpack _); vm_compute; exact I|by apply Forall_app]. }
    assert (Hone : ∀ n, Forall (λ name, EqualFold name n = false) (forkEnv ++ PassEnv) →
              Forall (λ name, EqualFold name n = false) ("PATH" :: allowed_names) → length (matching n env2) ≤ 1).
    { intros n Hn Ha. apply Forall_cons in Ha as [Hpath Ha].
      assert (Hn1 : length (matching n env1) ≤ 1).
      { apply foldl_setEnv_one; [done|]. unfold env0. rewrite pass_on_matching; [simpl; lia|done|by apply Forall_app]. }
      unfold env2. case_bool_decide; [done|]. by rewrite setEnv_other. }
    split.
    + rewrite setEnv_other by done. apply setEnv_same; [done..|]. apply Hone.
      * eapply Forall_impl; [exact Hf|]. intros x [Hx _]. exact Hx.
      * apply (bool_decide_unpack _); vm_compute; exact I.
    + apply setEnv_same; [done..|]. rewrite setEnv_other by done. apply Hone.
      * eapply Forall_impl; [exact Hf|]. intros x [_ Hx]. exact Hx.
      * apply (bool_decide_unpack _); vm_compute; exact I.
Qed.
End child_environment.
