(* ===== verification/FileBlob.v ===== *)
(** * FileBlob: artifacts as files (controlplane/file_blob.go)

    [FileBlobStore] keeps one file per artifact below its root.  Every operation
    refines the one of the in-memory store, whose state [stored] reads off the
    files: an upload is written beside the blobs and renamed into its place, so
    no failure shows half of it. *)

From S2P Require Import Prelude GoStrings Json Types Url Fs Outbox Instructions NodeDemo Service Workspace WorkspaceProps.

(** [strings.ContainsAny] *)
Fixpoint ContainsAny (s chars : string) : bool :=
  match s with EmptyString => false | String c s => has_char c chars || ContainsAny s chars end.

Module FileBlobStore.
Section store.
Context `{Host} `{Machine} `{Faults} `{Durations}.

(** The root becomes absolute; the error of [filepath.Abs] is the one of [os.Getwd]. *)
Definition NewFileBlobStore (root : string) : M FS string :=
  if TrimSpace root =s "" then raise (errors_New "relay blob: root is required")
  else
    root ← (if IsAbs root then mret (Clean root)
            else cwd ← host cwd_at; wd ← lift_res cwd; mret (filepath_Join [wd; root]));
    Fs.os_MkdirAll root ;;
    mret root.

Context (Root : string).

Definition invalid_key (key : string) : bool :=
  (key =s "") || ContainsAny key "/\\" || (key =s ".") || (key =s "..").
Definition path (key : string) : Res string :=
  if invalid_key key then Err (errors_New "relay blob: invalid key")
  else Ok (PathJoin Root key).

(** [contextReader.Read]: the context is looked at before every read; [ended] is
    what it says in the end. *)
Definition contextReader (ended : bool) (reader : Reader) : Reader :=
  if ended then Err (sentinel ErrContextDone) else reader.

(** [io.Copy] into a new file: a reader that fails leaves part of its content. *)
Definition io_Copy (file : string) (reader : Reader) : M FS Z :=
  match reader with
  | Ok content => os_WriteFile file content ;; mret (Z.of_nat (String.length content))
  | Err err => torn ← host torn_at; modify (λ fs : FS, partial_alter torn file fs) ;; raise err
  end.

(** The temporary file is removed at the end, when it is still there. *)
Definition Put (key : string) (reader : Reader) : M FS Z :=
  target ← lift_res (path key);
  tmp ← os_CreateTemp Root ".upload-";
  ended ← host ctx_done_at;
  copied ← try (io_Copy tmp (contextReader ended reader));
  closed ← try syscall;
  result ← try match copied, closed with
               | Err copyErr, _ => raise copyErr
               | _, Err closeErr => raise closeErr
               | Ok written, Ok _ => os_Rename tmp target ;; mret written
               end;
  try (os_Remove tmp) ;;
  lift_res result.

Definition Open (key : string) : M FS string :=
  target ← lift_res (path key);
  value ← try (os_ReadFile target);
  match value with
  | Err err => if errors_Is err ErrNotExist then raise (sentinel ErrNotFound) else raise err
  | Ok content => mret content
  end.

Definition Delete (key : string) : M FS () :=
  target ← lift_res (path key);
  os_Remove target.
End store.
End FileBlobStore.

Definition file_blobs `{Faults} `{Durations} (Root : string) : BlobStore FS := {|
  blob_Put := FileBlobStore.Put Root; blob_Open := FileBlobStore.Open Root;
  blob_Delete := FileBlobStore.Delete Root |}.

(** ** The contract *)

(** A key that is accepted and not the name of an upload in progress. *)
Definition blob_key (key : string) : Prop :=
  FileBlobStore.invalid_key key = false ∧ HasPrefix key ".upload-" = false.
Definition blob_path (Root key : string) : string := Root +:+ "/" +:+ key.

(** The files below the root are the blobs of an in-memory store. *)
Definition stored (Root : string) (fs : FS) (blobs : MemoryBlobStore.State) : Prop :=
  ∀ key, blob_key key → fs !! blob_path Root key = blobs !! key.

(** What makes an operation fail that would succeed in memory: the operating
    system, the caller's context, the source of the upload, or a temporary name
    that is taken. *)
Definition outside `{Faults} `{Durations} (from to : nat) (reader : Reader) (e : Error) : Prop :=
  (∃ n, from ≤ n < to ∧ (fault_at n = Some e ∨ ctx_done_at n = true ∧ e = sentinel ErrContextDone)) ∨
  reader = Err e ∨ e = errors_New "file exists".

(** The same value, or an error on both sides that is the same for the caller. *)
Definition same_answer {A} (r r' : Res A) : Prop :=
  match r, r' with
  | Ok a, Ok a' => a = a'
  | Err e, Err e' => errors_Is e ErrNotFound = errors_Is e' ErrNotFound
  | _, _ => False
  end.

Definition refines `{Faults} `{Durations} {A} (Root : string) (reader : Reader)
    (m : M FS A) (spec : M MemoryBlobStore.State A) : Prop :=
  ∀ w blobs, stored Root (w_st w) blobs →
    wp m (λ r w',
      (let s := spec (mkWorld 0 blobs) in same_answer r s.1 ∧ stored Root (w_st w') (w_st s.2)) ∨
      (stored Root (w_st w') blobs ∧ ∃ e, r = Err e ∧ outside (w_tick w) (w_tick w') reader e)) w.

(** ** Paths of blobs *)
Lemma ContainsAny_free c s chars : ContainsAny s chars = false → has_char c chars = true → has_char c s = false.
Proof.
  intros Hs Hc. induction s as [|d s IH]; [done|]. simpl in *. apply orb_false_iff in Hs as [Hd Hs].
  apply orb_false_iff. split; [|by apply IH]. apply bool_decide_eq_false. intros <-. congruence.
Qed.

Lemma valid_good key : FileBlobStore.invalid_key key = false → good key.
Proof.
  unfold FileBlobStore.invalid_key. rewrite !orb_false_iff, !bool_decide_eq_false.
  intros (((? & Hany) & ?) & ?). split_and!; try done. by eapply ContainsAny_free.
Qed.

Lemma abs_snoc es key : es ≠ [] → abs_path (es ++ [key]) = abs_path es +:+ "/" +:+ key.
Proof.
  intros Hes. rewrite !abs_slashed by (by destruct es). clear Hes. induction es as [|e es IH].
  - by rewrite str_nil_app, <- (str_app_nil_r ("/" +:+ key)).
  - cbn [app slashed]. rewrite IH, <- str_app_assoc. reflexivity.
Qed.

Section paths.
Context (es : list string) (Hne : es ≠ []) (Hes : Forall good es).
Abbreviation Root := (abs_path es).

Lemma PathJoin_blob key : good key → PathJoin Root key = blob_path Root key.
Proof.
  intros Hg. pose proof Hg as (Hk & _ & _ & Hfree). transitivity (filepath_Join [Root; key]).
  - unfold PathJoin, filepath_Join. do 2 rewrite bool_decide_eq_false_2 by done. reflexivity.
  - rewrite Join_abs by (try done; by constructor).
    rewrite resolve_good by by constructor. rewrite reverse_app, reverse_involutive.
    by apply abs_snoc.
Qed.
Lemma path_blob key : blob_key key → FileBlobStore.path Root key = Ok (blob_path Root key).
Proof. intros [Hk _]. unfold FileBlobStore.path. rewrite Hk. by rewrite PathJoin_blob by by apply valid_good. Qed.

Lemma blob_path_inj key key' : blob_path Root key = blob_path Root key' → key = key'.
Proof.
  unfold blob_path. intros He. apply (f_equal (str_drop (String.length Root))) in He.
  rewrite !str_drop_app in He. by injection He.
Qed.

(** A temporary file is no blob. *)
Definition upload_name (name : string) : Prop := ∃ random, name = Root +:+ "/" +:+ ".upload-" +:+ random.
Lemma upload_no_blob name key : upload_name name → blob_key key → name ≠ blob_path Root key.
Proof.
  intros (random & ->) [_ Hk] He. unfold blob_path in He.
  apply (blob_path_inj (".upload-" +:+ random)) in He as <-. unfold HasPrefix in Hk. by rewrite prefix_app in Hk.
Qed.

Lemma stored_upload f name fs blobs :
  upload_name name → stored Root fs blobs → stored Root (partial_alter f name fs) blobs.
Proof.
  intros Hn Hst key Hk. rewrite lookup_partial_alter_ne; [by apply Hst|]. by apply upload_no_blob.
Qed.
Lemma stored_alter f key fs blobs :
  stored Root fs blobs → blob_key key →
  stored Root (partial_alter f (blob_path Root key) fs) (partial_alter f key blobs).
Proof.
  intros Hst Hk key' Hk'. destruct (decide (key = key')) as [<-|Hne'].
  - rewrite !lookup_partial_alter_eq. by rewrite Hst.
  - rewrite !lookup_partial_alter_ne; [by apply Hst|done|]. intros He. by apply blob_path_inj in He.
Qed.
End paths.

(** ** Refinement *)
Section refinement.
Context `{FaultLaws} `{Durations} (es : list string) (Hne : es ≠ []) (Hes : Forall good es).
Abbreviation Root := (abs_path es).

Lemma outside_fault from to reader n e : fault_at n = Some e → from ≤ n < to → outside from to reader e.
Proof. intros He Hn. left. exists n. auto. Qed.

(** A failure that leaves the blobs alone. *)
Lemma fails_outside {A} (spec : M MemoryBlobStore.State A) from w reader blobs e :
  stored Root (w_st w) blobs → outside from (w_tick w) reader e →
  (let s := spec (mkWorld 0 blobs) in same_answer (Err e) s.1 ∧ stored Root (w_st w) (w_st s.2)) ∨
  (stored Root (w_st w) blobs ∧ ∃ e', Err e = (Err e' : Res A) ∧ outside from (w_tick w) reader e').
Proof. intros Hs Ho. right. eauto. Qed.

(** What is left of the temporary file does not matter. *)
Lemma wp_remove_temp {A} name (r : Res A) (Q : Res A → World FS → Prop) w :
  (∀ n fs, fs = w_st w ∨ fs = delete name (w_st w) → w_tick w ≤ n → Q r (mkWorld n fs)) →
  wp (try (os_Remove name) ;; lift_res r) Q w.
Proof.
  intros HQ. apply wp_bind, wp_try. unfold os_Remove. wp_step. apply wp_call.
  - intros e _. apply wp_lift_res. apply HQ; [by left|simpl; lia].
  - wp_step. apply wp_gets. simpl. destruct (w_st w !! name).
    + apply wp_modify, wp_lift_res. apply HQ; [by right|simpl; lia].
    + apply wp_raise, wp_lift_res. apply HQ; [by left|simpl; lia].
Qed.

Lemma outside_later from to to' reader e : outside from to reader e → to ≤ to' → outside from to' reader e.
Proof. intros [(n & Hn & He)|Ho] Hle; [left|by right]. exists n. split; [lia|done]. Qed.

Lemma io_Copy_spec tmp reader w :
  wp (FileBlobStore.io_Copy tmp reader) (λ r w', w_tick w ≤ w_tick w' ∧
    match r with
    | Ok n => ∃ content, reader = Ok content ∧ n = Z.of_nat (String.length content) ∧
                         w_st w' = <[tmp := content]> (w_st w)
    | Err e => (∃ f, w_st w' = partial_alter f tmp (w_st w)) ∧ outside (w_tick w) (w_tick w') reader e
    end) w.
Proof.
  destruct reader as [content|err]; simpl.
  - unfold os_WriteFile. do 3 wp_step. destruct (fault_at (w_tick w)) as [e|] eqn:He; wp_step.
    + apply wp_modify, wp_raise. simpl. split; [lia|]. split; [by eexists|].
      eapply outside_fault; [exact He|simpl; lia].
    + apply wp_ret. simpl. split; [lia|]. by exists content.
  - do 3 wp_step. apply wp_modify, wp_raise. simpl. split; [lia|]. split; [by eexists|]. right. by left.
Qed.

(** The end of an upload that failed. *)
Lemma wp_failed_upload {A} (spec : M MemoryBlobStore.State A) from tmp reader blobs e w :
  upload_name es tmp → stored Root (w_st w) blobs → outside from (w_tick w) reader e →
  wp (try (os_Remove tmp) ;; lift_res (Err e))
    (λ r w', (let s := spec (mkWorld 0 blobs) in same_answer r s.1 ∧ stored Root (w_st w') (w_st s.2)) ∨
       (stored Root (w_st w') blobs ∧ ∃ e', r = Err e' ∧ outside from (w_tick w') reader e')) w.
Proof.
  intros Hup Hst Ho. apply wp_remove_temp. intros n fs Hfs Hn. apply fails_outside.
  - destruct Hfs as [-> | ->]; [done|by apply stored_upload].
  - by eapply outside_later.
Qed.

Lemma Put_refines key reader :
  blob_key key → refines Root reader (FileBlobStore.Put Root key reader) (MemoryBlobStore.Put key reader).
Proof.
  intros Hk w blobs Hst. unfold FileBlobStore.Put. wp_step. rewrite path_blob by done. apply wp_lift_res.
  unfold os_CreateTemp. wp_step. wp_step. apply wp_call.
  { intros e He. apply fails_outside; [done|]. eapply outside_fault; [exact He|simpl; lia]. }
  do 4 wp_step. simpl. set (tmp := Root +:+ "/" +:+ ".upload-" +:+ temp_at _).
  assert (Hup : upload_name es tmp) by by eexists.
  destruct (w_st w !! tmp) eqn:Hfree.
  { apply wp_raise, fails_outside; [done|]. right. by right. }
  do 3 wp_step. set (w1 := mkWorld _ (<[tmp := _]> _)).
  assert (Hst1 : stored Root (w_st w1) blobs) by by apply stored_upload.
  do 4 wp_step. set (w2 := mkWorld _ (w_st w1)). eapply wp_mono; [apply io_Copy_spec|].
  intros copied w3 [Ht3 Hcopied]. do 2 wp_step.
  destruct copied as [written|e].
  2:{ destruct Hcopied as ((f & Hf) & Ho).
      assert (Ho' : outside (w_tick w) (w_tick w3) reader e).
      { destruct (ctx_done_at (w_tick w1)) eqn:Ec; simpl in Ho.
        - destruct Ho as [(n & Hn & Hn')|[[= <-]|Ho]]; [left; exists n; split; [simpl in *; lia|done]| |right; by right].
          left. exists (w_tick w1). split; [simpl in *; lia|]. by right.
        - destruct Ho as [(n & Hn & Hn')|Ho]; [left; exists n; split; [simpl in *; lia|done]|by right]. }
      assert (Hst3 : stored Root (w_st w3) blobs) by (rewrite Hf; by apply stored_upload).
      apply wp_call; intros; do 2 wp_step; apply wp_raise, wp_failed_upload;
        try done; eapply outside_later; try exact Ho'; simpl; lia. }
  destruct Hcopied as (content & Hread & -> & Hw3).
  assert (Hreader : reader = Ok content) by (by destruct (ctx_done_at (w_tick w1))).
  assert (Hst3 : stored Root (w_st w3) blobs) by (rewrite Hw3; by apply stored_upload).
  assert (Hlt : w_tick w < w_tick w3) by (simpl in *; lia).
  apply wp_call.
  { intros e He. do 2 wp_step. apply wp_raise, wp_failed_upload; [done..|].
    eapply outside_fault; [exact He|simpl in *; lia]. }
  do 2 wp_step. unfold os_Rename. wp_step. wp_step. apply wp_call.
  { intros e He. apply wp_failed_upload; [done..|]. eapply outside_fault; [exact He|simpl in *; lia]. }
  do 2 wp_step. simpl. rewrite Hw3, lookup_insert_eq. wp_step. apply wp_ret.
  apply wp_remove_temp. intros n fs Hfs _. left. rewrite Hreader. simpl. split; [done|].
  assert (stored Root (<[blob_path Root key := content]> (delete tmp (<[tmp := content]> (w_st w2)))) (<[key := content]> blobs)).
  { apply stored_alter; [done..| |done]. apply stored_upload; [done..|]. by apply stored_upload. }
  destruct Hfs as [-> | ->]; [done|]. by apply stored_upload.
Qed.

Lemma Open_refines key :
  blob_key key → refines Root (Ok "") (FileBlobStore.Open Root key) (MemoryBlobStore.Open key).
Proof.
  intros Hk w blobs Hst. unfold FileBlobStore.Open. wp_step. rewrite path_blob by done. apply wp_lift_res.
  unfold os_ReadFile. do 3 wp_step. apply wp_call.
  - intros e He. rewrite (fault_not_absence _ _ He). apply wp_raise, fails_outside; [done|].
    eapply outside_fault; [exact He|simpl; lia].
  - wp_step. apply wp_gets. simpl. unfold MemoryBlobStore.Open, gets, mbind, M_bind. simpl. rewrite Hst by done.
    destruct (blobs !! key) as [content|].
    + apply wp_ret, wp_ret. by left.
    + apply wp_raise. rewrite errors_Is_sentinel. apply wp_raise. by left.
Qed.

Lemma Delete_refines key :
  blob_key key → refines Root (Ok "") (FileBlobStore.Delete Root key) (MemoryBlobStore.Delete key).
Proof.
  intros Hk w blobs Hst. unfold FileBlobStore.Delete. wp_step. rewrite path_blob by done. apply wp_lift_res.
  unfold os_Remove. wp_step. apply wp_call.
  - intros e He. apply fails_outside; [done|]. eapply outside_fault; [exact He|simpl; lia].
  - wp_step. apply wp_gets. simpl. unfold MemoryBlobStore.Delete, gets, mbind, M_bind. simpl. rewrite Hst by done.
    destruct (blobs !! key) as [content|].
    + apply wp_modify. left. split; [done|]. by apply stored_alter.
    + apply wp_raise. by left.
Qed.
End refinement.

(** The root that [NewFileBlobStore] settles on. *)
Lemma root_elements `{Machine} `{Faults} root (w : World FS) Root :
  (∀ n wd, cwd_at n = Ok wd → IsAbs wd = true) →
  (FileBlobStore.NewFileBlobStore root w).1 = Ok Root → Root = abs_path (path_elems Root).
Proof.
  intros Hcwd Hnew.
  assert (Hclean : ∃ p, IsAbs p = true ∧ Root = Clean p).
  { cut (wp (FileBlobStore.NewFileBlobStore root) (λ r _, ∀ Root, r = Ok Root → ∃ p, IsAbs p = true ∧ Root = Clean p) w);
      [intros Hwp; by apply Hwp|]. clear Root Hnew.
    assert (Hmk : ∀ p v, IsAbs p = true →
              wp (Fs.os_MkdirAll (Clean p) ;; mret (Clean p)) (λ r _, ∀ Root, r = Ok Root → ∃ p, IsAbs p = true ∧ Root = Clean p) v).
    { intros p v Hp. unfold Fs.os_MkdirAll. wp_step. apply wp_call; [done|]. apply wp_ret. intros ? [= <-]. eauto. }
    unfold FileBlobStore.NewFileBlobStore. wp_step; [by apply wp_raise|]. wp_step.
    destruct (IsAbs root) eqn:Habs; [apply wp_ret; by apply Hmk|].
    do 3 wp_step. apply wp_lift_res. destruct (cwd_at (w_tick w)) as [wd|e] eqn:Ewd; [|done].
    apply wp_ret. unfold filepath_Join. pose proof (Hcwd _ _ Ewd) as Hwd.
    rewrite bool_decide_eq_false_2 by (by intros ->). apply Hmk.
    unfold IsAbs, HasPrefix in *. apply prefix_spec in Hwd as [t ->].
    exact (prefix_app "/" (t +:+ "/" +:+ root)). }
  destruct Hclean as (p & Hp & ->). rewrite Clean_abs by done. by rewrite path_elems_abs by apply path_elems_good.
Qed.

(** C22: a [FileBlobStore] refines the in-memory store: whatever the files below
    its root hold, every operation under an accepted key either gives the answer
    of the in-memory store and leaves the blobs it leaves, or fails for a reason
    outside the store (a call of the operating system, the context, the reader of
    the upload, a temporary name that is taken) and leaves every blob as it was.
    An upload that is cut short is never seen. *)
Theorem file_blobs_refine `{Machine} `{FaultLaws} `{Durations} (root Root key : string) (reader : Reader) (w : World FS) :
  (∀ n wd, cwd_at n = Ok wd → IsAbs wd = true) →
  (FileBlobStore.NewFileBlobStore root w).1 = Ok Root → Root ≠ "/" → blob_key key →
  refines Root reader (FileBlobStore.Put Root key reader) (MemoryBlobStore.Put key reader) ∧
  refines Root (Ok "") (FileBlobStore.Open Root key) (MemoryBlobStore.Open key) ∧
  refines Root (Ok "") (FileBlobStore.Delete Root key) (MemoryBlobStore.Delete key).
Proof.
  intros Hcwd Hnew Hroot Hk. rewrite (root_elements _ _ _ Hcwd Hnew) in *.
  assert (Hne : path_elems Root ≠ []) by (intros He; by rewrite He in Hroot).
  pose proof (path_elems_good Root) as Hes.
  split_and!; [by apply Put_refines|by apply Open_refines|by apply Delete_refines].
Qed.

(** An upload over an older blob whose reader fails half way. *)
Definition blob_disk : World FS := mkWorld 0 {["/blobs/artifact_1" := "old"; "/blobs/artifact_2" := "other"]}.
Lemma file_blobs_refine_witness :
  refines "/blobs" (Err (errors_New "broken pipe"))
    (FileBlobStore.Put "/blobs" "artifact_1" (Err (errors_New "broken pipe")))
    (MemoryBlobStore.Put "artifact_1" (Err (errors_New "broken pipe"))) ∧
  (blob_Open (BlobStore := file_blobs "/blobs") "artifact_1"
     (FileBlobStore.Put "/blobs" "artifact_1" (Err (errors_New "broken pipe")) blob_disk).2).1 = Ok "old" ∧
  (blob_Open (BlobStore := file_blobs "/blobs") "artifact_1"
     (FileBlobStore.Put "/blobs" "artifact_1" (Ok "new") blob_disk).2).1 = Ok "new".
Proof.
  split; [|vm_compute; done].
  apply (file_blobs_refine "/blobs" "/blobs" "artifact_1" (Err (errors_New "broken pipe")) blob_disk).
  - by intros n wd [= <-].
  - vm_compute. reflexivity.
  - done.
  - split; vm_compute; reflexivity.
Defined.
