(* ===== verification/Binding.v ===== *)
(** * Binding: where capability calls go (binding/)

    A node routes the capability requests it accepts by name and version to a
    provider of its operator: a command that reads the request and prints an
    envelope, a service that is posted the request, the client of an RPC
    framework, or code in the process.  [Registry] is what [Worker] consults; the
    provider of a command runs a [Child] (Process), that of a service talks to
    the network ([Web], a parameter). *)

From S2P Require Import Prelude GoStrings Json Types Codec Wire Url Fs Outbox Workspace Process Http Worker.

(** ** Providers and the registry (registry.go, rpc.go) *)
Definition Provider (X : Type) : Type := CapabilityRequest → M X (option Json).
Record Descriptor := mkDescriptor { ds_Name : string; ds_Version : string; ds_Kind : string }.
Record entry (X : Type) := mkEntry { en_descriptor : Descriptor; en_provider : Provider X }.
Arguments mkEntry {X} _ _.
Arguments en_descriptor {X} _.
Arguments en_provider {X} _ _ _.

Definition ErrBindingNotFound : Error := errors_New "relay: capability binding not found".
Definition key (name version : string) : string := name +:+ "@" +:+ version.

Section registry.
Context {X : Type}.
Abbreviation Registry := (gmap string (entry X)).

Definition NewRegistry : Registry := ∅.

(** A nil provider is [None]. *)
Definition Register (r : Registry) (descriptor : Descriptor) (provider : option (Provider X)) : Registry * Res () :=
  match provider with
  | Some provider =>
      if (ds_Name descriptor =s "") || (ds_Version descriptor =s "") || (ds_Kind descriptor =s "")
      then (r, Err (errors_New "relay: binding name, version, kind, and provider are required"))
      else (<[key (ds_Name descriptor) (ds_Version descriptor) := mkEntry descriptor provider]> r, Ok ())
  | None => (r, Err (errors_New "relay: binding name, version, kind, and provider are required"))
  end.

Definition Invoke (r : Registry) : Provider X := λ request,
  match r !! key (cr_Name request) (cr_Version request) with
  | Some registered => en_provider registered request
  | None => raise ErrBindingNotFound
  end.

(** [order] is the order in which the range visits the keys. *)
Definition Inventory (r : Registry) (order : list string) : list Descriptor :=
  omap (λ k, en_descriptor <$> r !! k) order.

(** [RPCProvider]: the generated client is the provider. *)
Definition RPCProvider (InvokeCapability : Provider X) : Provider X := λ request, InvokeCapability request.
End registry.
Abbreviation Registry X := (gmap string (entry X)).

(** ** Envelopes

    The answer of a command and of a service. *)
Record execResponse := mkEnvelope { nv_Output : option Json; nv_Error : string }.
#[export] Instance eta_execResponse : Eta execResponse := λ e, mkEnvelope (nv_Output e) (nv_Error e).
Definition fields_envelope : list (Field execResponse) :=
  [field "output" raw nv_Output false; field "error" str nv_Error true].
Definition wire_envelope : Codec execResponse := struct fields_envelope (mkEnvelope None "").
Lemma envelope_lawful : lawful wire_envelope.
Proof. struct_lawful. Qed.

Definition binding_limit : Z := 4194304.

(** What a post is answered; the body may break off. *)
Record Reply := mkReply { hr_Code : Z; hr_Status : string; hr_Body : string; hr_Broken : option Error }.
Class Web (X : Type) := post : string → gmap string string → string → M X Reply.

(** [io.ReadAll] of an [io.LimitReader]. *)
Definition ReadAll (limit : Z) (body : string) (broken : option Error) : Res string :=
  if (limit <=? Z.of_nat (String.length body))%Z then Ok (str_take (Z.to_nat limit) body)
  else match broken with Some err => Err err | None => Ok body end.

Section providers.
Context `{Host} `{TimeParser} `{Encoder} `{JsonParser}.

Definition request_text (request : CapabilityRequest) : string := json_text (enc wire_CapabilityRequest request).

(** The end of both providers; [kind] is "exec" or "HTTP". *)
Definition open_envelope {X} (kind text : string) : M X (option Json) :=
  match res_bind (parse_all text) (Unmarshal wire_envelope false) with
  | Err err => raise (wrap_text ("relay: invalid " +:+ kind +:+ " binding response: ") err)
  | Ok response =>
      if nv_Error response =s "" then mret (nv_Output response)
      else raise (errors_New ("relay: " +:+ kind +:+ " binding: " +:+ nv_Error response))
  end.

(** ** Services (http.go) *)
Record HTTPProvider := mkHTTPProvider { hp_Endpoint : string; hp_Token : string }.
Definition http_headers (p : HTTPProvider) : gmap string string :=
  let header := {["Content-Type" := "application/json"]} : gmap string string in
  if hp_Token p =s "" then header else <["Authorization" := "Bearer " +:+ hp_Token p]> header.
Definition http_Invoke {X} `{Web X} (p : HTTPProvider) : Provider X := λ request,
  response ← post (hp_Endpoint p) (http_headers p) (request_text request);
  responseBody ← lift_res (ReadAll binding_limit (hr_Body response) (hr_Broken response));
  if (hr_Code response <? 200)%Z || (300 <=? hr_Code response)%Z
  then raise (errors_New ("relay: HTTP binding returned " +:+ hr_Status response +:+ ": " +:+ responseBody))
  else open_envelope "HTTP" responseBody.

(** ** Commands (exec.go) *)
Record Exec := mkExec {
  xc_Command : string; xc_Args : list string; xc_Env : gmap string string; xc_InheritEnv : bool; xc_MaxOutputBytes : Z }.

Section commands.
Context `{Environment}.

(** [Cmd.Run]: what the child wrote to its two outputs and how it ended.  The
    whole input is there for one read; there is no tool bridge. *)
Fixpoint run_child (stdin : option string) (child : Child) : M FS (list string * list string * option Error) :=
  match child with
  | Prints line child =>
      rest ← run_child stdin child;
      let '(stdout, stderr, failure) := (rest : list string * list string * option Error) in
      mret ((line +:+ nl) :: stdout, stderr, failure)
  | Calls _ k => run_child stdin (k (Err (errors_New "tool bridge is not available")))
  | Touches m child => try m ;; run_child stdin child
  | Reads k => run_child None (k (default "" stdin))
  | Exits stderr failure => mret ([], stderr, failure)
  end.

Definition output_overflow : Error := errors_New "relay: binding output limit exceeded".

(** The environment of the command; [order] as before. *)
Definition exec_env (config : Exec) (order : list string) : list string :=
  (if xc_InheritEnv config then os_Environ else []) ++
  map (λ name, name +:+ "=" +:+ map_get (xc_Env config) name) order.

Definition exec_failed (err : Error) (stderr : string) : Error :=
  mkError (err_is err) ("relay: exec binding failed: " +:+ err_msg err +:+ ": " +:+ stderr).

Definition exec_Invoke (config : Exec) (order : list string) : Provider FS := λ request,
  if xc_Command config =s "" then raise (errors_New "relay: exec binding command is required")
  else
    let limit := if (xc_MaxOutputBytes config <=? 0)%Z then binding_limit else xc_MaxOutputBytes config in
    match spawn (mkCommand (xc_Command config) (xc_Args config) "" (request_text request) (exec_env config order)) with
    | Err err => raise (exec_failed err "")
    | Ok child =>
        ended ← run_child (Some (request_text request)) child;
        let '(stdout, stderr, failure) := (ended : list string * list string * option Error) in
        let '(out, outErr) := limited_copy output_overflow limit stdout in
        let '(err, errErr) := limited_copy output_overflow limit stderr in
        match first_failure failure (first_failure outErr errErr) with
        | Some cause => raise (exec_failed cause err)
        | None => open_envelope "exec" out
        end
    end.
End commands.
End providers.

(** ** The node's bindings *)
Definition bindings_of (r : Registry FS) (order : list string) : Bindings :=
  mkBindings (map (λ d, mkCapability (ds_Name d) (ds_Version d) (ds_Kind d)) (Inventory r order)) (Invoke r).
