(* ===== verification/BindingProps.v ===== *)
(** * BindingProps: bindings route and carry capability requests *)

From S2P Require Import Prelude GoStrings Json Types Demo Fs Outbox NodeDemo Worker Codec Wire WireProps Url Http HttpDemo Workspace Process Binding.

(** ** The registry *)
Definition at_sign : Ascii.ascii := byte_of 64.
Definition at_free (name : string) : Prop := has_char at_sign name = false.

Lemma key_inj name version name' version' :
  at_free name → at_free name' → key name version = key name' version' → name = name' ∧ version = version'.
Proof. apply (sep_inj at_sign). Qed.

(** Two bindings for one slot: the separator of the key is allowed in a name. *)
Example keys_collide : key "issue@1" "read" = key "issue" "1@read".
Proof. reflexivity. Qed.

Section registry.
Context {X : Type}.
Implicit Types (l : list (Descriptor * option (Provider X))).

Definition registers (d : Descriptor) (p : option (Provider X)) : bool :=
  bool_decide (is_Some p) && negb ((ds_Name d =s "") || (ds_Version d =s "") || (ds_Kind d =s "")).
Definition register_all (l : list (Descriptor * option (Provider X))) : Registry X :=
  foldl (λ r b, (Register r b.1 b.2).1) NewRegistry l.

(** What was last registered under a name and a version. *)
Fixpoint latest (l : list (Descriptor * option (Provider X))) (name version : string) : option (entry X) :=
  match l with
  | [] => None
  | (d, p) :: l =>
      match latest l name version, p with
      | Some e, _ => Some e
      | None, Some p =>
          if registers d (Some p) && (ds_Name d =s name) && (ds_Version d =s version) then Some (mkEntry d p) else None
      | None, None => None
      end
  end.

Lemma Register_spec (r : Registry X) d p :
  (Register r d p).1 = match p with
                       | Some p => if registers d (Some p) then <[key (ds_Name d) (ds_Version d) := mkEntry d p]> r else r
                       | None => r
                       end ∧
  ((Register r d p).2 = Ok () ↔ registers d p = true).
Proof.
  unfold Register, registers. destruct p as [p|]; [|done]. simpl. by destruct (_ || _).
Qed.

Definition named (l : list (Descriptor * option (Provider X))) : Prop := Forall (λ b, at_free (ds_Name b.1)) l.

Lemma register_from l (r : Registry X) name version :
  at_free name → named l →
  foldl (λ r b, (Register r b.1 b.2).1) r l !! key name version =
  match latest l name version with Some e => Some e | None => r !! key name version end.
Proof.
  intros Hn Hl. revert r. induction Hl as [|[d p] l Hd _ IH]; intros r; [done|]. simpl in *. rewrite IH.
  destruct (latest l name version); [done|]. destruct (Register_spec r d p) as [-> _]. destruct p as [p|]; [|done].
  destruct (registers d (Some p)); [|done]. simpl. destruct ((ds_Name d =s name) && (ds_Version d =s version)) eqn:E.
  - apply andb_true_iff in E as [<-%bool_decide_eq_true <-%bool_decide_eq_true]. by rewrite lookup_insert_eq.
  - rewrite lookup_insert_ne; [done|]. intros [E1 E2]%key_inj; [|done..].
    by rewrite E1, E2, !bool_decide_eq_true_2 in E.
Qed.
Lemma register_all_lookup l name version :
  at_free name → named l → register_all l !! key name version = latest l name version.
Proof. intros Hn Hl. unfold register_all. rewrite register_from by done. by destruct (latest l name version). Qed.

Lemma latest_named l name version e : named l → latest l name version = Some e →
  ds_Name (en_descriptor e) = name ∧ ds_Version (en_descriptor e) = version ∧ at_free name.
Proof.
  intros Hl. induction Hl as [|[d p] l Hd _ IH]; [done|]. simpl in *.
  destruct (latest l name version); [exact IH|]. destruct p as [p|]; [|done].
  destruct (registers d (Some p)); [|done]. simpl.
  destruct (decide (ds_Name d = name)) as [<-|]; [|by rewrite bool_decide_eq_false_2].
  destruct (decide (ds_Version d = version)) as [<-|]; [|by rewrite (bool_decide_eq_false_2 (ds_Version d = _)), andb_false_r].
  rewrite !bool_decide_eq_true_2 by done. by intros [= <-].
Qed.

(** An entry is stored under the name and the version of its descriptor. *)
Definition stored (r : Registry X) : Prop :=
  map_Forall (λ k e, k = key (ds_Name (en_descriptor e)) (ds_Version (en_descriptor e)) ∧ at_free (ds_Name (en_descriptor e))) r.
Lemma register_all_stored l : named l → stored (register_all l).
Proof.
  intros Hl. unfold register_all. assert (Hr : stored (NewRegistry (X := X))) by apply map_Forall_empty. revert Hr.
  generalize (NewRegistry (X := X)). induction Hl as [|[d p] l Hd _ IH]; intros r Hr; [done|]. simpl in *. apply IH.
  destruct (Register_spec r d p) as [-> _]. destruct p as [p|]; [|done]. destruct (registers d (Some p)); [|done].
  by apply map_Forall_insert_2.
Qed.

Lemma Inventory_elem (r : Registry X) order d :
  order ≡ₚ elements (dom r) → d ∈ Inventory r order ↔ ∃ k e, r !! k = Some e ∧ en_descriptor e = d.
Proof.
  intros Ho. unfold Inventory. rewrite list_elem_of_omap. split.
  - intros (k & _ & Hk). destruct (r !! k) as [e|] eqn:E; [|done]. injection Hk as <-. by exists k, e.
  - intros (k & e & E & <-). exists k. rewrite Ho, elem_of_elements, elem_of_dom, E. by split.
Qed.
Lemma Inventory_keys (r : Registry X) order :
  stored r → order ⊆ elements (dom r) → (λ d, key (ds_Name d) (ds_Version d)) <$> Inventory r order = order.
Proof.
  intros Hr. induction order as [|k order IH]; intros Ho; [done|]. unfold Inventory. simpl.
  assert (Hk : k ∈ dom r) by (apply elem_of_elements, Ho; by left). apply elem_of_dom in Hk as [e E]. rewrite E. simpl.
  destruct (Hr k e E) as [<- _]. f_equal. apply IH. intros x Hx. apply Ho. by right.
Qed.

(** Requests reach what was last registered for exactly their name and version,
    and no other provider; a request nobody registered for is refused.  The
    inventory of the registry, in whatever order the map is visited, lists each
    name and version once, with the descriptor of the provider that serves it, and
    lists nothing that is not served.  (Names without the separator of the key.) *)
Theorem registry_routes l (order : list string) (request : CapabilityRequest) :
  named l → at_free (cr_Name request) → order ≡ₚ elements (dom (register_all l)) →
  (∀ w, Invoke (register_all l) request w =
        match latest l (cr_Name request) (cr_Version request) with
        | Some e => en_provider e request w
        | None => (Err ErrBindingNotFound, w)
        end) ∧
  (∀ d, d ∈ Inventory (register_all l) order ↔ en_descriptor <$> latest l (ds_Name d) (ds_Version d) = Some d) ∧
  NoDup ((λ d, (ds_Name d, ds_Version d)) <$> Inventory (register_all l) order).
Proof.
  intros Hl Hn Ho. pose proof (register_all_stored l Hl) as Hs. split_and!.
  - intros w. unfold Invoke. rewrite register_all_lookup by done. by destruct (latest _ _ _).
  - intros d. rewrite Inventory_elem by done. split.
    + intros (k & e & E & <-). destruct (Hs k e E) as [Hk Hf]. rewrite <- register_all_lookup, <- Hk, E by done. done.
    + intros (e & E & Hd)%fmap_Some_1. rewrite Hd in *. destruct (latest_named _ _ _ _ Hl E) as (_ & _ & Hf).
      eexists _, e. split; [|done]. by rewrite register_all_lookup.
  - apply (NoDup_fmap_1 (λ nv, key nv.1 nv.2)). rewrite <- list_fmap_compose. unfold compose. simpl.
    rewrite Inventory_keys; [|done|by rewrite Ho]. rewrite Ho. apply NoDup_elements.
Qed.
End registry.

(** ** The other end

    A provider outside the process that computes [answer] of the request it reads
    and does [effect] on the way: as a command, and as a service. *)
Section transparent.
Context `{Host} `{TimeParser} `{TimeLaws} `{Encoder} `{JsonParser} `{ParserLaws}.
Context (answer : CapabilityRequest → execResponse) (effect : CapabilityRequest → M FS string).

Definition read_request (text : string) : Res CapabilityRequest :=
  res_bind (parse_all text) (Unmarshal wire_CapabilityRequest false).
Definition answer_text (request : CapabilityRequest) : string := json_text (enc wire_envelope (answer request)).

Definition command_child : Child :=
  Reads (λ input,
    match read_request input with
    | Ok request => Touches (effect request) (Prints (answer_text request) (Exits [] None))
    | Err _ => Exits ["invalid request"] (Some (errors_New "exit status 2"))
    end).
Definition service (token : string) : Web FS := λ _ header body,
  if negb (token =s "") && negb (bool_decide (header !! "Authorization" = Some ("Bearer " +:+ token)))
  then mret (mkReply 401 "401 Unauthorized" "unauthorized" None)
  else match read_request body with
       | Ok request => try (effect request) ;; mret (mkReply 200 "200 OK" (answer_text request) None)
       | Err _ => mret (mkReply 400 "400 Bad Request" "invalid request" None)
       end.

(** What the caller of a provider gets of an answer. *)
Definition opened (kind : string) (response : execResponse) : Res (option Json) :=
  if nv_Error response =s "" then Ok (Some (default JNull (nv_Output response)))
  else Err (errors_New ("relay: " +:+ kind +:+ " binding: " +:+ nv_Error response)).

Lemma read_request_text request : read_request (request_text request) = Ok request.
Proof.
  unfold read_request, request_text. rewrite parse_all_text. cbn [res_bind].
  rewrite lawful_Unmarshal; [|exact CapabilityRequest_lawful|done]. f_equal. exact (CapabilityRequest_received request).
Qed.
(** What a text says as an envelope. *)
Definition read_as (kind text : string) : Res (option Json) :=
  match res_bind (parse_all text) (Unmarshal wire_envelope false) with
  | Err err => Err (wrap_text ("relay: invalid " +:+ kind +:+ " binding response: ") err)
  | Ok response =>
      if nv_Error response =s "" then Ok (nv_Output response)
      else Err (errors_New ("relay: " +:+ kind +:+ " binding: " +:+ nv_Error response))
  end.
Lemma open_envelope_reads kind text (w : World FS) : open_envelope kind text w = (read_as kind text, w).
Proof.
  unfold open_envelope, read_as. destruct (res_bind _ _) as [response|err]; [|done]. by destruct (_ =s _).
Qed.
Lemma open_envelope_text kind nv tail (w : World FS) :
  tail = "" ∨ tail = nl → open_envelope kind (json_text (enc wire_envelope nv) +:+ tail) w = (opened kind nv, w).
Proof.
  intros Ht. unfold open_envelope.
  assert (parse_all (json_text (enc wire_envelope nv) +:+ tail) = Ok (enc wire_envelope nv)) as ->.
  { destruct Ht as [-> | ->]; [rewrite str_app_nil_r; apply parse_all_text|apply parse_all_line]. }
  cbn [res_bind]. rewrite lawful_Unmarshal; [|exact envelope_lawful|done].
  assert (received wire_envelope nv = mkEnvelope (Some (default JNull (nv_Output nv))) (nv_Error nv)) as ->.
  { destruct nv as [out err]. unfold received, wire_envelope, fields_envelope. cbn. case_bool_decide as He; [by subst|done]. }
  unfold opened. simpl. by destruct (_ =s _).
Qed.

(** C28: a provider outside the process is as good as one inside: whatever a command
    or a service computes of the request it reads, the call gets, and it computes
    it of exactly the request the node made; its failures come back as errors,
    and nothing happens on the way besides what it does itself.  The command is
    started without a shell with the configured arguments and environment, the
    service gets the token of its binding.  The two differ in an answer over the
    limit: that of a command is refused, never cut short and taken for an answer;
    of that of a service, whatever follows it, the first four mebibytes are taken
    for the answer if they read as one, and refused if they do not. *)
Theorem binding_transparent `{Environment} (config : Exec) (order : list string) (p : HTTPProvider)
    (request : CapabilityRequest) (w : World FS) :
  let size := Z.of_nat (String.length (answer_text request)) in
  let limit := if (xc_MaxOutputBytes config <=? 0)%Z then binding_limit else xc_MaxOutputBytes config in
  (xc_Command config ≠ "" →
   spawn (mkCommand (xc_Command config) (xc_Args config) "" (request_text request) (exec_env config order)) = Ok command_child →
   exec_Invoke config order request w =
   (if (limit <? size + 1)%Z then Err (exec_failed output_overflow "") else opened "exec" (answer request),
    (effect request w).2)) ∧
  (let web : Web FS := service (hp_Token p) in
   http_Invoke p request w =
   (if (size <? binding_limit)%Z then opened "HTTP" (answer request)
    else read_as "HTTP" (str_take (Z.to_nat binding_limit) (answer_text request)),
    (effect request w).2)).
Proof.
  intros size limit. split.
  - intros Hc Hs. unfold exec_Invoke. rewrite bool_decide_eq_false_2 by done. rewrite Hs.
    unfold command_child. cbn [run_child from_option id]. rewrite read_request_text. cbn [run_child].
    unfold mbind, M_bind, try. destruct (effect request w) as [r w']. cbn [mret M_ret].
    fold limit. cbn [limited_copy]. rewrite str_length_app. change (String.length nl) with 1.
    rewrite Nat2Z.inj_add. change (Z.of_nat 1) with 1%Z. fold size.
    destruct (limit <? size + 1)%Z; [done|]. cbn [first_failure]. rewrite str_app_nil_r. apply open_envelope_text. by right.
  - intros web. unfold web, http_Invoke, post, service. unfold mbind, M_bind.
    assert (negb (hp_Token p =s "") && negb (bool_decide (http_headers p !! "Authorization" = Some ("Bearer " +:+ hp_Token p))) = false) as ->.
    { unfold http_headers. case_bool_decide; [done|]. by rewrite lookup_insert_eq, bool_decide_eq_true_2. }
    rewrite read_request_text. unfold try, mbind, M_bind. destruct (effect request w) as [r w']. cbn [mret M_ret hr_Body hr_Broken hr_Code].
    unfold ReadAll. fold size. destruct (Z.leb_spec binding_limit size); destruct (Z.ltb_spec size binding_limit); try lia;
      unfold lift_res; cbn beta iota; change ((200 <? 200)%Z || (300 <=? 200)%Z) with false; cbn iota.
    + apply open_envelope_reads.
    + rewrite <- (str_app_nil_r (answer_text request)). apply open_envelope_text. by left.
Qed.

(** A body of a service that is not an answer as a whole is taken for one when
    the limit falls behind a document. *)
Lemma oversized_accepted (p : HTTPProvider) (request : CapabilityRequest) (rest : string) (w : World FS) :
  (Z.of_nat (String.length (answer_text request)) + 1 = binding_limit)%Z →
  let web : Web FS := λ _ _ _, mret (mkReply 200 "200 OK" (answer_text request +:+ nl +:+ rest) None) in
  http_Invoke p request w = (opened "HTTP" (answer request), w).
Proof.
  intros Hs web. unfold http_Invoke, post, web, mbind, M_bind, mret, M_ret. cbn [hr_Body hr_Broken hr_Code].
  unfold ReadAll. rewrite !str_length_app. rewrite (proj2 (Z.leb_le _ _)) by (change (String.length nl) with 1; lia).
  assert (Hcut : str_take (Z.to_nat binding_limit) (answer_text request +:+ nl +:+ rest) = answer_text request +:+ nl).
  { replace (Z.to_nat binding_limit) with (String.length (answer_text request +:+ nl))
      by (rewrite str_length_app; change (String.length nl) with 1; lia).
    rewrite <- str_app_assoc. apply str_take_app. }
  rewrite Hcut. simpl. apply open_envelope_text. by right.
Qed.
End transparent.

(** A command whose binding asks for no inherited environment and sets nothing gets
    the environment of the node all the same. *)
Lemma empty_environment_inherits `{Environment} (config : Exec) (request : CapabilityRequest) `{Host} `{TimeParser} `{Encoder} :
  xc_InheritEnv config = false →
  seen_env (mkCommand (xc_Command config) (xc_Args config) "" (request_text request) (exec_env config [])) = os_Environ.
Proof. intros Hi. unfold exec_env. by rewrite Hi. Qed.

(** ** A command and a service that answer capability requests *)
Definition demo_answer (request : CapabilityRequest) : execResponse :=
  if cr_Resource request =s "MUL-42" then mkEnvelope (Some (JObj [("title", JStr "Crash")])) ""
  else mkEnvelope None ("no access to " +:+ cr_Resource request).
Definition demo_effect (request : CapabilityRequest) : M FS string :=
  os_WriteFile "/audit" (cr_Resource request) ;; mret "".
#[local] Instance business_environment : Environment := {|
  LookupEnv _ := None; os_Environ := ["SECRET=1"]; LookPath _ := true; working_dir := Ok "/"; os_TempDir := "/tmp";
  spawn command := if cm_Binary command =s "multica" then Ok (command_child demo_answer demo_effect)
                   else Err (errors_New "executable file not found") |}.

Definition demo_request (resource : string) : CapabilityRequest :=
  mkCapRequest "call_1" "run_1" "agent" (mkPrincipal "user" "u1" "") "issue.read" "1" "read" resource None.
Definition demo_exec : Exec := mkExec "multica" ["capability"; "invoke"] {["LANG" := "C"]} false 0.
Definition demo_http : HTTPProvider := mkHTTPProvider "https://issues.example/relay" "t0k".
Definition business_service : Web FS := service demo_answer demo_effect "t0k".

Lemma binding_transparent_witness :
  let request := demo_request "MUL-42" in
  let w : World FS := mkWorld 0 ∅ in
  (exec_Invoke demo_exec ["LANG"] request w = (Ok (Some (JObj [("title", JStr "Crash")])), (demo_effect request w).2)) ∧
  (let web : Web FS := business_service in
   http_Invoke demo_http request w = (Ok (Some (JObj [("title", JStr "Crash")])), (demo_effect request w).2)) ∧
  w_st (demo_effect request w).2 = {["/audit" := "MUL-42"]}.
Proof.
  destruct (binding_transparent demo_answer demo_effect demo_exec ["LANG"] demo_http (demo_request "MUL-42") (mkWorld 0 ∅))
    as [He Hh].
  split_and!; [|intros web; etransitivity; [exact Hh|vm_compute; reflexivity]|vm_compute; reflexivity].
  apply He; [discriminate|reflexivity].
Defined.

Definition demo_registrations : list (Descriptor * option (Provider FS)) :=
  [(mkDescriptor "issue.read" "1" "exec", Some (exec_Invoke demo_exec ["LANG"]));
   (mkDescriptor "issue.read" "2" "exec", None);
   (mkDescriptor "issue.comment" "1" "rpc", Some (RPCProvider (λ request, mret (cr_Input request))));
   (mkDescriptor "issue.read" "1" "builtin", Some (λ request, mret (Some (JStr (cr_Resource request)))))].
Lemma registry_routes_witness :
  let r := register_all demo_registrations in
  (∀ w, Invoke r (demo_request "MUL-42") w = (Ok (Some (JStr "MUL-42")), w)) ∧
  Inventory r (elements (dom r)) = [mkDescriptor "issue.comment" "1" "rpc"; mkDescriptor "issue.read" "1" "builtin"] ∧
  NoDup ((λ d, (ds_Name d, ds_Version d)) <$> Inventory r (elements (dom r))).
Proof.
  destruct (registry_routes demo_registrations (elements (dom (register_all demo_registrations))) (demo_request "MUL-42"))
    as (Hi & _ & Hn); [apply (bool_decide_unpack _); vm_compute; exact I|reflexivity|done|].
  split_and!; [exact Hi|vm_compute; reflexivity|exact Hn].
Defined.
