(* ===== verification/Runs.v ===== *)
(** * Runs: what an executor did

    The behaviours of a [Work] (Worker): its acts in order, with whatever answers
    it got, and the result it ended with. *)

From S2P Require Import Prelude GoStrings Json Types Event Fs Capability Instructions Outbox Worker.

(** What the executor did, in order, whatever the operating system and the
    control plane answered. *)
Inductive Act :=
  | Emitted (eventType : string) (data : Any)
  | Invoked (call : CapabilityCall) (r : Res CapabilityResult)
  | Asked (request : InteractionRequest) (r : Res (option Json))
  | Filed (r : Res string).

Inductive runs : Work → list Act → Res Result → Prop :=
  | runs_return r : runs (Return r) [] r
  | runs_emit ty data k acts r : runs k acts r → runs (Emit ty data k) (Emitted ty data :: acts) r
  | runs_invoke call k answer acts r : runs (k answer) acts r → runs (Invoke call k) (Invoked call answer :: acts) r
  | runs_ask request polls k answer acts r : runs (k answer) acts r → runs (Ask request polls k) (Asked request answer :: acts) r
  | runs_files m k answer acts r : runs (k answer) acts r → runs (Files m k) (Filed answer :: acts) r.

Lemma runs_return_inv r acts r' : runs (Return r) acts r' → acts = [] ∧ r' = r.
Proof. by inversion 1. Qed.
Lemma runs_emit_inv ty data k acts r : runs (Emit ty data k) acts r → ∃ acts', acts = Emitted ty data :: acts' ∧ runs k acts' r.
Proof. inversion 1; eauto. Qed.
Lemma runs_invoke_inv call k acts r :
  runs (Invoke call k) acts r → ∃ answer acts', acts = Invoked call answer :: acts' ∧ runs (k answer) acts' r.
Proof. inversion 1; eauto. Qed.
Lemma runs_files_inv m k acts r :
  runs (Files m k) acts r → ∃ answer acts', acts = Filed answer :: acts' ∧ runs (k answer) acts' r.
Proof. inversion 1; eauto. Qed.

(** ** Running an executor *)
Fixpoint perform (w : Work) (answer : CapabilityCall → Res CapabilityResult) (s : World FS) : list Act * Res Result :=
  match w with
  | Return r => ([], r)
  | Emit ty data k => let '(acts, r) := perform k answer s in (Emitted ty data :: acts, r)
  | Invoke call k => let '(acts, r) := perform (k (answer call)) answer s in (Invoked call (answer call) :: acts, r)
  | Ask request _ k => let '(acts, r) := perform (k (Ok None)) answer s in (Asked request (Ok None) :: acts, r)
  | Files m k => let '(a, s) := m s in let '(acts, r) := perform (k a) answer s in (Filed a :: acts, r)
  end.
Lemma perform_runs answer w s : runs w (perform w answer s).1 (perform w answer s).2.
Proof.
  revert s. induction w as [r|ty data k IH|call k IH|request polls k IH|m k IH]; intros s; simpl; [constructor|..].
  - specialize (IH s). destruct (perform k answer s). by constructor.
  - specialize (IH (answer call) s). destruct (perform (k _) answer s). by constructor.
  - specialize (IH (Ok None) s). destruct (perform (k _) answer s). by constructor.
  - destruct (m s) as [a s']. specialize (IH a s'). destruct (perform (k a) answer s'). by constructor.
Qed.

