(* ===== verification/ToolBridge.v ===== *)
(** * ToolBridge: capability calls through files (runtime/toolbridge/file.go)

    A sandboxed runtime calls its capabilities through two directories: it
    publishes a request file, and the bridge answers with a response file of the
    same name.  The callers and the bridge are programs ([Prog]) over single calls
    of the operating system; a [Move] runs one call of one of them, so a history
    is any interleaving.  Files are known by their directory and name; writing a
    file and renaming it are two calls, and any call may fail. *)

From S2P Require Import Prelude GoStrings Json Types Fs Outbox Codec Wire WireProps Http.

(** ** Messages *)
#[export] Instance eta_Call : Eta CapabilityCall := λ c,
  mkCall (call_Name c) (call_Version c) (call_IdempotencyKey c) (call_Resource c) (call_Input c).
Definition fields_Call : list (Field CapabilityCall) :=
  [field "name" str call_Name false; field "version" str call_Version true;
   field "idempotency_key" str call_IdempotencyKey false; field "resource" str call_Resource true;
   field "input" raw call_Input true].
Definition zero_Call : CapabilityCall := mkCall "" "" "" "" None.
Definition wire_Call : Codec CapabilityCall := struct fields_Call zero_Call.

Record fileRequest := mkFileRequest { fq_Token : string; fq_Call : CapabilityCall }.
Record fileResponse := mkFileResponse { fr_Result : CapabilityResult; fr_Error : string }.
#[export] Instance eta_fileRequest : Eta fileRequest := λ r, mkFileRequest (fq_Token r) (fq_Call r).
#[export] Instance eta_fileResponse : Eta fileResponse := λ r, mkFileResponse (fr_Result r) (fr_Error r).
Definition fields_fileRequest : list (Field fileRequest) :=
  [field "token" str fq_Token false; field "call" wire_Call fq_Call false].
Definition wire_fileRequest : Codec fileRequest := struct fields_fileRequest (mkFileRequest "" zero_Call).
Definition zero_CapabilityResult : CapabilityResult := mkCapResult "" None.
Definition fields_fileResponse : list (Field fileResponse) :=
  [field "result" wire_CapabilityResult fr_Result false; field "error" str fr_Error true].
Definition wire_fileResponse : Codec fileResponse := struct fields_fileResponse (mkFileResponse zero_CapabilityResult "").

Definition maxFileMessageBytes : Z := 4194304.
Definition too_big (data : string) : bool := (maxFileMessageBytes <? Z.of_nat (String.length data))%Z.

(** ** Programs over the operating system *)
Inductive Side := Requests | Responses.

(** One call, and what it answers. *)
Inductive Op : Type → Type :=
  | RandomID : Op (Res string)
  | ReadDir (side : Side) : Op (Res (list string))
  | ReadFile (side : Side) (name : string) : Op (Res string)
  | WriteFile (side : Side) (name content : string) : Op (Res ())
  | Rename (side : Side) (from to : string) : Op (Res ())
  | Remove (side : Side) (name : string) : Op (Res ())
  | InvokeCall (name : string) (call : CapabilityCall) : Op (Res CapabilityResult).  (* for the request file [name] *)

Inductive Prog (A : Type) : Type :=
  | Ret (a : A)
  | Step {B : Type} (o : Op B) (k : B → Prog A).
Arguments Ret {A} _.
Arguments Step {A B} _ _.
Fixpoint prog_map {A B} (f : A → B) (p : Prog A) : Prog B :=
  match p with Ret a => Ret (f a) | Step o k => Step o (λ b, prog_map f (k b)) end.
Notation "b ⇐ o ; p" := (Step o (λ b, p)) (at level 20, o at level 100, p at level 200) : relay_scope.

Section programs.
Context `{Encoder} `{JsonParser}.

Definition decode_file {A} (c : Codec A) (data : string) : Res A := res_bind (parse_all data) (Unmarshal c false).
Definition encode_file {A} (c : Codec A) (a : A) : string := json_text (enc c a).

(** [FileBridge.process]; [next] is the rest of the round. *)
Definition answer_response (o : Res CapabilityResult) : fileResponse :=
  match o with
  | Ok result => mkFileResponse result ""
  | Err err => mkFileResponse zero_CapabilityResult (err_msg err)
  end.
Definition refuse (message : string) : fileResponse := mkFileResponse zero_CapabilityResult message.

(** The outcome of a call as its caller sees it: errors by their texts. *)
Definition delivered (o : Res CapabilityResult) : Res CapabilityResult :=
  match o with
  | Ok result => Ok result
  | Err err => if err_msg err =s "" then Ok zero_CapabilityResult else Err (errors_New (err_msg err))
  end.

(** The request a file holds for the bridge, or the response that refuses it. *)
Definition examine (Token : string) (data : Res string) : fileResponse + CapabilityCall :=
  match data with
  | Err err => inl (refuse (err_msg err))
  | Ok data =>
      if too_big data then inl (refuse "relay tool bridge: request exceeds size limit")
      else match decode_file wire_fileRequest data with
           | Err err => inl (refuse (err_msg err))
           | Ok request =>
               if negb (fq_Token request =s Token) then inl (refuse "relay tool bridge: unauthorized")
               else inr (fq_Call request)
           end
  end.

Definition rename_response (name : string) (next : Prog ()) : Prog () :=
  _ ⇐ Rename Responses (name +:+ ".tmp") name; next.
Definition publish (name : string) (response : fileResponse) (next : Prog ()) : Prog () :=
  written ⇐ WriteFile Responses (name +:+ ".tmp") (encode_file wire_fileResponse response);
  match written with
  | Ok _ => rename_response name next
  | Err _ => next
  end.
Definition process_call (name : string) (call : CapabilityCall) (next : Prog ()) : Prog () :=
  outcome ⇐ InvokeCall name call; publish name (answer_response outcome) next.
Definition process_data (Token name : string) (data : Res string) (next : Prog ()) : Prog () :=
  _ ⇐ Remove Requests name;
  match examine Token data with
  | inl response => publish name response next
  | inr call => process_call name call next
  end.
Definition process (Token name : string) (next : Prog ()) : Prog () :=
  data ⇐ ReadFile Requests name; process_data Token name data next.

(** One tick of [FileBridge.serve]: the request files there are, in turn. *)
Fixpoint process_all (Token : string) (names : list string) : Prog () :=
  match names with [] => Ret () | name :: names => process Token name (process_all Token names) end.
Definition serve_round (Token : string) : Prog () :=
  entries ⇐ ReadDir Requests;
  match entries with
  | Err _ => Ret ()
  | Ok entries => process_all Token (filter (λ name, HasSuffix name ".json" = true) entries)
  end.

(** What the caller makes of a response file. *)
Definition read_response (data : string) : Res CapabilityResult :=
  if too_big data then Err (errors_New "relay tool bridge: response exceeds size limit")
  else match decode_file wire_fileResponse data with
       | Err err => Err err
       | Ok response => if negb (fr_Error response =s "") then Err (errors_New (fr_Error response)) else Ok (fr_Result response)
       end.

(** The wait for the response; the context of the caller lasts [polls] ticks. *)
Definition take_response (name data : string) : Prog (Res CapabilityResult) :=
  _ ⇐ Remove Responses name; Ret (read_response data).
Definition abandon_request (name : string) (err : Error) : Prog (Res CapabilityResult) :=
  _ ⇐ Remove Requests name; Ret (Err err).
Fixpoint await (polls : nat) (name : string) : Prog (Res CapabilityResult) :=
  match polls with
  | O => abandon_request name (sentinel ErrContextDone)
  | S polls =>
      data ⇐ ReadFile Responses name;
      match data with
      | Err err => if errors_Is err ErrNotExist then await polls name else Ret (Err err)
      | Ok data => take_response name data
      end
  end.

Definition publish_request (polls : nat) (name : string) : Prog (Res CapabilityResult) :=
  renamed ⇐ Rename Requests (name +:+ ".tmp") name;
  match renamed with
  | Err err => abandon_request (name +:+ ".tmp") (wrap_text "relay tool bridge: publish request: " err)
  | Ok _ => await polls name
  end.
Definition write_request (polls : nat) (token : string) (call : CapabilityCall) (name : string)
    : Prog (Res CapabilityResult) :=
  written ⇐ WriteFile Requests (name +:+ ".tmp") (encode_file wire_fileRequest (mkFileRequest token call));
  match written with
  | Err err => Ret (Err (wrap_text "relay tool bridge: write request: " err))
  | Ok _ => publish_request polls name
  end.
Definition CallFile (polls : nat) (token : string) (call : CapabilityCall) : Prog (Res CapabilityResult) :=
  id ⇐ RandomID;
  match id with
  | Err err => Ret (Err err)
  | Ok id => write_request polls token call (id +:+ ".json")
  end.
End programs.

(** ** The bridge, its callers and the files between them *)
Record Box := mkBox { bx_requests : gmap string string; bx_responses : gmap string string }.
Definition files (side : Side) (b : Box) : gmap string string :=
  match side with Requests => bx_requests b | Responses => bx_responses b end.
Definition on_side (side : Side) (f : gmap string string → gmap string string) (b : Box) : Box :=
  match side with
  | Requests => mkBox (f (bx_requests b)) (bx_responses b)
  | Responses => mkBox (bx_requests b) (f (bx_responses b))
  end.

(** What the operating system does in one call: whether it fails, what a failed
    write leaves, and the identifier it draws. *)
Record Choice := mkChoice { ch_fault : option Error; ch_left : option string; ch_id : string }.

Record Client := mkClient { cl_token : string; cl_call : CapabilityCall; cl_prog : Prog (Res CapabilityResult) }.

Section bridge.
Context `{Encoder} `{JsonParser} {E : Type} (Token : string) (invoke : CapabilityCall → M E CapabilityResult).

(** The bridge's own goroutine is idle between ticks.  [sy_log] records the calls
    the invoker got, with the request file each came from and its outcome. *)
Record Bridge := mkBridge {
  sy_box : Box;
  sy_closed : bool;
  sy_server : Prog ();
  sy_clients : gmap nat Client;
  sy_env : World E;
  sy_drawn : gset string;
  sy_log : list (string * CapabilityCall * Res CapabilityResult) }.

Definition StartFile (env : World E) : Bridge := mkBridge (mkBox ∅ ∅) false (Ret ()) ∅ env ∅ [].

Definition set_box (y : Bridge) (f : Box → Box) : Bridge :=
  mkBridge (f (sy_box y)) (sy_closed y) (sy_server y) (sy_clients y) (sy_env y) (sy_drawn y) (sy_log y).
Definition set_server (y : Bridge) (p : Prog ()) : Bridge :=
  mkBridge (sy_box y) (sy_closed y) p (sy_clients y) (sy_env y) (sy_drawn y) (sy_log y).
Definition set_client (y : Bridge) (i : nat) (c : Client) : Bridge :=
  mkBridge (sy_box y) (sy_closed y) (sy_server y) (<[i := c]> (sy_clients y)) (sy_env y) (sy_drawn y) (sy_log y).

(** A call that acts on one file of one directory, unless it fails. *)
Definition attempt {A} (c : Choice) (y : Bridge) (r : Res A) (f : Box → Box) : option (Res A * Bridge) :=
  match ch_fault c with
  | Some err => Some (Err err, y)
  | None => Some (r, match r with Ok _ => set_box y f | Err _ => y end)
  end.
Definition present (v : option string) : Res string :=
  match v with Some content => Ok content | None => Err (sentinel ErrNotExist) end.
Definition done_if (v : option string) : Res () :=
  match v with Some _ => Ok () | None => Err (sentinel ErrNotExist) end.

(** An identifier is drawn once: 24 random bytes. *)
Definition run_op {B} (o : Op B) (c : Choice) (y : Bridge) : option (B * Bridge) :=
  match o in Op B return option (B * Bridge) with
  | RandomID =>
      match ch_fault c with
      | Some err => Some (Err err, y)
      | None =>
          if bool_decide (ch_id c ∈ sy_drawn y) then None
          else Some (Ok (ch_id c),
                     mkBridge (sy_box y) (sy_closed y) (sy_server y) (sy_clients y) (sy_env y)
                       ({[ch_id c]} ∪ sy_drawn y) (sy_log y))
      end
  | ReadDir side => attempt c y (Ok (merge_sort String.le (elements (dom (files side (sy_box y)))))) id
  | ReadFile side name => attempt c y (present (files side (sy_box y) !! name)) id
  | WriteFile side name content =>
      match ch_fault c with
      | Some err => Some (Err err, set_box y (on_side side (partial_alter (λ _, ch_left c) name)))
      | None => Some (Ok (), set_box y (on_side side (<[name := content]>)))
      end
  | Rename side from to =>
      attempt c y (done_if (files side (sy_box y) !! from))
        (on_side side (λ fs, <[to := default "" (fs !! from)]> (delete from fs)))
  | Remove side name => attempt c y (done_if (files side (sy_box y) !! name)) (on_side side (delete name))
  | InvokeCall name call =>
      let '(r, env) := invoke call (sy_env y) in
      Some (r, mkBridge (sy_box y) (sy_closed y) (sy_server y) (sy_clients y) env (sy_drawn y)
                 (sy_log y ++ [(name, call, r)]))
  end.

(** [Litter]: somebody without the token writes or removes a request file.  A
    response carries nothing that ties it to the bridge, so whoever can write the
    response directory is part of the bridge here. *)
Inductive Move :=
  | Arrive (i : nat) (token : string) (call : CapabilityCall) (polls : nat)
  | ClientCall (i : nat) (c : Choice)
  | ServerCall (c : Choice)
  | Tick
  | Close
  | Litter (name : string) (content : option string).

Definition run_prog {A} (p : Prog A) (c : Choice) (y : Bridge) : option (Prog A * Bridge) :=
  match p with Ret _ => None | Step o k => '(b, y) ← run_op o c y; Some (k b, y) end.

Definition bridge_move (y : Bridge) (m : Move) : option Bridge :=
  match m with
  | Arrive i token call polls =>
      match sy_clients y !! i with
      | Some _ => None
      | None => Some (set_client y i (mkClient token call (CallFile polls token call)))
      end
  | ClientCall i c =>
      cl ← sy_clients y !! i;
      '(p, y) ← run_prog (cl_prog cl) c y;
      Some (set_client y i (mkClient (cl_token cl) (cl_call cl) p))
  | ServerCall c => '(p, y) ← run_prog (sy_server y) c y; Some (set_server y p)
  | Tick =>
      match sy_server y with
      | Ret _ => if sy_closed y then None else Some (set_server y (serve_round Token))
      | _ => None
      end
  | Close => Some (mkBridge (sy_box y) true (sy_server y) (sy_clients y) (sy_env y) (sy_drawn y) (sy_log y))
  | Litter name content =>
      match content with
      | Some data =>
          match examine Token (Ok data) with
          | inl _ => Some (set_box y (on_side Requests (<[name := data]>)))
          | inr _ => None
          end
      | None => Some (set_box y (on_side Requests (delete name)))
      end
  end.

Fixpoint bridge_play (y : Bridge) (ms : list Move) : option Bridge :=
  match ms with [] => Some y | m :: ms => y' ← bridge_move y m; bridge_play y' ms end.
End bridge.
Arguments Bridge : clear implicits.
