(* ===== verification/ToolBridgeProps.v ===== *)
(** * ToolBridgeProps: what a call through the bridge means

    The invariant of every history of a bridge: whose calls the files of the two
    directories are, and what the invoker was asked. *)

From S2P Require Import Prelude GoStrings Json Types Demo Capability CapabilityProps Fs Outbox Codec Wire WireProps Http HttpDemo ToolBridge.

(** ** Messages survive their files *)
Lemma Call_lawful : lawful wire_Call.
Proof. struct_lawful. Qed.
#[local] Hint Resolve Call_lawful : wire.
Lemma fileRequest_lawful : lawful wire_fileRequest.
Proof. struct_lawful. Qed.
Lemma fileResponse_lawful : lawful wire_fileResponse.
Proof. struct_lawful. Qed.
Lemma Call_received a : got wire_Call a zero_Call = a.
Proof. unfold wire_Call, fields_Call, zero_Call. revert a. arrives. Qed.
Lemma fileRequest_received a : received wire_fileRequest a = a.
Proof.
  destruct a as [token call]. unfold received, wire_fileRequest, fields_fileRequest. cbn [got struct init].
  eapply copied_field; [done|reflexivity|done|].
  eapply copied_field; [intros _; exact (Call_received call)|reflexivity|done|reflexivity].
Qed.
Lemma fileResponse_received a : received wire_fileResponse a = a.
Proof.
  destruct a as [result text]. unfold received, wire_fileResponse, fields_fileResponse. cbn [got struct init].
  eapply copied_field; [intros _; exact (CapabilityResult_received result)|reflexivity|done|].
  eapply copied_field; [reflexivity|reflexivity| |reflexivity]. cbn. intros ->%bool_decide_eq_true. done.
Qed.

(** ** Names *)
Lemma HasSuffix_self a b : HasSuffix (a +:+ b) b = true.
Proof.
  unfold HasSuffix. rewrite str_length_app, Nat.add_sub, str_drop_app.
  rewrite bool_decide_eq_true_2 by done. rewrite andb_true_r. apply Nat.leb_le. lia.
Qed.
Lemma HasSuffix_spec s suf : HasSuffix s suf = true → ∃ t, s = t +:+ suf.
Proof.
  unfold HasSuffix. intros [_ Hd%bool_decide_eq_true]%andb_true_iff.
  exists (str_take (String.length s - String.length suf) s). rewrite <- Hd at 2. by rewrite str_take_drop.
Qed.
Lemma str_app_cancel_r a b c : a +:+ c = b +:+ c → a = b.
Proof.
  intros He. pose proof (f_equal String.length He) as Hl. rewrite !str_length_app in Hl.
  apply str_app_split in He as [(u & -> & Hu)|(u & Hne & -> & Hu)];
    apply (f_equal String.length) in Hu; rewrite str_length_app in Hu; destruct u; simpl in *; try lia; try done.
  by rewrite str_app_nil_r.
Qed.
Definition request_name (name : string) : Prop := HasSuffix name ".json" = true.
Lemma json_name id : request_name (id +:+ ".json").
Proof. apply HasSuffix_self. Qed.
Lemma tmp_name n name : request_name name → n +:+ ".tmp" ≠ name.
Proof.
  intros (t & ->)%HasSuffix_spec He. apply str_app_split in He as [(u & -> & Hu)|(u & Hne & -> & Hu)].
  - apply (f_equal String.length) in Hu. rewrite str_length_app in Hu. simpl in Hu. lia.
  - destruct u as [|c u]; [done|]. rewrite str_cons_app in Hu. injection Hu as <- Hu.
    pose proof (f_equal String.length Hu) as Hl. rewrite str_length_app in Hl. simpl in Hl.
    destruct u; [done|simpl in Hl; lia].
Qed.

Section bridge.
Context `{ParserLaws} {E : Type} (Token : string) (invoke : CapabilityCall → M E CapabilityResult).
Abbreviation BridgeE := (Bridge E).

Lemma decode_encode {A} (c : Codec A) a : lawful c → fits c a = true → decode_file c (encode_file c a) = Ok (received c a).
Proof. intros Hc Ha. unfold decode_file, encode_file. rewrite parse_all_text. by apply lawful_Unmarshal. Qed.
Lemma decode_request token call :
  decode_file wire_fileRequest (encode_file wire_fileRequest (mkFileRequest token call)) = Ok (mkFileRequest token call).
Proof. rewrite decode_encode by (done || apply fileRequest_lawful). by rewrite fileRequest_received. Qed.
Lemma decode_response response :
  decode_file wire_fileResponse (encode_file wire_fileResponse response) = Ok response.
Proof. rewrite decode_encode by (done || apply fileResponse_lawful). by rewrite fileResponse_received. Qed.

(** The call that a file has for the bridge. *)
Definition asks (data : string) (call : CapabilityCall) : Prop := examine Token (Ok data) = inr call.
Lemma asks_request token call call' :
  asks (encode_file wire_fileRequest (mkFileRequest token call)) call' → token = Token ∧ call' = call.
Proof.
  unfold asks, examine. destruct (too_big _); [done|]. rewrite decode_request. simpl.
  destruct (bool_decide (token = Token)) eqn:Ht; [|done]. apply bool_decide_eq_true in Ht. simpl.
  intros [= <-]. done.
Qed.

(** ** Where a caller stands *)
Inductive Point := PDraw | PWrite (id : string) | PRename (id : string) | PSent (id : string) | PNone.
Definition point_id (pt : Point) : option string :=
  match pt with PWrite id | PRename id | PSent id => Some id | _ => None end.

Definition names (y : BridgeE) : list string := (λ e, e.1.1) <$> sy_log y.

(** A response that says what the invoker answered for its name, or says nothing. *)
Definition meant (y : BridgeE) (name : string) (response : fileResponse) : Prop :=
  fr_Error response ≠ "" ∨ fr_Result response = zero_CapabilityResult ∨
  ∃ call, (name, call, Ok (fr_Result response)) ∈ sy_log y.
Definition answers (y : BridgeE) (name data : string) : Prop :=
  ∃ response, data = encode_file wire_fileResponse response ∧ meant y name response.
Definition got_result (y : BridgeE) (name : string) (result : CapabilityResult) : Prop :=
  result = zero_CapabilityResult ∨ ∃ call, (name, call, Ok result) ∈ sy_log y.

Definition client_at (y : BridgeE) (cl : Client) (pt : Point) : Prop :=
  match pt with
  | PDraw => ∃ polls, cl_prog cl = CallFile polls (cl_token cl) (cl_call cl)
  | PWrite id => ∃ polls, cl_prog cl = write_request polls (cl_token cl) (cl_call cl) (id +:+ ".json")
  | PRename id => ∃ polls, cl_prog cl = publish_request polls (id +:+ ".json")
  | PSent id =>
      (∃ polls, cl_prog cl = await polls (id +:+ ".json")) ∨ (∃ f e, cl_prog cl = abandon_request f e) ∨
      (∃ data, cl_prog cl = take_response (id +:+ ".json") data ∧ answers y (id +:+ ".json") data) ∨
      (∃ e, cl_prog cl = Ret (Err e)) ∨ (∃ result, cl_prog cl = Ret (Ok result) ∧ got_result y (id +:+ ".json") result)
  | PNone => ∃ e, cl_prog cl = Ret (Err e)
  end.

(** The request [name] is the call of a caller with the token. *)
Definition owned (pts : gmap nat Point) (y : BridgeE) (name : string) (call : CapabilityCall) : Prop :=
  ∃ i cl id, sy_clients y !! i = Some cl ∧ pts !! i = Some (PSent id) ∧ name = id +:+ ".json" ∧
    cl_token cl = Token ∧ cl_call cl = call.
Definition pending (y : BridgeE) (name : string) : Prop :=
  ∃ data call, bx_requests (sy_box y) !! name = Some data ∧ asks data call.

(** Where the bridge stands; [strict] when no call of its own has failed. *)
Definition later (next : Prog ()) : Prop := ∃ l, Forall request_name l ∧ next = process_all Token l.
Inductive serving (strict : Prop) (pts : gmap nat Point) (y : BridgeE) : Prog () → Prop :=
  | sv_idle : serving strict pts y (Ret ())
  | sv_round : serving strict pts y (serve_round Token)
  | sv_process n next : request_name n → later next → serving strict pts y (process Token n next)
  | sv_data n data next :
      request_name n → later next →
      (∀ call, examine Token data = inr call → owned pts y n call ∧ (strict → n ∉ names y)) →
      serving strict pts y (process_data Token n data next)
  | sv_call n call next :
      request_name n → later next → owned pts y n call → (strict → n ∉ names y ∧ ¬ pending y n) →
      serving strict pts y (process_call n call next)
  | sv_publish n response next :
      request_name n → later next → meant y n response → serving strict pts y (publish n response next)
  | sv_rename n next :
      request_name n → later next →
      (∀ data, bx_responses (sy_box y) !! (n +:+ ".tmp") = Some data → answers y n data) →
      serving strict pts y (rename_response n next).

Record inv (strict : Prop) (pts : gmap nat Point) (y : BridgeE) : Prop := {
  iv_clients : ∀ i cl, sy_clients y !! i = Some cl → ∃ pt, pts !! i = Some pt ∧ client_at y cl pt;
  iv_names : ∀ i j p q id, pts !! i = Some p → pts !! j = Some q →
    point_id p = Some id → point_id q = Some id → i = j;
  iv_drawn : ∀ i p id, pts !! i = Some p → point_id p = Some id → id ∈ sy_drawn y;
  iv_requests : ∀ n data call, request_name n → bx_requests (sy_box y) !! n = Some data → asks data call →
    owned pts y n call ∧ (strict → n ∉ names y);
  iv_tmp : ∀ i cl id data call, sy_clients y !! i = Some cl → pts !! i = Some (PRename id) →
    bx_requests (sy_box y) !! ((id +:+ ".json") +:+ ".tmp") = Some data → asks data call →
    cl_token cl = Token ∧ cl_call cl = call;
  iv_responses : ∀ n data, request_name n → bx_responses (sy_box y) !! n = Some data → answers y n data;
  iv_server : serving strict pts y (sy_server y);
  iv_log : ∀ n call o, (n, call, o) ∈ sy_log y → owned pts y n call;
  iv_once : strict → NoDup (names y) }.

Lemma later_serving strict pts y next : later next → serving strict pts y next.
Proof.
  intros ([|n l] & Hl & ->); [constructor|]. apply Forall_cons in Hl as [Hn Hl]. constructor; [done|by exists l].
Qed.

(** The state of the server and of other callers under somebody else's move. *)
Lemma meant_log y y' n response :
  (∀ e, e ∈ sy_log y → e ∈ sy_log y') → meant y n response → meant y' n response.
Proof. intros Hl [?|[?|(call & Hc)]]; [by left|right; by left|]. right. right. eauto. Qed.
Lemma answers_log y y' n data :
  (∀ e, e ∈ sy_log y → e ∈ sy_log y') → answers y n data → answers y' n data.
Proof. intros Hl (response & -> & Hm). exists response. split; [done|]. by eapply meant_log. Qed.
Lemma client_at_log y y' cl pt :
  (∀ e, e ∈ sy_log y → e ∈ sy_log y') → client_at y cl pt → client_at y' cl pt.
Proof.
  intros Hl. destruct pt; try done. simpl. intros [?|[?|[(data & ? & Ha)|[?|(result & ? & Hr)]]]]; [by left|by right; left| | |].
  - right. right. left. exists data. split; [done|]. by eapply answers_log.
  - by do 3 right; left.
  - do 4 right. exists result. split; [done|]. destruct Hr as [?|(call & Hc)]; [by left|]. right. eauto.
Qed.

Lemma serving_mono strict strict' pts pts' y y' p :
  sy_log y' = sy_log y → (strict' → strict) →
  (∀ n call, owned pts y n call → owned pts' y' n call) →
  (∀ n data, bx_responses (sy_box y') !! (n +:+ ".tmp") = Some data → bx_responses (sy_box y) !! (n +:+ ".tmp") = Some data) →
  (∀ n call, owned pts y n call → pending y' n → pending y n) →
  serving strict pts y p → serving strict' pts' y' p.
Proof.
  intros Hlog Hst Hown Hresp Hpend.
  assert (Hn : names y' = names y) by (unfold names; by rewrite Hlog).
  assert (Hin : ∀ e, e ∈ sy_log y → e ∈ sy_log y') by (by rewrite Hlog).
  destruct 1 as [| |n next Hr Hl|n data next Hr Hl Hd|n call next Hr Hl Ho Hs|n response next Hr Hl Hm|n next Hr Hl Ha];
    [by constructor..| | | |].
  - constructor; [done..|]. intros call Hc. rewrite Hn. destruct (Hd call Hc) as [Ho Hs]. split; auto.
  - constructor; [done..|by apply Hown|]. intros Hs'. rewrite Hn. destruct (Hs (Hst Hs')) as [? Hp].
    split; [done|]. intros Hpd. by eapply Hp, Hpend.
  - constructor; [done..|]. by eapply meant_log.
  - constructor; [done..|]. intros data Hd. eapply answers_log; [done|]. by apply Ha, Hresp.
Qed.

Lemma name_inj id id' : id +:+ ".json" = id' +:+ ".json" → id = id'.
Proof. apply str_app_cancel_r. Qed.
Lemma tmp_inj id id' : (id +:+ ".json") +:+ ".tmp" = (id' +:+ ".json") +:+ ".tmp" → id = id'.
Proof. intros ?%str_app_cancel_r. by apply name_inj. Qed.

(** What a caller may do to the directories in one call. *)
Record client_step (pt pt' : Point) (cl : Client) (i : nat) (pts : gmap nat Point) (y y1 : BridgeE) : Prop := {
  cs_same : sy_clients y1 = sy_clients y ∧ sy_log y1 = sy_log y ∧ sy_server y1 = sy_server y ∧ sy_drawn y ⊆ sy_drawn y1;
  cs_id : ∀ id, point_id pt' = Some id → id ∈ sy_drawn y1 ∧ (point_id pt = Some id ∨ id ∉ sy_drawn y);
  cs_sent : ∀ id, pt = PSent id → pt' = PSent id;
  cs_requests : ∀ n data call, request_name n → bx_requests (sy_box y1) !! n = Some data → asks data call →
    bx_requests (sy_box y) !! n = Some data ∨
    ∃ id, n = id +:+ ".json" ∧ pt = PRename id ∧ pt' = PSent id ∧ cl_token cl = Token ∧ cl_call cl = call;
  cs_tmp : ∀ id data, (∀ id', point_id pt' = Some id' → id' ≠ id) →
    bx_requests (sy_box y1) !! ((id +:+ ".json") +:+ ".tmp") = Some data →
    bx_requests (sy_box y) !! ((id +:+ ".json") +:+ ".tmp") = Some data;
  cs_own_tmp : ∀ id data call, pt' = PRename id →
    bx_requests (sy_box y1) !! ((id +:+ ".json") +:+ ".tmp") = Some data → asks data call →
    cl_token cl = Token ∧ cl_call cl = call;
  cs_responses : ∀ n data, bx_responses (sy_box y1) !! n = Some data → bx_responses (sy_box y) !! n = Some data }.

Lemma inv_client strict pts y y1 i cl pt pt' p' :
  inv strict pts y → sy_clients y !! i = Some cl → pts !! i = Some pt →
  client_step pt pt' cl i pts y y1 →
  client_at y (mkClient (cl_token cl) (cl_call cl) p') pt' →
  inv strict (<[i := pt']> pts) (set_client y1 i (mkClient (cl_token cl) (cl_call cl) p')).
Proof.
  intros [Hcl Hnames Hdrawn Hreq Htmp Hresp Hsrv Hlog Honce] Hi Hpt [[Ec [El [Es Ed]]] Hid Hsent Hreq' Htmp' Hown' Hresp'] Hat.
  set (y' := set_client _ _ _). set (pts' := <[i := pt']> pts).
  assert (Hn : names y' = names y) by (unfold names; simpl; by rewrite El).
  assert (Hin : ∀ e, e ∈ sy_log y → e ∈ sy_log y') by (simpl; by rewrite El).
  assert (Hmono : ∀ n call, owned pts y n call → owned pts' y' n call).
  { intros n call (j & c & id & Hj & Hp & -> & Ht & Hcall). destruct (decide (i = j)) as [<-|Hne].
    - assert (c = cl) as -> by congruence. assert (pt = PSent id) as -> by congruence.
      exists i, (mkClient (cl_token cl) (cl_call cl) p'), id. unfold y', pts'. simpl.
      rewrite !lookup_insert_eq, (Hsent id eq_refl). done.
    - exists j, c, id. unfold y', pts'. simpl. by rewrite !lookup_insert_ne, Ec. }
  assert (Hfresh : ∀ id, pt = PRename id → (∀ call, ¬ owned pts y (id +:+ ".json") call)).
  { intros id -> call (j & c & id' & Hj & Hp & He & _). apply name_inj in He as <-.
    assert (i = j) as <- by (by eapply Hnames). congruence. }
  split.
  - intros j c. simpl. rewrite Ec. destruct (decide (i = j)) as [<-|Hne].
    + rewrite lookup_insert_eq. intros [= <-]. exists pt'. unfold pts'. rewrite lookup_insert_eq. split; [done|].
      by eapply client_at_log.
    + rewrite lookup_insert_ne by done. intros Hj. destruct (Hcl j c Hj) as (q & Hq & Hc). exists q.
      unfold pts'. rewrite lookup_insert_ne by done. split; [done|]. by eapply client_at_log.
  - assert (Hone : ∀ j q id, i ≠ j → pts !! j = Some q → point_id pt' = Some id → point_id q = Some id → False).
    { intros j q id Hne Hj Hp Hq. destruct (Hid id Hp) as [_ [Hold|Hnew]]; [apply Hne; by eapply Hnames|].
      apply Hnew. by eapply Hdrawn. }
    intros j k q r id Hj Hk Hq Hr. unfold pts' in *.
    destruct (decide (i = j)) as [<-|Hij], (decide (i = k)) as [<-|Hik]; rewrite ?lookup_insert_eq, ?lookup_insert_ne in * by done;
      simplify_eq; [done|exfalso; by eapply (Hone k)|exfalso; by eapply (Hone j)|by eapply Hnames].
  - intros j q id Hj Hq. unfold pts' in Hj. simpl. destruct (decide (i = j)) as [<-|Hij].
    + rewrite lookup_insert_eq in Hj. simplify_eq. by apply Hid.
    + rewrite lookup_insert_ne in Hj by done. apply Ed. by eapply Hdrawn.
  - intros n data call Hrn Hn' Ha. rewrite Hn. destruct (Hreq' n data call Hrn Hn' Ha) as [Hold|(id & -> & -> & -> & Ht & Hc)].
    + destruct (Hreq n data call Hrn Hold Ha) as [Ho Hs]. split; [by apply Hmono|done].
    + split.
      * exists i, (mkClient (cl_token cl) (cl_call cl) p'), id. unfold y', pts'. simpl.
        by rewrite !lookup_insert_eq.
      * intros _ Hin'. unfold names in Hin'. apply list_elem_of_fmap in Hin' as ([[n c] o] & Hn1 & Hin'). simpl in Hn1. subst n.
        by eapply (Hfresh id eq_refl), Hlog.
  - intros j c id data call Hj Hp. simpl in *. unfold pts' in Hp. destruct (decide (i = j)) as [<-|Hij].
    + rewrite lookup_insert_eq in Hj. rewrite lookup_insert_eq in Hp. simplify_eq/=. by apply Hown'.
    + rewrite lookup_insert_ne in Hj by done. rewrite lookup_insert_ne in Hp by done. rewrite Ec in Hj. intros Hd. apply (Htmp j c id data call Hj Hp).
      apply Htmp'; [|done]. intros id' Hid' ->. destruct (Hid id Hid') as [_ [Hold|Hnew]].
      * apply Hij. by eapply (Hnames i j pt (PRename id)).
      * apply Hnew. by eapply (Hdrawn j (PRename id)).
  - intros n data Hrn Hd. eapply answers_log; [done|]. apply Hresp; [done|]. by apply Hresp'.
  - simpl. rewrite Es. eapply serving_mono; [| | | | |exact Hsrv]; try done; [intros n data; apply Hresp'|].
    intros n call Ho (data & call' & Hd & Ha). simpl in Hd.
    destruct Ho as (j & c & id & Hj & Hp & -> & _).
    destruct (Hreq' _ data call' (json_name id) Hd Ha) as [Hold|(id' & Hid' & -> & _)]; [by exists data, call'|].
    exfalso. apply name_inj in Hid' as <-. assert (i = j) as <- by (by eapply Hnames). congruence.
  - intros n call o Hl. apply Hmono. simpl in Hl. rewrite El in Hl. by eapply Hlog.
  - rewrite Hn. done.
Qed.

(** A call that at most removes files. *)
Lemma quiet_step pt pt' cl i pts y f :
  (∀ id, point_id pt' = Some id → point_id pt = Some id ∧ id ∈ sy_drawn y) →
  (∀ id, pt = PSent id → pt' = PSent id) → (∀ id, pt' ≠ PRename id) →
  (∀ n data, bx_requests (f (sy_box y)) !! n = Some data → bx_requests (sy_box y) !! n = Some data) →
  (∀ n data, bx_responses (f (sy_box y)) !! n = Some data → bx_responses (sy_box y) !! n = Some data) →
  client_step pt pt' cl i pts y (set_box y f).
Proof.
  intros Hid Hsent Hren Hq Hr. split; simpl; eauto.
  - intros id Hi. destruct (Hid id Hi). auto.
  - intros id data call ->. by destruct (Hren id).
Qed.
Lemma box_id (y : BridgeE) : set_box y id = y.
Proof. by destruct y. Qed.
Lemma delete_sub (fs : gmap string string) name n data : delete name fs !! n = Some data → fs !! n = Some data.
Proof. by intros [_ ?]%lookup_delete_Some. Qed.

(** What an attempt does: nothing, or its change. *)
Lemma attempt_cases {A} c (y : BridgeE) (r : Res A) f r' y' :
  attempt c y r f = Some (r', y') →
  (r' = r ∧ ((∃ a, r = Ok a) ∧ y' = set_box y f ∨ (∃ e, r = Err e) ∧ y' = set_box y id)) ∨
  (∃ e, ch_fault c = Some e ∧ r' = Err e ∧ y' = set_box y id).
Proof.
  unfold attempt. rewrite box_id. destruct (ch_fault c) as [e|]; intros [= <- <-]; [right; eauto|].
  left. split; [done|]. destruct r; eauto.
Qed.

Lemma read_means y name data result :
  answers y name data → read_response data = Ok result → got_result y name result.
Proof.
  intros (response & -> & Hm). unfold read_response. destruct (too_big _); [done|]. rewrite decode_response.
  destruct (fr_Error response =s "") eqn:He; [|done]. intros [= <-]. apply bool_decide_eq_true in He.
  destruct Hm as [?|[?|?]]; [done|by left|by right].
Qed.

Lemma client_inv strict pts y i c y' :
  inv strict pts y → bridge_move Token invoke y (ClientCall i c) = Some y' → ∃ pts', inv strict pts' y'.
Proof.
  intros Hinv. simpl. destruct (sy_clients y !! i) as [cl|] eqn:Hi; [|done]. simpl.
  destruct (iv_clients _ _ _ Hinv i cl Hi) as (pt & Hpt & Hat).
  destruct (run_prog _ _ _ _) as [[p y1]|] eqn:Hrun; [|done]. simpl. intros [= <-].
  cut (∃ pt', client_step pt pt' cl i pts y y1 ∧ client_at y (mkClient (cl_token cl) (cl_call cl) p) pt').
  { intros (pt' & Hstep & Hat'). exists (<[i := pt']> pts). by eapply inv_client. }
  assert (Hdrawn : ∀ id, point_id pt = Some id → id ∈ sy_drawn y) by (intros id Hid; by eapply iv_drawn).
  destruct pt as [|id|id|id|].
  - destruct Hat as (polls & Hp). rewrite Hp in Hrun. simpl in Hrun. destruct (ch_fault c) as [e|].
    + injection Hrun as <- <-. exists PNone. split; [|by exists e]. rewrite <- (box_id y) at 2. by apply quiet_step.
    + case_bool_decide as Hnew; [done|]. injection Hrun as <- <-. exists (PWrite (ch_id c)). split; [|by exists polls].
      split; simpl; [split_and!; try done; set_solver| |done|by eauto|done|done|done].
      intros id [= <-]. split; [set_solver|by right].
  - destruct Hat as (polls & Hp). rewrite Hp in Hrun. simpl in Hrun. destruct (ch_fault c) as [e|].
    + injection Hrun as <- <-. exists (PSent id). split; [|do 3 right; left; by eexists]. split; simpl; [done| |done| | |done|done].
      * intros id' [= <-]. auto.
      * intros n data call Hn Hd Ha. left. rewrite lookup_partial_alter_ne in Hd; [done|]. by apply tmp_name.
      * intros id' data Hne Hd. rewrite lookup_partial_alter_ne in Hd; [done|]. intros He%tmp_inj. by apply (Hne id).
    + injection Hrun as <- <-. exists (PRename id). split; [|by exists polls]. split; simpl; [done| |done| | | |done].
      * intros id' [= <-]. auto.
      * intros n data call Hn Hd Ha. left. rewrite lookup_insert_ne in Hd; [done|]. by apply tmp_name.
      * intros id' data Hne Hd. rewrite lookup_insert_ne in Hd; [done|]. intros He%tmp_inj. by apply (Hne id).
      * intros id' data call [= <-]. rewrite lookup_insert_eq. intros [= <-] Ha. by apply asks_request in Ha as [-> ->].
  - destruct Hat as (polls & Hp). rewrite Hp in Hrun. simpl in Hrun.
    destruct (attempt _ _ _ _) as [[r y2]|] eqn:Ha; [|done]. injection Hrun as <- <-. exists (PSent id).
    split; [|destruct r; [left; by eexists|right; left; by do 2 eexists]].
    destruct (attempt_cases _ _ _ _ _ _ Ha) as [(-> & [[[a Hd] ->]|[_ ->]])|(e & _ & -> & ->)];
      [|apply quiet_step; simpl; try done; intros id' [= <-]; auto..].
    unfold done_if in Hd. destruct (bx_requests (sy_box y) !! _) as [data|] eqn:Ed; [|done].
    split; simpl; [done| |done| | |done|done].
    + intros id' [= <-]. auto.
    + intros n data' call Hn. destruct (decide (id +:+ ".json" = n)) as [<-|Hne].
      * rewrite lookup_insert_eq, Ed. simpl. intros [= <-] Hask. right. exists id.
        by destruct (iv_tmp _ _ _ Hinv i cl id data call Hi Hpt Ed Hask).
      * rewrite lookup_insert_ne by done. intros Hd'%delete_sub. by left.
    + intros id' data' Hne. rewrite lookup_insert_ne; [apply delete_sub|].
      intros He. by apply (tmp_name (id' +:+ ".json") (id +:+ ".json") (json_name id)).
  - assert (Hq : ∀ f, (∀ n data, bx_requests (f (sy_box y)) !! n = Some data → bx_requests (sy_box y) !! n = Some data) →
              (∀ n data, bx_responses (f (sy_box y)) !! n = Some data → bx_responses (sy_box y) !! n = Some data) →
              client_step (PSent id) (PSent id) cl i pts y (set_box y f)).
    { intros f. apply quiet_step; try done. intros id' [= <-]; auto. }
    assert (Hgive : ∀ f e, run_prog invoke (abandon_request f e) c y = Some (p, y1) →
              ∃ pt', client_step (PSent id) pt' cl i pts y y1 ∧ client_at y (mkClient (cl_token cl) (cl_call cl) p) pt').
    { intros f e Hg. simpl in Hg. destruct (attempt _ _ _ _) as [[r y2]|] eqn:Ha; [|done]. injection Hg as <- <-.
      exists (PSent id). split; [|do 3 right; left; by eexists].
      destruct (attempt_cases _ _ _ _ _ _ Ha) as [(-> & [[_ ->]|[_ ->]])|(e' & _ & -> & ->)]; apply Hq; simpl; eauto using delete_sub. }
    destruct Hat as [(polls & Hp)|[(f & e & Hp)|[(data & Hp & Hans)|[(e & Hp)|(result & Hp & _)]]]]; rewrite Hp in Hrun;
      [|by eapply Hgive| |done..].
    + destruct polls as [|polls]; [by eapply Hgive|]. simpl in Hrun.
      destruct (attempt _ _ _ _) as [[r y2]|] eqn:Ha; [|done]. injection Hrun as <- <-. exists (PSent id).
      assert (Hr : client_step (PSent id) (PSent id) cl i pts y y2 ∧
                   (∀ data, r = Ok data → answers y (id +:+ ".json") data)).
      { destruct (attempt_cases _ _ _ _ _ _ Ha) as [(-> & [[_ ->]|[[e He] ->]])|(e' & _ & -> & ->)];
          (split; [by apply Hq|]); [|by rewrite He|done].
        intros data Hd. unfold present in Hd. destruct (bx_responses _ !! _) as [d|] eqn:Ed; [|done]. injection Hd as ->.
        eapply iv_responses; [done|apply json_name|done]. }
      destruct Hr as [Hstep Hans]. split; [done|]. destruct r as [data|err].
      * right. right. left. exists data. split; [done|]. by apply Hans.
      * destruct (errors_Is err ErrNotExist); [left; by exists polls|do 3 right; left; by eexists].
    + simpl in Hrun. destruct (attempt _ _ _ _) as [[r y2]|] eqn:Ha; [|done]. injection Hrun as <- <-. exists (PSent id). split.
      * destruct (attempt_cases _ _ _ _ _ _ Ha) as [(-> & [[_ ->]|[_ ->]])|(e' & _ & -> & ->)]; apply Hq; simpl; eauto using delete_sub.
      * do 3 right. destruct (read_response data) as [result|e] eqn:Er; [right|left; by eexists].
        exists result. split; [done|]. by eapply read_means.
  - destruct Hat as (e & Hp). by rewrite Hp in Hrun.
Qed.

(** ** The bridge's own moves *)
Lemma inv_server (strict strict' : Prop) pts (y y1 : BridgeE) p' new :
  inv strict pts y → sy_clients y1 = sy_clients y → sy_drawn y1 = sy_drawn y →
  sy_log y1 = sy_log y ++ new → (∀ n call o, (n, call, o) ∈ new → owned pts y n call) →
  (∀ n data, bx_requests (sy_box y1) !! n = Some data → bx_requests (sy_box y) !! n = Some data) →
  (∀ n data, request_name n → bx_responses (sy_box y1) !! n = Some data → answers y1 n data) →
  serving strict' pts y1 p' → (strict' → strict) →
  (strict' → NoDup (names y1) ∧
     ∀ n data call, request_name n → bx_requests (sy_box y1) !! n = Some data → asks data call → n ∉ names y1) →
  inv strict' pts (set_server y1 p').
Proof.
  intros [Hcl Hnames Hdrawn Hreq Htmp Hresp Hsrv Hlog Honce] Ec Ed El Hnew Hq Hr Hs Hst Ho.
  assert (Hin : ∀ e, e ∈ sy_log y → e ∈ sy_log y1) by (intros e He; rewrite El; set_solver).
  assert (Hown : ∀ n call, owned pts y n call → owned pts (set_server y1 p') n call).
  { intros n call (i & cl & id & Hi & Hrest). exists i, cl, id. simpl. by rewrite Ec. }
  split; simpl.
  - intros i cl. rewrite Ec. intros Hi. destruct (Hcl i cl Hi) as (pt & Hpt & Hat). exists pt. split; [done|].
    by eapply client_at_log.
  - done.
  - by rewrite Ed.
  - intros n data call Hn Hd Ha. split; [eapply Hown, Hreq; eauto|]. intros Hs'. eapply (Ho Hs'); eauto.
  - intros i cl id data call. rewrite Ec. eauto.
  - done.
  - eapply serving_mono; [..|exact Hs]; try done. 
  - intros n call o. rewrite El. intros [Hl|Hl]%elem_of_app; apply Hown; [by eapply Hlog|by eapply Hnew].
  - intros Hs'. by apply Ho.
Qed.

(** A move that leaves the record of the invoker alone. *)
Lemma inv_server_quiet (strict strict' : Prop) pts (y : BridgeE) f p' :
  inv strict pts y → (strict' → strict) →
  (∀ n data, bx_requests (f (sy_box y)) !! n = Some data → bx_requests (sy_box y) !! n = Some data) →
  (∀ n data, request_name n → bx_responses (f (sy_box y)) !! n = Some data → answers y n data) →
  serving strict' pts (set_box y f) p' →
  inv strict' pts (set_server (set_box y f) p').
Proof.
  intros Hinv Hst Hq Hr Hs. eapply (inv_server strict strict' pts y (set_box y f) p' []); eauto.
  - by rewrite app_nil_r.
  - intros n call o Hin. by apply elem_of_nil in Hin.
  - intros Hs'. split; [by apply (iv_once _ _ _ Hinv), Hst|]. intros n data call Hn Hd Ha.
    eapply (iv_requests _ _ _ Hinv); eauto.
Qed.

(** Whether a call of the bridge's own failed. *)
Definition own_failure (m : Move) : bool :=
  match m with ServerCall c => bool_decide (is_Some (ch_fault c)) | _ => false end.

Lemma server_inv (strict strict' : Prop) pts y c y' :
  inv strict pts y → (strict' → strict ∧ own_failure (ServerCall c) = false) →
  bridge_move Token invoke y (ServerCall c) = Some y' → inv strict' pts y'.
Proof.
  intros Hinv Hst. simpl. destruct (run_prog _ _ _ _) as [[p y1]|] eqn:Hrun; [|done]. simpl. intros [= <-].
  assert (Hst1 : strict' → strict) by (intros ?; by apply Hst).
  assert (Hsame : ∀ p', serving strict' pts y p' → inv strict' pts (set_server y p')).
  { intros p' Hs. rewrite <- (box_id y). apply (inv_server_quiet strict); simpl; rewrite ?box_id; eauto.
    intros n data. by apply (iv_responses _ _ _ Hinv). }
  pose proof (iv_server _ _ _ Hinv) as Hsrv. inversion Hsrv as [Hp|Hp|n next Hn Hl Hp|n data next Hn Hl Hd Hp|n call next Hn Hl Ho Hs Hp|n resp next Hn Hl Hm Hp|n next Hn Hl Ha Hp];
    rewrite <- Hp in Hrun; simpl in Hrun; [done|..].
  - destruct (attempt _ _ _ _) as [[r y2]|] eqn:Ha; [|done]. injection Hrun as <- <-.
    destruct (attempt_cases _ _ _ _ _ _ Ha) as [(-> & [[_ ->]|[[e [=]] _]])|(e & _ & -> & ->)]; rewrite box_id; apply Hsame; [|constructor].
    apply later_serving. eexists. split; [|done]. apply Forall_forall. intros x [Hx _]%list_elem_of_filter. exact Hx.
  - destruct (attempt _ _ _ _) as [[r y2]|] eqn:Ha; [|done]. injection Hrun as <- <-.
    assert (y2 = y ∧ ∀ content, r = Ok content → bx_requests (sy_box y) !! n = Some content) as [-> Hr].
    { destruct (attempt_cases _ _ _ _ _ _ Ha) as [(-> & [[_ ->]|[[e He] ->]])|(e & _ & -> & ->)]; rewrite box_id; (split; [done|]);
        [|by rewrite He|done].
      intros content. unfold present. simpl. destruct (bx_requests _ !! n); [by intros [= <-]|done]. }
    apply Hsame. constructor; [done..|]. intros call Hx. destruct r as [content|e]; [|done].
    destruct (iv_requests _ _ _ Hinv n content call Hn (Hr _ eq_refl) Hx) as [Ho Hf]. split; [done|]. intros Hs'. auto.
  - destruct (attempt _ _ _ _) as [[r y2]|] eqn:Ha; [|done]. injection Hrun as <- <-.
    assert (Hy2 : (∃ f, y2 = set_box y f ∧ (∀ n data, bx_requests (f (sy_box y)) !! n = Some data → bx_requests (sy_box y) !! n = Some data) ∧
                    bx_responses (f (sy_box y)) = bx_responses (sy_box y)) ∧
                  (strict' → bx_requests (sy_box y2) !! n = None)).
    { destruct (attempt_cases _ _ _ _ _ _ Ha) as [(-> & [[_ ->]|[[e He] ->]])|(e & He & -> & ->)].
      - split; [eexists; split; [done|]; split; [intros n' data'; apply delete_sub|done]|]. intros _. apply lookup_delete_eq.
      - split; [by exists id|]. intros _. rewrite box_id. unfold done_if in He. simpl in He. by destruct (bx_requests _ !! n).
      - split; [by exists id|]. intros [_ Hf]%Hst. simpl in Hf. rewrite He in Hf. by apply bool_decide_eq_false in Hf as []. }
    destruct Hy2 as ((f & -> & Hq & Hr) & Hgone). apply (inv_server_quiet strict); [done|done|done| |].
    { intros n' data' Hn'. rewrite Hr. by apply (iv_responses _ _ _ Hinv). }
    destruct (examine Token data) as [response|call] eqn:Hx.
    + constructor; [done..|]. right. left. revert Hx. unfold examine. repeat case_match; intros [= <-]; done.
    + destruct (Hd call eq_refl) as [Ho Hf]. constructor; [done|done|exact Ho|]. intros Hs'. split; [by apply Hf, Hst1|].
      intros (data' & call' & Hpd & _). by rewrite (Hgone Hs') in Hpd.
  - destruct (invoke call (sy_env y)) as [o env] eqn:Hc. injection Hrun as <- <-.
    eapply (inv_server strict strict' pts y _ _ [(n, call, o)]); eauto.
    + by intros n' call' o' [= -> -> ->]%list_elem_of_singleton.
    + intros n' data Hn' Hd. eapply answers_log; [|by apply (iv_responses _ _ _ Hinv)].
      intros e He. simpl. set_solver.
    + constructor; [done..|]. right. destruct o as [result|e]; [right|by left]. exists call. simpl. set_solver.
    + intros Hs'. destruct (Hs (Hst1 Hs')) as [Hf Hnp]. unfold names. simpl. rewrite fmap_app. simpl. split.
      * apply NoDup_app. split_and!; [by apply (iv_once _ _ _ Hinv), Hst1| |apply NoDup_singleton].
        intros x Hx ->%list_elem_of_singleton. by apply Hf.
      * intros n' data call' Hn' Hd Ha [Hx|Hx]%elem_of_app.
        -- by eapply (iv_requests _ _ _ Hinv); eauto.
        -- apply list_elem_of_singleton in Hx as ->. apply Hnp. by exists data, call'.
  - destruct (ch_fault c) as [e|].
    + injection Hrun as <- <-. apply (inv_server_quiet strict); [done|done|done| |by apply later_serving].
      intros n' data Hn'. simpl. rewrite lookup_partial_alter_ne by (by apply tmp_name). by apply (iv_responses _ _ _ Hinv).
    + injection Hrun as <- <-. apply (inv_server_quiet strict); [done|done|done| |].
      * intros n' data Hn'. simpl. rewrite lookup_insert_ne by (by apply tmp_name). by apply (iv_responses _ _ _ Hinv).
      * constructor; [done..|]. intros data. simpl. rewrite lookup_insert_eq. intros [= <-]. by exists resp.
  - destruct (attempt _ _ _ _) as [[r y2]|] eqn:Hat; [|done]. injection Hrun as <- <-.
    destruct (attempt_cases _ _ _ _ _ _ Hat) as [(-> & [[[a Hd] ->]|[_ ->]])|(e & _ & -> & ->)];
      [|rewrite box_id; by apply Hsame, later_serving..].
    apply (inv_server_quiet strict); [done|done|done| |by apply later_serving].
    intros n' data Hn'. simpl in *. unfold done_if in Hd. destruct (bx_responses _ !! (n +:+ ".tmp")) as [d|] eqn:Ed; [|done]. simpl.
    destruct (decide (n = n')) as [<-|Hne].
    + rewrite lookup_insert_eq. intros [= <-]. by apply Ha.
    + rewrite lookup_insert_ne by done. intros Hd'%delete_sub. by apply (iv_responses _ _ _ Hinv).
Qed.

(** ** Histories *)
Lemma inv_start env : inv True ∅ (StartFile env).
Proof.
  split; simpl; try done; [constructor|intros n call o Hin; by apply elem_of_nil in Hin|intros _; constructor].
Qed.

Lemma inv_weaken (strict strict' : Prop) pts y : (strict' → strict) → inv strict pts y → inv strict' pts y.
Proof.
  intros Hst [Hcl Hnames Hdrawn Hreq Htmp Hresp Hsrv Hlog Honce]. split; eauto.
  - intros n data call Hn Hd Ha. destruct (Hreq n data call Hn Hd Ha). split; auto.
  - eapply serving_mono; [..|exact Hsrv]; eauto.
Qed.

(** Moves that touch neither a program nor the responses. *)
Lemma inv_frame strict pts (y y1 : BridgeE) :
  inv strict pts y → sy_clients y1 = sy_clients y → sy_drawn y1 = sy_drawn y → sy_log y1 = sy_log y →
  bx_responses (sy_box y1) = bx_responses (sy_box y) →
  (∀ n data call, bx_requests (sy_box y1) !! n = Some data → asks data call → bx_requests (sy_box y) !! n = Some data) →
  (sy_server y1 = sy_server y ∨ sy_server y1 = serve_round Token) →
  inv strict pts y1.
Proof.
  intros [Hcl Hnames Hdrawn Hreq Htmp Hresp Hsrv Hlog Honce] Ec Ed El Er Hq Hs.
  assert (Hin : ∀ e, e ∈ sy_log y → e ∈ sy_log y1) by (by rewrite El).
  assert (Hn : names y1 = names y) by (unfold names; by rewrite El).
  assert (Hown : ∀ n call, owned pts y n call → owned pts y1 n call).
  { intros n call (i & cl & id & Hi & Hrest). exists i, cl, id. by rewrite Ec. }
  split.
  - intros i cl. rewrite Ec. intros Hi. destruct (Hcl i cl Hi) as (pt & Hpt & Hat). exists pt. split; [done|]. by eapply client_at_log.
  - done.
  - by rewrite Ed.
  - intros n data call Hrn Hd Ha. rewrite Hn. destruct (Hreq n data call Hrn (Hq _ _ _ Hd Ha) Ha). auto.
  - intros i cl id data call. rewrite Ec. eauto.
  - intros n data Hrn. rewrite Er. intros Hd. eapply answers_log; eauto.
  - destruct Hs as [-> | ->]; [|constructor]. eapply serving_mono; [..|exact Hsrv]; eauto.
    + by rewrite Er.
    + intros n call _ (data & call' & Hd & Ha). exists data, call'. eauto.
  - intros n call o. rewrite El. eauto.
  - by rewrite Hn.
Qed.

Lemma arrive_inv strict pts y i token call polls y' :
  inv strict pts y → bridge_move Token invoke y (Arrive i token call polls) = Some y' → ∃ pts', inv strict pts' y'.
Proof.
  intros [Hcl Hnames Hdrawn Hreq Htmp Hresp Hsrv Hlog Honce]. simpl.
  destruct (sy_clients y !! i) as [c|] eqn:Hi; [done|]. intros [= <-]. exists (<[i := PDraw]> pts).
  assert (Hown : ∀ n cl, owned pts y n cl → owned (<[i := PDraw]> pts) (set_client y i (mkClient token call (CallFile polls token call))) n cl).
  { intros n cl (j & c & id & Hj & Hp & Hrest). exists j, c, id. simpl.
    assert (i ≠ j) by congruence. by rewrite !lookup_insert_ne. }
  split; simpl.
  - intros j c. destruct (decide (i = j)) as [<-|Hne].
    + rewrite lookup_insert_eq. intros [= <-]. exists PDraw. rewrite lookup_insert_eq. split; [done|]. by exists polls.
    + rewrite !lookup_insert_ne by done. intros Hj. destruct (Hcl j c Hj) as (pt & Hpt & Hat). exists pt. split; [done|].
      by eapply client_at_log; [|exact Hat].
  - intros j k p q id. destruct (decide (i = j)) as [<-|Hij]; [rewrite lookup_insert_eq; by intros [= <-]|].
    destruct (decide (i = k)) as [<-|Hik]; [rewrite lookup_insert_eq; by intros _ [= <-]|].
    rewrite !lookup_insert_ne by done. apply Hnames.
  - intros j p id. destruct (decide (i = j)) as [<-|Hij]; [rewrite lookup_insert_eq; by intros [= <-]|].
    rewrite lookup_insert_ne by done. apply Hdrawn.
  - intros n data c Hn Hd Ha. destruct (Hreq n data c Hn Hd Ha). auto.
  - intros j c id data cl. destruct (decide (i = j)) as [<-|Hij]; [rewrite !lookup_insert_eq; by intros _ [=]|].
    rewrite !lookup_insert_ne by done. apply Htmp.
  - done.
  - eapply serving_mono; [..|exact Hsrv]; eauto.
  - intros n c o Hin. apply Hown. by eapply Hlog.
  - done.
Qed.

Lemma move_inv strict pts y m y' :
  inv strict pts y → bridge_move Token invoke y m = Some y' →
  ∃ pts', inv (strict ∧ own_failure m = false) pts' y'.
Proof.
  intros Hinv Hm. destruct m as [i token call polls|i c|c| | |name content].
  - destruct (arrive_inv _ _ _ _ _ _ _ _ Hinv Hm) as (pts' & H'). exists pts'. eapply inv_weaken; [|exact H']. by intros [].
  - destruct (client_inv _ _ _ _ _ _ Hinv Hm) as (pts' & H'). exists pts'. eapply inv_weaken; [|exact H']. by intros [].
  - exists pts. eapply server_inv; [exact Hinv|by intros []|exact Hm].
  - simpl in Hm. destruct (sy_server y) eqn:Es; [|done]. destruct (sy_closed y); [done|]. injection Hm as <-.
    exists pts. apply (inv_weaken strict); [by intros []|]. eapply inv_frame; [exact Hinv|simpl; eauto..].
  - simpl in Hm. injection Hm as <-. exists pts. apply (inv_weaken strict); [by intros []|].
    eapply inv_frame; [exact Hinv|simpl; eauto..].
  - exists pts. apply (inv_weaken strict); [by intros []|]. cbn [bridge_move] in Hm. destruct content as [data|].
    + destruct (examine Token (Ok data)) as [resp|call] eqn:Hx; [|done]. injection Hm as <-.
      eapply inv_frame; [exact Hinv|simpl; eauto..]. intros n d call Hd Ha. simpl in Hd.
      destruct (decide (name = n)) as [<-|Hne]; [|by rewrite lookup_insert_ne in Hd].
      rewrite lookup_insert_eq in Hd. injection Hd as <-. unfold asks in Ha. congruence.
    + injection Hm as <-. eapply inv_frame; [exact Hinv|simpl; eauto using delete_sub..].
Qed.

Lemma bridge_play_inv ms strict pts y y' :
  inv strict pts y → bridge_play Token invoke y ms = Some y' →
  ∃ pts', inv (strict ∧ existsb own_failure ms = false) pts' y'.
Proof.
  revert strict pts y. induction ms as [|m ms IH]; intros strict pts y Hinv Hp; simpl in *.
  - injection Hp as <-. exists pts. eapply inv_weaken; [|exact Hinv]. by intros [].
  - destruct (bridge_move _ _ _ _) as [y1|] eqn:Hm; [|done]. destruct (move_inv _ _ _ _ _ Hinv Hm) as (pts1 & H1').
    destruct (IH _ _ _ H1' Hp) as (pts' & H'). exists pts'. eapply inv_weaken; [|exact H'].
    intros [Hs Hf]. apply orb_false_iff in Hf as [Hf1 Hf2]. done.
Qed.

(** C10: calls through the files of the bridge are the calls of their callers,
    however callers, bridge and processes without the token (who write and remove
    request files) interleave, whatever calls of the operating system fail, and
    whenever the bridge is closed.  Every
    request file has one caller.  What the invoker is asked is the call of a
    caller that presented the token, as the caller made it.  A caller that gets a
    result gets one the invoker gave for its own call, or the empty result (which
    a refusal without a text looks like).  And unless a call of the bridge's own
    failed, the invoker is asked at most once for each request. *)
Theorem bridge_calls (env : World E) (ms : list Move) (y : BridgeE) :
  bridge_play Token invoke (StartFile env) ms = Some y →
  ∃ owner : string → nat → Prop,
    (∀ n i j, owner n i → owner n j → i = j) ∧ (∀ n m i, owner n i → owner m i → n = m) ∧
    (∀ n call o, (n, call, o) ∈ sy_log y →
       ∃ i cl, owner n i ∧ sy_clients y !! i = Some cl ∧ cl_token cl = Token ∧ cl_call cl = call) ∧
    (∀ i cl result, sy_clients y !! i = Some cl → cl_prog cl = Ret (Ok result) →
       result = zero_CapabilityResult ∨ ∃ n, owner n i ∧ (n, cl_call cl, Ok result) ∈ sy_log y) ∧
    (existsb own_failure ms = false → NoDup (names y)).
Proof.
  intros Hp. destruct (bridge_play_inv _ _ _ _ _ (inv_start env) Hp) as (pts & Hinv).
  exists (λ n i, ∃ id, pts !! i = Some (PSent id) ∧ n = id +:+ ".json").
  assert (Hfun : ∀ n i j, (∃ id, pts !! i = Some (PSent id) ∧ n = id +:+ ".json") →
                   (∃ id, pts !! j = Some (PSent id) ∧ n = id +:+ ".json") → i = j).
  { intros n i j (id & Hi & ->) (id' & Hj & He). apply name_inj in He as <-. by eapply (iv_names _ _ _ Hinv). }
  split_and!; [done| | | |].
  - intros n m i (id & Hi & ->) (id' & Hj & ->). congruence.
  - intros n call o Hin. destruct (iv_log _ _ _ Hinv _ _ _ Hin) as (i & cl & id & Hi & Hpt & -> & Ht & Hc).
    exists i, cl. split_and!; eauto.
  - intros i cl result Hi Hr. destruct (iv_clients _ _ _ Hinv i cl Hi) as (pt & Hpt & Hat).
    destruct pt as [|id|id|id|]; [by destruct Hat as (? & He); rewrite Hr in He..| |by destruct Hat as (? & He); rewrite Hr in He].
    destruct Hat as [(polls & He)|[(f & e & He)|[(data & He & _)|[(e & He)|(result' & He & Hgot)]]]]; rewrite Hr in He; try done.
    { by destruct polls. }
    injection He as <-. destruct Hgot as [?|(call & Hin)]; [by left|]. right. exists (id +:+ ".json"). split; [by exists id|].
    destruct (iv_log _ _ _ Hinv _ _ _ Hin) as (j & c & id' & Hj & Hpt' & He & _ & Hc).
    assert (i = j) as <- by (eapply Hfun; eauto). congruence.
  - intros Hf. by apply (iv_once _ _ _ Hinv).
Qed.

(** ** A call gets through *)

Definition request_file (call : CapabilityCall) : string := encode_file wire_fileRequest (mkFileRequest Token call).
Definition response_file (o : Res CapabilityResult) : string := encode_file wire_fileResponse (answer_response o).

Lemma examine_request call : too_big (request_file call) = false → examine Token (Ok (request_file call)) = inr call.
Proof.
  intros Hb. unfold examine. rewrite Hb. unfold request_file. rewrite decode_request. simpl.
  by rewrite bool_decide_eq_true_2.
Qed.
Lemma read_delivered o : too_big (response_file o) = false → read_response (response_file o) = delivered o.
Proof.
  intros Hb. unfold read_response. rewrite Hb. unfold response_file. rewrite decode_response.
  destruct o as [result|err]; simpl; [done|]. by destruct (err_msg err =s "").
Qed.

(** Nothing fails, and the bridge's tick falls between the caller's write and its read. *)
Definition smooth (id : string) : Choice := mkChoice None None id.
Definition through (i : nat) (call : CapabilityCall) (polls : nat) (id : string) : list Move :=
  Arrive i Token call (S polls) :: repeat (ClientCall i (smooth id)) 3 ++
  Tick :: repeat (ServerCall (smooth id)) 6 ++ repeat (ClientCall i (smooth id)) 2.

Lemma bridge_play_app y y1 ms ms' :
  bridge_play Token invoke y ms = Some y1 → bridge_play Token invoke y (ms ++ ms') = bridge_play Token invoke y1 ms'.
Proof.
  revert y. induction ms as [|m ms IH]; intros y; simpl; [by intros [= ->]|].
  destruct (bridge_move _ _ y m); simpl; [apply IH|done].
Qed.

Lemma published_one (name data : string) :
  let fs := <[name +:+ ".tmp" := data]> (∅ : gmap string string) in
  request_name name →
  <[name := default "" (fs !! (name +:+ ".tmp"))]> (delete (name +:+ ".tmp") fs) = {[name := data]} ∧
  merge_sort String.le (elements (dom ({[name := data]} : gmap string string))) = [name].
Proof.
  simpl. intros Hn. split.
  - rewrite lookup_insert_eq, delete_insert_eq, delete_empty. done.
  - by rewrite dom_singleton_L, elements_singleton.
Qed.
Lemma taken_back (fs : gmap string string) (name data : string) :
  fs !! name = None → fs !! (name +:+ ".tmp") = None → request_name name →
  delete name (<[name := default "" (<[name +:+ ".tmp" := data]> fs !! (name +:+ ".tmp"))]>
                 (delete (name +:+ ".tmp") (<[name +:+ ".tmp" := data]> fs))) = fs.
Proof.
  intros Hn Ht Hr. rewrite lookup_insert_eq, (delete_insert_id fs) by done. by apply delete_insert_id.
Qed.

(** The caller publishes its request. *)
Lemma call_publishes y i call polls id :
  bx_requests (sy_box y) = ∅ → sy_clients y !! i = None → id ∉ sy_drawn y →
  bridge_play Token invoke y (Arrive i Token call (S polls) :: repeat (ClientCall i (smooth id)) 3) =
  Some (mkBridge (mkBox {[id +:+ ".json" := request_file call]} (bx_responses (sy_box y))) (sy_closed y) (sy_server y)
          (<[i := mkClient Token call (await (S polls) (id +:+ ".json"))]> (sy_clients y)) (sy_env y)
          ({[id]} ∪ sy_drawn y) (sy_log y)).
Proof.
  intros Hq Hi Hd. destruct (published_one (id +:+ ".json") (request_file call) (json_name id)) as [Hpub _].
  assert (Hc : ∀ (cl : Client) m, <[i := cl]> m !! i = Some cl) by (intros; apply lookup_insert_eq).
  cbn [repeat bridge_play bridge_move]. rewrite Hi. simpl.
  rewrite Hc. simpl. rewrite bool_decide_eq_false_2 by done. simpl. rewrite Hc. simpl. rewrite Hc. simpl.
  unfold attempt, set_client, set_box, on_side. simpl. rewrite Hq, lookup_insert_eq. simpl.
  rewrite !insert_insert_eq. rewrite lookup_insert_eq in Hpub. unfold request_file in *. simpl in Hpub. by rewrite Hpub.
Qed.

Lemma attempt_ok {A} c (y : BridgeE) (a : A) f : ch_fault c = None → attempt c y (Ok a) f = Some (Ok a, set_box y f).
Proof. unfold attempt. by intros ->. Qed.

(** One tick of the bridge answers it. *)
Lemma bridge_answers y call name c o env' :
  bx_requests (sy_box y) = {[name := request_file call]} → request_name name →
  sy_server y = Ret () → sy_closed y = false → ch_fault c = None →
  too_big (request_file call) = false → invoke call (sy_env y) = (o, env') →
  bridge_play Token invoke y (Tick :: repeat (ServerCall c) 6) =
  Some (mkBridge (mkBox ∅ (<[name := default "" (<[name +:+ ".tmp" := response_file o]> (bx_responses (sy_box y)) !! (name +:+ ".tmp"))]>
                            (delete (name +:+ ".tmp") (<[name +:+ ".tmp" := response_file o]> (bx_responses (sy_box y))))))
          false (Ret ()) (sy_clients y) env' (sy_drawn y) (sy_log y ++ [(name, call, o)])).
Proof.
  intros Hq Hn Hs Hcl Hf Hb Ho. destruct y as [[q r] closed server clients env drawn log]. simpl in *. subst.
  destruct (published_one name (request_file call) Hn) as [_ Hone].
  assert (Hx := examine_request call Hb). simpl. rewrite attempt_ok, Hone by done. simpl.
  rewrite filter_cons_True by exact Hn. change (filter _ []) with (@nil string). simpl. rewrite lookup_singleton_eq. simpl. rewrite attempt_ok by done. simpl.
  rewrite lookup_singleton_eq. simpl. rewrite attempt_ok by done. cbn [mbind option_bind set_server set_box sy_server process_data].
  unfold examine in Hx. rewrite Hx. simpl. rewrite Ho. simpl. rewrite Hf. simpl. rewrite lookup_insert_eq. simpl. rewrite attempt_ok by done.
  simpl. rewrite delete_singleton_eq. reflexivity.
Qed.

(** C31: a call gets through: at a bridge that is idle, a caller with the token
    whose request and response are within the size limit gets exactly what the
    invoker answers, errors by their texts; the invoker is asked once, the two
    directories are left as they were, and the bridge is idle again. *)
Theorem call_gets_through (y : BridgeE) (i : nat) (call : CapabilityCall) (polls : nat) (id : string) o env' :
  bx_requests (sy_box y) = ∅ → sy_server y = Ret () → sy_closed y = false →
  sy_clients y !! i = None → id ∉ sy_drawn y →
  bx_responses (sy_box y) !! (id +:+ ".json") = None → bx_responses (sy_box y) !! ((id +:+ ".json") +:+ ".tmp") = None →
  invoke call (sy_env y) = (o, env') →
  too_big (request_file call) = false → too_big (response_file o) = false →
  bridge_play Token invoke y (through i call polls id) =
  Some (mkBridge (sy_box y) false (Ret ()) (<[i := mkClient Token call (Ret (delivered o))]> (sy_clients y)) env'
          ({[id]} ∪ sy_drawn y) (sy_log y ++ [(id +:+ ".json", call, o)])).
Proof.
  intros Hq Hs Hcl Hi Hd Hr Ht Ho Hb Hb'. unfold through.
  change (?a :: ?l ++ ?m) with ((a :: l) ++ m).
  rewrite (bridge_play_app _ _ _ _ (call_publishes y i call polls id Hq Hi Hd)).
  change (Tick :: ?l ++ ?m) with ((Tick :: l) ++ m).
  erewrite bridge_play_app; [|eapply (bridge_answers _ call (id +:+ ".json")); try eassumption; first [reflexivity|apply json_name]].
  pose proof (taken_back (bx_responses (sy_box y)) (id +:+ ".json") (response_file o) Hr Ht (json_name id)) as Hback.
  rewrite lookup_insert_eq in *. simpl in Hback.
  cbn [repeat bridge_play bridge_move sy_clients]. rewrite lookup_insert_eq. cbn. unfold attempt. cbn. rewrite lookup_insert_eq. cbn.
  rewrite lookup_insert_eq. cbn. rewrite lookup_insert_eq. cbn. rewrite read_delivered by done.
  unfold set_client. cbn. rewrite Hback, !insert_insert_eq, <- Hq. by destruct (sy_box y).
Qed.
End bridge.

(** ** A bridge in front of the capability invoker of one run *)
Definition bridge_env : World (gmap string capabilityCallState * ()) := mkWorld 0 (∅, ()).
Abbreviation demo_bridge := (StartFile bridge_env).

(** Two callers, one without the token, and a stranger's file. *)
Definition demo_history : list Move :=
  let go := λ i, ClientCall i (smooth "a1") in
  let bridge := ServerCall (smooth "") in
  [Arrive 0 "token" demo_call 3; Arrive 1 "guess" demo_call 3; go 0; go 0; Tick; bridge; go 0;
   ClientCall 1 (smooth "b2"); ClientCall 1 (smooth "b2"); ClientCall 1 (smooth "b2"); go 0; Litter "c3.json" (Some "{}"); Tick] ++
  repeat bridge 14 ++ [go 0; go 0; ClientCall 1 (smooth ""); ClientCall 1 (smooth "")].
Definition demo_after : Bridge (gmap string capabilityCallState * ()) :=
  default demo_bridge (bridge_play "token" (Call demo_invoker) demo_bridge demo_history).

Definition outcome_of (y : Bridge (gmap string capabilityCallState * ())) (i : nat) : option (Res CapabilityResult) :=
  match cl_prog <$> sy_clients y !! i with Some (Ret r) => Some r | _ => None end.

Lemma bridge_calls_witness :
  (∃ owner : string → nat → Prop,
    (∀ n i j, owner n i → owner n j → i = j) ∧ (∀ n m i, owner n i → owner m i → n = m) ∧
    (∀ n call o, (n, call, o) ∈ sy_log demo_after →
       ∃ i cl, owner n i ∧ sy_clients demo_after !! i = Some cl ∧ cl_token cl = "token" ∧ cl_call cl = call) ∧
    (∀ i cl result, sy_clients demo_after !! i = Some cl → cl_prog cl = Ret (Ok result) →
       result = zero_CapabilityResult ∨ ∃ n, owner n i ∧ (n, cl_call cl, Ok result) ∈ sy_log demo_after) ∧
    (existsb own_failure demo_history = false → NoDup (names demo_after))) ∧
  outcome_of demo_after 0 = Some (Ok (mkCapResult "call_0" (Some (JStr "posted")))) ∧
  outcome_of demo_after 1 = Some (Err (errors_New "relay tool bridge: unauthorized")).
Proof.
  split; [|vm_compute; done].
  apply (bridge_calls "token" (Call demo_invoker) bridge_env demo_history demo_after).
  vm_compute. reflexivity.
Defined.

Lemma call_gets_through_witness :
  bridge_play "token" (Call demo_invoker) demo_bridge (through "token" 7 demo_call 2 "a1") =
  Some (mkBridge (mkBox ∅ ∅) false (Ret ())
          (<[7 := mkClient "token" demo_call (Ret (delivered (Call demo_invoker demo_call bridge_env).1))]> ∅)
          (Call demo_invoker demo_call bridge_env).2 ({["a1"]} ∪ ∅)
          ([] ++ [("a1" +:+ ".json", demo_call, (Call demo_invoker demo_call bridge_env).1)])).
Proof.
  apply (call_gets_through "token" (Call demo_invoker) demo_bridge 7 demo_call 2 "a1"
           (Call demo_invoker demo_call bridge_env).1 (Call demo_invoker demo_call bridge_env).2);
    [reflexivity|reflexivity|reflexivity|reflexivity|apply not_elem_of_empty|reflexivity|reflexivity
    |apply surjective_pairing|vm_compute; reflexivity|vm_compute; reflexivity].
Defined.
