(* ===== verification/Sdk.v ===== *)
(** * Sdk: what a host application uses (sdk/client.go, adapter/multica/adapter.go)

    [Client] hands every operation to its backend; an application asks for the
    smaller interfaces.  The Multica adapter turns an issue into a request that
    may read this issue and nothing else, and binds that capability to the
    Multica command line. *)

From S2P Require Import Prelude GoStrings Json Types Demo Event Fs Capability CapabilityProps Outbox Workspace Process Codec Wire Http Worker Binding.

(** ** The client *)
Record Backend (S : Type) := mkBackend {
  bk_Submit : Request → M S Run;
  bk_GetRun : string → M S Run;
  bk_CancelRun : string → CancelRequest → M S Run;
  bk_ListRuns : Z → M S (list Run);
  bk_SessionRuns : string → Z → M S (list Run);
  bk_Attempts : string → M S (list Attempt);
  bk_Events : string → M S (list Event);
  bk_StreamEvents : string → Z → (Event → M S ()) → M S ();
  bk_Artifacts : string → M S (list Artifact);
  bk_OpenArtifact : string → M S string;
  bk_Interactions : string → M S (list Interaction);
  bk_ResolveInteraction : string → option Json → M S Interaction;
  bk_Nodes : M S (list Node) }.

Record Client (S : Type) := New { backend : Backend S }.
Arguments backend {S} _.

Section client.
Context {S : Type} (c : Client S).
Definition sdk_Submit (request : Request) : M S Run := bk_Submit _ (backend c) request.
Definition sdk_Run (runID : string) : M S Run := bk_GetRun _ (backend c) runID.
Definition sdk_GetRun (runID : string) : M S Run := bk_GetRun _ (backend c) runID.
Definition sdk_CancelRun (runID : string) (request : CancelRequest) : M S Run := bk_CancelRun _ (backend c) runID request.
Definition sdk_ListRuns (limit : Z) : M S (list Run) := bk_ListRuns _ (backend c) limit.
Definition sdk_SessionRuns (sessionID : string) (limit : Z) : M S (list Run) := bk_SessionRuns _ (backend c) sessionID limit.
Definition sdk_Attempts (runID : string) : M S (list Attempt) := bk_Attempts _ (backend c) runID.
Definition sdk_Events (runID : string) : M S (list Event) := bk_Events _ (backend c) runID.
Definition sdk_StreamEvents (runID : string) (after : Z) (handle : Event → M S ()) : M S () :=
  bk_StreamEvents _ (backend c) runID after handle.
Definition sdk_Artifacts (runID : string) : M S (list Artifact) := bk_Artifacts _ (backend c) runID.
Definition sdk_OpenArtifact (artifactID : string) : M S string := bk_OpenArtifact _ (backend c) artifactID.
Definition sdk_Interactions (runID : string) : M S (list Interaction) := bk_Interactions _ (backend c) runID.
Definition sdk_ResolveInteraction (id : string) (response : option Json) : M S Interaction :=
  bk_ResolveInteraction _ (backend c) id response.
Definition sdk_Nodes : M S (list Node) := bk_Nodes _ (backend c).
End client.

(** ** The Multica adapter *)
Record IssueTask := mkIssueTask {
  it_IssueID : string; it_AgentID : string; it_Prompt : string; it_SessionID : string; it_IdempotencyKey : string;
  it_Principal : Principal; it_Context : option Json }.
Record Adapter (S : Type) := mkAdapter { ad_Host : option (Request → M S Run); ad_Runtime : RuntimeRequirement }.
Arguments mkAdapter {S} _ _.
Arguments ad_Host {S} _.
Arguments ad_Runtime {S} _.

Definition issue_grants (task : IssueTask) : list CapabilityGrant := [mkGrant "issue.read" "1" "read" [it_IssueID task]].
Definition issue_request (runtime : RuntimeRequirement) (task : IssueTask) : Request :=
  zero <| req_SessionID := it_SessionID task |> <| req_AgentID := it_AgentID task |>
       <| req_IdempotencyKey := it_IdempotencyKey task |> <| req_Runtime := runtime |>
       <| req_Source := mkSource "multica.issue" (it_IssueID task) "" None |>
       <| req_Input := mkInput "task" "1" (it_Prompt task) (it_Context task) |>
       <| req_Principal := it_Principal task |> <| req_Capabilities := issue_grants task |>.
Definition DispatchIssue {S} (a : Adapter S) (task : IssueTask) : M S Run :=
  match ad_Host a with
  | None => raise (errors_New "multica adapter: Relay host is required")
  | Some submit =>
      if (it_IssueID task =s "") || (it_AgentID task =s "") || (it_Prompt task =s "") || (it_IdempotencyKey task =s "")
      then raise (errors_New "multica adapter: issue, agent, prompt, and idempotency key are required")
      else submit (issue_request (ad_Runtime a) task)
  end.

Section binding.
Context `{Host} `{TimeParser} `{Encoder} `{JsonParser} `{Environment}.
Definition CapabilityBinding (command : string) (args : list string) : Descriptor * Provider FS :=
  let command := if command =s "" then "multica" else command in
  (mkDescriptor "issue.read" "1" "exec",
   exec_Invoke (mkExec command (["capability"; "invoke"; "--protocol"; "relay-v1"] ++ args) ∅ true 0) []).
End binding.

(** An issue's run may read its issue and do nothing else.  The adapter submits
    nothing for an incomplete task; for a complete one it makes one request, and in
    whatever way the calls of a run with the grants of this request interleave,
    every request that reaches the provider of its capabilities is a read of this
    issue, on behalf of the principal of the task. *)
Theorem issue_read_only `{Host} `{Encoder} {S X : Type} (a : Adapter S) (task : IssueTask) (w : World S) :
  (match ad_Host a with
   | Some submit =>
       if bool_decide ("" ∈ [it_IssueID task; it_AgentID task; it_Prompt task; it_IdempotencyKey task])
       then ∃ err, DispatchIssue a task w = (Err err, w)
       else DispatchIssue a task w = submit (issue_request (ad_Runtime a) task) w
   | None => ∃ err, DispatchIssue a task w = (Err err, w)
   end) ∧
  (∀ (s : scopedCapabilities X) (env : World X) (y : Sys X) (key : string) (request : CapabilityRequest),
     sc_grants s = req_Capabilities (issue_request (ad_Runtime a) task) →
     sc_principal s = req_Principal (issue_request (ad_Runtime a) task) →
     rtc (step s) (fresh_invoker env) y → (key, request) ∈ sy_invoked y →
     cr_Name request = "issue.read" ∧ cr_Version request = "1" ∧ cr_Effect request = "read" ∧
     cr_Resource request = it_IssueID task ∧ cr_Principal request = it_Principal task).
Proof.
  split.
  - unfold DispatchIssue. destruct (ad_Host a) as [submit|]; [|by eexists].
    destruct (_ || _ || _ || _) eqn:E.
    + rewrite bool_decide_eq_true_2; [by eexists|]. rewrite !orb_true_iff, !bool_decide_eq_true in E. set_solver.
    + rewrite bool_decide_eq_false_2; [done|]. rewrite !orb_false_iff, !bool_decide_eq_false in E. set_solver.
  - intros s env y key request Hg Hp Hy Hin.
    destruct (io_allowed _ _ (steps_ok s _ _ Hy (fresh_ok s env)) key request Hin) as (grant & Hgr & Hn & Hv & He & Hr & _ & _ & Hpr).
    rewrite Hg in Hgr. apply list_elem_of_singleton in Hgr as ->. simpl in *.
    split_and!; [done..| |by rewrite Hpr, Hp]. destruct Hr as [?|Hr]; [done|]. by apply list_elem_of_singleton in Hr.
Qed.

(** ** One issue *)
Definition demo_task : IssueTask :=
  mkIssueTask "issue-42" "triage" "Look into it." "" "issue-42/1" (mkPrincipal "user" "u1" "") None.
Definition issue_invoker : scopedCapabilities () :=
  mkScoped (sc_run demo_invoker) (it_Principal demo_task) (issue_grants demo_task) (sc_provider demo_invoker)
    (sc_emit demo_invoker) None None.
Definition issue_grant : CapabilityGrant := mkGrant "issue.read" "1" "read" ["issue-42"].
Definition issue_call : CapabilityCall := mkCall "issue.read" "" "key-1" "issue-42" None.
Definition issue_recorded : Res Worked * World (list CapabilityRequest * ()) :=
  call_work (recorded issue_invoker) issue_call issue_grant (mkWorld 0 ([], ())).
Definition issue_worked : Worked :=
  match issue_recorded.1 with Ok w => w | Err e => mkWorked (Err e) None end.
Lemma issue_read_only_witness :
  let request := (capability_request issue_invoker issue_grant issue_call) <| cr_CallID := "call_0" |> in
  cr_Name request = "issue.read" ∧ cr_Version request = "1" ∧ cr_Effect request = "read" ∧
  cr_Resource request = "issue-42" ∧ cr_Principal request = mkPrincipal "user" "u1" "".
Proof.
  intros request.
  apply (proj2 (issue_read_only (S := ()) (mkAdapter None (mkRuntimeRequirement "" "codex" "" "" ∅)) demo_task (mkWorld 0 ()))
           issue_invoker demo_env
           (mkSys {["key-1" := mkCallState "issue.read" "1" "issue-42" None]} (mkWorld (w_tick issue_recorded.2) ())
              (<[0 := CPublish "key-1" issue_worked]> (<[0 := CWork "key-1" issue_call issue_grant]> (<[0 := CStart issue_call]> ∅)))
              ([] ++ map (pair "key-1") (w_st issue_recorded.2).1)) "key-1"); [reflexivity|reflexivity| |vm_compute; left].
  eapply rtc_l; [apply (step_arrive _ _ 0 issue_call); reflexivity|].
  eapply rtc_l; [eapply (step_begin _ _ 0 issue_call (BgWork "key-1" issue_grant)); [reflexivity|vm_compute; reflexivity]|].
  eapply rtc_l; [|apply rtc_refl].
  refine (step_work issue_invoker _ 0 "key-1" issue_call issue_grant issue_worked
            (w_tick issue_recorded.2) (w_st issue_recorded.2).1 () _ _); vm_compute; reflexivity.
Defined.
