(* ===== verification/ProcessGroup.v ===== *)
(** * ProcessGroup: how a cancelled process tree ends (runtime/process/process_unix.go)

    [Configure] puts a command into a process group of its own and tells os/exec
    how to cancel it: SIGTERM to the group, SIGKILL to the group three seconds
    later, and four seconds for [Wait].  The machine is a transition system: the
    processes (of the command and others) fork, leave their group, close the
    pipes and exit as they like; the package os/exec, its timers and the context
    of the command act beside them.  Time passes when nothing is due. *)

From S2P Require Import Prelude Outbox.

(** ** Processes *)
(** [pr_ours]: started by the command, and never out of its group. *)
Record Process := mkProcess { pr_group : nat; pr_ours : bool; pr_pipe : bool }.
Abbreviation Table := (gmap nat Process).

(** A command and what os/exec and [Configure] keep of it.  The leader's number is
    taken until [Wait] has collected it ([ps_collected]). *)
Record State := mkState {
  ps_now : Z; ps_table : Table;
  ps_cancelled : option Z;   (* when [Cancel] reached the group *)
  ps_kill : bool;            (* the goroutine has still to send SIGKILL *)
  ps_delay : option Z;       (* since when [WaitDelay] runs *)
  ps_collected : bool; ps_shut : bool; ps_returned : bool }.
#[export] Instance eta_State : Eta State := λ s,
  mkState (ps_now s) (ps_table s) (ps_cancelled s) (ps_kill s) (ps_delay s) (ps_collected s) (ps_shut s) (ps_returned s).

Definition grace : Z := (3 * second)%Z.
Definition WaitDelay : Z := (4 * second)%Z.

Section group.
Context (leader : nat).

(** [Setpgid]: the group has the number of its first process. *)
Definition started (others : Table) (now : Z) : State :=
  mkState now (<[leader := mkProcess leader true true]> others) None false None false false false.

(** [syscall.Kill(-pid, ...)]: all in the group, or those that SIGTERM ends. *)
Definition in_group (p : Process) : bool := bool_decide (pr_group p = leader).
Definition without (dead : nat → Process → bool) (s : State) : State :=
  s <| ps_table := filter (λ kp, dead kp.1 kp.2 = false) (ps_table s) |>.
Definition start_delay (s : State) : State := s <| ps_delay := Some (default (ps_now s) (ps_delay s)) |>.

(** [command.Cancel]: [obeys] are those that end at once; a group that is gone is no
    error, any other error ends [Cancel] without the second signal. *)
Definition Cancel (failed : bool) (obeys : nat → bool) (s : State) : State :=
  let s := start_delay s in
  if failed then s
  else (without (λ k p, in_group p && obeys k) s) <| ps_cancelled := Some (ps_now s) |> <| ps_kill := true |>.
(** The goroutine after its sleep.  The code ignores the error of the call, which
    the system gives when the group has no process any more; that it may not signal
    one (a process that changed its user) is left out. *)
Definition send_kill (s : State) : State := (without (λ _ p, in_group p) s) <| ps_kill := false |>.

(** [Wait] sees the exit of the child; [WaitDelay] ends: the child is killed if it
    was not seen to exit, and the pipes are closed. *)
Definition collect (s : State) : State := (start_delay s) <| ps_collected := true |>.
Definition shut_down (s : State) : State :=
  (if ps_collected s then s else without (λ k _, bool_decide (k = leader)) s) <| ps_shut := true |>.

Definition leader_gone (s : State) : bool := bool_decide (ps_table s !! leader = None).
Definition pipes_closed (s : State) : bool := bool_decide (map_Forall (λ _ p, pr_pipe p = false) (ps_table s)).
Definition can_collect (s : State) : bool := leader_gone s && negb (ps_collected s).
Definition can_return (s : State) : bool := ps_collected s && (ps_shut s || pipes_closed s) && negb (ps_returned s).
Definition kill_at (s : State) : option Z := if ps_kill s then (λ t, (t + grace)%Z) <$> ps_cancelled s else None.
Definition shut_at (s : State) : option Z :=
  if ps_shut s || ps_returned s then None else (λ t, (t + WaitDelay)%Z) <$> ps_delay s.
Definition is_due (s : State) (at_ : option Z) : bool := bool_decide (at_ = Some (ps_now s)).
Definition urgent (s : State) : bool := can_collect s || can_return s || is_due s (kill_at s) || is_due s (shut_at s).
Definition not_after (t : Z) (at_ : option Z) : Prop := match at_ with Some t' => (t <= t')%Z | None => True end.

(** The number of a process is free when no process and no group has it; the
    leader's is not before it was collected. *)
Definition free (s : State) (q : nat) : Prop :=
  ps_table s !! q = None ∧ map_Forall (λ _ p, pr_group p ≠ q) (ps_table s) ∧ (q = leader → ps_collected s = true).

Inductive step (s : State) : State → Prop :=
  | step_time d : (0 < d)%Z → urgent s = false → not_after (ps_now s + d) (kill_at s) → not_after (ps_now s + d) (shut_at s) →
      step s (s <| ps_now := (ps_now s + d)%Z |>)
  | step_exit k : step s (s <| ps_table := delete k (ps_table s) |>)
  | step_fork k p q : ps_table s !! k = Some p → free s q → step s (s <| ps_table := <[q := p]> (ps_table s) |>)
  | step_leave k p : ps_table s !! k = Some p → pr_group p ≠ k →
      step s (s <| ps_table := <[k := mkProcess k false (pr_pipe p)]> (ps_table s) |>)
  | step_close k p : ps_table s !! k = Some p →
      step s (s <| ps_table := <[k := mkProcess (pr_group p) (pr_ours p) false]> (ps_table s) |>)
  | step_other q : free s q → step s (s <| ps_table := <[q := mkProcess q false false]> (ps_table s) |>)
  | step_cancel failed obeys : ps_collected s = false → ps_delay s = None → step s (Cancel failed obeys s)
  | step_kill : is_due s (kill_at s) = true → step s (send_kill s)
  | step_collect : can_collect s = true → step s (collect s)
  | step_shut : is_due s (shut_at s) = true → step s (shut_down s)
  | step_return : can_return s = true → step s (s <| ps_returned := true |>).

(** The command starts beside processes of others. *)
Definition reached (s : State) : Prop := ∃ others now,
  free (mkState now others None false None true false false) leader ∧ map_Forall (λ _ p, pr_ours p = false ∧ pr_pipe p = false) others ∧
  rtc step (started others now) s.

(** ** What every history keeps *)
Definition ours (s : State) : Prop := ∃ k p, ps_table s !! k = Some p ∧ pr_ours p = true.
Record inv (s : State) : Prop := {
  iv_group : ∀ k p, ps_table s !! k = Some p → pr_ours p = true → pr_group p = leader;
  iv_cancelled : ∀ t, ps_cancelled s = Some t → ps_delay s = Some t;
  iv_kill : ps_kill s = true → ∃ t, ps_cancelled s = Some t ∧ (ps_now s <= t + grace)%Z;
  iv_killed : ∀ t, ps_cancelled s = Some t → ps_kill s = false → ¬ ours s;
  iv_delay : ∀ t, ps_delay s = Some t → ps_returned s = false → (ps_now s <= t + WaitDelay)%Z;
  iv_shut : ps_shut s = true → ps_collected s = false → ps_table s !! leader = None;
  iv_leader : ps_collected s = false → ∀ p, ps_table s !! leader = Some p → pr_group p = leader ∧ pr_ours p = true;
  iv_collected : ps_collected s = true → ours s → ps_table s !! leader = None;
  iv_strangers : ps_collected s = false ∨ ours s → ∀ k p, ps_table s !! k = Some p → pr_group p = leader → pr_ours p = true;
  iv_returned : ps_returned s = true → ps_collected s = true }.

(** A table with fewer processes. *)
Lemma inv_fewer s table :
  inv s → (∀ k p, table !! k = Some p → ps_table s !! k = Some p) → inv (s <| ps_table := table |>).
Proof.
  intros [Ig Ic Ik Ikd Id Is Il Icl Ist Ir] Hsub.
  assert (Hours : ours (s <| ps_table := table |>) → ours s) by (intros (k & p & Hk & Hp); exists k, p; auto).
  assert (Hnone : ps_table s !! leader = None → table !! leader = None).
  { intros Hn. destruct (table !! leader) as [p|] eqn:Hp; [|done]. by rewrite (Hsub _ _ Hp) in Hn. }
  split; cbn; eauto.
  - intros t Ht Hkill Ho. by apply (Ikd t), Hours.
  - intros [Hc|Ho] k p Hk; [apply (Ist (or_introl Hc) k), Hsub, Hk|apply (Ist (or_intror (Hours Ho)) k), Hsub, Hk].
Qed.
Lemma inv_without dead s : inv s → inv (without dead s).
Proof. intros Hi. apply inv_fewer; [done|]. intros k p [Hk _]%map_lookup_filter_Some. done. Qed.
Lemma inv_table s s' :
  inv s → ps_table s' = ps_table s → ps_cancelled s' = ps_cancelled s → ps_kill s' = ps_kill s → ps_collected s' = ps_collected s →
  ps_shut s' = ps_shut s → ps_returned s' = ps_returned s → ps_now s' = ps_now s →
  ps_delay s' = Some (default (ps_now s) (ps_delay s)) → inv s'.
Proof.
  intros [Ig Ic Ik Ikd Id Is Il Icl Ist Ir] Et Ec Ek Eco Es Er En Ed.
  assert (Ho : ours s' ↔ ours s) by (unfold ours; by rewrite Et).
  split; rewrite ?Et, ?Ec, ?Ek, ?Eco, ?Es, ?Er, ?En, ?Ho; auto.
  - intros t Ht. rewrite Ed. by rewrite (Ic t Ht).
  - intros t Ht Hk. by rewrite Ho; apply (Ikd t).
  - rewrite Ed. intros t [= <-] Hr. destruct (ps_delay s) as [t'|] eqn:Hd; cbn; [by apply Id|]. unfold WaitDelay, second, millisecond. lia.
Qed.

(** One process added or changed: what has to hold of it. *)
Lemma inv_insert s k p :
  inv s →
  (pr_ours p = true → pr_group p = leader ∧ ours s) →
  (ps_collected s = false → k = leader → pr_group p = leader ∧ pr_ours p = true) →
  (ps_collected s = true → ours s → k ≠ leader) →
  (ps_collected s = false → k = leader → ps_shut s = true → False) →
  (ps_collected s = false ∨ ours s → pr_group p = leader → pr_ours p = true) →
  inv (s <| ps_table := <[k := p]> (ps_table s) |>).
Proof.
  intros [Ig Ic Ik Ikd Id Is Il Icl Ist Ir] Hours Hl Hc Hsh Hst.
  assert (Ho : ours (s <| ps_table := <[k := p]> (ps_table s) |>) → ours s).
  { intros (k' & p' & Hk & Hp). cbn in Hk. apply lookup_insert_Some in Hk as [[<- <-]|[_ Hk]]; [by apply Hours|by exists k', p']. }
  split; cbn; auto.
  - intros k' p' [[<- <-]|[_ Hk]]%lookup_insert_Some Hp; [by apply Hours|by eapply Ig].
  - intros t Ht Hk Ho'. by apply (Ikd t Ht Hk), Ho.
  - intros Hs Hco. destruct (decide (k = leader)) as [->|Hne]; [by destruct (Hsh Hco eq_refl Hs)|]. rewrite lookup_insert_ne by done. auto.
  - intros Hco p' [[-> <-]|[_ Hk]]%lookup_insert_Some; [by apply Hl|by apply Il].
  - intros Hco Ho'. apply Ho in Ho'. rewrite lookup_insert_ne by (by apply Hc). auto.
  - intros Hpre k' p' [[<- <-]|[_ Hk]]%lookup_insert_Some Hp; [apply Hst; [|done]|eapply Ist; [|exact Hk|done]]; tauto.
Qed.

Lemma step_inv s s' : step s s' → inv s → inv s'.
Proof.
  intros Hs Hi. pose proof Hi as [Ig Ic Ik Ikd Id Is Il Icl Ist Ir].
  destruct Hs as [d Hd Hu Hk Hsh|k|k p q Hk [Hq [Hg Hl]]|k p Hk Hne|k p Hk|q [Hq [Hg Hl]]|failed obeys Hc Hdl|Hdue|Hcol|Hdue|Hret].
  - split; cbn; auto.
    + intros Hkill. destruct (Ik Hkill) as (t & Ht & _). exists t. split; [done|]. unfold kill_at in Hk. by rewrite Hkill, Ht in Hk.
    + intros t Ht Hr. unfold shut_at in Hsh. rewrite Hr, orb_false_r, Ht in Hsh. destruct (ps_shut s) eqn:Hshut; [|exact Hsh].
      exfalso. apply orb_false_iff in Hu as [[[Hu1 Hu2]%orb_false_iff _]%orb_false_iff _].
      unfold can_collect, can_return, leader_gone in *. rewrite Hshut, Hr in Hu2.
      destruct (ps_collected s) eqn:Hco; [done|]. by rewrite bool_decide_eq_true_2 in Hu1 by auto.
  - apply inv_fewer; [done|]. intros k' p [_ Hk]%lookup_delete_Some. done.
  - apply inv_insert; [done|..].
    + intros Ho. split; [by eapply Ig|by exists k, p].
    + intros Hco ->. rewrite Hl in Hco by done. done.
    + intros _ (k' & p' & Hk' & Ho') ->. by apply (Hg k' p' Hk'), (Ig k').
    + intros Hco ->. rewrite Hl in Hco by done. done.
    + intros Hpre Hgr. by apply (Ist Hpre k p).
  - apply inv_insert; [done|..]; cbn; [done| | | |].
    + intros Hco ->. destruct (Il Hco p Hk) as [Hg _]. done.
    + intros Hco Ho ->. by rewrite (Icl Hco Ho) in Hk.
    + intros Hco ->. destruct (Il Hco p Hk) as [Hg _]. done.
    + intros [Hco|Ho] ->; [by destruct (Il Hco p Hk)|]. destruct (ps_collected s) eqn:Hco; [by rewrite Icl in Hk|by destruct (Il eq_refl p Hk)].
  - apply inv_insert; [done|..]; cbn.
    + intros Ho. split; [by eapply Ig|by exists k, p].
    + intros Hco ->. by apply Il.
    + intros Hco Ho ->. by rewrite (Icl Hco Ho) in Hk.
    + intros Hco -> Hshut. by rewrite (Is Hshut Hco) in Hk.
    + intros Hpre Hgr. by apply (Ist Hpre k p).
  - apply inv_insert; [done|..]; cbn; [done| | | |].
    + intros Hco ->. rewrite Hl in Hco by done. done.
    + intros _ (k' & p' & Hk' & Ho') ->. by apply (Hg k' p' Hk'), (Ig k').
    + intros Hco ->. rewrite Hl in Hco by done. done.
    + intros [Hco|(k' & p' & Hk' & Ho')] ->; [rewrite Hl in Hco by done; done|]. exfalso. by apply (Hg k' p' Hk'), (Ig k').
  - unfold Cancel. assert (Hi' : inv (start_delay s)) by (by apply (inv_table s)). destruct failed; [done|].
    pose proof (inv_without (λ k p, in_group p && obeys k) _ Hi') as [Jg Jc Jk Jkd Jd Js Jl Jcl Jst Jr].
    unfold start_delay in *. rewrite Hdl in *. split; cbn in *; auto.
    + intros _. exists (ps_now s). split; [done|]. unfold grace, second, millisecond. lia.
    + done.
  - pose proof (inv_without (λ _ p, in_group p) _ Hi) as [Jg Jc Jk Jkd Jd Js Jl Jcl Jst Jr].
    split; cbn in *; auto; [done|]. intros _ _ _ (k & p & [Hk Hno]%map_lookup_filter_Some & Ho). cbn in *.
    unfold in_group in Hno. rewrite (Ig k p Hk Ho), bool_decide_eq_true_2 in Hno by done. done.
  - unfold can_collect, leader_gone in Hcol. apply andb_true_iff in Hcol as [Hgone Hco]. apply bool_decide_eq_true in Hgone.
    assert (Hi' : inv (start_delay s)) by (by apply (inv_table s)). destruct Hi' as [Jg Jc Jk Jkd Jd Js Jl Jcl Jst Jr].
    split; cbn in *; auto; [done|]. intros [?|Ho]; [done|]. apply Jst. by right.
  - unfold shut_down. destruct (ps_collected s) eqn:Hco.
    + split; cbn; auto; by rewrite Hco.
    + pose proof (inv_without (λ k _, bool_decide (k = leader)) _ Hi) as [Jg Jc Jk Jkd Jd Js Jl Jcl Jst Jr].
      split; cbn in *; auto. intros _ _. apply map_lookup_filter_None. right. intros p _ Hp. cbn in Hp. by rewrite bool_decide_eq_true_2 in Hp.
  - unfold can_return in Hret. apply andb_true_iff in Hret as [[Hco _]%andb_true_iff _]. split; cbn; auto. done.
Qed.

Lemma started_inv others now :
  free (mkState now others None false None true false false) leader → map_Forall (λ _ p, pr_ours p = false ∧ pr_pipe p = false) others →
  inv (started others now).
Proof.
  intros (Hf & Hg & _) Ho. cbn in *. split; cbn; try done.
  - intros k p [[<- <-]|[_ Hk]]%lookup_insert_Some Hp; [done|]. destruct (Ho k p Hk) as [Ho' _]. congruence.
  - intros _ p. rewrite lookup_insert_eq. by intros [= <-].
  - intros _ k p [[<- <-]|[_ Hk]]%lookup_insert_Some Hgr; [done|]. by destruct (Hg k p Hk).
Qed.
Lemma reached_inv s : reached s → inv s.
Proof.
  intros (others & now & Hf & Ho & Hr). revert Hr. apply (rtc_ind_r inv); [by apply started_inv|].
  intros x y _ Hs Hi. by eapply step_inv.
Qed.

(** ** Time goes on *)
Definition ahead (s : State) : nat :=
  Nat.b2n (ps_kill s) + Nat.b2n (negb (ps_collected s)) + Nat.b2n (negb (ps_shut s)) + Nat.b2n (negb (ps_returned s)).
Lemma kill_at_later s t : inv s → kill_at s = Some t → (ps_now s <= t)%Z.
Proof.
  intros Hi. unfold kill_at. destruct (ps_kill s) eqn:Hk; [|done]. destruct (iv_kill _ Hi Hk) as (t' & -> & Ht). by intros [= <-].
Qed.
Lemma shut_at_later s t : inv s → shut_at s = Some t → (ps_now s <= t)%Z.
Proof.
  intros Hi. unfold shut_at. destruct (ps_shut s); [done|]. destruct (ps_returned s) eqn:Hr; [done|].
  destruct (ps_delay s) as [t'|] eqn:Hd; [|done]. intros [= <-]. by apply (iv_delay _ Hi).
Qed.
Definition gap (s : State) (at_ : option Z) : Z := match at_ with Some t => t - ps_now s | None => 1 end.

Lemma urgent_act s : urgent s = true → ∃ s', step s s' ∧ ps_now s' = ps_now s ∧ ahead s' < ahead s.
Proof.
  unfold urgent. rewrite !orb_true_iff. intros [[[Hc|Hr]|Hk]|Hs].
  - exists (collect s). split_and!; [by apply step_collect|done|]. apply andb_true_iff in Hc as [_ Hc%negb_true_iff].
    unfold ahead. cbn. rewrite Hc. cbn. lia.
  - exists (s <| ps_returned := true |>). split_and!; [by apply step_return|done|]. apply andb_true_iff in Hr as [_ Hr%negb_true_iff].
    unfold ahead. cbn. rewrite Hr. cbn. lia.
  - exists (send_kill s). split_and!; [by apply step_kill|done|]. unfold is_due, kill_at in Hk.
    destruct (ps_kill s) eqn:E; [|by apply bool_decide_eq_true in Hk]. unfold ahead. cbn. rewrite E. cbn. lia.
  - exists (shut_down s). split_and!; [by apply step_shut|by unfold shut_down; destruct (ps_collected s)|]. unfold is_due, shut_at in Hs.
    destruct (ps_shut s) eqn:E; [by apply bool_decide_eq_true in Hs|]. unfold ahead, shut_down. destruct (ps_collected s) eqn:Hco; cbn; rewrite E, Hco; cbn; lia.
Qed.
Lemma time_goes_on s : inv s → ∃ s', rtc step s s' ∧ (ps_now s < ps_now s')%Z.
Proof.
  remember (ahead s) as n eqn:Hn. revert s Hn. induction (lt_wf n) as [n _ IH]. intros s -> Hi. destruct (urgent s) eqn:Hu.
  - destruct (urgent_act s Hu) as (s1 & Hs & Hnow & Hlt). destruct (IH _ Hlt s1 eq_refl) as (s2 & Hr & Hlater); [by eapply step_inv|].
    exists s2. split; [by eapply rtc_l|]. by rewrite <- Hnow.
  - set (d := Z.min (gap s (kill_at s)) (gap s (shut_at s))).
    assert (Hgap : ∀ at_, (∀ t, at_ = Some t → (ps_now s <= t)%Z) → is_due s at_ = false → (0 < gap s at_)%Z ∧ not_after (ps_now s + gap s at_) at_).
    { intros [t|] Hle Hdue; cbn; [|done]. specialize (Hle t eq_refl). apply bool_decide_eq_false in Hdue. split; [|lia].
      assert (t ≠ ps_now s) by congruence. lia. }
    pose proof Hu as Hu'. unfold urgent in Hu'. rewrite !orb_false_iff in Hu'. destruct Hu' as [[_ Hk] Hs].
    destruct (Hgap (kill_at s)) as [Hk1 Hk2]; [by intros t; apply kill_at_later|done|].
    destruct (Hgap (shut_at s)) as [Hs1 Hs2]; [by intros t; apply shut_at_later|done|].
    exists (s <| ps_now := (ps_now s + d)%Z |>). split; [|cbn; lia]. apply rtc_once, step_time; [lia|done|..].
    + destruct (kill_at s); cbn in *; [lia|done].
    + destruct (shut_at s); cbn in *; [lia|done].
Qed.

(** C19: a cancelled process tree ends, and in time.  Whatever the processes do and
    however many they become: more than three seconds after [Cancel] reached the
    group none of those that the command started is left in it; [Wait] has
    returned more than four seconds after the context ended or the child did,
    whichever came first, and never returns before the child has ended.  While a
    process of the command is left in the group, or [Wait] has not collected the
    child, nobody else is in the group, so the signals reach no other process.
    Time is never held up: from each state there is a way on. *)
Theorem cancelled_tree_ends s :
  reached s →
  (∀ t, ps_cancelled s = Some t → (t + grace < ps_now s)%Z → ¬ ours s) ∧
  (∀ t, ps_cancelled s = Some t → ps_delay s = Some t) ∧
  (∀ t, ps_delay s = Some t → (t + WaitDelay < ps_now s)%Z → ps_returned s = true) ∧
  (ps_returned s = true → ∀ p, ps_table s !! leader = Some p → pr_ours p = false) ∧
  (ps_collected s = false ∨ ours s → ∀ k p, ps_table s !! k = Some p → in_group p = true → pr_ours p = true) ∧
  ∃ s', rtc step s s' ∧ (ps_now s < ps_now s')%Z.
Proof.
  intros Hi%reached_inv. split_and!.
  - intros t Ht Hlate. apply (iv_killed _ Hi t Ht). destruct (ps_kill s) eqn:Hk; [|done].
    destruct (iv_kill _ Hi Hk) as (t' & Ht' & Hle). rewrite Ht in Ht'. injection Ht' as <-. lia.
  - apply (iv_cancelled _ Hi).
  - intros t Ht Hlate. destruct (ps_returned s) eqn:Hr; [done|]. pose proof (iv_delay _ Hi t Ht Hr). lia.
  - intros Hr p Hp. destruct (pr_ours p) eqn:Ho; [|done]. rewrite (iv_collected _ Hi (iv_returned _ Hi Hr)) in Hp; [done|].
    by exists leader, p.
  - intros Hpre k p Hk Hg. apply bool_decide_eq_true in Hg. by apply (iv_strangers _ Hi Hpre k p).
  - by apply time_goes_on.
Qed.
End group.

(** ** Two histories *)
(** A shell that obeys SIGTERM leaves a child that does not. *)
Definition shell : State := started 7 {[3 := mkProcess 3 false false]} 0.
Definition with_child : State := shell <| ps_table := <[8 := mkProcess 7 true true]> (ps_table shell) |>.
Definition asked : State := Cancel 7 false (λ k, bool_decide (k = 7)) with_child.
Definition waited : State := collect asked.
Definition waited_3s : State := waited <| ps_now := (ps_now waited + grace)%Z |>.
Definition killed : State := (send_kill 7 waited_3s) <| ps_returned := true |>.
Definition late : State := killed <| ps_now := (ps_now killed + 2 * second)%Z |>.

#[local] Ltac decided := apply (bool_decide_unpack _); vm_compute; exact I.
Lemma shell_free : free 7 (mkState 0 {[3 := mkProcess 3 false false]} None false None true false false) 7.
Proof. unfold free. split_and!; [reflexivity|decided|done]. Qed.
Lemma late_reached : reached 7 late.
Proof.
  exists {[3 := mkProcess 3 false false]}, 0%Z. split; [exact shell_free|]. split; [decided|].
  eapply rtc_l; [apply (step_fork 7 shell 7 (mkProcess 7 true true) 8); [reflexivity|unfold free; split_and!; [reflexivity|decided|done]]|].
  eapply rtc_l; [apply (step_cancel 7 with_child false (λ k, bool_decide (k = 7))); reflexivity|].
  eapply rtc_l; [apply (step_collect 7 asked); vm_compute; reflexivity|].
  eapply rtc_l; [apply (step_time 7 waited grace); [reflexivity|vm_compute; reflexivity|vm_compute; discriminate..]|].
  eapply rtc_l; [apply (step_kill 7 waited_3s); vm_compute; reflexivity|].
  eapply rtc_l; [apply (step_return 7 (send_kill 7 waited_3s)); vm_compute; reflexivity|].
  eapply rtc_l; [apply (step_time 7 killed (2 * second)); [reflexivity|vm_compute; reflexivity|vm_compute; exact I..]|].
  apply rtc_refl.
Qed.
Example late_table : map_to_list (ps_table late) = [(3, mkProcess 3 false false)].
Proof. vm_compute. reflexivity. Qed.
Lemma cancelled_tree_ends_witness : ¬ ours late ∧ ps_returned late = true ∧ ∃ s', rtc (step 7) late s' ∧ (ps_now late < ps_now s')%Z.
Proof.
  destruct (cancelled_tree_ends 7 late late_reached) as (Hdead & Hdelay & Hwait & _ & _ & Hon). split_and!.
  - apply (Hdead 0%Z); [reflexivity|vm_compute; reflexivity].
  - apply (Hwait 0%Z); [reflexivity|vm_compute; reflexivity].
  - exact Hon.
Defined.

(** A command that obeys at once: its number is free again, and the second signal
    comes all the same, to whoever has it then. *)
Definition obeyed : State := (collect (Cancel 7 false (λ _, true) shell)) <| ps_returned := true |>.
Definition reused : State := obeyed <| ps_table := <[7 := mkProcess 7 false false]> (ps_table obeyed) |>.
Definition reused_3s : State := reused <| ps_now := (ps_now reused + grace)%Z |>.
Lemma stranger_killed :
  reached 7 reused_3s ∧ step 7 reused_3s (send_kill 7 reused_3s) ∧
  ps_table reused_3s !! 7 = Some (mkProcess 7 false false) ∧ ps_table (send_kill 7 reused_3s) !! 7 = None.
Proof.
  split_and!; [|apply step_kill; vm_compute; reflexivity|reflexivity|vm_compute; reflexivity].
  exists {[3 := mkProcess 3 false false]}, 0%Z. split; [exact shell_free|]. split; [decided|].
  eapply rtc_l; [apply (step_cancel 7 shell false (λ _, true)); reflexivity|].
  eapply rtc_l; [apply (step_collect 7 (Cancel 7 false (λ _, true) shell)); vm_compute; reflexivity|].
  eapply rtc_l; [apply (step_return 7 (collect (Cancel 7 false (λ _, true) shell))); vm_compute; reflexivity|].
  eapply rtc_l; [apply (step_other 7 obeyed 7); unfold free; split_and!; [vm_compute; reflexivity|decided|done]|].
  eapply rtc_l; [apply (step_time 7 reused grace); [reflexivity|vm_compute; reflexivity|vm_compute; discriminate|vm_compute; exact I]|].
  apply rtc_refl.
Qed.
