(* ===== verification/Terminal.v ===== *)
(** * Terminal: command lines and text for people (flag, fmt, text/tabwriter)

    A set of flags is a list of names; each says whether it is a switch and how
    its text changes the variables of the command ([V]).  [Parse] is
    [FlagSet.Parse] under [ContinueOnError]: the variables and the arguments
    behind the flags, or the first error; the usage it prints on the way is not
    represented.  Then what the commands print with: runes and padding, aligned
    columns, indented documents.  [Zone] is the machine's time zone.  The byte
    0xFF, which starts an escape of the tabwriter, is in no valid text. *)

From S2P Require Import Prelude GoStrings Json Codec.

(** ** strconv *)
Definition ParseBool (s : string) : option bool :=
  if bool_decide (s ∈ ["1"; "t"; "T"; "TRUE"; "true"; "True"]) then Some true
  else if bool_decide (s ∈ ["0"; "f"; "F"; "FALSE"; "false"; "False"]) then Some false
  else None.

Definition lower (c : Ascii.ascii) : nat := Nat.lor (code c) 32.
Definition digit_class (hex : bool) (c : Ascii.ascii) : bool :=
  ((48 <=? code c) && (code c <=? 57) || hex && (97 <=? lower c) && (lower c <=? 102))%nat.
(** What was read last: the beginning, a digit, an underscore or anything else. *)
Inductive Seen := SeenStart | SeenDigit | SeenUnderscore | SeenOther.
#[export] Instance Seen_eq_dec : EqDecision Seen.
Proof. solve_decision. Defined.
Fixpoint underscores (hex : bool) (seen : Seen) (s : string) : bool :=
  match s with
  | EmptyString => negb (seen =s SeenUnderscore)
  | String c s =>
      if digit_class hex c then underscores hex SeenDigit s
      else if (code c =? 95)%nat then (seen =s SeenDigit) && underscores hex SeenUnderscore s
      else negb (seen =s SeenUnderscore) && underscores hex SeenOther s
  end.
Definition base_letter (c : Ascii.ascii) : option N :=
  match lower c with 98 => Some 2%N | 111 => Some 8%N | 120 => Some 16%N | _ => None end%nat.
Definition underscoreOK (s : string) : bool :=
  match s with
  | String z (String c rest) =>
      match (code z =? 48)%nat, base_letter c with
      | true, Some base => underscores (base =? 16)%N SeenDigit rest
      | _, _ => underscores false SeenStart s
      end
  | _ => underscores false SeenStart s
  end.

Inductive NumError := ErrSyntax | ErrRange.
Definition max_uint64 : N := 18446744073709551615.
Definition digit_of (c : Ascii.ascii) : option N :=
  if ((48 <=? code c) && (code c <=? 57))%nat then Some (N.of_nat (code c - 48))
  else if ((97 <=? lower c) && (lower c <=? 122))%nat then Some (N.of_nat (lower c - 97 + 10))
  else None.
Fixpoint read_uint (base acc : N) (s : string) : N + NumError :=
  match s with
  | EmptyString => inl acc
  | String c s =>
      if (code c =? 95)%nat then read_uint base acc s
      else match digit_of c with
           | Some d =>
               if (base <=? d)%N then inr ErrSyntax
               else if (max_uint64 <? acc * base + d)%N then inr ErrRange
               else read_uint base (acc * base + d) s
           | None => inr ErrSyntax
           end
  end.
(** [strconv.ParseUint(s, 0, 64)]: the base and the digits by the prefix. *)
Definition number_base (s : string) : N * string :=
  match s with
  | String z rest =>
      if (code z =? 48)%nat then
        match rest with
        | String c (String _ _ as digits) =>
            match base_letter c with Some base => (base, digits) | None => (8%N, rest) end
        | _ => (8%N, rest)
        end
      else (10%N, s)
  | EmptyString => (10%N, s)
  end.
Definition ParseUint (s : string) : N + NumError :=
  if s =s "" then inr ErrSyntax
  else
    let '(base, digits) := number_base s in
    match read_uint base 0 digits with
    | inl n => if has_char (byte_of 95) digits && negb (underscoreOK s) then inr ErrSyntax else inl n
    | inr err => inr err
    end.
(** [strconv.ParseInt(s, 0, 64)] *)
Definition signed (negative : bool) (r : N + NumError) : Z + NumError :=
  match r with
  | inr err => inr err
  | inl n =>
      if negative then (if (2 ^ 63 <? n)%N then inr ErrRange else inl (- Z.of_N n)%Z)
      else if (2 ^ 63 <=? n)%N then inr ErrRange else inl (Z.of_N n)
  end.
Definition ParseInt (s : string) : Z + NumError :=
  match s with
  | EmptyString => inr ErrSyntax
  | String c rest =>
      if (code c =? 43)%nat then signed false (ParseUint rest)
      else if (code c =? 45)%nat then signed true (ParseUint rest)
      else signed false (ParseUint s)
  end.

(** ** Values *)
Definition errParse : Error := errors_New "parse error".
Definition errRange : Error := errors_New "value out of range".
Definition bool_value (s : string) : Res bool := match ParseBool s with Some b => Ok b | None => Err errParse end.
Definition int_value (s : string) : Res Z :=
  match ParseInt s with inl z => Ok z | inr ErrSyntax => Err errParse | inr ErrRange => Err errRange end.
Definition duration_value `{Host} (s : string) : Res Z :=
  match parse_duration s with Some d => Ok d | None => Err errParse end.

(** ** Sets of flags *)
Record Flag (V : Type) := mkFlag { fl_Name : string; fl_Switch : bool; fl_Set : string → V → Res V }.
Arguments mkFlag {V}.
Arguments fl_Name {V}.
Arguments fl_Switch {V}.
Arguments fl_Set {V}.

(** The flag that stores what [read] makes of its text through [store]. *)
Definition flag_var {V A} (name : string) (switch : bool) (read : string → Res A) (store : A → V → V) : Flag V :=
  mkFlag name switch (λ s v, res_bind (read s) (λ a, Ok (store a v))).
Definition string_flag {V} (name : string) (store : string → V → V) : Flag V := flag_var name false Ok store.
Definition bool_flag {V} (name : string) (store : bool → V → V) : Flag V := flag_var name true bool_value store.
Definition int_flag {V} (name : string) (store : Z → V → V) : Flag V := flag_var name false int_value store.
Definition duration_flag `{Host} {V} (name : string) (store : Z → V → V) : Flag V :=
  flag_var name false duration_value store.

(** What an argument is to the parser. *)
Inductive Word := Operand | Terminator | BadSyntax | Named (name : string) (value : option string).
Definition equals : Ascii.ascii := byte_of 61.
Definition dash : Ascii.ascii := byte_of 45.
(** [strings.Cut] for a one-byte separator. *)
Fixpoint Cut (sep : Ascii.ascii) (s : string) : string * option string :=
  match s with
  | EmptyString => ("", None)
  | String c s =>
      if sep =s c then ("", Some s) else let '(before, after) := Cut sep s in (String c before, after)
  end.
(** The name ends at the first equals sign behind its first byte. *)
Definition named (name : string) : Word :=
  match name with
  | EmptyString => BadSyntax
  | String c rest =>
      if (c =s dash) || (equals =s c) then BadSyntax
      else let '(name, value) := Cut equals rest in Named (String c name) value
  end.
Definition word (s : string) : Word :=
  match s with
  | String c (String c' rest as body) =>
      if negb (c =s dash) then Operand
      else if negb (c' =s dash) then named body
      else if rest =s "" then Terminator
      else named rest
  | _ => Operand
  end.

Lemma Cut_plain sep before after : has_char sep before = false →
  Cut sep (before +:+ String sep after) = (before, Some after).
Proof.
  induction before as [|c before IH]; cbn [has_char].
  - intros _. rewrite str_nil_app. cbn [Cut]. by rewrite bool_decide_eq_true_2.
  - rewrite str_cons_app. cbn [Cut]. intros [Hc Hn]%orb_false_iff. by rewrite Hc, IH.
Qed.
Lemma Cut_none sep s : has_char sep s = false → Cut sep s = (s, None).
Proof.
  induction s as [|c s IH]; [done|]. cbn [has_char Cut]. intros [Hc Hn]%orb_false_iff. by rewrite Hc, IH.
Qed.

Section parse.
Context `{Host} {V : Type} (flags : list (Flag V)).

Definition formal (name : string) : option (Flag V) := List.find (λ f, fl_Name f =s name) flags.
Definition ErrHelp : Error := errors_New "flag: help requested".
Definition set_switch (f : Flag V) (name : string) (value : option string) (v : V) : Res V :=
  match value with
  | Some text =>
      match fl_Set f text v with
      | Ok v => Ok v
      | Err err => Err (errors_New ("invalid boolean value " +:+ fmt_quote text +:+ " for -" +:+ name +:+ ": " +:+ err_msg err))
      end
  | None =>
      match fl_Set f "true" v with
      | Ok v => Ok v
      | Err err => Err (errors_New ("invalid boolean flag " +:+ name +:+ ": " +:+ err_msg err))
      end
  end.
Definition set_value (f : Flag V) (name text : string) (v : V) : Res V :=
  match fl_Set f text v with
  | Ok v => Ok v
  | Err err => Err (errors_New ("invalid value " +:+ fmt_quote text +:+ " for flag -" +:+ name +:+ ": " +:+ err_msg err))
  end.

Fixpoint Parse (args : list string) (v : V) : Res (V * list string) :=
  match args with
  | [] => Ok (v, [])
  | s :: rest =>
      match word s with
      | Operand => Ok (v, args)
      | Terminator => Ok (v, rest)
      | BadSyntax => Err (errors_New ("bad flag syntax: " +:+ s))
      | Named name value =>
          match formal name with
          | None => if (name =s "help") || (name =s "h") then Err ErrHelp
                    else Err (errors_New ("flag provided but not defined: -" +:+ name))
          | Some f =>
              if fl_Switch f then res_bind (set_switch f name value v) (Parse rest)
              else match value, rest with
                   | Some text, _ => res_bind (set_value f name text v) (Parse rest)
                   | None, [] => Err (errors_New ("flag needs an argument: -" +:+ name))
                   | None, text :: rest => res_bind (set_value f name text v) (Parse rest)
                   end
          end
      end
  end.

(** ** Writing flags

    An assignment of a text to a flag, in the form that reads back whatever the text is. *)
Definition assignment (nv : string * string) : string := "--" +:+ nv.1 +:+ "=" +:+ nv.2.
Definition plain_name (name : string) : bool :=
  match name with EmptyString => false | String c _ => negb (c =s dash) && negb (has_char equals name) end.

(** What a sequence of assignments does. *)
Definition assign (f : Flag V) (nv : string * string) (v : V) : Res V :=
  if fl_Switch f then set_switch f nv.1 (Some nv.2) v else set_value f nv.1 nv.2 v.
Fixpoint assign_all (assignments : list (string * string)) (v : V) : Res V :=
  match assignments with
  | [] => Ok v
  | nv :: rest =>
      match formal nv.1 with
      | None => Err ErrHelp
      | Some f => res_bind (assign f nv v) (assign_all rest)
      end
  end.

Lemma word_assignment nv : plain_name nv.1 = true → word (assignment nv) = Named nv.1 (Some nv.2).
Proof.
  destruct nv as [[|c name] value]; [done|]. cbn [fst snd plain_name has_char].
  rewrite negb_orb, !andb_true_iff, !negb_true_iff. intros (Hc & He & Hn).
  change (word (assignment (String c name, value))) with (named (String c (name +:+ "=" +:+ value))).
  unfold named. rewrite Hc, He. change (name +:+ "=" +:+ value) with (name +:+ String equals value). by rewrite Cut_plain.
Qed.

(** Flags that are written as assignments are read back as these assignments, in
    order; operands follow, if the first one does not look like a flag. *)
Lemma Parse_assignments assignments operands v :
  Forall (λ nv, plain_name nv.1 = true ∧ is_Some (formal nv.1)) assignments →
  match operands with [] => True | s :: _ => word s = Operand end →
  Parse (map assignment assignments ++ operands) v =
  res_bind (assign_all assignments v) (λ v, Ok (v, operands)).
Proof.
  intros Ha Ho. revert v. induction Ha as [|nv rest [Hp [f Hf]] _ IH]; intros v; cbn [map app assign_all].
  - destruct operands as [|s operands]; [done|]. cbn. by rewrite Ho.
  - cbn [Parse]. rewrite word_assignment by done. rewrite Hf. unfold assign.
    destruct (fl_Switch f); [destruct (set_switch _ _ _ _) as [v'|err]|destruct (set_value _ _ _ _) as [v'|err]];
      cbn [res_bind]; by rewrite ?IH.
Qed.
End parse.

(** A time of the day ("15:04:05") and a date ("2006-01-02 15:04") in the local zone. *)
Class Zone := { clock_text : Z → string; date_text : Z → string }.

(** ** Runes *)
Definition between (lo hi : nat) (c : Ascii.ascii) : bool := ((lo <=? code c) && (code c <=? hi))%nat.
Definition continues : Ascii.ascii → bool := between 128 191.
(** The second byte of three and of four. *)
Definition second3 (a : Ascii.ascii) : Ascii.ascii → bool :=
  match code a with 224 => between 160 191 | 237 => between 128 159 | _ => continues end.
Definition second4 (a : Ascii.ascii) : Ascii.ascii → bool :=
  match code a with 240 => between 144 191 | 244 => between 128 143 | _ => continues end.
(** The length of the first rune; a byte that starts none counts alone. *)
Definition rune_len (s : string) : nat :=
  match s with
  | String a (String b s2) =>
      if between 194 223 a && continues b then 2
      else match s2 with
           | String c s3 =>
               if between 224 239 a && second3 a b && continues c then 3
               else match s3 with
                    | String d _ => if between 240 244 a && second4 a b && continues c && continues d then 4 else 1
                    | _ => 1
                    end
           | _ => 1
           end
  | _ => 1
  end.
Fixpoint runes_from (skip : nat) (s : string) : nat :=
  match s with
  | EmptyString => 0
  | String _ rest => match skip with S skip => runes_from skip rest | O => S (runes_from (rune_len s - 1) rest) end
  end.
Definition RuneCount (s : string) : nat := runes_from 0 s.

Fixpoint spaces (n : nat) : string := match n with O => "" | S n => " " +:+ spaces n end.
(** [%4d] and [%-36s] *)
Definition pad_left (width : nat) (s : string) : string := spaces (width - RuneCount s) +:+ s.
Definition pad_right (width : nat) (s : string) : string := s +:+ spaces (width - RuneCount s).

(** ** Durations

    [Duration.String]: the digits behind the point without trailing zeros. *)
Fixpoint zeros (n : nat) : string := match n with O => "" | S n => "0" +:+ zeros n end.
Definition fraction (digits : nat) (value : Z) : string :=
  let text := pretty (value mod 10 ^ Z.of_nat digits)%Z in
  let text := TrimRightByte (byte_of 48) (zeros (digits - String.length text) +:+ text) in
  if text =s "" then "" else "." +:+ text.
Definition DurationString (d : Z) : string :=
  let u := Z.abs d in
  let sign := if (d <? 0)%Z then "-" else "" in
  if (u =? 0)%Z then "0s"
  else if (u <? 1000)%Z then sign +:+ pretty u +:+ "ns"
  else if (u <? 1000000)%Z then sign +:+ pretty (u / 1000)%Z +:+ fraction 3 u +:+ "µs"
  else if (u <? 1000000000)%Z then sign +:+ pretty (u / 1000000)%Z +:+ fraction 6 u +:+ "ms"
  else
    let seconds := (u / 1000000000)%Z in
    let minutes := (seconds / 60)%Z in
    let hours := (minutes / 60)%Z in
    sign +:+ (if (0 <? hours)%Z then pretty hours +:+ "h" else "") +:+
    (if (0 <? minutes)%Z then pretty (minutes mod 60)%Z +:+ "m" else "") +:+
    pretty (seconds mod 60)%Z +:+ fraction 9 u +:+ "s".

(** ** Columns

    [tabwriter.NewWriter(w, 0, 4, 2, ' ', 0)]: every cell but the last of a line
    belongs to its column; neighbouring lines that have a cell in a column share its
    width, which is that of the widest cell and two more. *)
Definition tab : Ascii.ascii := byte_of 9.
(** A vertical tab ends a cell as well. *)
Fixpoint plain_tabs (s : string) : string :=
  match s with EmptyString => "" | String c s => String (if c =s byte_of 11 then tab else c) (plain_tabs s) end.
Definition cells (line : string) : list string := Split (plain_tabs line) tab.
Definition in_column (j : nat) (line : list string) : bool := (j <? length line - 1)%nat.
Definition cell_width (j : nat) (line : list string) : nat := RuneCount (nth j line "").

(** For every line, the widest cell from it to the end of its block. *)
Fixpoint ahead (j : nat) (lines : list (list string)) : list nat :=
  match lines with
  | [] => []
  | line :: rest =>
      let widths := ahead j rest in
      (if in_column j line then Nat.max (cell_width j line) (hd 0 widths) else 0) :: widths
  end.
(** For every line, the widest cell of its block; [open] is that of the block of the line before. *)
Fixpoint block_widths (j : nat) (open : nat) (lines : list (list string)) : list nat :=
  match lines with
  | [] => []
  | line :: rest =>
      let width := if in_column j line then Nat.max open (hd 0 (ahead j lines)) else 0 in
      width :: block_widths j width rest
  end.
Definition padding : nat := 2.
Definition line_text (widths : list nat) (line : list string) : string :=
  foldr String.append "" (imap (λ j cell, if in_column j line then pad_right (nth j widths 0 + padding) cell else cell) line).
Definition align (lines : list (list string)) : list string :=
  let columns := map (λ j, block_widths j 0 lines) (seq 0 (list_max (map length lines))) in
  imap (λ i line, line_text (map (λ widths, nth i widths 0) columns) line) lines.
(** The text written up to a flush; a form feed flushes. *)
Definition tabwriter (text : string) : string :=
  Join (map (λ part, Join (align (map cells (Split part newline))) nl) (Split text (byte_of 12))) nl.

(** ** Documents *)
Section indent.
Context `{Encoder}.
(** [json.Indent] with two blanks per level, of a document behind [prefix]. *)
Fixpoint json_indent (prefix : string) (j : Json) : string :=
  let inner := prefix +:+ "  " in
  match j with
  | JArr [] => "[]"
  | JArr l => "[" +:+ nl +:+ inner +:+ Join (map (json_indent inner) l) ("," +:+ nl +:+ inner) +:+ nl +:+ prefix +:+ "]"
  | JObj [] => "{}"
  | JObj l =>
      "{" +:+ nl +:+ inner +:+
      Join (map (λ kv, json_text (JStr kv.1) +:+ ": " +:+ json_indent inner kv.2) l) ("," +:+ nl +:+ inner) +:+
      nl +:+ prefix +:+ "}"
  | _ => json_text j
  end.
End indent.

(** ** Examples *)
Example durations : map DurationString [0; 180000000000; 1500; 90500000000; 3600000000000; -7] %Z =
  ["0s"; "3m0s"; "1.5µs"; "1m30.5s"; "1h0m0s"; "-7ns"].
Proof. reflexivity. Qed.
Example aligned : tabwriter ("a" +:+ String tab "bbb" +:+ String tab "c" +:+ nl +:+ "aaaa" +:+ String tab "b" +:+ String tab "cc" +:+ nl +:+ "x" +:+ nl) =
  "a     bbb  c" +:+ nl +:+ "aaaa  b    cc" +:+ nl +:+ "x" +:+ nl.
Proof. reflexivity. Qed.
