(* ===== verification/CommandRuntime.v ===== *)
(** * CommandRuntime: any command as a runtime, and its tool bridge over HTTP
    (runtime/command/executor.go, runtime/toolbridge/bridge.go, cmd/relay-tool)

    The command reads its execution as a document and prints its result as one.
    Meanwhile it calls capabilities through [relay-tool], which posts them to a
    bridge that listens on the loopback interface and knows the token the command
    got; [relay-tool] of a sandboxed runtime uses files instead (ToolBridge). *)

From S2P Require Import Prelude GoStrings Json Types Codec Wire WireProps Url Fs Outbox Workspace Process Http HttpClient ToolBridge Worker Terminal.

(** ** The bridge (bridge.go) *)
Definition tool_limit : Z := 4194304.
Definition within (limit : Z) (s : string) : string :=
  if (Z.of_nat (String.length s) <=? limit)%Z then s else str_take (Z.to_nat limit) s.
Definition tool_path : list string := ["v1"; "call"].
(** [http.Error] *)
Definition text_answer (status : Z) (message : string) : HttpResponse :=
  mkHttpResponse status {["Content-Type" := "text/plain; charset=utf-8"]} None (message +:+ nl).

Section bridge.
Context `{Encoder} `{JsonParser} {X : Type} (token : string) (invoke : CapabilityCall → M X CapabilityResult).

Definition bridge_handler (r : HttpRequest) : M X HttpResponse :=
  if negb (map_get (rq_Header r) "Authorization" =s "Bearer " +:+ token)
  then mret (text_answer http_StatusUnauthorized "unauthorized")
  else match res_bind (parse_first (within tool_limit (rq_Body r))) (Unmarshal wire_Call false) with
       | Err err => mret (text_answer http_StatusBadRequest (err_msg err))
       | Ok call =>
           result ← try (invoke call);
           match result with
           | Err err =>
               mret (mkHttpResponse http_StatusBadRequest ∅ None (json_text (error_json (err_msg err)) +:+ nl))
           | Ok result => mret (writeJSON http_StatusOK (enc wire_CapabilityResult result))
           end
       end.
Definition bridge_ServeHTTP (r : HttpRequest) : M X HttpResponse :=
  if bool_decide (segments r = tool_path)
  then if rq_Method r =s "POST" then bridge_handler r else mret (text_answer 405 "Method Not Allowed")
  else mret (text_answer http_StatusNotFound "404 page not found").
End bridge.

(** ** The tool (cmd/relay-tool) *)
Record toolFlags := mkToolFlags { tf_version : string; tf_resource : string; tf_idempotency : string; tf_input : string }.
#[export] Instance eta_toolFlags : Eta toolFlags := λ f, mkToolFlags (tf_version f) (tf_resource f) (tf_idempotency f) (tf_input f).
Definition tool_flags : list (Flag toolFlags) :=
  [string_flag "version" (λ s f, f <| tf_version := s |>); string_flag "resource" (λ s f, f <| tf_resource := s |>);
   string_flag "idempotency" (λ s f, f <| tf_idempotency := s |>); string_flag "input" (λ s f, f <| tf_input := s |>)].
Definition tool_defaults : toolFlags := mkToolFlags "1" "" "" "{}".

Section tool.
Context `{Host} `{Encoder} `{JsonParser}.

(** Everything the tool checks before it calls: the input is a document when the
    call is encoded. *)
Definition tool_call (args : list string) : Res CapabilityCall :=
  let usage := Err (errors_New "usage: relay-tool call [flags] <capability>") in
  match args with
  | command :: args =>
      if negb (command =s "call") then usage
      else res_bind (Parse tool_flags args tool_defaults) (λ '(f, operands),
        match operands with
        | [name] =>
            if tf_idempotency f =s "" then Err (errors_New "--idempotency is required")
            else res_bind (parse_all (tf_input f)) (λ j,
                   Ok (mkCall name (tf_version f) (tf_idempotency f) (tf_resource f) (Some j)))
        | _ => Err (errors_New "one capability name is required")
        end)
  | [] => usage
  end.
(** What the tool prints of a result. *)
Definition tool_line (result : CapabilityResult) : string := json_text (enc wire_CapabilityResult result) +:+ nl.

(** Over HTTP. *)
Context {X : Type} `{Transport X}.
Definition tool_request (token : string) (call : CapabilityCall) : HttpRequest :=
  mkHttpRequest "POST" "/v1/call" ∅
    {["Authorization" := "Bearer " +:+ token; "Content-Type" := "application/json"]} None false
    (json_text (enc wire_Call call)).
(** What the tool prints, or why it fails. *)
Definition relay_tool (token : string) (call : CapabilityCall) : M X string :=
  response ← Do (tool_request token call);
  let output := within tool_limit (rs_Body response) in
  if success response then mret output else raise (errors_New ("tool call failed: " +:+ output)).

(** The whole tool, over the bridge its environment names: files, for which the
    30 seconds of its context last [polls] ticks, or the server of the execution. *)
Inductive Tool := ByFiles (p : Prog (Res string)) | ByHttp (m : M X string).
Definition tool_main `{Environment} (polls : nat) (args : list string) : Res Tool :=
  res_bind (tool_call args) (λ call,
    let token := Getenv "RELAY_TOOL_TOKEN" in
    Ok (if negb (Getenv "RELAY_TOOL_DIR" =s "")
        then ByFiles (prog_map (λ r, res_bind r (λ result, Ok (tool_line result))) (CallFile polls token call))
        else ByHttp (relay_tool token call))).
End tool.

(** ** The executor (runtime/command/executor.go) *)
Record Executor := mkExecutor {
  xe_Command : string; xe_Args : list string; xe_Env : gmap string string; xe_InheritEnv : bool }.

#[export] Instance eta_CompiledInstructions : Eta CompiledInstructions := λ c, mkCompiled (ci_Stable c) (ci_Prompt c).
#[export] Instance eta_Execution : Eta Execution := λ e,
  mkExecution (ex_RunID e) (ex_AttemptID e) (ex_AgentID e) (ex_Runtime e) (ex_Source e) (ex_Input e) (ex_Context e)
    (ex_Instructions e) (ex_WorkDir e).

Section executor.
Context `{Host} `{TimeParser} `{Encoder} `{JsonParser} `{Faults} `{Environment} (address : string).

(** The document the command reads. *)
Definition wire_CompiledInstructions : Codec CompiledInstructions :=
  struct [field "stable" str ci_Stable false; field "prompt" str ci_Prompt false] (mkCompiled "" "").
Definition fields_input : list (Field Execution) :=
  [field "run_id" str ex_RunID false; field "attempt_id" str ex_AttemptID false; field "agent_id" str ex_AgentID false;
   field "source" wire_Source ex_Source false; field "input" wire_Input ex_Input false;
   field "context" (slice wire_ContextItem) ex_Context true;
   field "instructions" wire_CompiledInstructions ex_Instructions false].
Definition zero_Execution : Execution :=
  mkExecution "" "" "" (mkRuntimeRequirement "" "" "" "" ∅) (mkSource "" "" "" None) (mkInput "" "" "" None) []
    (mkCompiled "" "") "".
Definition wire_input : Codec Execution := struct fields_input zero_Execution.

(** The outcome of a call as [relay-tool] reports it to the command. *)
Definition answered (o : Res CapabilityResult) : Res CapabilityResult :=
  match o with
  | Ok result => Ok result
  | Err err => Err (errors_New ("tool call failed: " +:+ json_text (error_json (err_msg err)) +:+ nl))
  end.

Definition command_env (e : Executor) (order : list string) (token : string) : list string :=
  (if xe_InheritEnv e then os_Environ else []) ++
  map (λ name, name +:+ "=" +:+ map_get (xe_Env e) name) order ++
  ["RELAY_TOOL_URL=" +:+ "http://" +:+ address; "RELAY_TOOL_TOKEN=" +:+ token].

Definition command_end (stdout stderr : string) (failure : option Error) : Work :=
  match failure with
  | Some err =>
      Return (Err (mkError (err_is err) ("relay: runtime command failed: " +:+ err_msg err +:+ ": " +:+ stderr)))
  | None =>
      match res_bind (parse_all stdout) (Unmarshal wire_Result false) with
      | Err err => Return (Err (wrap_text "relay: invalid runtime result: " err))
      | Ok result => Return (Ok result)
      end
  end.
Fixpoint command_child (stdin : option string) (stdout : string) (child : Child) : Work :=
  match child with
  | Prints line child => command_child stdin (stdout +:+ line +:+ nl) child
  | Calls call k => Invoke call (λ r, command_child stdin stdout (k (answered r)))
  | Touches m child => Files m (λ _, command_child stdin stdout child)
  | Reads k => command_child None stdout (k (default "" stdin))
  | Exits stderr failure => command_end stdout (foldr String.append "" stderr) failure
  end.

(** [toolbridge.Start]: the listener and the token. *)
Definition start_http_bridge : M FS string := syscall ;; host rand_at.

Definition command_Execute (order : list string) (e : Executor) (execution : Execution) : Work :=
  if xe_Command e =s "" then Return (Err (errors_New "relay: runtime command is required"))
  else
    Files start_http_bridge (λ token,
      match token with
      | Err err => Return (Err (wrap_text "relay: start tool bridge: " err))
      | Ok token =>
          let payload := json_text (enc wire_input execution) in
          match spawn (mkCommand (xe_Command e) (xe_Args e) (ex_WorkDir execution) payload (command_env e order token)) with
          | Err err => command_end "" "" (Some err)
          | Ok child => command_child (Some payload) "" child
          end
      end).
End executor.
