(* ===== verification/CommandProps.v ===== *)
(** * CommandProps: what a command is told and what is made of what it says *)

From S2P Require Import Prelude GoStrings Json Types Demo Capability CapabilityProps Fs Instructions Outbox NodeDemo Worker Codec Wire WireProps Url Http HttpClient HttpDemo Workspace Process Runs ToolBridge ToolBridgeProps Terminal CommandRuntime.

(** ** Calls over HTTP *)
Section tool_calls.
Context `{Encoder} `{JsonParser} `{ParserLaws} {X : Type}.
Context (token : string) (invoke : CapabilityCall → M X CapabilityResult).

Lemma within_fits limit s : (Z.of_nat (String.length s) <= limit)%Z → within limit s = s.
Proof. intros Hs. unfold within. by destruct (Z.leb_spec (Z.of_nat (String.length s)) limit); [|lia]. Qed.

(** What the tool of a caller says of the outcome of its call. *)
Definition told (r : Res CapabilityResult) : Res string :=
  match r with
  | Ok result => Ok (within tool_limit (tool_line result))
  | Err err => Err (errors_New ("tool call failed: " +:+ within tool_limit (json_text (error_json (err_msg err)) +:+ nl)))
  end.

Lemma tool_answered (call : CapabilityCall) (w : World X) :
  (Z.of_nat (String.length (json_text (enc wire_Call call))) <= tool_limit)%Z →
  let transport : Transport X := bridge_ServeHTTP token invoke in
  relay_tool token call w = (told (invoke call w).1, (invoke call w).2).
Proof.
  intros Hs transport. unfold relay_tool, Do, transport, bridge_ServeHTTP, mbind, M_bind.
  rewrite bool_decide_eq_true_2 by (vm_compute; reflexivity). cbn [rq_Method tool_request].
  rewrite bool_decide_eq_true_2 by done. unfold bridge_handler.
  assert (map_get (rq_Header (tool_request token call)) "Authorization" = "Bearer " +:+ token) as ->.
  { unfold tool_request, map_get. cbn [rq_Header]. by rewrite lookup_insert_eq. }
  rewrite bool_decide_eq_true_2 by done. cbn [negb rq_Body tool_request]. rewrite within_fits, parse_first_text by done.
  cbn [res_bind]. rewrite lawful_Unmarshal; [|exact Call_lawful|done].
  assert (received wire_Call call = call) as -> by exact (Call_received call).
  unfold mbind, M_bind, try. destruct (invoke call w) as [[result|err] w']; cbn [mret M_ret told fst snd]; done.
Qed.

(** Capability calls of a command reach the invoker of its execution and no
    other caller does.  A request without the token of the execution, on whatever
    route, is answered with an error and changes nothing; [relay-tool] with the
    token makes exactly the call it was asked for, once, and prints its result,
    from which the command reads the result back when it fits the limit; with
    another token it fails. *)
Theorem tool_calls :
  (∀ (r : HttpRequest) (w : World X), map_get (rq_Header r) "Authorization" ≠ "Bearer " +:+ token →
     ∃ response, bridge_ServeHTTP token invoke r w = (Ok response, w) ∧ success response = false) ∧
  (∀ (tool_token : string) (call : CapabilityCall) (w : World X),
     (Z.of_nat (String.length (json_text (enc wire_Call call))) <= tool_limit)%Z →
     let transport : Transport X := bridge_ServeHTTP token invoke in
     (tool_token = token → relay_tool tool_token call w = (told (invoke call w).1, (invoke call w).2)) ∧
     (tool_token ≠ token → ∃ err, relay_tool tool_token call w = (Err err, w))) ∧
  (∀ result text, told (Ok result) = Ok text → (Z.of_nat (String.length (tool_line result)) <= tool_limit)%Z →
     res_bind (parse_all text) (Unmarshal wire_CapabilityResult false) = Ok result).
Proof.
  assert (Hguard : ∀ (r : HttpRequest) (w : World X), map_get (rq_Header r) "Authorization" ≠ "Bearer " +:+ token →
     ∃ response, bridge_ServeHTTP token invoke r w = (Ok response, w) ∧ success response = false).
  { intros r w Ha. unfold bridge_ServeHTTP. case_bool_decide; [|by eexists]. case_bool_decide; [|by eexists].
    unfold bridge_handler. rewrite (bool_decide_eq_false_2 _ Ha). by eexists. }
  split_and!; [exact Hguard| |].
  - intros tool_token call w Hs transport. split; [intros ->; by apply tool_answered|]. intros Hne.
    destruct (Hguard (tool_request tool_token call) w) as (response & Hr & Hf).
    { unfold tool_request, map_get. cbn [rq_Header]. rewrite lookup_insert_eq. cbn [from_option id].
      intros He. apply Hne. by injection He. }
    unfold relay_tool, Do, transport, mbind, M_bind. rewrite Hr, Hf. by eexists.
  - intros result text [= <-] Hf. rewrite (within_fits _ _ Hf). unfold tool_line. rewrite parse_all_line. cbn [res_bind].
    rewrite lawful_Unmarshal; [|exact CapabilityResult_lawful|done]. f_equal. exact (CapabilityResult_received result).
Qed.

(** A command line of the tool makes the call it spells out, over the bridge that
    the environment names, with its token; without a key or without a document
    as input nothing is called. *)
Theorem tool_command `{Host} `{Environment} `{Transport X} (polls : nat) (name version resource idempotency input : string) :
  word name = Operand →
  let args := "call" :: map assignment [("version", version); ("resource", resource); ("idempotency", idempotency);
                                         ("input", input)] ++ [name] in
  let call j := mkCall name version idempotency resource (Some j) in
  tool_main (X := X) polls args =
    if idempotency =s "" then Err (errors_New "--idempotency is required")
    else res_bind (parse_all input) (λ j, Ok
      (if negb (Getenv "RELAY_TOOL_DIR" =s "")
       then ByFiles (prog_map (λ r, res_bind r (λ result, Ok (tool_line result)))
                       (CallFile polls (Getenv "RELAY_TOOL_TOKEN") (call j)))
       else ByHttp (relay_tool (Getenv "RELAY_TOOL_TOKEN") (call j)))).
Proof.
  intros Hn args call. unfold tool_main, tool_call, args. rewrite bool_decide_eq_true_2 by done. cbn [negb].
  rewrite Parse_assignments; [|by repeat constructor; eexists|done].
  change (assign_all tool_flags _ tool_defaults) with (Ok (mkToolFlags version resource idempotency input)).
  cbn [res_bind tf_idempotency tf_input tf_version tf_resource]. case_bool_decide; [done|]. by destruct (parse_all input).
Qed.
End tool_calls.

(** ** The contract of a command *)

(** A well-behaved command: it computes calls from its execution and the outcomes
    of earlier calls, and in the end a result. *)
Inductive Plan := Finish (result : Result) | Need (call : CapabilityCall) (k : Res CapabilityResult → Plan).

Section contract.
Context `{Host} `{TimeParser} `{TimeLaws} `{Encoder} `{JsonParser} `{ParserLaws} `{Faults}.

(** A plan with the outcomes of its calls: the acts of the runtime, and the result. *)
Fixpoint follow (plan : Plan) (outcomes : list (Res CapabilityResult)) : option (list Act * Result) :=
  match plan, outcomes with
  | Finish result, [] => Some ([], result)
  | Need call k, outcome :: outcomes =>
      '(acts, result) ← follow (k (answered outcome)) outcomes; Some (Invoked call outcome :: acts, result)
  | _, _ => None
  end.

Fixpoint plan_child (plan : Plan) : Child :=
  match plan with
  | Finish result => Prints (json_text (enc wire_Result result)) (Exits [] None)
  | Need call k => Calls call (λ outcome, plan_child (k outcome))
  end.
Definition planned (plan : Execution → Plan) : Child :=
  Reads (λ text,
    match res_bind (parse_all text) (Unmarshal wire_input false) with
    | Ok execution => plan_child (plan execution)
    | Err err => Exits [err_msg err] (Some (errors_New "exit status 1"))
    end).

(** What of the execution the command is told. *)
Definition handed (execution : Execution) : Execution :=
  execution <| ex_Runtime := ex_Runtime zero_Execution |> <| ex_WorkDir := "" |>.

Lemma CompiledInstructions_lawful : lawful wire_CompiledInstructions.
Proof. struct_lawful. Qed.
Lemma CompiledInstructions_received a : got wire_CompiledInstructions a (mkCompiled "" "") = a.
Proof. unfold wire_CompiledInstructions. revert a. arrives. Qed.
Lemma input_lawful : lawful wire_input.
Proof. pose proof CompiledInstructions_lawful. pose proof Source_lawful. pose proof Input_lawful.
  pose proof ContextItem_lawful. struct_lawful. Qed.
Lemma input_received a : received wire_input a = handed a.
Proof.
  destruct a as [run attempt agent runtime src input ctx instructions dir]. unfold received, wire_input, fields_input, zero_Execution. cbn [got struct init].
  do 3 (eapply copied_field; [intros _; reflexivity|reflexivity|done|]).
  eapply copied_field; [intros _; exact (Source_received src)|reflexivity|done|].
  eapply copied_field; [intros _; exact (Input_received input)|reflexivity|done|].
  eapply copied_field; [intros _; exact (ContextItems_received ctx)|reflexivity| |].
  { cbn. intros Hc. destruct ctx; [done|discriminate Hc]. }
  eapply copied_field; [intros _; exact (CompiledInstructions_received instructions)|reflexivity|done|reflexivity].
Qed.
Lemma input_fits a : fits wire_input a = true.
Proof. cbn. induction (ex_Context a) as [|x l IH]; [done|]. simpl. exact IH. Qed.

(** Its results hold 64-bit numbers. *)
Fixpoint plan_fits (plan : Plan) : Prop :=
  match plan with Finish result => fits wire_Result result = true | Need call k => ∀ outcome, plan_fits (k outcome) end.

Lemma runs_plan plan acts r :
  plan_fits plan → runs (command_child None "" (plan_child plan)) acts r →
  ∃ outcomes result, follow plan outcomes = Some (acts, result) ∧ r = Ok (sent_Result result).
Proof.
  revert acts. induction plan as [result|call k IH]; intros acts Hf.
  - cbn [plan_child command_child foldr]. unfold command_end. rewrite str_nil_app, parse_all_line. cbn [res_bind].
    rewrite lawful_Unmarshal; [|exact Result_lawful|exact Hf]. intros (-> & ->)%runs_return_inv.
    exists [], result. split; [done|]. f_equal. exact (Result_received result).
  - cbn [plan_child command_child]. intros (outcome & acts' & -> & Hr)%runs_invoke_inv.
    destruct (IH (answered outcome) acts' (Hf _) Hr) as (outcomes & result & Hw & ->).
    exists (outcome :: outcomes), result. cbn [follow]. by rewrite Hw.
Qed.

(** C30: a command is told exactly the execution it is for (all but its runtime and
    its directory, which it is started in); it is started only when its tool
    bridge listens; the runtime makes the calls of the command, each once and in
    order, and no other, and hands it their outcomes; and the result of the run is
    what the command printed (an artifact without its run, as on the wire). *)
Theorem command_contract `{Environment} (address : string) (order : list string) (e : Executor) (execution : Execution)
    (plan : Execution → Plan) (acts : list Act) (r : Res Result) :
  xe_Command e ≠ "" →
  (∀ token, spawn (mkCommand (xe_Command e) (xe_Args e) (ex_WorkDir execution) (json_text (enc wire_input execution))
                     (command_env address e order token)) = Ok (planned plan)) →
  plan_fits (plan (handed execution)) →
  runs (command_Execute address order e execution) acts r →
  (∃ err, acts = [Filed (Err err)] ∧ r = Err (wrap_text "relay: start tool bridge: " err)) ∨
  ∃ token outcomes calls result,
    acts = Filed (Ok token) :: calls ∧ follow (plan (handed execution)) outcomes = Some (calls, result) ∧
    r = Ok (sent_Result result).
Proof.
  intros Hc Hs Hf. unfold command_Execute. rewrite bool_decide_eq_false_2 by done.
  intros (answer & acts' & -> & Hr)%runs_files_inv. destruct answer as [token|err].
  - rewrite Hs in Hr. unfold planned in Hr. cbn [command_child from_option id] in Hr. rewrite parse_all_text in Hr.
    cbn [res_bind] in Hr. rewrite lawful_Unmarshal, input_received in Hr; [|exact input_lawful|apply input_fits].
    destruct (runs_plan _ _ _ Hf Hr) as (outcomes & result & Hw & ->). right. eauto 10.
  - apply runs_return_inv in Hr as (-> & ->). left. eauto.
Qed.
End contract.

(** ** A command that comments on its issue *)
(** The tool with the token and without, in front of the invoker of one run. *)
Lemma tool_calls_witness :
  let transport : Transport (gmap string capabilityCallState * ()) := bridge_ServeHTTP "t0k" (Call demo_invoker) in
  relay_tool "t0k" demo_call bridge_env =
    (Ok (within tool_limit (tool_line (mkCapResult "call_0" (Some (JStr "posted"))))), (Call demo_invoker demo_call bridge_env).2) ∧
  (∃ err, relay_tool "guess" demo_call bridge_env = (Err err, bridge_env)).
Proof.
  destruct (tool_calls "t0k" (Call demo_invoker)) as (_ & Hcall & _). intros transport. split.
  - destruct (Hcall "t0k" demo_call bridge_env) as [Hok _]; [by vm_compute|].
    unfold transport. rewrite Hok by done. by vm_compute.
  - destruct (Hcall "guess" demo_call bridge_env) as [_ Hbad]; [by vm_compute|]. by apply Hbad.
Defined.

(** It comments and reports what became of it. *)
Definition demo_plan (execution : Execution) : Plan :=
  Need (mkCall "issue.comment" "1" (ex_RunID execution +:+ "/1") "issue-42" (Some (JStr (in_Prompt (ex_Input execution)))))
    (λ outcome, Finish (mkResult (match outcome with Ok _ => "commented" | Err err => err_msg err end) None [])).
#[local] Instance command_environment : Environment := {|
  LookupEnv _ := None; os_Environ := []; LookPath _ := true; working_dir := Ok "/"; os_TempDir := "/tmp";
  spawn command := if cm_Binary command =s "agent" then Ok (planned demo_plan) else Err (errors_New "executable file not found") |}.

Definition demo_executor : Executor := mkExecutor "agent" ["--once"] ∅ false.
Definition command_execution : Execution :=
  mkExecution "run_1" "attempt_1" "agent" (mkRuntimeRequirement "" "custom" "" "" ∅) (mkSource "" "" "" None)
    (mkInput "task" "1" "fix it" None) [] (mkCompiled "Be brief." "fix it") "/w".
Definition command_turn : list Act * Res Result :=
  perform (command_Execute "127.0.0.1:4000" [] demo_executor command_execution)
    (λ _, Err (errors_New "denied")) (mkWorld 0 ∅).

Lemma command_contract_witness :
  command_turn.2 = Ok (mkResult ("tool call failed: " +:+ json_text (error_json "denied") +:+ nl) None []) ∧
  ((∃ err, command_turn.1 = [Filed (Err err)] ∧ command_turn.2 = Err (wrap_text "relay: start tool bridge: " err)) ∨
   ∃ token outcomes calls result,
     command_turn.1 = Filed (Ok token) :: calls ∧
     follow (demo_plan (handed command_execution)) outcomes = Some (calls, result) ∧
     command_turn.2 = Ok (sent_Result result)).
Proof.
  split; [by vm_compute|].
  apply (command_contract "127.0.0.1:4000" [] demo_executor command_execution demo_plan).
  - discriminate.
  - reflexivity.
  - intros outcome. destruct outcome; reflexivity.
  - apply perform_runs.
Defined.
