(* ===== verification/Codex.v ===== *)
(** * Codex: the exec protocol of codex and its forks (runtime/codex/executor.go)

    [ExecuteFork] prepares the work directory, the instruction file and the tool
    bridge, starts the command line program and turns its JSON lines into events;
    its result is the last message the program left in a file.  An executor is a
    [Work] of the Worker: the events, capability calls and operations on files it
    makes, in their order.  The environment of the child is [runtimeEnv]. *)

From S2P Require Import Prelude GoStrings Json Types Codec Url Fs Capability Instructions Outbox Workspace Process Http ToolBridge Worker.

Record Config := mkConfig {
  cf_Binary : string; cf_Protocol : string; cf_ToolDir : string; cf_PassEnv : list string;
  cf_Env : gmap string string; cf_Model : string; cf_Profile : string; cf_ReasoningEffort : string;
  cf_ServiceTier : string; cf_Sandbox : string; cf_AllowDangerousSandbox : bool; cf_WorkRoot : string;
  cf_WorkDir : string; cf_Ephemeral : bool; cf_RequireGitRepository : bool; cf_PermissionMode : string;
  cf_AllowedTools : list string; cf_DisallowedTools : list string; cf_ShellToolTimeout : string;
  cf_IgnoreUserConfig : bool; cf_IgnoreRules : bool; cf_ExtraArgs : list string }.
#[export] Instance eta_Config : Eta Config := λ c,
  mkConfig (cf_Binary c) (cf_Protocol c) (cf_ToolDir c) (cf_PassEnv c) (cf_Env c) (cf_Model c) (cf_Profile c)
    (cf_ReasoningEffort c) (cf_ServiceTier c) (cf_Sandbox c) (cf_AllowDangerousSandbox c) (cf_WorkRoot c)
    (cf_WorkDir c) (cf_Ephemeral c) (cf_RequireGitRepository c) (cf_PermissionMode c) (cf_AllowedTools c)
    (cf_DisallowedTools c) (cf_ShellToolTimeout c) (cf_IgnoreUserConfig c) (cf_IgnoreRules c) (cf_ExtraArgs c).
Definition zero_Config : Config := mkConfig "" "" "" [] ∅ "" "" "" "" "" false "" "" false false "" [] [] "" false false [].

Record ForkOptions := mkFork {
  fk_Name : string; fk_DefaultBinary : string; fk_InstructionProvider : string; fk_PassEnv : list string }.
(** The options with their defaults. *)
Definition fork_defaults (fork : ForkOptions) : ForkOptions :=
  let name := if fk_Name fork =s "" then "codex" else fk_Name fork in
  mkFork name (if fk_DefaultBinary fork =s "" then name else fk_DefaultBinary fork)
    (if fk_InstructionProvider fork =s "" then "codex" else fk_InstructionProvider fork) (fk_PassEnv fork).

(** [json.Unmarshal] into [any]: numbers become [float64] and are written back as
    its shortest text; one that is out of range is an error and reads as null. *)
Class Floats := float_text : string → option string.
Fixpoint any_value `{Floats} (j : Json) : Json :=
  match j with
  | JNum s => match float_text s with Some t => JNum t | None => JNull end
  | JArr l => JArr (map any_value l)
  | JObj l => JObj (obj_members (obj_map (map (λ kv, (kv.1, any_value kv.2)) l)))
  | _ => j
  end.
Fixpoint in_range `{Floats} (j : Json) : bool :=
  match j with
  | JNum s => bool_decide (is_Some (float_text s))
  | JArr l => forallb in_range l
  | JObj l => forallb (λ kv, in_range kv.2) l
  | _ => true
  end.

(** [filepath.Base] of a non-empty path that does not end with a slash. *)
Definition filepath_Base (path : string) : string := default "" (last (Split path slash)).

Section codex.
Context `{Host} `{TimeParser} `{Encoder} `{JsonParser} `{Faults} `{Floats} `{Environment}.

Definition runtime_error (name text : string) : Error := errors_New ("relay " +:+ name +:+ ": " +:+ text).
Definition runtime_wrap (name text : string) (err : Error) : Error :=
  wrap_text ("relay " +:+ name +:+ ": " +:+ text +:+ ": ") err.

(** The sandbox a run gets, or why it gets none. *)
Definition sandbox_of (name : string) (config : Config) : Res string :=
  let sandbox := if cf_Sandbox config =s "" then "workspace-write" else cf_Sandbox config in
  if negb (sandbox =s "read-only") && negb (sandbox =s "workspace-write") && negb (sandbox =s "danger-full-access")
  then Err (runtime_error name ("unsupported sandbox " +:+ fmt_quote sandbox))
  else if (sandbox =s "danger-full-access") && negb (cf_AllowDangerousSandbox config)
  then Err (runtime_error name "danger-full-access requires explicit AllowDangerousSandbox")
  else Ok sandbox.

Definition work_dir (config : Config) (execution : Execution) : string :=
  if negb (ex_WorkDir execution =s "") then ex_WorkDir execution
  else if negb (cf_WorkDir config =s "") then cf_WorkDir config
  else filepath_Join [if cf_WorkRoot config =s "" then filepath_Join [os_TempDir; "relay-runs"] else cf_WorkRoot config;
                      ex_RunID execution].

Definition truncate (value : string) (limit : nat) : string :=
  if (String.length value <=? limit)%nat then value
  else str_take limit value +:+ String (byte_of 226) (String (byte_of 128) (String (byte_of 166) "")).
Definition tomlString (value : string) : string := json_text (JStr value).

Definition when (b : bool) (args : list string) : list string := if b then args else [].
Definition exec_args (config : Config) (sandbox workDir finalPath : string) : list string :=
  ["exec"; "--json"; "--color"; "never"; "--sandbox"; sandbox; "--cd"; workDir; "--output-last-message"; finalPath] ++
  when (negb (cf_RequireGitRepository config)) ["--skip-git-repo-check"] ++
  when (cf_Ephemeral config) ["--ephemeral"] ++
  when (negb (cf_Model config =s "")) ["--model"; cf_Model config] ++
  when (negb (cf_Profile config =s "")) ["--profile"; cf_Profile config] ++
  when (negb (cf_ReasoningEffort config =s ""))
    ["--config"; "model_reasoning_effort=" +:+ tomlString (cf_ReasoningEffort config)] ++
  when (negb (cf_ServiceTier config =s "")) ["--config"; "service_tier=" +:+ tomlString (cf_ServiceTier config)] ++
  when (negb (cf_PermissionMode config =s "")) ["--permission-mode"; cf_PermissionMode config] ++
  concat (map (λ tool, ["--allowed-tool"; tool]) (cf_AllowedTools config)) ++
  concat (map (λ tool, ["--disallowed-tool"; tool]) (cf_DisallowedTools config)) ++
  when (negb (cf_ShellToolTimeout config =s "")) ["--shell-tool-timeout"; cf_ShellToolTimeout config] ++
  when (cf_IgnoreUserConfig config) ["--ignore-user-config"] ++
  when (cf_IgnoreRules config) ["--ignore-rules"] ++
  cf_ExtraArgs config ++ ["-"].

(** ** Steps of an executor *)

(** An operation on files that the executor needs. *)
Definition need (m : M FS string) (k : string → Work) : Work :=
  Files m (λ r, match r with Ok s => k s | Err err => Return (Err err) end).
Definition make_dir (path : string) : M FS string := Fs.os_MkdirAll path ;; mret "".

(** [toolbridge.StartFile]: the directories of the bridge and its token. *)
Definition start_bridge (dir : string) : M FS string :=
  Fs.os_MkdirAll (filepath_Join [dir; "requests"]) ;;
  Fs.os_MkdirAll (filepath_Join [dir; "responses"]) ;;
  host rand_at.

(** What precedes the start of the process in both protocols. *)
Definition prepare (config : Config) (execution : Execution) (fork : ForkOptions)
    (k : string → string → string → string → string → string → Work) : Work :=
  match sandbox_of (fk_Name fork) config with
  | Err err => Return (Err err)
  | Ok sandbox =>
      let workDir := work_dir config execution in
      need (make_dir workDir) (λ _,
      need (MaterializeInstructions workDir (fk_InstructionProvider fork) (ex_Instructions execution)) (λ instructionPath,
      let resultDir := filepath_Join [workDir; ".relay"] in
      need (make_dir resultDir) (λ _,
      let finalPath := filepath_Join [resultDir; fk_Name fork +:+ "-last-message.txt"] in
      let bridgeDir := filepath_Join [resultDir; "tool-bridge"] in
      Files (start_bridge bridgeDir) (λ token,
        match token with
        | Err err => Return (Err (runtime_wrap (fk_Name fork) "start tool bridge" err))
        | Ok token => k sandbox workDir instructionPath finalPath bridgeDir token
        end))))
  end.

Definition event_name (fork : ForkOptions) (kind : string) : string := "runtime." +:+ fk_Name fork +:+ "." +:+ kind.
Definition strings_data (l : list (string * string)) : Any := json_strings l.

(** The text of a completed message in an item. *)
Definition message_text (event : gmap string Json) : string :=
  match event !! "item" with
  | Some (JObj item) =>
      match obj_map item !! "type", obj_map item !! "text" with
      | Some (JStr kind), Some (JStr text) => if kind =s "agent_message" then text else ""
      | _, _ => ""
      end
  | _ => ""
  end.
Definition string_member (event : gmap string Json) (name : string) : string :=
  match event !! name with Some (JStr s) => s | _ => "" end.

(** A line: its events and the thread it names. *)
Definition exec_line (fork : ForkOptions) (line : string) (threadID : string) (k : string → Work) : Work :=
  let unparsed := Emit (event_name fork "unparsed") (strings_data [("line", truncate line 4096)]) (k threadID) in
  let parsed j (event : gmap string Json) :=
    let thread := string_member event "thread_id" in
    let threadID := if thread =s "" then threadID else thread in
    let kind := if string_member event "type" =s "" then "event" else string_member event "type" in
    Emit (event_name fork kind) (AnyJson j)
      (if message_text event =s "" then k threadID
       else Emit "assistant.message.completed" (strings_data [("text", message_text event)]) (k threadID)) in
  match parse_all line with
  | Ok (JObj l) =>
      if in_range (JObj l) then parsed (any_value (JObj l)) (obj_map (map (λ kv, (kv.1, any_value kv.2)) l)) else unparsed
  | Ok JNull => parsed JNull ∅
  | _ => unparsed
  end.

Definition stderr_limit : Z := 4194304.
Definition stderr_overflow : Error := errors_New "relay codex: stderr limit exceeded".
Definition too_long : Error := errors_New "bufio.Scanner: token too long".
Definition exec_line_limit : Z := 4194304.

Definition runtime_result (fork : ForkOptions) (summary message threadID workDir instructionPath finalPath : string) : Result :=
  mkResult summary
    (Some (JObj [("message", JStr message); ("thread_id", JStr threadID); ("work_dir", JStr workDir)]))
    [mkArtifact "" "" "instruction_file" instructionPath (filepath_Base instructionPath) "" 0 "";
     mkArtifact "" "" (fk_Name fork +:+ "_final_message") finalPath (filepath_Base finalPath) "" 0 ""].

(** The end of the process: its failures first, then the final message. *)
Definition exec_end (fork : ForkOptions) (workDir instructionPath finalPath threadID : string) (scanErr : option Error)
    (stderr : list string) (failure : option Error) : Work :=
  let '(kept, copyErr) := limited_copy stderr_overflow stderr_limit stderr in
  match scanErr, first_failure failure copyErr with
  | Some err, _ => Return (Err (runtime_wrap (fk_Name fork) "read JSONL" err))
  | None, Some err =>
      Return (Err (mkError (err_is err)
        ("relay " +:+ fk_Name fork +:+ ": process failed: " +:+ err_msg err +:+ ": " +:+ truncate kept 8192)))
  | None, None =>
      Files (os_ReadFile finalPath) (λ message,
        match message with
        | Err err => Return (Err (runtime_wrap (fk_Name fork) "read final message" err))
        | Ok message =>
            Emit (event_name fork "completed") (strings_data [("thread_id", threadID)])
              (Return (Ok (runtime_result fork (TrimSpace message) message threadID workDir instructionPath finalPath)))
        end)
  end.

(** The child at work.  After a line that is too long nothing more is read. *)
Fixpoint exec_child (fork : ForkOptions) (workDir instructionPath finalPath : string) (stdin : option string)
    (threadID : string) (scanErr : option Error) (child : Child) : Work :=
  match child with
  | Prints line child =>
      let continue := λ threadID scanErr, exec_child fork workDir instructionPath finalPath stdin threadID scanErr child in
      match scanErr with
      | Some err => continue threadID (Some err)
      | None =>
          if (exec_line_limit <=? Z.of_nat (String.length line))%Z then continue threadID (Some too_long)
          else exec_line fork line threadID (λ threadID, continue threadID None)
      end
  | Calls call k =>
      Invoke call (λ r, exec_child fork workDir instructionPath finalPath stdin threadID scanErr (k (delivered r)))
  | Touches m child => Files m (λ _, exec_child fork workDir instructionPath finalPath stdin threadID scanErr child)
  | Reads k => exec_child fork workDir instructionPath finalPath None threadID scanErr (k (default "" stdin))
  | Exits stderr failure => exec_end fork workDir instructionPath finalPath threadID scanErr stderr failure
  end.

Definition binary_of (config : Config) (fork : ForkOptions) : string :=
  if cf_Binary config =s "" then fk_DefaultBinary fork else cf_Binary config.
Definition environment_of (config : Config) (fork : ForkOptions) (order : list string) (bridgeDir token : string) : list string :=
  runtimeEnv (cf_PassEnv config) (cf_Env config) (cf_ToolDir config) order bridgeDir token (fk_PassEnv fork).

(** [ExecuteFork] for the exec protocol. *)
Definition execute_exec (order : list string) (config : Config) (execution : Execution) (fork : ForkOptions) : Work :=
  prepare config execution fork (λ sandbox workDir instructionPath finalPath bridgeDir token,
    let binary := binary_of config fork in
    let command := mkCommand binary (exec_args config sandbox workDir finalPath) workDir
                     (ci_Prompt (ex_Instructions execution)) (environment_of config fork order bridgeDir token) in
    Emit (event_name fork "started")
      (strings_data [("binary", binary); ("sandbox", sandbox); ("work_dir", workDir)])
      (match spawn command with
       | Err err => Return (Err (runtime_wrap (fk_Name fork) "start" err))
       | Ok child =>
           exec_child fork workDir instructionPath finalPath (Some (ci_Prompt (ex_Instructions execution))) "" None child
       end)).
End codex.
