(* ===== verification/AppServer.v ===== *)
(** * AppServer: the app-server protocol of codex and its forks (runtime/codex/appserver.go, models.go)

    The executor talks JSON-RPC with a child over its standard streams: it
    initializes, starts a thread, starts a turn and reads notifications until the
    turn is completed.  The child is a tree (Process); between two lines of the
    child the executor is in a [Phase], which is the place in the code where it
    scans.  What it has written and the child has not read waits in the pipe.

    [lenient] decoding is [json.Unmarshal] with its error ignored: a member of the
    wrong type is left as it was, the others are read. *)

From S2P Require Import Prelude GoStrings Json Types Codec Url Fs Capability Instructions Outbox Workspace Process Http ToolBridge Worker Codex.

(** ** Lenient decoding *)
Definition Lenient (A : Type) := Json → A → A.
Definition l_string : Lenient string := λ j s, match j with JStr s' => s' | _ => s end.
Definition l_ptr {A} (zero : A) (f : Lenient A) : Lenient (option A) := λ j v,
  match j with JNull => None | _ => Some (f j (default zero v)) end.
Definition l_find {A} (fields : list (string * Lenient A)) (k : string) : option (Lenient A) :=
  match list_find (λ f, f.1 = k) fields with
  | Some (_, f) => Some f.2
  | None => (snd ∘ snd) <$> list_find (λ f, fold_name f.1 = fold_name k) fields
  end.
Definition l_struct {A} (fields : list (string * Lenient A)) : Lenient A := λ j a,
  match j with
  | JObj l => foldl (λ a kv, match l_find fields kv.1 with Some f => f kv.2 a | None => a end) a l
  | _ => a
  end.
(** The document of a raw message; a missing one does not decode. *)
Definition lenient {A} (f : Lenient A) (zero : A) (data : option Json) : A :=
  match data with Some j => f j zero | None => zero end.

(** ** Messages *)
Record rpcError := mkRpcError { re_Code : Z; re_Message : string }.
Record rpcMessage := mkRpcMessage {
  rp_ID : Z; rp_Method : string; rp_Params : option Json; rp_Result : option Json; rp_Error : option rpcError }.
#[export] Instance eta_rpcError : Eta rpcError := λ e, mkRpcError (re_Code e) (re_Message e).
#[export] Instance eta_rpcMessage : Eta rpcMessage := λ m,
  mkRpcMessage (rp_ID m) (rp_Method m) (rp_Params m) (rp_Result m) (rp_Error m).
Definition fields_rpcError : list (Field rpcError) := [field "code" int re_Code false; field "message" str re_Message false].
Definition wire_rpcError : Codec rpcError := struct fields_rpcError (mkRpcError 0 "").
Definition fields_rpcMessage : list (Field rpcMessage) :=
  [field "id" int rp_ID true; field "method" str rp_Method true; field "params" raw rp_Params true;
   field "result" raw rp_Result true; field "error" (ptr wire_rpcError) rp_Error true].
Definition wire_rpcMessage : Codec rpcMessage := struct fields_rpcMessage (mkRpcMessage 0 "" None None None).

Record threadStarted := mkStarted { ts_ID : string }.
#[export] Instance eta_threadStarted : Eta threadStarted := λ t, mkStarted (ts_ID t).
Record startedBody := mkStartedBody { sb_Thread : threadStarted }.
#[export] Instance eta_startedBody : Eta startedBody := λ t, mkStartedBody (sb_Thread t).
Definition wire_started : Codec startedBody :=
  struct [field "thread" (struct [field "id" str ts_ID false] (mkStarted "")) sb_Thread false] (mkStartedBody (mkStarted "")).

Definition delta_of (params : option Json) : string := lenient (l_struct [("delta", l_string)]) "" params.

Record itemBody := mkItem { it_Type : string; it_Text : string }.
#[export] Instance eta_itemBody : Eta itemBody := λ i, mkItem (it_Type i) (it_Text i).
Definition l_item : Lenient itemBody :=
  l_struct [("type", λ j i, i <| it_Type := l_string j (it_Type i) |>); ("text", λ j i, i <| it_Text := l_string j (it_Text i) |>)].
Definition completedAgentMessage (data : option Json) : string :=
  let item := lenient (l_struct [("item", l_item)]) (mkItem "" "") data in
  if it_Type item =s "agentMessage" then it_Text item else "".

Record turnBody := mkTurn { tn_Status : string; tn_Error : option string }.
#[export] Instance eta_turnBody : Eta turnBody := λ t, mkTurn (tn_Status t) (tn_Error t).
Definition l_turn : Lenient turnBody :=
  l_struct [("status", λ j t, t <| tn_Status := l_string j (tn_Status t) |>);
            ("error", λ j t, t <| tn_Error := l_ptr "" (l_struct [("message", l_string)]) j (tn_Error t) |>)].
Definition turn_of (params : option Json) : turnBody :=
  lenient (l_struct [("turn", l_turn)]) (mkTurn "" None) params.

Section app_server.
Context `{Host} `{TimeParser} `{Encoder} `{JsonParser} `{Faults} `{Floats} `{Environment}.

Definition read_message (line : string) : option rpcMessage :=
  match res_bind (parse_all line) (Unmarshal wire_rpcMessage false) with Ok m => Some m | Err _ => None end.

(** [waitRPCResponse] on one message: the answer it returns, if it does. *)
Definition rpc_response (id : Z) (message : rpcMessage) : option (Res (option Json)) :=
  if negb (rp_ID message =s id) then None
  else match rp_Error message with
       | Some err => Some (Err (errors_New (re_Message err)))
       | None => Some (Ok (rp_Result message))
       end.
Definition closed_stream : Error := errors_New "app-server closed the event stream".

Definition emitAppServerEvent (fork : ForkOptions) (message : rpcMessage) (k : Work) : Work :=
  if rp_Method message =s "" then k
  else Emit (event_name fork (ReplaceAll (rp_Method message) "/" "."))
         (match rp_Params message with Some j => AnyJson (any_value j) | None => AnyNil end) k.

Definition appServerError (name : string) (err : Error) (stderr : string) : Error :=
  let detail := TrimSpace stderr in
  if detail =s "" then wrap_text ("relay " +:+ name +:+ ": ") err
  else mkError (err_is err) ("relay " +:+ name +:+ ": " +:+ err_msg err +:+ ": " +:+ truncate detail 8192).

(** ** What the executor writes *)
Definition rpc_line (members : list (string * Json)) : string := json_text (JObj members) +:+ nl.
Definition initialize_line (client : string) : string :=
  rpc_line [("id", JNum "1"); ("method", JStr "initialize");
            ("params", JObj [("capabilities", JObj [("experimentalApi", JBool true)]);
                             ("clientInfo", JObj [("name", JStr client); ("version", JStr "0.1")])])].
Definition initialized_line : string := rpc_line [("method", JStr "initialized"); ("params", JObj [])].
Definition thread_line (config : Config) (workDir sandbox : string) : string :=
  rpc_line [("id", JNum "2"); ("method", JStr "thread/start");
            ("params", JObj ([("approvalPolicy", JStr "never"); ("cwd", JStr workDir); ("ephemeral", JBool (cf_Ephemeral config))] ++
               (if cf_Model config =s "" then [] else [("model", JStr (cf_Model config))]) ++
               [("sandbox", JStr sandbox)] ++
               (if cf_ServiceTier config =s "" then [] else [("serviceTier", JStr (cf_ServiceTier config))])))].
Definition turn_line (threadID prompt : string) : string :=
  rpc_line [("id", JNum "3"); ("method", JStr "turn/start");
            ("params", JObj [("input", JArr [JObj [("text", JStr prompt); ("type", JStr "text")]]); ("threadId", JStr threadID)])].

(** ** The conversation *)

(** Where the executor scans: for the answers to its first two requests, then for
    the notifications of the turn ([message] is what the agent said so far). *)
Inductive Phase :=
  | AwaitInitialize
  | AwaitThread
  | InTurn (threadID message : string) (turnStarted : bool).

(** Whether the n-th write to the child fails; the error [Wait] reports when the
    conversation is over and the child has been stopped, and what the context says
    then; what the child had printed to its standard error when an error looked at
    it, and how long a scanned line may be. *)
Class Pipes := {
  write_fault : nat → option Error; wait_error : option Error; context_error : option Error;
  stderr_seen : string }.
Context `{Pipes}.
(** The deferred check: a child that did not end well although the conversation
    did, and a context that has ended. *)
Definition stopped_early : option Error := if wait_error is Some _ then context_error else None.
Definition app_line_limit : Z := 8388608.

(** The settings of one conversation. *)
Record Talk := mkTalk {
  tk_config : Config; tk_fork : ForkOptions; tk_sandbox : string; tk_workDir : string; tk_prompt : string;
  tk_instructionPath : string; tk_finalPath : string }.

Context (talk : Talk).
Let name := fk_Name (tk_fork talk).

Definition failed (err : Error) : Work := Return (Err err).
Definition app_failed (err : Error) : Work := failed (appServerError name err stderr_seen).
(** The n-th write, put into the pipe. *)
Definition send (n : nat) (line : string) (pipe : list string) (k : list string → Work) : Work :=
  match write_fault n with Some err => failed err | None => k (pipe ++ [line]) end.

(** The turn is completed: the final message is written to its file; the context
    is looked at when the child has been waited for. *)
Definition turn_end (threadID message : string) (turnStarted : bool) : Work :=
  if negb turnStarted || (message =s "") then
    app_failed (errors_New "app-server ended without a final message")
  else
    let finalMessage := TrimSpace message in
    need (os_WriteFile (tk_finalPath talk) finalMessage ;; mret "") (λ _,
      Emit (event_name (tk_fork talk) "completed") (strings_data [("thread_id", threadID)])
        (Return (match stopped_early with
                 | Some err => Err err
                 | None => Ok (runtime_result (tk_fork talk) finalMessage finalMessage threadID (tk_workDir talk)
                                 (tk_instructionPath talk) (tk_finalPath talk))
                 end))).

(** One line in a phase; [k] goes on scanning. *)
Definition app_line (phase : Phase) (line : string) (pipe : list string) (k : Phase → list string → Work) : Work :=
  match read_message line with
  | None => k phase pipe
  | Some message =>
      match phase with
      | AwaitInitialize =>
          match rpc_response 1 message with
          | None => k phase pipe
          | Some (Err err) => app_failed err
          | Some (Ok _) =>
              send 1 initialized_line pipe (λ pipe,
              send 2 (thread_line (tk_config talk) (tk_workDir talk) (tk_sandbox talk)) pipe (λ pipe, k AwaitThread pipe))
          end
      | AwaitThread =>
          match rpc_response 2 message with
          | None => emitAppServerEvent (tk_fork talk) message (k phase pipe)
          | Some (Err err) => app_failed err
          | Some (Ok result) =>
              let invalid := failed (runtime_error name "invalid thread/start response") in
              match result with
              | None => invalid
              | Some j =>
                  match Unmarshal wire_started false j with
                  | Err _ => invalid
                  | Ok started =>
                      let threadID := ts_ID (sb_Thread started) in
                      if threadID =s "" then invalid
                      else send 3 (turn_line threadID (tk_prompt talk)) pipe (λ pipe, k (InTurn threadID "" false) pipe)
                  end
              end
          end
      | InTurn threadID text turnStarted =>
          if rp_ID message =s 3%Z then
            match rp_Error message with
            | Some err => failed (errors_New (re_Message err))
            | None => k (InTurn threadID text true) pipe
            end
          else
            emitAppServerEvent (tk_fork talk) message
              (let method := rp_Method message in
               if method =s "item/agentMessage/delta" then
                 let delta := delta_of (rp_Params message) in
                 let next := k (InTurn threadID (text +:+ delta) turnStarted) pipe in
                 if delta =s "" then next
                 else Emit "assistant.message.delta" (strings_data [("delta", delta)]) next
               else if (method =s "item/completed") && (text =s "") then
                 let said := completedAgentMessage (rp_Params message) in
                 if said =s "" then k phase pipe
                 else Emit "assistant.message.completed" (strings_data [("text", said)]) (k (InTurn threadID said turnStarted) pipe)
               else if method =s "turn/completed" then
                 let turn := turn_of (rp_Params message) in
                 if negb (tn_Status turn =s "completed") then
                   failed (errors_New (match tn_Error turn with
                                       | Some cause => if cause =s "" then "turn " +:+ tn_Status turn else cause
                                       | None => "turn " +:+ tn_Status turn
                                       end))
                 else turn_end threadID text turnStarted
               else k phase pipe)
      end
  end.

(** The stream is over, with the scanner's error. *)
Definition app_closed (phase : Phase) (scanErr : option Error) : Work :=
  match phase with
  | AwaitInitialize | AwaitThread => app_failed (default closed_stream scanErr)
  | InTurn threadID text turnStarted =>
      match scanErr with
      | Some err => failed (runtime_wrap name "read app-server stream" err)
      | None =>
          if turnStarted then app_failed (errors_New "app-server ended before turn/completed")
          else app_failed (errors_New "app-server ended without a final message")
      end
  end.

(** A child that waits for input nobody will write is there until the context
    ends and it is killed. *)
Fixpoint app_child (phase : Phase) (pipe : list string) (child : Child) : Work :=
  match child with
  | Prints line child =>
      if (app_line_limit <=? Z.of_nat (String.length line))%Z then app_closed phase (Some too_long)
      else app_line phase line pipe (λ phase pipe, app_child phase pipe child)
  | Calls call k => Invoke call (λ r, app_child phase pipe (k (delivered r)))
  | Touches m child => Files m (λ _, app_child phase pipe child)
  | Reads k =>
      match pipe with
      | line :: pipe => app_child phase pipe (k line)
      | [] => app_closed phase None
      end
  | Exits _ _ => app_closed phase None
  end.
End app_server.

Section executors.
Context `{Host} `{TimeParser} `{Encoder} `{JsonParser} `{Faults} `{Floats} `{Environment} `{Pipes}.

Definition executeAppServer (order : list string) (config : Config) (execution : Execution) (fork : ForkOptions) : Work :=
  prepare config execution fork (λ sandbox workDir instructionPath finalPath bridgeDir token,
    let binary := binary_of config fork in
    let command := mkCommand binary ["app-server"] workDir "" (environment_of config fork order bridgeDir token) in
    Emit (event_name fork "started")
      (strings_data [("binary", binary); ("protocol", "app-server"); ("sandbox", sandbox); ("work_dir", workDir)])
      (match spawn command with
       | Err err => Return (Err (runtime_wrap (fk_Name fork) "start app-server" err))
       | Ok child =>
           send 0 (initialize_line "relay") []
             (λ pipe, app_child (mkTalk config fork sandbox workDir (ci_Prompt (ex_Instructions execution)) instructionPath finalPath)
                        AwaitInitialize pipe child)
       end)).

(** [ExecuteFork]: the model of the run, the defaults, the protocol. *)
Definition ExecuteFork (order : list string) (config : Config) (execution : Execution) (fork : ForkOptions) : Work :=
  let config := if rr_Model (ex_Runtime execution) =s "" then config
                else config <| cf_Model := rr_Model (ex_Runtime execution) |> in
  let fork := fork_defaults fork in
  if cf_Protocol config =s "app-server" then executeAppServer order config execution fork
  else if negb (cf_Protocol config =s "") && negb (cf_Protocol config =s "exec")
  then Return (Err (runtime_error (fk_Name fork) ("unsupported protocol " +:+ fmt_quote (cf_Protocol config))))
  else execute_exec order config execution fork.

(** [codex.Executor.Execute] and [trae.Executor.Execute]. *)
Definition codex_Execute (order : list string) (config : Config) (execution : Execution) : Work :=
  ExecuteFork order config execution (mkFork "codex" "codex" "codex" []).

Definition ResolveBinary (binary : string) : string :=
  if negb (binary =s "") then binary else if LookPath "traex" then "traex" else "trae-cli".
Definition trae_Execute (order : list string) (config : Config) (execution : Execution) : Work :=
  let config := if cf_PermissionMode config =s "default" then config <| cf_PermissionMode := "" |> else config in
  if negb (cf_PermissionMode config =s "") && negb (cf_PermissionMode config =s "bypass_permissions") &&
     negb (cf_PermissionMode config =s "custom")
  then Return (Err (errors_New ("relay trae: unsupported headless permission mode " +:+ fmt_quote (cf_PermissionMode config))))
  else
    let config := if cf_Binary config =s "" then config <| cf_Binary := ResolveBinary "" |> else config in
    ExecuteFork order config execution (mkFork "trae" "traex" "trae" ["TRAE_HOME"; "TRAE_API_KEY"; "TRAE_BASE_URL"]).
End executors.
