(* ===== verification/Models.v ===== *)
(** * Models: what a runtime says about itself (runtime/codex/models.go, executor.go, trae)

    [ProbeModels] pages through the model catalog of an app server;
    [ParseVersionOutput] finds a semantic version in the output of [--version]. *)

From S2P Require Import Prelude GoStrings Json Types Codec Url Fs Capability Instructions Outbox Workspace Process Http ToolBridge Worker Codex AppServer.

Record ModelInfo := mkModelInfo { mi_ID : string; mi_DisplayName : string; mi_Description : string; mi_Default : bool }.

(** ** The catalog *)
Record catalogItem := mkItem_ {
  ci_ID : string; ci_Model : string; ci_DisplayName : string; ci_Description : string; ci_Hidden : bool; ci_Default : bool }.
#[export] Instance eta_catalogItem : Eta catalogItem := λ i,
  mkItem_ (ci_ID i) (ci_Model i) (ci_DisplayName i) (ci_Description i) (ci_Hidden i) (ci_Default i).
Record catalogPage := mkPage { cp_Data : list catalogItem; cp_NextCursor : option string }.
#[export] Instance eta_catalogPage : Eta catalogPage := λ p, mkPage (cp_Data p) (cp_NextCursor p).
Definition wire_catalogItem : Codec catalogItem :=
  struct [field "id" str ci_ID false; field "model" str ci_Model false; field "displayName" str ci_DisplayName false;
          field "description" str ci_Description false; field "hidden" boolean ci_Hidden false;
          field "isDefault" boolean ci_Default false] (mkItem_ "" "" "" "" false false).
Definition wire_catalogPage : Codec catalogPage :=
  struct [field "data" (slice wire_catalogItem) cp_Data false; field "nextCursor" (ptr str) cp_NextCursor false] (mkPage [] None).

(** The model an item lists, if it is visible and named. *)
Definition listed_model (item : catalogItem) : option ModelInfo :=
  let modelID := if ci_Model item =s "" then ci_ID item else ci_Model item in
  if (modelID =s "") || ci_Hidden item then None
  else Some (mkModelInfo modelID (ci_DisplayName item) (ci_Description item) (ci_Default item)).

Section probe.
Context `{Host} `{TimeParser} `{Encoder} `{JsonParser} `{Floats} `{Environment} `{Pipes} (name : string).

Definition list_line (id : Z) (cursor : string) : string :=
  rpc_line [("id", JNum (pretty id)); ("method", JStr "model/list");
            ("params", JObj ((if cursor =s "" then [] else [("cursor", JStr cursor)]) ++
                             [("includeHidden", JBool false); ("limit", JNum "100")]))].

Definition send_probe {A} (n : nat) (line : string) (pipe : list string) (k : list string → Res A) : Res A :=
  match write_fault n with Some err => Err err | None => k (pipe ++ [line]) end.

(** Awaiting the answer to [initialize], or the page [page] behind the models found so far. *)
Inductive ProbePhase := ProbeInitialize | ProbePage (page : nat) (models : list ModelInfo).

Definition probe_done (models : list ModelInfo) : Res (list ModelInfo) :=
  match models with [] => Err (runtime_error name "model discovery returned no visible models") | _ => Ok models end.

Definition probe_line (phase : ProbePhase) (line : string) (pipe : list string)
    (k : ProbePhase → list string → Res (list ModelInfo)) : Res (list ModelInfo) :=
  match read_message line with
  | None => k phase pipe
  | Some message =>
      match phase with
      | ProbeInitialize =>
          match rpc_response 1 message with
          | None => k phase pipe
          | Some (Err err) => Err (appServerError name err stderr_seen)
          | Some (Ok _) =>
              send_probe 1 initialized_line pipe (λ pipe,
              send_probe 2 (list_line 2 "") pipe (λ pipe, k (ProbePage 0 []) pipe))
          end
      | ProbePage page models =>
          match rpc_response (Z.of_nat page + 2) message with
          | None => k phase pipe
          | Some (Err err) => Err (appServerError name err stderr_seen)
          | Some (Ok data) =>
              match res_bind (match data with Some j => Ok j | None => Err (errors_New "unexpected end of JSON input") end)
                      (Unmarshal wire_catalogPage false) with
              | Err err => Err (runtime_wrap name "decode model catalog" err)
              | Ok response =>
                  let models := models ++ omap listed_model (cp_Data response) in
                  let cursor := default "" (cp_NextCursor response) in
                  if (cursor =s "") || (10 <=? page + 1)%nat then probe_done models
                  else send_probe (page + 3) (list_line (Z.of_nat page + 3) cursor) pipe (λ pipe, k (ProbePage (page + 1) models) pipe)
              end
          end
      end
  end.

Definition probe_closed (scanErr : option Error) : Res (list ModelInfo) :=
  Err (appServerError name (default closed_stream scanErr) stderr_seen).

(** There is no tool bridge: a capability call of the child fails. *)
Fixpoint probe_child (phase : ProbePhase) (pipe : list string) (child : Child) : Res (list ModelInfo) :=
  match child with
  | Prints line child =>
      if (app_line_limit <=? Z.of_nat (String.length line))%Z then probe_closed (Some too_long)
      else probe_line phase line pipe (λ phase pipe, probe_child phase pipe child)
  | Calls _ k => probe_child phase pipe (k (Err (errors_New "tool bridge is not available")))
  | Touches _ child => probe_child phase pipe child
  | Reads k =>
      match pipe with
      | line :: pipe => probe_child phase pipe (k line)
      | [] => probe_closed None
      end
  | Exits _ _ => probe_closed None
  end.
End probe.

Section runtimes.
Context `{Host} `{TimeParser} `{Encoder} `{JsonParser} `{Floats} `{Environment} `{Pipes}.

(** The options are taken as they are: only the binary has a default here. *)
Definition ProbeModels (order : list string) (config : Config) (fork : ForkOptions) : Res (list ModelInfo) :=
  let binary := binary_of config fork in
  let binary := if binary =s "" then "codex" else binary in
  match spawn (mkCommand binary ["app-server"] "" "" (environment_of config fork order "" "")) with
  | Err err => Err (runtime_wrap (fk_Name fork) "start model discovery" err)
  | Ok child =>
      send_probe 0 (initialize_line "relay-model-probe") [] (λ pipe, probe_child (fk_Name fork) ProbeInitialize pipe child)
  end.
Definition trae_ProbeModels (order : list string) (config : Config) : Res (list ModelInfo) :=
  let config := if cf_Binary config =s "" then config <| cf_Binary := ResolveBinary "" |> else config in
  ProbeModels order config (mkFork "trae" "traex" "" ["TRAE_HOME"; "TRAE_API_KEY"; "TRAE_BASE_URL"]).
End runtimes.

(** ** Versions

    The pattern [\d+\.\d+\.\d+(?:[-+][0-9A-Za-z.-]+)?], leftmost match. *)
Definition is_digit (c : Ascii.ascii) : bool := ((48 <=? code c) && (code c <=? 57))%nat.
Definition is_suffix_char (c : Ascii.ascii) : bool :=
  is_digit c || ((65 <=? code c) && (code c <=? 90))%nat || ((97 <=? code c) && (code c <=? 122))%nat ||
  (code c =? 46)%nat || (code c =? 45)%nat.

(** The longest prefix of characters in a class, and the rest. *)
Fixpoint span (p : Ascii.ascii → bool) (s : string) : string * string :=
  match s with
  | EmptyString => ("", "")
  | String c rest => if p c then let '(a, b) := span p rest in (String c a, b) else ("", s)
  end.
(** [\d+] and what follows it. *)
Definition number (s : string) : option (string * string) :=
  let '(digits, rest) := span is_digit s in if digits =s "" then None else Some (digits, rest).
Definition dot (s : string) : option string :=
  match s with String c rest => if (code c =? 46)%nat then Some rest else None | EmptyString => None end.
(** [(?:[-+][0-9A-Za-z.-]+)?] *)
Definition version_suffix (s : string) : string :=
  match s with
  | String c rest =>
      if (code c =? 45)%nat || (code c =? 43)%nat then
        let '(tail, _) := span is_suffix_char rest in
        if tail =s "" then "" else String c tail
      else ""
  | EmptyString => ""
  end.
Definition match_version (s : string) : option string :=
  '(major, s) ← number s; s ← dot s;
  '(minor, s) ← number s; s ← dot s;
  '(patch, s) ← number s;
  Some (major +:+ "." +:+ minor +:+ "." +:+ patch +:+ version_suffix s).
Fixpoint FindString (s : string) : string :=
  match match_version s with
  | Some v => v
  | None => match s with EmptyString => "" | String _ rest => FindString rest end
  end.
Definition ParseVersionOutput (output : string) : string :=
  let value := FindString output in if value =s "" then TrimSpace output else value.

(** [ProbeVersion], given what the command printed. *)
Definition ProbeVersion (runtime : string) (output : string) (failure : option Error) : Res string :=
  match failure with
  | Some err => Err (mkError (err_is err) ("relay " +:+ runtime +:+ ": probe version: " +:+ err_msg err +:+ ": " +:+ output))
  | None => Ok (ParseVersionOutput output)
  end.

Example versions_found :
  map ParseVersionOutput ["codex-cli 0.42.1-beta.2 (linux)"; "v1.2"; "  dev build "; "10.20.30+git"] =
  ["0.42.1-beta.2"; "v1.2"; "dev build"; "10.20.30+git"].
Proof. vm_compute. reflexivity. Qed.
