(* ===== verification/RuntimeProps.v ===== *)
(** * RuntimeProps: what a runtime reports *)

From S2P Require Import Prelude GoStrings Json Types Codec Url Fs Capability Instructions Outbox Workspace Process Http ToolBridge Worker Runs Codex AppServer.

(** What the agent said in an event. *)
Definition said (act : Act) : string :=
  match act with
  | Emitted ty (AnyJson (JObj [(member, JStr text)])) =>
      if (ty =s "assistant.message.delta") && (member =s "delta") ||
         (ty =s "assistant.message.completed") && (member =s "text") then text else ""
  | _ => ""
  end.
Fixpoint spoken (acts : list Act) : string :=
  match acts with [] => "" | act :: acts => said act +:+ spoken acts end.

Lemma spoken_app a b : spoken (a ++ b) = spoken a +:+ spoken b.
Proof. induction a as [|x a IH]; simpl; [done|]. by rewrite IH, str_app_assoc. Qed.

Section app_server.
Context `{Host} `{TimeParser} `{Encoder} `{JsonParser} `{Faults} `{Floats} `{Environment} `{Pipes}.

(** Runtime events are not the agent's words. *)
Lemma said_runtime fork kind data : said (Emitted (event_name fork kind) data) = "".
Proof. unfold event_name. destruct data as [|[]|]; try done. destruct l as [|[member []] []]; done. Qed.

(** The turn was reported completed. *)
Definition turn_completed (fork : ForkOptions) (acts : list Act) : Prop :=
  ∃ params, Emitted (event_name fork "turn.completed") (match params with Some j => AnyJson (any_value j) | None => AnyNil end) ∈ acts ∧
            tn_Status (turn_of params) = "completed".

(** What a success from a phase on means. *)
Definition so_far (phase : Phase) : string := match phase with InTurn _ text _ => text | _ => "" end.
Definition reported (talk : Talk) (phase : Phase) (acts : list Act) (r : Res Result) : Prop :=
  ∀ result, r = Ok result →
    stopped_early = None ∧ turn_completed (tk_fork talk) acts ∧
    so_far phase +:+ spoken acts ≠ "" ∧ res_Summary result = TrimSpace (so_far phase +:+ spoken acts) ∧
    res_Artifacts result = res_Artifacts (runtime_result (tk_fork talk) "" "" "" "" (tk_instructionPath talk) (tk_finalPath talk)).

Lemma runs_failed acts r err : runs (failed err) acts r → r = Err err.
Proof. by inversion 1. Qed.

(** A silent act in front. *)
Lemma reported_cons talk phase act acts r :
  said act = "" → reported talk phase acts r → reported talk phase (act :: acts) r.
Proof.
  intros Hs Hr result E. destruct (Hr result E) as (Hc & (params & Hin & Ht) & Hne & Hsum & Ha). cbn [spoken]. rewrite Hs, str_nil_app.
  split_and!; try done. exists params. split; [by right|done].
Qed.
Lemma reported_says talk threadID text turnStarted act acts r :
  reported talk (InTurn threadID (text +:+ said act) turnStarted) acts r → reported talk (InTurn threadID text turnStarted) (act :: acts) r.
Proof.
  intros Hr result E. destruct (Hr result E) as (Hc & (params & Hin & Ht) & Hne & Hsum & Ha). cbn [so_far spoken] in *. rewrite str_app_assoc in *.
  split_and!; try done. exists params. split; [by right|done].
Qed.

Lemma runs_send n line pipe k acts r :
  runs (send n line pipe k) acts r → runs (k (pipe ++ [line])) acts r ∨ ∃ e, r = Err e.
Proof. unfold send. destruct (write_fault n); [intros ->%runs_failed; right; eauto|by left]. Qed.
Lemma reported_err talk phase acts e : reported talk phase acts (Err e).
Proof. by intros result. Qed.

(** Decomposing the run of one line. *)
Lemma runs_event talk fork message k phase acts r :
  (∀ acts', runs k acts' r → reported talk phase acts' r) →
  runs (emitAppServerEvent fork message k) acts r → reported talk phase acts r.
Proof.
  intros Hk. unfold emitAppServerEvent. destruct (_ =s _); [apply Hk|].
  intros (acts' & -> & Hr)%runs_emit_inv. apply reported_cons; [apply said_runtime|by apply Hk].
Qed.

(** The end of the turn, behind the event that reports it. *)
Lemma turn_end_reported talk threadID text turnStarted acts r :
  runs (turn_end talk threadID text turnStarted) acts r →
  ∀ result, r = Ok result → stopped_early = None ∧ spoken acts = "" ∧ text ≠ "" ∧ res_Summary result = TrimSpace text ∧
    res_Artifacts result = res_Artifacts (runtime_result (tk_fork talk) "" "" "" "" (tk_instructionPath talk) (tk_finalPath talk)).
Proof.
  unfold turn_end. destruct (negb turnStarted || (text =s "")) eqn:E; [intros ->%runs_failed; done|].
  apply orb_false_iff in E as [_ Hne%bool_decide_eq_false]. unfold need. inversion 1 as [| | | |m k answer acts' r' Hr]; subst.
  destruct answer as [s|e]; [|by inversion Hr]. apply runs_emit_inv in Hr as (acts & -> & Hr). inversion Hr; subst.
  intros result. destruct stopped_early; [done|]. intros [= <-]. cbn [spoken]. rewrite said_runtime. done.
Qed.

Lemma app_line_reported talk phase line pipe k acts r :
  (∀ phase pipe acts, runs (k phase pipe) acts r → reported talk phase acts r) →
  runs (app_line talk phase line pipe k) acts r → reported talk phase acts r.
Proof.
  intros Hk. unfold app_line. destruct (read_message line) as [message|]; [|apply Hk].
  destruct phase as [| |threadID text turnStarted].
  - destruct (rpc_response 1 message) as [[result|err]|]; [|by intros ->%runs_failed|apply Hk].
    intros [[Hr|[e ->]]%runs_send|[e ->]]%runs_send; [|apply reported_err..]. by apply Hk in Hr.
  - destruct (rpc_response 2 message) as [[[j|]|err]|];
      [|by intros ->%runs_failed|by intros ->%runs_failed|apply runs_event; intros acts'; apply Hk].
    destruct (Unmarshal _ _ _) as [started|]; [|by intros ->%runs_failed].
    case_bool_decide; [by intros ->%runs_failed|]. intros [Hr|[e ->]]%runs_send; [|apply reported_err]. by apply Hk in Hr.
  - case_bool_decide; [destruct (rp_Error message); [by intros ->%runs_failed|intros Hr; by apply Hk in Hr]|].
    destruct (rp_Method message =s "turn/completed") eqn:Eturn.
    + apply bool_decide_eq_true in Eturn. unfold emitAppServerEvent. rewrite Eturn. simpl.
      intros (acts' & -> & Hr)%runs_emit_inv. destruct (negb (tn_Status _ =s _)) eqn:Es; [by apply runs_failed in Hr as ->|].
      apply negb_false_iff, bool_decide_eq_true in Es. intros result E.
      destruct (turn_end_reported _ _ _ _ _ _ Hr result E) as (Hc & Hs & Hne & Hsum & Ha). cbn [so_far spoken]. rewrite Hs.
      change (ReplaceAll "turn/completed" "/" ".") with "turn.completed". rewrite said_runtime, str_nil_app, str_app_nil_r.
      split_and!; try done. exists (rp_Params message). split; [by left|done].
    + apply runs_event. intros acts'. destruct (rp_Method message =s "item/agentMessage/delta").
      * destruct (delta_of _ =s "") eqn:Ed.
        { apply bool_decide_eq_true in Ed. rewrite Ed, str_app_nil_r. apply Hk. }
        intros (acts'' & -> & Hr)%runs_emit_inv. apply reported_says. by apply Hk in Hr.
      * destruct ((rp_Method message =s "item/completed") && (text =s "")) eqn:Ei; [|apply Hk].
        apply andb_true_iff in Ei as [_ Ht%bool_decide_eq_true]. subst text.
        destruct (completedAgentMessage _ =s ""); [apply Hk|].
        intros (acts'' & -> & Hr)%runs_emit_inv. apply reported_says. by apply Hk in Hr.
Qed.

Lemma app_child_reported talk child phase pipe acts r :
  runs (app_child talk phase pipe child) acts r → reported talk phase acts r.
Proof.
  revert phase pipe acts. induction child as [line child IH|call k IH|m child IH|k IH|stderr failure]; intros phase pipe acts; simpl.
  - destruct (_ <=? _)%Z.
    + destruct phase; simpl; by intros ->%runs_failed.
    + apply app_line_reported. intros; by eapply IH.
  - inversion 1; subst. apply reported_cons; [done|]. by eapply IH.
  - inversion 1; subst. apply reported_cons; [done|]. by eapply IH.
  - destruct pipe as [|line pipe]; [|apply IH].
    destruct phase as [| |threadID text []]; simpl; by intros ->%runs_failed.
  - destruct phase as [| |threadID text []]; simpl; by intros ->%runs_failed.
Qed.

(** ** What precedes the process *)
Lemma runs_need m k acts r :
  runs (need m k) acts r → (∃ s acts', acts = Filed (Ok s) :: acts' ∧ runs (k s) acts' r) ∨ ∃ e, r = Err e.
Proof.
  unfold need. inversion 1 as [| | | |m' k' answer acts' r' Hr]; subst. destruct answer; [left; eauto|right; inversion Hr; eauto].
Qed.
Lemma runs_prepare config execution fork k acts result :
  runs (prepare config execution fork k) acts (Ok result) →
  ∃ sandbox workDir instructionPath finalPath bridgeDir token acts0 acts',
    sandbox_of (fk_Name fork) config = Ok sandbox ∧ acts = acts0 ++ acts' ∧ spoken acts0 = "" ∧
    runs (k sandbox workDir instructionPath finalPath bridgeDir token) acts' (Ok result).
Proof.
  unfold prepare. destruct (sandbox_of _ _) as [sandbox|e]; [|by inversion 1].
  intros [(s1 & acts1 & -> & Hr)|[e ?]]%runs_need; [|done].
  apply runs_need in Hr as [(s2 & acts2 & -> & Hr)|[e ?]]; [|done].
  apply runs_need in Hr as [(s3 & acts3 & -> & Hr)|[e ?]]; [|done].
  inversion Hr as [| | | |m' k' answer acts' r' Hr']; subst. destruct answer as [token|e]; [|by inversion Hr'].
  eexists sandbox, _, s2, _, _, token, [Filed (Ok s1); Filed (Ok s2); Filed (Ok s3); Filed (Ok token)], acts'. done.
Qed.

Lemma dangerous_allowed name config sandbox :
  sandbox_of name config = Ok sandbox → sandbox = "danger-full-access" → cf_AllowDangerousSandbox config = true.
Proof.
  unfold sandbox_of. destruct (cf_AllowDangerousSandbox config); [done|]. destruct (_ && _ && _); [done|].
  simpl. rewrite andb_true_r. case_bool_decide as Hs; [done|]. intros [= <-] Heq. contradiction.
Qed.

(** What a success means, but for the sandbox. *)
Lemma turn_success (order : list string) (config : Config) (execution : Execution) (fork : ForkOptions)
    (acts : list Act) (result : Result) :
  runs (executeAppServer order config execution fork) acts (Ok result) →
  stopped_early = None ∧ turn_completed fork acts ∧ spoken acts ≠ "" ∧ res_Summary result = TrimSpace (spoken acts).
Proof.
  intros (sandbox & workDir & instructionPath & finalPath & bridgeDir & token & acts0 & acts' & Hsand & -> & Hsil & Hr)%runs_prepare.
  apply runs_emit_inv in Hr as (acts1 & -> & Hr). destruct (spawn _) as [child|e]; [|by inversion Hr].
  apply runs_send in Hr as [Hr|[e ?]]; [|done]. apply app_child_reported in Hr.
  destruct (Hr result eq_refl) as (Hc & (params & Hin & Ht) & Hne & Hsum & _). cbn [so_far] in *.
  rewrite str_nil_app in *. rewrite spoken_app, Hsil, str_nil_app. cbn [spoken]. rewrite said_runtime, !str_nil_app.
  split_and!; try done. exists params. split; [|done]. apply elem_of_app. right. by right.
Qed.

(** C13: an app-server runtime reports success only for a turn that the server
    reported completed, with the sandbox the configuration allows, and not when the
    server had to be stopped while the context of the execution had ended; and its
    summary is what the agent said in the
    events of the run, in order, without the surrounding blanks: whoever follows
    the events has read the same message as whoever reads the result. *)
Theorem turn_reported (order : list string) (config : Config) (execution : Execution) (fork : ForkOptions)
    (acts : list Act) (result : Result) :
  runs (executeAppServer order config execution fork) acts (Ok result) →
  (∃ sandbox, sandbox_of (fk_Name fork) config = Ok sandbox ∧
     (sandbox = "danger-full-access" → cf_AllowDangerousSandbox config = true)) ∧
  stopped_early = None ∧ turn_completed fork acts ∧
  spoken acts ≠ "" ∧ res_Summary result = TrimSpace (spoken acts).
Proof.
  intros Hruns. split; [|by eapply turn_success].
  apply runs_prepare in Hruns as (sandbox & _ & _ & _ & _ & _ & _ & _ & Hsand & _).
  exists sandbox. split; [done|]. by eapply dangerous_allowed.
Qed.
End app_server.
