(* ===== verification/RuntimeDemo.v ===== *)
(** * RuntimeDemo: a machine with one scripted app server

    The parameters of the runtimes, made concrete: an environment of three
    variables, numbers kept as they are written, pipes without faults, and a
    child that answers the three requests of a conversation, calls a capability
    and speaks. *)

From S2P Require Import Prelude GoStrings Json Types Demo Fs Capability Instructions Outbox Workspace Process NodeDemo Codec Url Http HttpDemo ToolBridge Worker Runs Codex AppServer RuntimeProps.

#[export] Instance demo_floats : Floats := Some.
#[export] Instance demo_pipes : Pipes := {| write_fault _ := None; wait_error := Some (errors_New "signal: terminated"); context_error := None; stderr_seen := "" |}.

Definition says (members : list (string * Json)) : string := json_text (JObj members).
Definition notify (method : string) (params : list (string * Json)) (k : Child) : Child :=
  Prints (says [("method", JStr method); ("params", JObj params)]) k.
Definition demo_turn_end : Child :=
  notify "item/agentMessage/delta" [("delta", JStr "done."); ("n", JNum "1")]
    (notify "item/completed" [("item", JObj [("type", JStr "agentMessage"); ("text", JStr "All done.")])]
      (notify "turn/completed" [("turn", JObj [("status", JStr "completed")])] (Exits [] None))).
Definition demo_turn_child : Child :=
  Reads (λ turn, Prints (says [("id", JNum "3")])
    (notify "item/agentMessage/delta" [("delta", JStr "All ")] (Calls (mkCall "issue.comment" "" "" "" None) (λ result, demo_turn_end)))).
Definition demo_server_child : Child :=
  Reads (λ initialize, Prints (says [("id", JNum "1"); ("result", JObj [])])
    (Reads (λ initialized, Reads (λ start,
      Prints (says [("id", JNum "2"); ("result", JObj [("thread", JObj [("id", JStr "t1")])])]) demo_turn_child)))).

#[export] Instance demo_environment : Environment := {|
  LookupEnv name := if name =s "PATH" then Some "/bin" else if name =s "HOME" then Some "/root"
                    else if name =s "DATABASE_URL" then Some "secret" else None;
  os_Environ := ["PATH=/bin"; "HOME=/root"; "DATABASE_URL=secret"];
  LookPath name := name =s "traex";
  working_dir := Ok "/srv";
  os_TempDir := "/tmp";
  spawn command := if cm_Binary command =s "missing" then Err (errors_New "executable file not found") else Ok demo_server_child
|}.

(** The configuration tries to set the token of the bridge itself. *)
Definition demo_env : gmap string string := {["relay_tool_token" := "mine"; "Path" := "/opt"]}.
Lemma child_environment_witness :
  let env := runtimeEnv ["TRACE"] demo_env "tools" ["Path"; "relay_tool_token"] "/w/.relay" "t0k" ["TRAE_HOME"] in
  env = ["PATH=/srv/tools:/bin"; "HOME=/root"; "RELAY_TOOL_TOKEN=t0k"; "RELAY_TOOL_DIR=/w/.relay"] ∧
  matching "RELAY_TOOL_DIR" env = ["RELAY_TOOL_DIR=/w/.relay"] ∧
  matching "RELAY_TOOL_TOKEN" env = ["RELAY_TOOL_TOKEN=t0k"].
Proof.
  split; [vm_compute; reflexivity|].
  refine (proj2 (child_environment ["TRACE"] ["TRAE_HOME"] ["Path"; "relay_tool_token"] demo_env "tools" "/w/.relay" "t0k") _ _);
    apply (bool_decide_unpack _); vm_compute; exact I.
Defined.

Definition demo_config : Config := zero_Config <| cf_Protocol := "app-server" |> <| cf_WorkDir := "/w" |>.
Definition demo_execution : Execution :=
  mkExecution "run_1" "attempt_1" "agent" (mkRuntimeRequirement "" "codex" "" "" ∅) (mkSource "" "" "" None) (mkInput "" "" "fix it" None) [] (demo_stable "Be brief.") "".
Definition demo_fork : ForkOptions := mkFork "codex" "codex" "codex" [].
Definition demo_turn : list Act * Res Result :=
  perform (executeAppServer [] demo_config demo_execution demo_fork) (λ _, Ok zero_CapabilityResult) (mkWorld 0 ∅).

Lemma turn_reported_witness :
  let acts := demo_turn.1 in
  let result := runtime_result demo_fork "All done." "All done." "t1" "/w" "/w/AGENTS.md" "/w/.relay/codex-last-message.txt" in
  demo_turn.2 = Ok result ∧
  (∃ sandbox, sandbox_of (fk_Name demo_fork) demo_config = Ok sandbox ∧
     (sandbox = "danger-full-access" → cf_AllowDangerousSandbox demo_config = true)) ∧
  stopped_early = None ∧ turn_completed demo_fork acts ∧
  spoken acts ≠ "" ∧ res_Summary result = TrimSpace (spoken acts).
Proof.
  split; [vm_compute; reflexivity|].
  apply (turn_reported [] demo_config demo_execution demo_fork demo_turn.1
           (runtime_result demo_fork "All done." "All done." "t1" "/w" "/w/AGENTS.md" "/w/.relay/codex-last-message.txt")).
  assert (E : demo_turn.2 = Ok (runtime_result demo_fork "All done." "All done." "t1" "/w" "/w/AGENTS.md"
                                  "/w/.relay/codex-last-message.txt")) by (vm_compute; reflexivity).
  rewrite <- E. unfold demo_turn. apply perform_runs.
Defined.
