(* ===== verification/NodeMain.v ===== *)
(** * NodeMain: the process of a node (cmd/relay-node)

    From its configuration file the process builds the registry of its bindings
    and one executor per runtime, detects versions and models, registers,
    recovers its outbox and runs its pool; every heartbeat probes the runtimes
    again.  A signal stops the claims, a second one or a timeout the executions.

    [range] is the order in which the process visits the entries of an
    environment; what a command prints when it is asked for its version is an
    argument of a probe, since it may differ from one probe to the next. *)

From S2P Require Import Prelude GoStrings Json Types Matching Event Memory Service Codec Wire Url Fs Capability Instructions Outbox Workspace Process Http Binding ToolBridge Worker Pool Terminal CommandRuntime Codex AppServer Models.

(** ** The configuration file *)
Record bindingConfig := mkBindingConfig {
  bc_Name : string; bc_Version : string; bc_Kind : string; bc_Command : string; bc_Args : list string;
  bc_Endpoint : string; bc_TokenEnv : string; bc_Env : gmap string string; bc_InheritEnv : bool }.
Record runtimeConfig := mkRuntimeConfig {
  rc_ID : string; rc_Kind : string; rc_Provider : string; rc_Protocol : string; rc_Version : string;
  rc_Command : string; rc_ToolDir : string; rc_PassEnv : list string; rc_Args : list string; rc_Env : gmap
  string string; rc_InheritEnv : bool; rc_Model : string; rc_Models : list string; rc_Profile : string;
  rc_ReasoningEffort : string; rc_ServiceTier : string; rc_Sandbox : string; rc_WorkRoot : string;
  rc_Ephemeral : bool; rc_PermissionMode : string; rc_AllowedTools : list string; rc_DisallowedTools : list
  string; rc_ShellToolTimeout : string; rc_IgnoreUserConfig : bool; rc_IgnoreRules : bool; rc_DetectedModels :
  list RuntimeModel; rc_DetectedDefault : string }.
Record config := mkNodeConfig {
  nc_Server : string; nc_Token : string; nc_Node : NodeRegistration; nc_Runtimes : list runtimeConfig;
  nc_Bindings : list bindingConfig; nc_WorkspaceRoot : string; nc_OutboxRoot : string; nc_OutboxMaxBytes : Z }.
#[export] Instance eta_bindingConfig : Eta bindingConfig := λ b,
  mkBindingConfig (bc_Name b) (bc_Version b) (bc_Kind b) (bc_Command b) (bc_Args b) (bc_Endpoint b) (bc_TokenEnv b)
    (bc_Env b) (bc_InheritEnv b).
#[export] Instance eta_runtimeConfig : Eta runtimeConfig := λ r, mkRuntimeConfig
  (rc_ID r) (rc_Kind r) (rc_Provider r) (rc_Protocol r) (rc_Version r) (rc_Command r) (rc_ToolDir r)
  (rc_PassEnv r) (rc_Args r) (rc_Env r) (rc_InheritEnv r) (rc_Model r) (rc_Models r) (rc_Profile r)
  (rc_ReasoningEffort r) (rc_ServiceTier r) (rc_Sandbox r) (rc_WorkRoot r) (rc_Ephemeral r) (rc_PermissionMode
  r) (rc_AllowedTools r) (rc_DisallowedTools r) (rc_ShellToolTimeout r) (rc_IgnoreUserConfig r)
  (rc_IgnoreRules r) (rc_DetectedModels r) (rc_DetectedDefault r).
#[export] Instance eta_config : Eta config := λ c,
  mkNodeConfig (nc_Server c) (nc_Token c) (nc_Node c) (nc_Runtimes c) (nc_Bindings c) (nc_WorkspaceRoot c)
    (nc_OutboxRoot c) (nc_OutboxMaxBytes c).

Definition fields_bindingConfig : list (Field bindingConfig) :=
  [field "name" str bc_Name false; field "version" str bc_Version false; field "kind" str bc_Kind false;
   field "command" str bc_Command true; field "args" (slice str) bc_Args true; field "endpoint" str bc_Endpoint true;
   field "token_env" str bc_TokenEnv true; field "env" labels bc_Env true; field "inherit_env" boolean bc_InheritEnv false].
Definition wire_bindingConfig : Codec bindingConfig :=
  struct fields_bindingConfig (mkBindingConfig "" "" "" "" [] "" "" ∅ false).
(** What is detected is not read. *)
Definition fields_runtimeConfig : list (Field runtimeConfig) :=
  [field "id" str rc_ID true; field "kind" str rc_Kind false; field "provider" str rc_Provider false;
   field "protocol" str rc_Protocol true; field "version" str rc_Version false;
   field "command" str rc_Command false; field "tool_dir" str rc_ToolDir true;
   field "pass_env" (slice str) rc_PassEnv true; field "args" (slice str) rc_Args true;
   field "env" labels rc_Env true; field "inherit_env" boolean rc_InheritEnv false;
   field "model" str rc_Model true; field "models" (slice str) rc_Models true;
   field "profile" str rc_Profile true; field "reasoning_effort" str rc_ReasoningEffort true;
   field "service_tier" str rc_ServiceTier true; field "sandbox" str rc_Sandbox true;
   field "work_root" str rc_WorkRoot true; field "ephemeral" boolean rc_Ephemeral true;
   field "permission_mode" str rc_PermissionMode true; field "allowed_tools" (slice str) rc_AllowedTools true;
   field "disallowed_tools" (slice str) rc_DisallowedTools true;
   field "shell_tool_timeout" str rc_ShellToolTimeout true;
   field "ignore_user_config" boolean rc_IgnoreUserConfig true; field "ignore_rules" boolean rc_IgnoreRules true].
Definition zero_runtimeConfig : runtimeConfig :=
  mkRuntimeConfig "" "" "" "" "" "" "" [] [] ∅ false "" [] "" "" "" "" "" false "" [] [] "" false false [] "".
Definition wire_runtimeConfig : Codec runtimeConfig := struct fields_runtimeConfig zero_runtimeConfig.

Section file.
Context `{Host} `{TimeParser} `{JsonParser}.
Definition fields_config : list (Field config) :=
  [field "server" str nc_Server false; field "token" str nc_Token true;
   field "node" wire_NodeRegistration nc_Node false; field "runtimes" (slice wire_runtimeConfig) nc_Runtimes false;
   field "bindings" (slice wire_bindingConfig) nc_Bindings false;
   field "workspace_root" str nc_WorkspaceRoot true; field "outbox_root" str nc_OutboxRoot true;
   field "outbox_max_bytes" int nc_OutboxMaxBytes true].
Definition wire_config : Codec config :=
  struct fields_config (mkNodeConfig "" "" zero_NodeRegistration [] [] "" "" 0).
(** The version of the build overrides what the file says. *)
Definition read_config (Version data : string) : Res config :=
  res_bind (res_bind (parse_all data) (Unmarshal wire_config false)) (λ cfg,
    let node := (nc_Node cfg) <| reg_Version := Version |> <| reg_ProtocolVersion := ProtocolVersion |> in
    Ok (cfg <| nc_Node := node |>)).
End file.

(** ** Runtimes *)
Definition contains (values : list string) (expected : string) : bool := bool_decide (expected ∈ values).
Definition catalogContains (values : list RuntimeModel) (expected : string) : bool :=
  bool_decide (expected ∈ map rm_ID values).

Definition isCodex (item : runtimeConfig) : bool :=
  (rc_Kind item =s "codex") || (rc_Kind item =s "") && (rc_Provider item =s "codex").
Definition isTrae (item : runtimeConfig) : bool :=
  (rc_Kind item =s "trae") || (rc_Kind item =s "traex") || (rc_Kind item =s "trae-cli") ||
  (rc_Kind item =s "") && ((rc_Provider item =s "trae") || (rc_Provider item =s "traex")).

Definition compatibleConfig (item : runtimeConfig) : Config :=
  mkConfig (rc_Command item) (rc_Protocol item) (rc_ToolDir item) (rc_PassEnv item) (rc_Env item) (rc_Model item)
    (rc_Profile item) (rc_ReasoningEffort item) (rc_ServiceTier item) (rc_Sandbox item) false (rc_WorkRoot item)
    "" (rc_Ephemeral item) false (rc_PermissionMode item) (rc_AllowedTools item) (rc_DisallowedTools item)
    (rc_ShellToolTimeout item) (rc_IgnoreUserConfig item) (rc_IgnoreRules item) (rc_Args item).

(** The models advertised: the configured ones, then those detected besides; and
    the catalog the other way round. *)
Definition add_models (models : list string) (detected : list RuntimeModel) : list string :=
  foldl (λ models model, if contains models (rm_ID model) then models else models ++ [rm_ID model]) models detected.
Definition add_catalog (defaultModel : string) (catalog : list RuntimeModel) (models : list string) : list RuntimeModel :=
  foldl (λ catalog model, if catalogContains catalog model then catalog
                          else catalog ++ [mkRuntimeModel model model "" (model =s defaultModel)]) catalog models.

(** What [binary --version] prints, and how it fails. *)
Definition Versions : Type := string → string * option Error.
Definition codex_ProbeVersion (versions : Versions) (binary : string) : Res string :=
  let '(output, failure) := versions (if binary =s "" then "codex" else binary) in ProbeVersion "codex" output failure.

Section probes.
Context `{Host} `{TimeParser} `{Encoder} `{JsonParser} `{Floats} `{Environment} `{Pipes} (range : gmap string string → list string).

Definition trae_ProbeVersion (versions : Versions) (binary : string) : Res string :=
  let '(output, failure) := versions (ResolveBinary binary) in ProbeVersion "trae" output failure.

Definition probed (result : Runtime) (version : Res string) : Runtime :=
  match version with
  | Err err => result <| rt_State := "unhealthy" |> <| rt_Message := err_msg err |>
  | Ok version => result <| rt_Version := version |>
  end.
Definition look_path_error (command : string) : Error :=
  errors_New ("exec: " +:+ fmt_quote command +:+ ": executable file not found in $PATH").
Definition probeRuntime (versions : Versions) (item : runtimeConfig) (now : Z) : Runtime :=
  let defaultModel := if rc_Model item =s "" then rc_DetectedDefault item else rc_Model item in
  let result :=
    mkRuntime (rc_ID item) (rc_Provider item) (rc_Version item) "healthy" "" defaultModel
      (add_models (rc_Models item) (rc_DetectedModels item))
      (add_catalog defaultModel (rc_DetectedModels item) (rc_Models item)) (Some now) in
  if isCodex item then probed result (codex_ProbeVersion versions (rc_Command item))
  else if isTrae item then probed result (trae_ProbeVersion versions (rc_Command item))
  else if LookPath (rc_Command item) then result
  else result <| rt_State := "unhealthy" |> <| rt_Message := err_msg (look_path_error (rc_Command item)) |>.

(** A failed discovery leaves the configured models. *)
Definition discoverRuntimeModels (item : runtimeConfig) (trae : bool) : runtimeConfig :=
  let config := compatibleConfig item in
  let order := range (rc_Env item) in
  match (if trae then trae_ProbeModels order config else ProbeModels order config (mkFork "codex" "codex" "" [])) with
  | Err _ => item
  | Ok models =>
      foldl (λ item model,
        let item := item <| rc_DetectedModels := rc_DetectedModels item ++
                              [mkRuntimeModel (mi_ID model) (mi_DisplayName model) (mi_Description model) (mi_Default model)] |> in
        if mi_Default model then item <| rc_DetectedDefault := mi_ID model |> else item) item models
  end.

(** A runtime of the file, completed. *)
Definition detect_version (item : runtimeConfig) (version : Res string) : runtimeConfig :=
  if rc_Version item =s "" then match version with Ok v => item <| rc_Version := v |> | Err _ => item end else item.
Definition setup_runtime (nodeID : string) (versions : Versions) (item : runtimeConfig) : runtimeConfig :=
  let item := if rc_ID item =s "" then item <| rc_ID := RuntimeInstanceID nodeID (rc_Provider item) |> else item in
  if isCodex item then
    let item := if rc_Command item =s "" then item <| rc_Command := "codex" |> else item in
    discoverRuntimeModels (detect_version item (codex_ProbeVersion versions (rc_Command item))) false
  else if isTrae item then
    let item := if rc_Command item =s "" then item <| rc_Command := ResolveBinary "" |> else item in
    discoverRuntimeModels (detect_version item (trae_ProbeVersion versions (rc_Command item))) true
  else item.

Fixpoint probe_all {S} (versions : Versions) (items : list runtimeConfig) : M S (list Runtime) :=
  match items with
  | [] => mret []
  | item :: items =>
      now ← host now_at;
      rest ← probe_all versions items;
      mret (probeRuntime versions item now :: rest)
  end.
End probes.

(** ** Bindings and executors *)
Section wiring.
Context `{Host} `{TimeParser} `{Encoder} `{JsonParser} `{Faults} `{Floats} `{Environment} `{Pipes} `{Web FS}.
Context (range : gmap string string → list string) (address : string).

Definition provider_of (item : bindingConfig) : Res (Provider FS) :=
  if bc_Kind item =s "exec" then
    Ok (exec_Invoke (mkExec (bc_Command item) (bc_Args item) (bc_Env item) (bc_InheritEnv item) 0) (range (bc_Env item)))
  else if bc_Kind item =s "http" then
    Ok (http_Invoke (mkHTTPProvider (bc_Endpoint item) (default "" (LookupEnv (bc_TokenEnv item)))))
  else Err (errors_New ("unsupported binding kind " +:+ fmt_quote (bc_Kind item))).
Definition descriptor_of (item : bindingConfig) : Descriptor := mkDescriptor (bc_Name item) (bc_Version item) (bc_Kind item).

(** The registry, or the first binding that cannot be registered. *)
Fixpoint register_bindings (r : Registry FS) (items : list bindingConfig) : Res (Registry FS) :=
  match items with
  | [] => Ok r
  | item :: items =>
      match provider_of item with
      | Err err => Err err
      | Ok provider =>
          match Binding.Register r (descriptor_of item) (Some provider) with
          | (r, Ok _) => register_bindings r items
          | (_, Err err) => Err err
          end
      end
  end.

Definition executor_of (item : runtimeConfig) : Execution → Work :=
  if isCodex item then codex_Execute (range (rc_Env item)) (compatibleConfig item)
  else if isTrae item then trae_Execute (range (rc_Env item)) (compatibleConfig item)
  else command_Execute address (range (rc_Env item))
         (mkExecutor (rc_Command item) (rc_Args item) (rc_Env item) (rc_InheritEnv item)).
(** [node.ExecutorMap], by provider: a later runtime replaces an earlier one. *)
Definition executors_of (items : list runtimeConfig) : gmap string (Execution → Work) :=
  foldl (λ executors item, <[rc_Provider item := executor_of item]> executors) ∅ items.

(** ** Start and heartbeat *)
Context `{Durations} {X : Type} `{ControlPlane X} `{RecordCodec}.
Context (workspaces : string → option (string → string → WorkspaceSpec → M FS (string * M FS ()))) (UserConfigDir : Res string).

Definition outbox_root (cfg : config) : Res string :=
  match (if nc_OutboxRoot cfg =s "" then res_bind UserConfigDir (λ root, Ok (filepath_Join [root; "relay"; "outbox"]))
         else Ok (nc_OutboxRoot cfg)) with
  | Err err => Err err
  | Ok root =>
      let scope := sha256_hex (nc_Server cfg +:+ nul +:+ reg_ID (nc_Node cfg)) in
      Ok (filepath_Join [root; str_take 32 scope])
  end.

(** Everything up to the pool; any error ends the process.  [order] is the order
    of the inventory, [alive] when the context of the recovery ends. *)
Definition node_worker (cfg : config) (registry : Registry FS) (order : list string) (items : list runtimeConfig)
    (runtimes : list Runtime) (outbox : Outbox) : Worker :=
  let bindings := bindings_of registry order in
  mkWorker ((nc_Node cfg) <| reg_Runtimes := runtimes |> <| reg_Capabilities := bn_Inventory bindings |>) true
    (Some bindings) (Some (λ provider, executors_of items !! provider)) None (workspaces (nc_WorkspaceRoot cfg)) (Some outbox).
Definition start_node (versions : Versions) (Version : string) (order : list string) (lock : option Error)
    (alive : nat → option Error) (data : string) : M (NodeState X) (config * list runtimeConfig * Worker) :=
  cfg ← lift_res (read_config Version data);
  registry ← lift_res (register_bindings NewRegistry (nc_Bindings cfg));
  let items := map (setup_runtime range (reg_ID (nc_Node cfg)) versions) (nc_Runtimes cfg) in
  runtimes ← probe_all versions items;
  root ← lift_res (outbox_root cfg);
  outbox ← OpenOutbox root (nc_OutboxMaxBytes cfg) lock;
  let w := node_worker cfg registry order items runtimes outbox in
  Worker.Register w ;;
  Recover outbox alive ;;
  mret (cfg, items, w).

(** The command line of the process. *)
Record nodeFlags := mkNodeFlags {
  nf_config : string; nf_poll : Z; nf_heartbeat : Z; nf_drainTimeout : Z; nf_showVersion : bool }.
#[export] Instance eta_nodeFlags : Eta nodeFlags := λ f,
  mkNodeFlags (nf_config f) (nf_poll f) (nf_heartbeat f) (nf_drainTimeout f) (nf_showVersion f).
Definition node_flags : list (Flag nodeFlags) :=
  [string_flag "config" (λ s f, f <| nf_config := s |>); duration_flag "poll" (λ d f, f <| nf_poll := d |>);
   duration_flag "heartbeat" (λ d f, f <| nf_heartbeat := d |>);
   duration_flag "drain-timeout" (λ d f, f <| nf_drainTimeout := d |>);
   bool_flag "version" (λ b f, f <| nf_showVersion := b |>)].
Definition node_defaults : nodeFlags := mkNodeFlags "relay-node.json" second (5 * second) (30 * second) false.
Inductive Started := Told (line : string) | Started_node (f : nodeFlags) (cfg : config) (items : list runtimeConfig) (w : Worker).
Definition node_main (versions : Versions) (Version : string) (order : list string) (lock : option Error)
    (alive : nat → option Error) (args : list string) : M (NodeState X) Started :=
  parsed ← lift_res (Parse node_flags args node_defaults);
  let f := (parsed : nodeFlags * list string).1 in
  if nf_showVersion f then mret (Told (VersionLine Version "relay-node"))
  else if (nf_poll f <=? 0)%Z || (nf_heartbeat f <=? 0)%Z || (nf_drainTimeout f <=? 0)%Z
  then raise (errors_New "poll, heartbeat, and drain intervals must be positive")
  else
    data ← on_files (os_ReadFile (nf_config f));
    started ← start_node versions Version order lock alive data;
    let '(cfg, items, w) := started in mret (Started_node f cfg items w).

(** A heartbeat probes the runtimes as they were set up and registers again. *)
Definition heartbeat (versions : Versions) (items : list runtimeConfig) (w : Worker) : M (NodeState X) Worker :=
  runtimes ← probe_all versions items;
  let registration := (wk_Registration w) <| reg_Runtimes := runtimes |> in
  let w := mkWorker registration (wk_ControlPlane w) (wk_Bindings w) (wk_Executors w) (wk_Compiler w)
             (wk_Workspaces w) (wk_Outbox w) in
  try (Worker.Register w) ;; mret w.
End wiring.

(** ** The end of the process *)

(** The places where [main] waits: for the first signal; for the pool, the drain
    timeout or another signal; for the pool. *)
Inductive MainPhase := Serving | Draining | Terminating | Exited.
#[export] Instance main_phase_eq_dec : EqDecision MainPhase.
Proof. solve_decision. Defined.

Section main.
Context `{Host} `{Encoder} `{Faults} `{Durations} {X : Type} `{ControlPlane X} `{RecordCodec} (w : Worker).

Record Main := mkMain { mn_phase : MainPhase; mn_pool : Pool X }.
Inductive MainMove := OfPool (m : Pool.Move) | Signal | DrainTimeout | PoolDone.

(** The contexts belong to [main]. *)
Definition of_goroutine (m : Pool.Move) : bool := match m with ClaimEnds | ExecutionEnds => false | _ => true end.

Definition main_move (s : Main) (m : MainMove) : option Main :=
  match m with
  | OfPool m =>
      if of_goroutine m && negb (mn_phase s =s Exited) then mkMain (mn_phase s) <$> pool_move w (mn_pool s) m else None
  | Signal =>
      match mn_phase s with
      | Serving => mkMain Draining <$> pool_move w (mn_pool s) ClaimEnds
      | Draining => mkMain Terminating <$> pool_move w (mn_pool s) ExecutionEnds
      | _ => None
      end
  | DrainTimeout =>
      match mn_phase s with
      | Draining => mkMain Terminating <$> pool_move w (mn_pool s) ExecutionEnds
      | _ => None
      end
  | PoolDone =>
      match mn_phase s with
      | Draining | Terminating => if pool_returned (mn_pool s) then Some (mkMain Exited (mn_pool s)) else None
      | _ => None
      end
  end.
Fixpoint main_play (s : Main) (ms : list MainMove) : option Main :=
  match ms with [] => Some s | m :: ms => s' ← main_move s m; main_play s' ms end.
Definition main_start (world : World (NodeState X)) : Main := mkMain Serving (RunPool w world).
End main.
Arguments Main : clear implicits.
