(* ===== verification/NodeMainProps.v ===== *)
(** * NodeMainProps: a node can run what it offers, and ends in order *)

From S2P Require Import Prelude GoStrings Json Types Demo Matching Event Memory Service Codec Wire Url Fs Capability Instructions Outbox Workspace Process NodeDemo Http HttpDemo Binding BindingProps ToolBridge Worker WorkerProps Pool CommandRuntime Codex AppServer RuntimeProps RuntimeDemo Models Terminal NodeMain.

Lemma fmap_NoDup_inj {A B} (f : A → B) l x y : NoDup (f <$> l) → x ∈ l → y ∈ l → f x = f y → x = y.
Proof.
  intros Hn [i Hi]%list_elem_of_lookup [j Hj]%list_elem_of_lookup Hf.
  assert (i = j) as ->; [|congruence]. apply (NoDup_lookup _ i j (f x) Hn); rewrite list_lookup_fmap; [by rewrite Hi|by rewrite Hj, Hf].
Qed.

(** ** Models *)
Lemma contains_elem values x : contains values x = true ↔ x ∈ values.
Proof. apply bool_decide_eq_true. Qed.

Lemma add_models_spec models detected x : x ∈ add_models models detected ↔ x ∈ models ∨ x ∈ map rm_ID detected.
Proof.
  unfold add_models. revert models. induction detected as [|m detected IH]; intros models; simpl; [set_solver|].
  rewrite IH. destruct (contains models (rm_ID m)) eqn:E; [apply contains_elem in E; set_solver|set_solver].
Qed.
Lemma add_models_prefix models detected : ∃ more, add_models models detected = models ++ more.
Proof.
  unfold add_models. revert models. induction detected as [|m detected IH]; intros models; simpl; [exists []; by rewrite app_nil_r|].
  destruct (IH (if contains models (rm_ID m) then models else models ++ [rm_ID m])) as [more ->].
  destruct (contains _ _); [by exists more|]. exists (rm_ID m :: more). by rewrite <- app_assoc.
Qed.
Lemma add_models_NoDup models detected : NoDup models → NoDup (add_models models detected).
Proof.
  unfold add_models. revert models. induction detected as [|m detected IH]; intros models Hn; simpl; [done|].
  apply IH. destruct (contains models (rm_ID m)) eqn:E; [done|]. apply NoDup_app. split_and!; [done| |apply NoDup_singleton].
  intros x Hx ->%list_elem_of_singleton. apply contains_elem in Hx. congruence.
Qed.
Lemma add_catalog_spec d catalog models x :
  x ∈ map rm_ID (add_catalog d catalog models) ↔ x ∈ map rm_ID catalog ∨ x ∈ models.
Proof.
  unfold add_catalog. revert catalog. induction models as [|m models IH]; intros catalog; simpl; [set_solver|].
  rewrite IH. unfold catalogContains. case_bool_decide; [set_solver|]. rewrite map_app. set_solver.
Qed.

Section probes.
Context `{Host} `{TimeParser} `{Encoder} `{JsonParser} `{Floats} `{Environment} `{Pipes} `{Semver}.

(** What a node says about a runtime.  The models it offers are the configured
    ones, in their order, and those detected besides, none twice; the catalog has
    an entry for exactly the models offered.  A healthy runtime accepts every
    request for its provider that names one of these models or the default one
    (without a version), under the runtime's identifier or none; a runtime whose
    probe failed accepts no request at all, and keeps its configured version. *)
Theorem runtime_advertised (versions : Versions) (item : runtimeConfig) (now : Z) :
  let runtime := probeRuntime versions item now in
  rc_Models item `prefix_of` rt_Models runtime ∧
  (NoDup (rc_Models item) → NoDup (rt_Models runtime)) ∧
  (∀ m, m ∈ rt_Models runtime ↔ m ∈ rc_Models item ∨ m ∈ map rm_ID (rc_DetectedModels item)) ∧
  (∀ m, m ∈ map rm_ID (rt_ModelCatalog runtime) ↔ m ∈ rt_Models runtime) ∧
  (∀ requirement, rt_State runtime = "healthy" → rr_Provider requirement = rc_Provider item →
     rr_ID requirement = "" ∨ rr_ID requirement = rc_ID item → rr_Version requirement = "" →
     (rr_Model requirement = "" ∨ rr_Model requirement ∈ rt_Models runtime ∨ rr_Model requirement = rt_DefaultModel runtime) →
     RuntimeMatches runtime requirement = true) ∧
  (∀ requirement, rt_State runtime ≠ "healthy" →
     RuntimeMatches runtime requirement = false ∧ rt_Version runtime = rc_Version item).
Proof.
  intros runtime.
  assert (Hr : rt_ID runtime = rc_ID item ∧ rt_Provider runtime = rc_Provider item ∧
    rt_Models runtime = add_models (rc_Models item) (rc_DetectedModels item) ∧
    rt_ModelCatalog runtime = add_catalog (rt_DefaultModel runtime) (rc_DetectedModels item) (rc_Models item) ∧
    (rt_State runtime = "healthy" ∨ rt_State runtime = "unhealthy" ∧ rt_Version runtime = rc_Version item)).
  { subst runtime. unfold probeRuntime, probed.
    destruct (isCodex item); [destruct (codex_ProbeVersion _ _)|destruct (isTrae item); [destruct (trae_ProbeVersion _ _)|
      destruct (LookPath _)]]; simpl; auto 10. }
  destruct Hr as (Hid & Hp & Hm & Hc & Hs). split_and!.
  - rewrite Hm. destruct (add_models_prefix (rc_Models item) (rc_DetectedModels item)) as [more ->]. by exists more.
  - rewrite Hm. apply add_models_NoDup.
  - intros m. rewrite Hm. apply add_models_spec.
  - intros m. rewrite Hm, Hc, add_catalog_spec, add_models_spec. tauto.
  - intros requirement Hh Hpr Hid' Hv Hmod. apply RuntimeMatches_suits. constructor; try congruence; [|naive_solver|by left].
    rewrite Hid. naive_solver.
  - intros requirement Hh. destruct Hs as [?|[Hs Hv]]; [done|]. split; [|done]. apply not_true_iff_false.
    by intros []%RuntimeMatches_suits.
Qed.
End probes.

(** ** What a node offers *)
Section node.
Context `{Host} `{TimeParser} `{Encoder} `{JsonParser} `{Faults} `{Floats} `{Environment} `{Pipes} `{Web FS} `{Semver}.
Context (range : gmap string string → list string) (address : string).
Context `{Durations} {X : Type} `{ControlPlane X} `{RecordCodec}.
Context (workspaces : string → option (string → string → WorkspaceSpec → M FS (string * M FS ()))) (UserConfigDir : Res string).

(** Every binding of the registry is one of the file, under its name and version. *)
Definition bound (items : list bindingConfig) (r : Registry FS) : Prop :=
  map_Forall (λ k e, ∃ item, item ∈ items ∧ en_descriptor e = descriptor_of item ∧
                       k = key (bc_Name item) (bc_Version item) ∧ provider_of range item = Ok (en_provider e)) r.
Lemma register_bindings_bound items done r r' :
  bound done r → register_bindings range r items = Ok r' → bound (done ++ items) r'.
Proof.
  revert done r. induction items as [|item items IH]; intros done r Hb; cbn [register_bindings].
  - intros [= <-]. by rewrite app_nil_r.
  - destruct (provider_of range item) as [provider|] eqn:Ep; [|done].
    destruct (Binding.Register r (descriptor_of item) (Some provider)) as [r1 [[]|]] eqn:Er; [|done].
    rewrite cons_middle, app_assoc. apply IH. unfold Binding.Register in Er. destruct (_ || _); [done|]. injection Er as <-.
    apply map_Forall_insert_2.
    + exists item. split_and!; [set_solver|done..].
    + intros k e Hk. destruct (Hb k e Hk) as (i & Hi & Hrest). exists i. split; [set_solver|done].
Qed.

(** The executor of a provider is that of the last runtime with it. *)
Lemma executors_of_lookup items provider :
  provider ∈ map rc_Provider items →
  ∃ item, item ∈ items ∧ rc_Provider item = provider ∧ executors_of range address items !! provider = Some (executor_of range address item).
Proof.
  unfold executors_of. generalize (∅ : gmap string (Execution → Work)). induction items as [|item items IH] using rev_ind; intros m; [by intros ?%elem_of_nil|].
  rewrite map_app, elem_of_app, foldl_app. simpl. intros Hin.
  destruct (decide (rc_Provider item = provider)) as [<-|Hne].
  - exists item. rewrite lookup_insert_eq. split_and!; [set_solver|done|done].
  - rewrite lookup_insert_ne by done. destruct Hin as [Hin|[->|[]%elem_of_nil]%elem_of_cons]; [|done].
    destruct (IH m Hin) as (i & Hi & Hrest). exists i. split; [set_solver|done].
Qed.

(** A worker that was set up of the file. *)
Record sets_up (cfg : config) (items : list runtimeConfig) (w : Worker) : Prop := {
  up_bindings : ∃ registry order, bound (nc_Bindings cfg) registry ∧ wk_Bindings w = Some (bindings_of registry order) ∧
                  reg_Capabilities (wk_Registration w) = bn_Inventory (bindings_of registry order);
  up_executors : wk_Executors w = Some (λ provider, executors_of range address items !! provider);
  up_runtimes : ∀ runtime, runtime ∈ reg_Runtimes (wk_Registration w) →
                  ∃ versions item now, item ∈ items ∧ runtime = probeRuntime versions item now }.

Lemma probe_all_elem {S} versions items (w w' : World S) runtimes :
  probe_all versions items w = (Ok runtimes, w') →
  ∀ runtime, runtime ∈ runtimes → ∃ item now, item ∈ items ∧ runtime = probeRuntime versions item now.
Proof.
  revert w w' runtimes. induction items as [|item items IH]; intros w w' runtimes; simpl.
  - intros [= <- _] runtime []%elem_of_nil.
  - unfold mbind, M_bind, host. destruct (probe_all versions items _) as [[rest|] w1] eqn:E; [|done].
    intros [= <- _] runtime [->|Hin]%elem_of_cons; [exists item; eexists; split; [by left|done]|].
    destruct (IH _ _ _ E runtime Hin) as (i & now & Hi & ->). exists i, now. by split; [right|].
Qed.

(** What has happened when the process serves: the flags were read and its
    intervals are positive, and it started from its configuration file. *)
Lemma node_main_starts versions Version order lock alive args w0 w1 f cfg items w :
  node_main range address workspaces UserConfigDir versions Version order lock alive args w0 =
    (Ok (Started_node f cfg items w), w1) →
  (∃ operands, Parse node_flags args node_defaults = Ok (f, operands)) ∧ nf_showVersion f = false ∧
  (0 < nf_poll f)%Z ∧ (0 < nf_heartbeat f)%Z ∧ (0 < nf_drainTimeout f)%Z ∧
  ∃ data w0', on_files (os_ReadFile (nf_config f)) w0 = (Ok data, w0') ∧
    start_node range address workspaces UserConfigDir versions Version order lock alive data w0' = (Ok (cfg, items, w), w1).
Proof.
  unfold node_main, mbind, M_bind, lift_res. destruct (Parse node_flags args node_defaults) as [[f' operands]|err]; [|done].
  cbn [fst]. destruct (nf_showVersion f') eqn:Hv; [done|]. destruct (_ || _) eqn:Hi; [done|].
  rewrite !orb_false_iff, !Z.leb_gt in Hi. destruct Hi as [[Hp Hh] Hd].
  destruct (on_files _ w0) as [[data|err] w0'] eqn:Ef; [|done].
  destruct (start_node _ _ _ _ _ _ _ _ _ _ w0') as [[[[cfg' items'] w']|err] w2] eqn:Es; [|done].
  intros [= <- <- <- <- <-]. rewrite Ef. eauto 12.
Qed.

(** The worker of a running node: after the start, and after any number of heartbeats. *)
Inductive running (cfg : config) (items : list runtimeConfig) : Worker → Prop :=
  | running_started versions Version order lock alive args f w0 w1 w :
      node_main range address workspaces UserConfigDir versions Version order lock alive args w0 =
        (Ok (Started_node f cfg items w), w1) →
      running cfg items w
  | running_beat versions w w0 w1 w' :
      running cfg items w → heartbeat versions items w w0 = (Ok w', w1) → running cfg items w'.

Lemma start_sets_up versions Version order lock alive data w0 w1 cfg items w :
  start_node range address workspaces UserConfigDir versions Version order lock alive data w0 = (Ok (cfg, items, w), w1) →
  sets_up cfg items w.
Proof.
  unfold start_node. unfold mbind at 1, M_bind at 1, lift_res at 1. destruct (read_config Version data) as [cfg'|]; [|done].
  unfold mbind at 1, M_bind at 1, lift_res at 1. destruct (register_bindings range NewRegistry _) as [registry|] eqn:Er; [|done].
  cbv zeta. set (items' := map _ _). unfold mbind at 1, M_bind at 1. destruct (probe_all versions items' _) as [[runtimes|] w2] eqn:Ep; [|done].
  unfold mbind, M_bind, lift_res. destruct (outbox_root _ _) as [root|]; [|done].
  destruct (OpenOutbox _ _ _ _) as [[outbox|] w3]; [|done]. destruct (Worker.Register _ _) as [[node|] w4]; [|done].
  destruct (Recover _ _ _) as [[[]|] w5]; [|done]. intros [= <- <- <- _]. constructor; [|done|].
  - exists registry, order. split; [|done]. apply (register_bindings_bound _ [] NewRegistry); [apply map_Forall_empty|done].
  - intros runtime Hin. destruct (probe_all_elem _ _ _ _ _ Ep runtime Hin) as (item & now & ? & ?). by exists versions, item, now.
Qed.
Lemma running_sets_up cfg items w : running cfg items w → sets_up cfg items w.
Proof.
  induction 1 as [versions Version order lock alive args f w0 w1 w Hm|versions w w0 w1 w' _ [(registry & order & Hb & Hw & Hc) He Hr] Hbeat].
  { apply node_main_starts in Hm as (_ & _ & _ & _ & _ & data & w0' & _ & Hs). by eapply start_sets_up. }
  unfold heartbeat in Hbeat. unfold mbind, M_bind, try in Hbeat. destruct (probe_all versions items w0) as [[runtimes|] w2] eqn:Ep; [|done].
  destruct (Worker.Register _ _) as [r w3]. injection Hbeat as <- _. constructor; simpl; [by exists registry, order|done|].
  intros runtime Hin. destruct (probe_all_elem _ _ _ _ _ Ep runtime Hin) as (item & now & ? & ?). by exists versions, item, now.
Qed.

(** C16: a node can run what it offers.  Whenever the control plane finds that a
    request matches what a node registered last that its command line started, the worker of the node
    has an executor for the provider (its run does not fail as unavailable), it
    belongs to a runtime of the file with that provider - the very runtime that
    matched, when no two runtimes share a provider - and every capability the
    request grants has a provider in the node's registry, made from the binding of
    the file with that name and version. *)
Theorem node_runs_what_it_offers (cfg : config) (items : list runtimeConfig) (w : Worker) (node : Node) (request : Request) :
  running cfg items w → node_Registration node = wk_Registration w → nodeMatches node request = true →
  let provider := rr_Provider (req_Runtime request) in
  (∃ executors item versions matched now,
     wk_Executors w = Some executors ∧ executors provider = Some (executor_of range address item) ∧
     item ∈ items ∧ matched ∈ items ∧ rc_Provider item = provider ∧ rc_Provider matched = provider ∧
     runtime_suits (probeRuntime versions matched now) (req_Runtime request) ∧
     (NoDup (map rc_Provider items) → item = matched)) ∧
  (∀ grant, grant ∈ req_Capabilities request → ∃ bindings binding p,
     wk_Bindings w = Some bindings ∧ binding ∈ nc_Bindings cfg ∧
     bc_Name binding = gr_Name grant ∧ bc_Version binding = gr_Version grant ∧ provider_of range binding = Ok p ∧
     ∀ r, cr_Name r = gr_Name grant → cr_Version r = gr_Version grant → bn_Execute bindings r = p r).
Proof.
  intros [(registry & order & Hb & Hw & Hcap) He Hr]%running_sets_up Hn Hm provider.
  apply nodeMatches_suits in Hm as [(runtime & Hin & Hs) _ Hc]. rewrite Hn in Hin, Hc. split.
  - destruct (Hr runtime Hin) as (versions & matched & now & Hmi & ->).
    assert (Hp : rc_Provider matched = provider).
    { destruct Hs as [_ Hp _ _ _]. unfold provider. rewrite <- Hp. unfold probeRuntime, probed.
      destruct (isCodex matched); [destruct (codex_ProbeVersion _ _)|destruct (isTrae matched); [destruct (trae_ProbeVersion _ _)|
        destruct (LookPath _)]]; done. }
    destruct (executors_of_lookup items provider) as (item & Hi & Hip & Hex).
    { rewrite <- Hp. by apply (list_elem_of_fmap_2 rc_Provider). }
    eexists _, item, versions, matched, now. split_and!; [done|exact Hex|done..|].
    intros Hnd. by apply (fmap_NoDup_inj rc_Provider items); [| | |congruence].
  - intros grant Hg. destruct (Hc grant Hg) as (c & Hci & Hcn & Hcv). rewrite Hcap in Hci. simpl in Hci.
    apply list_elem_of_fmap in Hci as (d & -> & Hd). unfold Binding.Inventory in Hd. apply list_elem_of_omap in Hd as (k & _ & Hk).
    destruct (registry !! k) as [e|] eqn:Ek; [|done]. injection Hk as <-. destruct (Hb k e Ek) as (binding & Hbi & Hdesc & -> & Hpr).
    rewrite Hdesc in Hcn, Hcv. simpl in Hcn, Hcv. eexists _, binding, (en_provider e). split_and!; [exact Hw|done..|].
    intros r Hrn Hrv. simpl. unfold Binding.Invoke. by rewrite Hrn, Hrv, <- Hcn, <- Hcv, Ek.
Qed.
End node.

(** ** The shutdown *)
Section shutdown.
Context `{Host} `{Encoder} `{Faults} `{Durations} {X : Type} `{ControlPlane X} `{RecordCodec} (w : Worker).
Abbreviation slots := (pool_capacity (reg_Capacity (wk_Registration w))).

Definition ending (m : MainMove) : nat := match m with Signal | DrainTimeout => 1 | _ => 0 end.
Definition endings (ms : list MainMove) : nat := sum_list (ending <$> ms).

(** What the phase says of the contexts and the goroutines, after [n] endings. *)
Definition main_inv (n : nat) (s : Main X) : Prop :=
  let p := mn_pool s in
  length (po_workers p) = slots ∧
  match mn_phase s with
  | Serving => n = 0 ∧ po_claimDone p = false ∧ po_executionDone p = false ∧ PhDone ∉ po_workers p
  | Draining => n = 1 ∧ po_claimDone p = true ∧ po_executionDone p = false
  | Terminating => n = 2 ∧ po_claimDone p = true
  | Exited => po_claimDone p = true ∧ pool_returned p = true ∧ 1 ≤ n ∧ (po_executionDone p = true → n = 2)
  end.

Lemma slots_positive : 1 ≤ slots.
Proof. unfold pool_capacity. case_match eqn:E; [simpl; lia|]. apply Z.leb_gt in E. lia. Qed.

(** What a goroutine does leaves the contexts alone, and before the first of them
    ends no goroutine returns. *)
Lemma goroutine_move p m p' :
  of_goroutine m = true → pool_move w p m = Some p' →
  length (po_workers p') = length (po_workers p) ∧ po_claimDone p' = po_claimDone p ∧
  po_executionDone p' = po_executionDone p ∧
  (po_claimDone p = false → po_executionDone p = false → PhDone ∉ po_workers p → PhDone ∉ po_workers p').
Proof.
  assert (Hg : ∀ (q : Pool X) i ph, ph ≠ PhDone → PhDone ∉ po_workers q → PhDone ∉ <[i := ph]> (po_workers q)).
  { intros q i ph Hph Hq [j Hj]%list_elem_of_lookup. apply list_lookup_insert_Some in Hj as [(_ & Heq & _)|[_ Hj]]; [done|].
    by apply Hq, (list_elem_of_lookup_2 _ j). }
  destruct m as [| |i|i|i keeper|i|i]; simpl; [done|done|..]; intros _.
  - destruct (at_phase p i PhCheck); [|done]. destruct (po_claimDone p) eqn:Hc; [|done]. intros [= <-]. simpl. rewrite length_insert. done.
  - destruct (_ && _); [|done]. intros [= <-]. simpl. rewrite length_insert. auto.
  - destruct (at_phase p i PhRun); [|done]. destruct (RunOnce _ _ _). intros [= <-]. simpl. rewrite length_insert. auto.
  - destruct (at_phase p i PhWait); [|done]. intros [= <-]. simpl. rewrite length_insert. auto.
  - destruct (at_phase p i PhWait); [|done]. destruct (po_claimDone p) eqn:Hc, (po_executionDone p) eqn:He; simpl; try done;
      intros [= <-]; simpl; by rewrite length_insert.
Qed.

Lemma main_move_inv n s m s' : main_inv n s → main_move w s m = Some s' → main_inv (n + ending m) s'.
Proof.
  destruct s as [phase p]. unfold main_inv. simpl. intros [Hl Hp]. destruct m as [m| | |]; simpl.
  - destruct (of_goroutine m) eqn:Hg; [|done]. destruct phase; simpl; [..|done]; intros (p' & Hm & ->)%fmap_Some_1; simpl;
      destruct (goroutine_move _ _ _ Hg Hm) as (Hl' & Hc & He & Hd); rewrite Hl', Hc, ?He, Nat.add_0_r; naive_solver.
  - destruct phase; [..|done|done]; intros (p' & Hm & ->)%fmap_Some_1; simpl in Hm |- *.
    + destruct (po_claimDone p); [done|]. injection Hm as <-. simpl. naive_solver lia.
    + destruct (po_executionDone p); [done|]. injection Hm as <-. simpl. naive_solver lia.
  - destruct phase; [done| |done|done]; intros (p' & Hm & ->)%fmap_Some_1; simpl in Hm |- *.
    destruct (po_executionDone p); [done|]. injection Hm as <-. simpl. naive_solver lia.
  - destruct phase; [done| | |done]; (destruct (pool_returned p) eqn:Hr; [|done]); intros [= <-]; simpl; rewrite Nat.add_0_r.
    + destruct Hp as (-> & Hc & He). split_and!; try done. congruence.
    + destruct Hp as (-> & Hc). split_and!; try done. lia.
Qed.
Lemma main_play_inv ms n s s' : main_inv n s → main_play w s ms = Some s' → main_inv (n + endings ms) s'.
Proof.
  unfold endings. revert n s. induction ms as [|m ms IH]; intros n s Hi; csimpl.
  - intros [= <-]. by rewrite Nat.add_0_r.
  - destruct (main_move w s m) as [s1|] eqn:Hm; [|done]. intros Hp. rewrite Nat.add_assoc. by eapply IH; [eapply main_move_inv|].
Qed.
Lemma main_start_inv world : main_inv 0 (main_start w world).
Proof.
  unfold main_inv, main_start, RunPool. simpl. rewrite length_replicate. split_and!; try done.
  intros [i Hi]%list_elem_of_lookup. by apply lookup_replicate in Hi as [? _].
Qed.

(** Moves left once a signal has come. *)
Definition main_rank (s : Main X) : nat :=
  match mn_phase s with Exited => 0 | _ => 1 + pool_rank (mn_pool s) end.
Lemma main_move_rank n s m s' :
  main_inv n s → mn_phase s ≠ Serving → main_move w s m = Some s' → main_rank s' < main_rank s ∧ mn_phase s' ≠ Serving.
Proof.
  destruct s as [phase p]. unfold main_inv, main_rank. simpl. intros [Hl Hp] Hns.
  assert (Hc : po_claimDone p = true) by (destruct phase; naive_solver). destruct m as [m| | |]; cbn [main_move mn_phase mn_pool].
  - destruct (of_goroutine m) eqn:Hg; [|done]. destruct phase; simpl; try done; intros (p' & Hm & ->)%fmap_Some_1; simpl;
      destruct (pool_move_drains _ _ _ _ Hc Hm) as (_ & Hr & _); split; (lia || done).
  - destruct phase; try done; intros (p' & Hm & ->)%fmap_Some_1; simpl;
      destruct (pool_move_drains _ _ _ _ Hc Hm) as (_ & Hr & _); split; (lia || done).
  - destruct phase; try done; intros (p' & Hm & ->)%fmap_Some_1; simpl;
      destruct (pool_move_drains _ _ _ _ Hc Hm) as (_ & Hr & _); split; (lia || done).
  - destruct phase; try done; destruct (pool_returned p); try done; intros [= <-]; simpl; split; (lia || done).
Qed.

(** C18: a node shuts down in order.  Until a signal comes the pool goes on; the
    first signal only stops the claims, the executions are cut off after a second
    signal or the timeout and not before; and the process exits only when every
    goroutine of the pool has returned, so never in the middle of an execution.
    After the first signal it does exit: at most three moves per slot and two more
    are left, whatever comes next, and until the exit there is one that needs no
    further signal and no timeout. *)
Theorem shutdown_in_order (world : World (NodeState X)) (ms ms' : list MainMove) (s s' : Main X) :
  main_play w (main_start w world) ms = Some s → main_play w s ms' = Some s' →
  (mn_phase s = Serving → pool_returned (mn_pool s) = false ∧ endings ms = 0) ∧
  (po_executionDone (mn_pool s) = true → endings ms = 2) ∧
  (mn_phase s = Exited → pool_returned (mn_pool s) = true ∧ 1 ≤ endings ms) ∧
  (mn_phase s ≠ Serving → length ms' ≤ 3 * slots + 2) ∧
  (mn_phase s ≠ Serving → mn_phase s ≠ Exited → ∃ m s1, ending m = 0 ∧ main_move w s m = Some s1).
Proof.
  intros Hs Hs'. pose proof (main_play_inv _ _ _ _ (main_start_inv world) Hs) as Hi. simpl in Hi.
  pose proof Hi as [Hl Hp]. split_and!.
  - intros Hph. rewrite Hph in Hp. destruct Hp as (Hn & _ & _ & Hd). split; [|done].
    unfold pool_returned. destruct (po_workers (mn_pool s)) as [|ph l] eqn:Ew.
    + pose proof slots_positive. simpl in Hl. lia.
    + simpl. rewrite bool_decide_eq_false_2; [done|]. intros ->. apply Hd. by left.
  - intros He. destruct (mn_phase s); destruct_and?; [congruence..|done|auto].
  - intros Hph. rewrite Hph in Hp. by destruct_and?.
  - intros Hns. assert (Hrank : length ms' + main_rank s' ≤ main_rank s).
    { clear Hs Hl Hp. revert s Hi Hns Hs'. generalize (endings ms). induction ms' as [|m ms' IH]; intros n s Hi Hns; simpl; [intros [= <-]; lia|].
      destruct (main_move w s m) as [s1|] eqn:Hm; [|done]. intros Hs'.
      destruct (main_move_rank _ _ _ _ Hi Hns Hm) as [Hr Hns1].
      specialize (IH _ s1 (main_move_inv _ _ _ _ Hi Hm) Hns1 Hs'). lia. }
    assert (main_rank s ≤ 3 * slots + 2); [|lia]. unfold main_rank, pool_rank. pose proof (rank_bound (po_workers (mn_pool s))).
    destruct (mn_phase s), (po_executionDone _); lia.
  - intros Hns Hne. assert (Hc : po_claimDone (mn_pool s) = true) by (destruct (mn_phase s); naive_solver).
    destruct (pool_returned (mn_pool s)) eqn:Hr.
    + exists PoolDone. simpl. rewrite Hr. destruct (mn_phase s); try done; eauto.
    + destruct (decide (Forall (λ ph, ph = PhDone) (po_workers (mn_pool s)))) as [Hall|Hall].
      { rewrite <- not_true_iff_false in Hr. exfalso. apply Hr, forallb_forall. intros ph Hin. rewrite Forall_forall in Hall.
        apply bool_decide_eq_true, Hall. by apply list_elem_of_In. }
      apply not_Forall_Exists, Exists_exists in Hall as (ph & [i Hi']%list_elem_of_lookup & Hph); [|apply _].
      destruct (pool_can_go_on w _ _ _ Hc Hi' Hph) as (m & p' & Hg & Hm).
      exists (OfPool m), (mkMain (mn_phase s) p'). simpl.
      change (of_goroutine m = true) in Hg. rewrite Hg, Hm. by rewrite bool_decide_eq_false_2.
Qed.
End shutdown.

(** ** The start and the end of one node *)
(** The commands print their versions; nothing answers at the endpoints. *)
Definition demo_versions : Versions := λ binary,
  if binary =s "codex" then ("codex-cli 0.42.1", None) else ("", Some (errors_New "exit status 127")).
#[local] Instance no_web : Web FS := λ _ _ _, raise (errors_New "connection refused").
Definition in_order (env : gmap string string) : list string := merge_sort String.le (elements (dom env)).
Definition no_workspaces (root : string) : option (string → string → WorkspaceSpec → M FS (string * M FS ())) := None.

Definition demo_file : string :=
  json_text (JObj
    [("server", JStr "http://relay:8787");
     ("node", JObj [("id", JStr "n1"); ("protocol_version", JStr "0"); ("capacity", JNum "2")]);
     ("runtimes", JArr [JObj [("kind", JStr ""); ("provider", JStr "codex"); ("models", JArr [JStr "o1"; JStr "o2"]); ("model", JStr "o1")];
                        JObj [("kind", JStr ""); ("provider", JStr "custom"); ("command", JStr "traex")]]);
     ("bindings", JArr [JObj [("name", JStr "issue.read"); ("version", JStr "1"); ("kind", JStr "exec"); ("command", JStr "multica")];
                        JObj [("name", JStr "issue.comment"); ("version", JStr "1"); ("kind", JStr "http"); ("endpoint", JStr "http://x")]])]).
Definition demo_start : Res Started * World (NodeState Script) :=
  node_main in_order "127.0.0.1:4000" no_workspaces (Ok "/root/.config") demo_versions "1.0.0"
    ["issue.comment@1"; "issue.read@1"] None (λ _, None) ["-config=node.json"; "--poll"; "2s"]
    (mkWorld 0 (mkNodeState {["node.json" := demo_file]} (script []))).
Definition started_flags : nodeFlags := match demo_start.1 with Ok (Started_node f _ _ _) => f | _ => node_defaults end.
Definition started_worker : Worker :=
  match demo_start.1 with Ok (Started_node _ _ _ w) => w | _ => demo_worker end.
Definition started_items : list runtimeConfig := match demo_start.1 with Ok (Started_node _ _ items _) => items | _ => [] end.
Definition started_config : config :=
  match demo_start.1 with Ok (Started_node _ cfg _ _) => cfg | _ => mkNodeConfig "" "" zero_NodeRegistration [] [] "" "" 0 end.

Lemma runtime_advertised_witness :
  let item := zero_runtimeConfig <| rc_Provider := "codex" |> <| rc_Models := ["o1"; "o2"] |>
                <| rc_DetectedModels := [mkRuntimeModel "o3" "O3" "" true; mkRuntimeModel "o1" "O1" "" false] |> in
  let runtime := probeRuntime demo_versions item 7 in
  rt_Models runtime = ["o1"; "o2"; "o3"] ∧ map rm_ID (rt_ModelCatalog runtime) = ["o3"; "o1"; "o2"] ∧
  rt_Version runtime = "0.42.1" ∧ RuntimeMatches runtime (mkRuntimeRequirement "" "codex" "o3" "" ∅) = true.
Proof.
  intros item runtime. split_and!; [vm_compute; reflexivity..|].
  apply (proj1 (proj2 (proj2 (proj2 (proj2 (runtime_advertised demo_versions item 7)))))); [vm_compute; reflexivity..| | |].
  - by left.
  - reflexivity.
  - right. left. apply (bool_decide_unpack _). vm_compute. exact I.
Defined.

Definition offered_request : Request :=
  zero <| req_Runtime := mkRuntimeRequirement "n1/codex" "codex" "o2" "" ∅ |>
       <| req_Capabilities := [mkGrant "issue.read" "1" "read" ["issue-42"]] |>.
Lemma node_runs_what_it_offers_witness :
  nodeMatches (mkNode (wk_Registration started_worker) 0 0 NodeOnline) offered_request = true ∧
  let provider := "codex" in
  (∃ executors item versions matched now,
     wk_Executors started_worker = Some executors ∧
     executors provider = Some (executor_of in_order "127.0.0.1:4000" item) ∧
     item ∈ started_items ∧ matched ∈ started_items ∧ rc_Provider item = provider ∧ rc_Provider matched = provider ∧
     runtime_suits (probeRuntime versions matched now) (req_Runtime offered_request) ∧
     (NoDup (map rc_Provider started_items) → item = matched)) ∧
  (∀ grant, grant ∈ req_Capabilities offered_request → ∃ bindings binding p,
     wk_Bindings started_worker = Some bindings ∧ binding ∈ nc_Bindings started_config ∧
     bc_Name binding = gr_Name grant ∧ bc_Version binding = gr_Version grant ∧ provider_of in_order binding = Ok p ∧
     ∀ r, cr_Name r = gr_Name grant → cr_Version r = gr_Version grant → bn_Execute bindings r = p r).
Proof.
  assert (Hm : nodeMatches (mkNode (wk_Registration started_worker) 0 0 NodeOnline) offered_request = true) by (vm_compute; reflexivity).
  split; [exact Hm|].
  assert (Hs : demo_start = (Ok (Started_node started_flags started_config started_items started_worker), demo_start.2)).
  { unfold started_flags, started_config, started_items, started_worker.
    destruct demo_start as [[[line|f cfg items w]|err] w1] eqn:E; [|reflexivity|];
      apply (f_equal (λ x, match x.1 with Ok (Started_node _ _ _ _) => true | _ => false end)) in E; vm_compute in E; discriminate E. }
  apply (node_runs_what_it_offers in_order "127.0.0.1:4000" no_workspaces (Ok "/root/.config") started_config started_items started_worker
           (mkNode (wk_Registration started_worker) 0 0 NodeOnline) offered_request); [|reflexivity|exact Hm].
  eapply running_started. exact Hs.
Defined.

(** Two runtimes of one provider: the request for the first is executed with the
    configuration of the second. *)
Definition fast_runtime : runtimeConfig :=
  zero_runtimeConfig <| rc_ID := "fast" |> <| rc_Provider := "custom" |> <| rc_Command := "fast-agent" |>.
Definition careful_runtime : runtimeConfig :=
  zero_runtimeConfig <| rc_ID := "careful" |> <| rc_Provider := "custom" |> <| rc_Command := "careful-agent" |>.
Example shared_provider :
  executors_of in_order "127.0.0.1:4000" [fast_runtime; careful_runtime] !! "custom" =
  Some (executor_of in_order "127.0.0.1:4000" careful_runtime).
Proof. reflexivity. Qed.

(** A signal while one execution is under way, and another one before it ends. *)
Definition main_before : list MainMove := [OfPool (Enter 1); OfPool (Ran 1 (λ _, None)); OfPool (Enter 0); Signal].
Definition main_after : list MainMove :=
  [OfPool (Timer 1); Signal; OfPool (Pool.Stop 1); OfPool (Ran 0 (λ _, None)); OfPool (Leave 0); PoolDone].
Definition main_draining : Main (Calls * Script) :=
  default (main_start pool_worker demo_node) (main_play pool_worker (main_start pool_worker demo_node) main_before).
Definition main_exited : Main (Calls * Script) :=
  default main_draining (main_play pool_worker main_draining main_after).
Definition codes (s : Main (Calls * Script)) : MainPhase * bool * list Pool.Phase :=
  (mn_phase s, po_executionDone (mn_pool s), po_workers (mn_pool s)).

Lemma shutdown_in_order_witness :
  codes main_draining = (Draining, false, [PhRun; PhWait]) ∧ codes main_exited = (Exited, true, [PhDone; PhDone]) ∧
  length main_after ≤ 3 * 2 + 2 ∧ pool_returned (mn_pool main_exited) = true.
Proof.
  assert (Hs : main_play pool_worker (main_start pool_worker demo_node) main_before = Some main_draining).
  { unfold main_draining. destruct (main_play pool_worker (main_start pool_worker demo_node) main_before) eqn:E; [reflexivity|].
    vm_compute in E. discriminate E. }
  assert (Hs' : main_play pool_worker main_draining main_after = Some main_exited).
  { unfold main_exited. destruct (main_play pool_worker main_draining main_after) eqn:E; [reflexivity|].
    vm_compute in E. discriminate E. }
  destruct (shutdown_in_order pool_worker demo_node main_before main_after main_draining main_exited Hs Hs')
    as (_ & _ & _ & Hlen & _).
  split_and!; [vm_compute; reflexivity|vm_compute; reflexivity|apply Hlen; vm_compute; discriminate|vm_compute; reflexivity].
Defined.
