(* ===== verification/RelayCtl.v ===== *)
(** * RelayCtl: the terminal workbench (cmd/relayctl)

    Every command reads its flags, calls the client and prints.  The state is what
    was printed, the files of the machine, the variable [lastSequence] of a watch,
    and what the client keeps ([X]).  [connect] makes the client of a server and
    a token; [ctx_err] is what [ctx.Err()] says at the n-th moment, [probe_err]
    the same for the context of the execution probe, which also ends with its
    timeout. *)

From S2P Require Import Prelude GoStrings Json Types Codec Wire Fs Workspace Process Http Sdk Terminal.

Definition defaultServerURL : string := "http://127.0.0.1:8787".

(** ** Texts *)
Definition emptyDash (value : string) : string := if value =s "" then "-" else value.
Definition terminalStatus (status : RunStatus) : bool :=
  (status =s RunSucceeded) || (status =s RunFailed) || (status =s RunCancelled).

(** [sort.Strings], and [sort.Slice] by a text; entries with equal texts keep their
    order here, as they do in Go up to a dozen entries. *)
Definition by_text {A} (text : A → string) (a b : A) : Prop := String.le (text a) (text b).
#[export] Instance by_text_dec {A} (text : A → string) : RelDecision (by_text text).
Proof. intros a b. unfold by_text. apply _. Defined.
Definition sort_by {A} (text : A → string) (l : list A) : list A := merge_sort (by_text text) l.

Definition capability_identity (value : Capability) : string := cap_Name value +:+ "@" +:+ cap_Version value.
Definition capabilityInventory (values : list Capability) : string :=
  let result := sort_by id (map capability_identity values) in
  if length result =s 0 then "-" else Join result ", ".

(** [strings.SplitN] for a one-byte separator. *)
Fixpoint SplitN (sep : Ascii.ascii) (n : nat) (s : string) : list string :=
  match n with
  | 0 | 1 => [s]
  | S n => match Cut sep s with
           | (before, Some after) => before :: SplitN sep n after
           | (_, None) => [s]
           end
  end.
Definition colon : Ascii.ascii := byte_of 58.
Definition at_sign : Ascii.ascii := byte_of 64.
Definition comma : Ascii.ascii := byte_of 44.

Section texts.
Context `{Host} `{Encoder} `{Zone}.

Definition compactJSON (value : option Json) : string :=
  match value with
  | None | Some JNull => ""
  | Some j =>
      let result := json_text j in
      if (160 <? String.length result)%nat then str_take 160 result +:+ "…" else result
  end.

(** The zero time is 0. *)
Definition relativeTime (now value : Z) : string :=
  if (value =? 0)%Z then "-"
  else
    let age := (now - value)%Z in
    if (age <? 60 * 1000000000)%Z then pretty (Z.max 0 (Z.quot age 1000000000)) +:+ "s ago"
    else if (age <? 3600 * 1000000000)%Z then pretty (Z.quot age (60 * 1000000000)) +:+ "m ago"
    else date_text value.

Definition trimmed_resources (text : string) : list string :=
  List.filter (λ s, negb (s =s "")) (map TrimSpace (Split text comma)).
Definition parseGrant (value : string) : Res CapabilityGrant :=
  let parts := SplitN colon 3 value in
  match SplitN at_sign 2 (nth 0 parts "") with
  | [name; version] =>
      if (name =s "") || (version =s "")
      then Err (errors_New ("invalid grant " +:+ fmt_quote value +:+ ": expected name@version:effect:resources"))
      else
        let effect := nth 1 parts "" in
        let resources := nth 2 parts "" in
        Ok (mkGrant name version (if effect =s "" then "read" else effect)
              (if resources =s "" then [] else trimmed_resources resources))
  | _ => Err (errors_New ("invalid grant " +:+ fmt_quote value +:+ ": expected name@version:effect:resources"))
  end.

(** [stringList.Set] and [keyValues.Set] *)
Definition stringList_Set (value : string) (v : list string) : list string := v ++ [value].
Definition keyValues_Set (value : string) (v : gmap string string) : Res (gmap string string) :=
  match SplitN equals 2 value with
  | [key; text] =>
      if key =s "" then Err (errors_New ("invalid label " +:+ fmt_quote value +:+ ": expected key=value"))
      else Ok (<[key := text]> v)
  | _ => Err (errors_New ("invalid label " +:+ fmt_quote value +:+ ": expected key=value"))
  end.
Definition stringList_String (v : list string) : string := Join v ",".
Definition keyValues_String (v : gmap string string) : string :=
  Join (sort_by id (map (λ kv, kv.1 +:+ "=" +:+ kv.2) (map_to_list v))) ",".

(** ** Tables *)
Definition row (values : list string) : string := Join values (String tab "") +:+ nl.
Definition run_table (run : Run) : string :=
  tabwriter
    (row ["RUN"; run_ID run] +:+ row ["STATUS"; RunStatus_text (run_Status run)] +:+
     row ["RUNTIME"; rr_Provider (run_Runtime run)] +:+ row ["AGENT"; run_AgentID run] +:+
     row ["NODE"; emptyDash (att_NodeID (run_Attempt run))] +:+
     (if run_Error run =s "" then "" else row ["ERROR"; run_Error run]) +:+
     match run_Result run with
     | Some result => if res_Summary result =s "" then "" else row ["SUMMARY"; ReplaceAll (res_Summary result) nl " "]
     | None => ""
     end).
Definition event_table (events : list Event) : string :=
  tabwriter (foldr String.append "" (row ["SEQ"; "TIME"; "TYPE"; "DATA"] ::
    map (λ event, row [pretty (ev_Sequence event); clock_text (ev_CreatedAt event); ev_Type event; compactJSON (ev_Data event)]) events)).
Definition event_line (event : Event) : string :=
  pad_left 4 (pretty (ev_Sequence event)) +:+ "  " +:+ clock_text (ev_CreatedAt event) +:+ "  " +:+
  pad_right 36 (ev_Type event) +:+ " " +:+ compactJSON (ev_Data event) +:+ nl.

(** The rows of a node: what belongs to the node stands in the first one only. *)
Definition node_rows (node : Node) (seen : string) : list string :=
  let reg := node_Registration node in
  let front := [reg_ID reg; node_State node; emptyDash (reg_Version reg); emptyDash (reg_ProtocolVersion reg)] in
  let back := [pretty (node_Active node) +:+ "/" +:+ pretty (reg_Capacity reg); capabilityInventory (reg_Capabilities reg); seen] in
  match sort_by rt_Provider (reg_Runtimes reg) with
  | [] => [row (front ++ ["-"; "-"; "-"] ++ back)]
  | runtimes =>
      imap (λ index runtime,
        let middle := [rt_Provider runtime; emptyDash (rt_ID runtime); emptyDash (rt_Version runtime)] in
        row (match index with
             | O => front ++ middle ++ back
             | S _ => ["" ; ""; ""; ""] ++ middle ++ [""; ""; ""]
             end)) runtimes
  end.
Fixpoint all_rows {S} (nodes : list Node) : M S (list string) :=
  match nodes with
  | [] => mret []
  | node :: nodes =>
      seen ← (if (node_LastSeen node =? 0)%Z then mret "-"
              else now ← time_now; mret (relativeTime now (node_LastSeen node)));
      rows ← all_rows nodes;
      mret (node_rows node seen ++ rows)
  end.
Definition runtime_header : list string :=
  ["NODE"; "STATE"; "NODE VERSION"; "PROTOCOL"; "RUNTIME"; "INSTANCE"; "RUNTIME VERSION"; "LOAD"; "CAPABILITIES"; "LAST SEEN"].
End texts.

(** ** The state of a command *)
Record Term (X : Type) := mkTerm { tm_out : string; tm_files : FS; tm_last : Z; tm_env : X }.
Arguments mkTerm {X}.
Arguments tm_out {X}.
Arguments tm_files {X}.
Arguments tm_last {X}.
Arguments tm_env {X}.
Record Connection (S : Type) := mkConnection {
  cn_Client : Client S; cn_Health : M S (); cn_BuildInfo : M S BuildInfo }.
Arguments mkConnection {S}.
Arguments cn_Client {S}.
Arguments cn_Health {S}.
Arguments cn_BuildInfo {S}.

Section output.
Context {X : Type} `{Encoder}.
Definition Fprint (text : string) : M (Term X) () :=
  modify (λ t, mkTerm (tm_out t +:+ text) (tm_files t) (tm_last t) (tm_env t)).
Definition set_last (sequence : Z) : M (Term X) () :=
  modify (λ t, mkTerm (tm_out t) (tm_files t) sequence (tm_env t)).
Definition printJSON (value : Json) : M (Term X) () := Fprint (json_indent "" value +:+ nl).
Definition on_disk {A} (m : M FS A) : M (Term X) A := λ w,
  let '(r, w') := m (mkWorld (w_tick w) (tm_files (w_st w))) in
  (r, mkWorld (w_tick w') (mkTerm (tm_out (w_st w)) (w_st w') (tm_last (w_st w)) (tm_env (w_st w)))).
End output.

(** ** Commands *)
Definition is_empty {A} (l : list A) : bool := match l with [] => true | _ => false end.

Section commands.
Context `{Host} `{TimeParser} `{Encoder} `{JsonParser} `{Faults} `{Environment} `{Zone} {X : Type}.
Context (client : Client (Term X)) (ctx_err : nat → option Error).
Abbreviation MC := (M (Term X)).

(** *** Watching a run *)
Definition print_event (event : Event) : MC () := Fprint (event_line event) ;; set_last (ev_Sequence event).

(** One round: what it returns, or whether to go on. *)
Definition watch_round (runID : string) : MC bool :=
  after ← gets tm_last;
  streamErr ← try (sdk_StreamEvents client runID after print_event);
  ended ← host ctx_err;
  match ended with
  | Some err => raise err
  | None =>
      r ← try (sdk_Run client runID);
      match r with
      | Err err => raise (match streamErr with Err streamErr => streamErr | Ok _ => err end)
      | Ok run =>
          if terminalStatus (run_Status run) then
            Fprint (nl +:+ run_table run) ;;
            if run_Status run =s RunFailed then raise (errors_New ("run failed: " +:+ run_Error run)) else mret true
          else match streamErr with
               | Err err => if errors_Is err ErrNotFound then raise err else mret false
               | Ok _ => mret false
               end
      end
  end.
(** The wait before the next round ends early with the context, which lasts for [rounds] of them. *)
Fixpoint watch_loop (rounds : nat) (runID : string) : MC () :=
  match rounds with
  | O => raise (sentinel ErrContextDone)
  | S rounds =>
      finished ← watch_round runID;
      if (finished : bool) then mret ()
      else
        ended ← host ctx_err;
        match ended with Some err => raise err | None => watch_loop rounds runID end
  end.
Definition watchRun (rounds : nat) (runID : string) : MC () := set_last 0 ;; watch_loop rounds runID.

(** *** Commands on one run *)
Definition json_flag : Flag bool := bool_flag "json" (λ b _, b).
Definition single_operand (usage : string) (operands : list string) : MC string :=
  match operands with [operand] => mret operand | _ => raise (errors_New usage) end.

Definition runGet (args : list string) : MC () :=
  parsed ← lift_res (Parse [json_flag] args false);
  let '(jsonOutput, operands) := (parsed : bool * list string) in
  runID ← single_operand "usage: relayctl run get <run-id>" operands;
  run ← sdk_Run client runID;
  if jsonOutput then printJSON (enc wire_Run run) else Fprint (run_table run).

Definition runEvents (args : list string) : MC () :=
  parsed ← lift_res (Parse [json_flag] args false);
  let '(jsonOutput, operands) := (parsed : bool * list string) in
  runID ← single_operand "usage: relayctl run events <run-id>" operands;
  events ← sdk_Events client runID;
  if jsonOutput then printJSON (enc (slice wire_Event) events) else Fprint (event_table events).

Definition interval_flag : Flag Z := duration_flag "interval" (λ d _, d).
Definition runWatchCommand (rounds : nat) (args : list string) : MC () :=
  parsed ← lift_res (Parse [interval_flag] args 500000000%Z);
  let '(interval, operands) := (parsed : Z * list string) in
  runID ← single_operand "usage: relayctl run watch <run-id>" operands;
  if (interval <? 100000000)%Z then raise (errors_New "--interval must be at least 100ms")
  else watchRun rounds runID.

Definition cancel_usage : string := "usage: relayctl run cancel <run-id> [--reason TEXT]".
Definition cancel_flags : list (Flag (string * string * bool)) :=
  [string_flag "reason" (λ s '(_, by_, j), (s, by_, j)); string_flag "requested-by" (λ s '(reason, _, j), (reason, s, j));
   bool_flag "json" (λ b '(reason, by_, _), (reason, by_, b))].
Definition leading_id (args : list string) : string * list string :=
  match args with
  | arg :: rest => if HasPrefix arg "-" then ("", args) else (arg, rest)
  | [] => ("", [])
  end.
Definition runCancel (args : list string) : MC () :=
  let '(runID, args) := leading_id args in
  parsed ← lift_res (Parse cancel_flags args ("cancelled by user", "local", false));
  let '(reason, requestedBy, jsonOutput, operands) := (parsed : string * string * bool * list string) in
  runID ← (if runID =s "" then single_operand cancel_usage operands
           else if is_empty operands then mret runID else raise (errors_New cancel_usage));
  run ← sdk_CancelRun client runID (mkCancelRequest reason requestedBy);
  if jsonOutput then printJSON (enc wire_Run run) else Fprint (run_table run).

(** *** Listing runtimes *)
Definition runtimeList (args : list string) : MC () :=
  parsed ← lift_res (Parse [json_flag] args false);
  let '(jsonOutput, operands) := (parsed : bool * list string) in
  if negb (is_empty operands) then raise (errors_New "runtime list accepts no arguments")
  else
    nodes ← sdk_Nodes client;
    let nodes := sort_by (λ n, reg_ID (node_Registration n)) nodes in
    if jsonOutput then printJSON (enc (slice wire_Node) nodes)
    else
      rows ← all_rows nodes;
      Fprint (tabwriter (foldr String.append "" (row runtime_header :: rows))).

(** *** Submitting a run *)
Record submitFlags := mkSubmitFlags {
  sf_agent : string; sf_provider : string; sf_runtimeID : string; sf_model : string; sf_runtimeVersion : string;
  sf_session : string; sf_prompt : string; sf_promptFile : string; sf_idempotency : string; sf_sourceKind : string;
  sf_sourceID : string; sf_principalType : string; sf_principalID : string; sf_watch : bool; sf_json : bool;
  sf_maxAttempts : Z; sf_retryBackoff : string; sf_timeout : string; sf_workspace : WorkspaceSpec;
  sf_grants : list string; sf_labels : gmap string string }.
#[export] Instance eta_submitFlags : Eta submitFlags := λ f,
  mkSubmitFlags (sf_agent f) (sf_provider f) (sf_runtimeID f) (sf_model f) (sf_runtimeVersion f) (sf_session f)
    (sf_prompt f) (sf_promptFile f) (sf_idempotency f) (sf_sourceKind f) (sf_sourceID f) (sf_principalType f)
    (sf_principalID f) (sf_watch f) (sf_json f) (sf_maxAttempts f) (sf_retryBackoff f) (sf_timeout f)
    (sf_workspace f) (sf_grants f) (sf_labels f).
Definition submit_defaults : submitFlags :=
  mkSubmitFlags "relayctl" "codex" "" "" "" "" "" "" "" "terminal" "" "user" "local" true false 1 "0s" ""
    (mkWorkspaceSpec "" "" "" "" false) [] ∅.
Definition set_workspace (f : WorkspaceSpec → WorkspaceSpec) (v : submitFlags) : submitFlags :=
  v <| sf_workspace := f (sf_workspace v) |>.
Definition submit_flags : list (Flag submitFlags) :=
  [string_flag "agent" (λ s v, v <| sf_agent := s |>);
   string_flag "provider" (λ s v, v <| sf_provider := s |>);
   string_flag "runtime-id" (λ s v, v <| sf_runtimeID := s |>);
   string_flag "model" (λ s v, v <| sf_model := s |>);
   string_flag "runtime-version" (λ s v, v <| sf_runtimeVersion := s |>);
   string_flag "session" (λ s v, v <| sf_session := s |>);
   string_flag "prompt" (λ s v, v <| sf_prompt := s |>);
   string_flag "prompt-file" (λ s v, v <| sf_promptFile := s |>);
   string_flag "idempotency" (λ s v, v <| sf_idempotency := s |>);
   string_flag "source-kind" (λ s v, v <| sf_sourceKind := s |>);
   string_flag "source-id" (λ s v, v <| sf_sourceID := s |>);
   string_flag "principal-type" (λ s v, v <| sf_principalType := s |>);
   string_flag "principal-id" (λ s v, v <| sf_principalID := s |>);
   bool_flag "watch" (λ b v, v <| sf_watch := b |>);
   bool_flag "json" (λ b v, v <| sf_json := b |>);
   int_flag "max-attempts" (λ z v, v <| sf_maxAttempts := z |>);
   string_flag "retry-backoff" (λ s v, v <| sf_retryBackoff := s |>);
   string_flag "timeout" (λ s v, v <| sf_timeout := s |>);
   string_flag "workspace-kind" (λ s, set_workspace (λ w, mkWorkspaceSpec s (ws_Source w) (ws_Ref w) (ws_Subdir w) (ws_Ephemeral w)));
   string_flag "workspace-source" (λ s, set_workspace (λ w, mkWorkspaceSpec (ws_Kind w) s (ws_Ref w) (ws_Subdir w) (ws_Ephemeral w)));
   string_flag "workspace-ref" (λ s, set_workspace (λ w, mkWorkspaceSpec (ws_Kind w) (ws_Source w) s (ws_Subdir w) (ws_Ephemeral w)));
   string_flag "workspace-subdir" (λ s, set_workspace (λ w, mkWorkspaceSpec (ws_Kind w) (ws_Source w) (ws_Ref w) s (ws_Ephemeral w)));
   bool_flag "workspace-ephemeral" (λ b, set_workspace (λ w, mkWorkspaceSpec (ws_Kind w) (ws_Source w) (ws_Ref w) (ws_Subdir w) b));
   string_flag "grant" (λ s v, v <| sf_grants := stringList_Set s (sf_grants v) |>);
   mkFlag "label" false (λ s v, res_bind (keyValues_Set s (sf_labels v)) (λ labels, Ok (v <| sf_labels := labels |>)))].

Definition submit_request (f : submitFlags) (prompt idempotency : string) (grants : list CapabilityGrant) : Request :=
  zero <| req_AgentID := sf_agent f |> <| req_IdempotencyKey := idempotency |>
       <| req_Runtime := mkRuntimeRequirement (sf_runtimeID f) (sf_provider f) (sf_model f) (sf_runtimeVersion f) (sf_labels f) |>
       <| req_SessionID := sf_session f |> <| req_Source := mkSource (sf_sourceKind f) (sf_sourceID f) "" None |>
       <| req_Input := mkInput "task" "1" prompt None |> <| req_Capabilities := grants |>
       <| req_Principal := mkPrincipal (sf_principalType f) (sf_principalID f) "" |>
       <| req_Retry := mkRetryPolicy (sf_maxAttempts f) (sf_retryBackoff f) |>
       <| req_Timeout := sf_timeout f |> <| req_Workspace := sf_workspace f |>.
Definition submit_prompt (f : submitFlags) : MC string :=
  if negb (sf_prompt f =s "") && negb (sf_promptFile f =s "")
  then raise (errors_New "use only one of --prompt and --prompt-file")
  else
    prompt ← (if sf_promptFile f =s "" then mret (sf_prompt f) else on_disk (os_ReadFile (sf_promptFile f)));
    if TrimSpace prompt =s "" then raise (errors_New "--prompt or --prompt-file is required") else mret prompt.

(** What follows a successful submission. *)
Definition announce (rounds : nat) (f : submitFlags) (queued : Run) : MC () :=
  if sf_json f then
    if sf_watch f then raise (errors_New "--json requires --watch=false") else printJSON (enc wire_Run queued)
  else
    Fprint ("Submitted " +:+ run_ID queued +:+ "  status=" +:+ RunStatus_text (run_Status queued) +:+
            "  provider=" +:+ rr_Provider (run_Runtime queued) +:+ nl) ;;
    if sf_watch f then watchRun rounds (run_ID queued) else mret ().
Definition runSubmit (rounds : nat) (args : list string) : MC () :=
  parsed ← lift_res (Parse submit_flags args submit_defaults);
  let '(f, operands) := (parsed : submitFlags * list string) in
  if negb (is_empty operands) then raise (errors_New "run submit accepts flags only")
  else
    prompt ← submit_prompt f;
    grants ← lift_res (res_map parseGrant (sf_grants f));
    idempotency ← (if sf_idempotency f =s "" then now ← time_now; mret ("relayctl-" +:+ pretty (now : Z))
                   else mret (sf_idempotency f));
    queued ← sdk_Submit client (submit_request f prompt idempotency grants);
    announce rounds f queued.
End commands.

(** ** The doctor *)
Record doctorFlags := mkDoctorFlags {
  df_execute : bool; df_provider : string; df_runtimeID : string; df_model : string; df_timeout : Z }.
#[export] Instance eta_doctorFlags : Eta doctorFlags := λ f,
  mkDoctorFlags (df_execute f) (df_provider f) (df_runtimeID f) (df_model f) (df_timeout f).
Definition doctor_flags `{Host} : list (Flag doctorFlags) :=
  [bool_flag "execute" (λ b f, f <| df_execute := b |>); string_flag "provider" (λ s f, f <| df_provider := s |>);
   string_flag "runtime-id" (λ s f, f <| df_runtimeID := s |>); string_flag "model" (λ s f, f <| df_model := s |>);
   duration_flag "timeout" (λ d f, f <| df_timeout := d |>)].
Definition doctor_defaults : doctorFlags := mkDoctorFlags false "" "" "" 180000000000.

Definition node_eligible (node : Node) : bool :=
  (node_State node =s NodeOnline) && (reg_ProtocolVersion (node_Registration node) =s ProtocolVersion).
Definition runtime_eligible (f : doctorFlags) (runtime : Runtime) : bool :=
  negb ((rt_State runtime =s "unhealthy") ||
        negb (df_provider f =s "") && negb (rt_Provider runtime =s df_provider f) ||
        negb (df_runtimeID f =s "") && negb (rt_ID runtime =s df_runtimeID f)).
Definition candidates (f : doctorFlags) (nodes : list Node) : list (Node * Runtime) :=
  concat (map (λ node, if node_eligible node
                       then map (pair node) (List.filter (runtime_eligible f) (reg_Runtimes (node_Registration node)))
                       else []) nodes).
Definition model_count (runtime : Runtime) : nat :=
  match length (rt_ModelCatalog runtime) with O => length (rt_Models runtime) | n => n end.
Definition model_report (runtime : Runtime) : string :=
  let count := model_count runtime in
  (if (count =? 0)%nat && (rt_DefaultModel runtime =s "") then "[warn] runtime did not advertise a model catalog"
   else "[ok] model discovery · " +:+ pretty (Nat.max 1 count) +:+ " advertised") +:+ nl.
Definition probe_request (f : doctorFlags) (runtime : Runtime) (now : Z) : Request :=
  let provider := if df_provider f =s "" then rt_Provider runtime else df_provider f in
  zero <| req_AgentID := "relayctl-doctor" |> <| req_IdempotencyKey := "relayctl-doctor-" +:+ pretty now |>
       <| req_Runtime := mkRuntimeRequirement (rt_ID runtime) provider (df_model f) "" ∅ |>
       <| req_Source := mkSource "relayctl.doctor" "" "" None |>
       <| req_Input := mkInput "task" "1" "Relay connectivity check. Do not modify files or call tools. Reply with exactly: RELAY_DOCTOR_OK" None |>
       <| req_Principal := mkPrincipal "system" "relayctl-doctor" "" |> <| req_Timeout := DurationString (df_timeout f) |>.

Section doctor.
Context `{Host} `{TimeParser} `{Encoder} `{JsonParser} `{Faults} `{Environment} `{Zone} {X : Type}.
Context (cn : Connection (Term X)) (probe_err : nat → option Error).
Abbreviation MC := (M (Term X)).
Let client := cn_Client cn.

(** The error of a step of the doctor names the step. *)
Definition step_of {A} (name : string) (m : MC A) : MC A := λ w,
  match m w with
  | (Ok a, w') => (Ok a, w')
  | (Err err, w') => (Err (mkError (err_is err) (name +:+ ": " +:+ err_msg err)), w')
  end.
Definition say (line : string) : MC () := Fprint (line +:+ nl).

Definition execution_probe (rounds : nat) (f : doctorFlags) (runtime : Runtime) : MC () :=
  say "[run] execution probe may consume provider quota" ;;
  now ← time_now;
  queued ← step_of "submit execution probe" (sdk_Submit client (probe_request f runtime now));
  step_of "execution probe" (watchRun client probe_err rounds (run_ID queued)) ;;
  artifacts ← step_of "artifact probe" (sdk_Artifacts client (run_ID queued));
  if is_empty artifacts then raise (errors_New "artifact probe: run succeeded without an artifact")
  else say ("[ok] artifact delivery · " +:+ pretty (length artifacts) +:+ " artifact(s)").

Definition doctor (rounds : nat) (args : list string) : MC () :=
  parsed ← lift_res (Parse doctor_flags args doctor_defaults);
  let '(f, operands) := (parsed : doctorFlags * list string) in
  if negb (is_empty operands) then raise (errors_New "doctor accepts flags only")
  else if (df_timeout f <=? 0)%Z then raise (errors_New "--timeout must be positive")
  else
    step_of "server health" (cn_Health cn) ;;
    say "[ok] server health" ;;
    info ← step_of "server version" (cn_BuildInfo cn);
    say ("[ok] server " +:+ bi_Version info +:+ " · protocol " +:+ bi_ProtocolVersion info) ;;
    if negb (bi_ProtocolVersion info =s ProtocolVersion)
    then raise (errors_New ("protocol mismatch: relayctl=" +:+ ProtocolVersion +:+ " server=" +:+ bi_ProtocolVersion info))
    else
      nodes ← step_of "host authentication or node inventory" (sdk_Nodes client);
      say "[ok] host authentication" ;;
      match candidates f nodes with
      | [] => raise (errors_New ("no healthy runtime matches provider=" +:+ fmt_quote (df_provider f) +:+
                                 " runtime-id=" +:+ fmt_quote (df_runtimeID f)))
      | (node, runtime) :: _ =>
          say ("[ok] runtime " +:+ rt_Provider runtime +:+ " on " +:+ reg_ID (node_Registration node) +:+
               " · runtime " +:+ emptyDash (rt_Version runtime) +:+ " · node " +:+
               emptyDash (reg_Version (node_Registration node))) ;;
          Fprint (model_report runtime) ;;
          if df_execute f then execution_probe rounds f runtime
          else say "[skip] execution probe; use --execute to test Run and Artifact delivery"
      end.
End doctor.

(** ** The command line *)
Record globalFlags := mkGlobalFlags { gl_server : string; gl_version : bool }.
Definition global_flags : list (Flag globalFlags) :=
  [string_flag "server" (λ s g, mkGlobalFlags s (gl_version g)); bool_flag "version" (λ b g, mkGlobalFlags (gl_server g) b)].

Definition quote : string := String (byte_of 34) "".
Definition usage_text : string := Join
  ["Relay terminal workbench";
   "";
   "Usage:";
   "  relayctl --version";
   "  relayctl [--server URL] doctor [--execute] [options]";
   "  relayctl [--server URL] runtime list [--json]";
   "  relayctl [--server URL] run submit --prompt TEXT [options]";
   "  relayctl [--server URL] run list";
   "  relayctl [--server URL] run get <run-id> [--json]";
   "  relayctl [--server URL] run events <run-id> [--json]";
   "  relayctl [--server URL] run watch <run-id>";
   "  relayctl [--server URL] run cancel <run-id> [--reason TEXT]";
   "  relayctl [--server URL] run list";
   "  relayctl [--server URL] run attempts <run-id>";
   "  relayctl [--server URL] run artifacts <run-id>";
   "  relayctl [--server URL] artifact download <artifact-id> <output-file>";
   "  relayctl [--server URL] run interactions <run-id>";
   "  relayctl [--server URL] interaction resolve <interaction-id> <json-response>";
   "  relayctl [--server URL] session runs <session-id>";
   "  relayctl [--server URL] run attempts|artifacts|interactions <run-id>";
   "  relayctl [--server URL] interaction resolve <interaction-id> <json-response>";
   "  relayctl [--server URL] artifact download <artifact-id> <output-file>";
   "";
   "Submit examples:";
   "  relayctl run submit --provider codex --prompt " +:+ quote +:+ "Inspect this workspace" +:+ quote;
   "  relayctl run submit --prompt " +:+ quote +:+ "Read MUL-42" +:+ quote +:+ " --grant issue.read@1:read:MUL-42";
   "";
   "Environment:";
   "  RELAY_SERVER_URL  control plane URL (default http://127.0.0.1:8787)";
   "  RELAY_HOST_TOKEN  optional host bearer token";
   ""] nl.

Section main.
Context `{Host} `{TimeParser} `{Encoder} `{JsonParser} `{Faults} `{Environment} `{Zone} {X : Type}.
Context (connect : string → string → Connection (Term X)) (Version : string) (ctx_err probe_err : nat → option Error).
Abbreviation MC := (M (Term X)).

Definition envOr (name fallback : string) : string :=
  let value := default "" (LookupEnv name) in if value =s "" then fallback else value.

Definition printed {A} (c : Codec A) (m : MC A) : MC () := value ← m; printJSON (enc c value).

(** The new file exists, empty, before anything is copied; a copy that fails leaves a part of it. *)
Definition create_new (path : string) : M FS () :=
  syscall ;;
  v ← gets (λ fs : FS, fs !! path);
  match v with
  | Some _ => raise (errors_New ("open " +:+ path +:+ ": file exists"))
  | None => modify (<[path := ""]>)
  end.
Definition download (client : Client (Term X)) (artifactID path : string) : MC () :=
  content ← sdk_OpenArtifact client artifactID;
  on_disk (create_new path) ;;
  copied ← try (on_disk (os_WriteFile path content));
  closed ← try (on_disk syscall);
  match copied with Err err => raise err | Ok _ => lift_res closed end.

(** [json.Valid]: what is no document is sent as a string. *)
Definition response_document (text : string) : Json :=
  match parse_all text with Ok j => j | Err _ => JStr text end.

Definition run_command (client : Client (Term X)) (rounds : nat) (unknown : MC ()) (args : list string) : MC () :=
  match args with
  | [] => raise (errors_New "usage: relayctl run <submit|get|events|watch|cancel>")
  | command :: args =>
      let on_run (name : string) (m : string → MC ()) : MC () :=
        match args with [id] => m id | _ => raise (errors_New ("usage: relayctl run " +:+ name +:+ " <run-id>")) end in
      if command =s "submit" then runSubmit client ctx_err rounds args
      else if command =s "list" then printed (slice wire_Run) (sdk_ListRuns client 50)
      else if command =s "get" then runGet client args
      else if command =s "events" then runEvents client args
      else if command =s "watch" then runWatchCommand client ctx_err rounds args
      else if command =s "cancel" then runCancel client args
      else if command =s "attempts" then on_run "attempts" (λ id, printed (slice wire_Attempt) (sdk_Attempts client id))
      else if command =s "artifacts" then on_run "artifacts" (λ id, printed (slice wire_Artifact) (sdk_Artifacts client id))
      else if command =s "interactions" then
        on_run "interactions" (λ id, printed (slice wire_Interaction) (sdk_Interactions client id))
      else unknown
  end.

Definition dispatch (cn : Connection (Term X)) (rounds : nat) (remaining : list string) : MC () :=
  let client := cn_Client cn in
  let unknown : MC () := raise (errors_New ("unknown command " +:+ fmt_quote (Join remaining " "))) in
  match remaining with
  | [] => Fprint usage_text
  | command :: args =>
      if command =s "version" then Fprint (VersionLine Version "relayctl" +:+ nl)
      else if command =s "doctor" then doctor cn probe_err rounds args
      else if (command =s "runtime") || (command =s "runtimes") then
        match args with
        | [] => runtimeList client []
        | sub :: args => if sub =s "list" then runtimeList client args else unknown
        end
      else if command =s "run" then run_command client rounds unknown args
      else if command =s "interaction" then
        match args with
        | ["resolve"; id; response] =>
            printed wire_Interaction (sdk_ResolveInteraction client id (Some (response_document response)))
        | _ => raise (errors_New "usage: relayctl interaction resolve <interaction-id> <json-response>")
        end
      else if command =s "session" then
        match args with
        | ["runs"; id] => printed (slice wire_Run) (sdk_SessionRuns client id 50)
        | _ => raise (errors_New "usage: relayctl session runs <session-id>")
        end
      else if command =s "artifact" then
        match args with
        | ["download"; id; path] => download client id path
        | _ => raise (errors_New "usage: relayctl artifact download <artifact-id> <output-file>")
        end
      else if (command =s "help") || (command =s "--help") || (command =s "-h") then Fprint usage_text
      else unknown
  end.

Definition run (rounds : nat) (args : list string) : MC () :=
  parsed ← lift_res (Parse global_flags args (mkGlobalFlags (envOr "RELAY_SERVER_URL" defaultServerURL) false));
  let '(g, remaining) := (parsed : globalFlags * list string) in
  if gl_version g then Fprint (VersionLine Version "relayctl" +:+ nl)
  else dispatch (connect (gl_server g) (default "" (LookupEnv "RELAY_HOST_TOKEN"))) rounds remaining.
End main.
