(* ===== verification/RelayCtlProps.v ===== *)
(** * RelayCtlProps: what the commands of relayctl promise

    Against any client: the command line of a submission and the request it makes,
    downloads, the verdict of the doctor; and watching.  [Watched] is what a watch
    needs of its client: streams that hand on the next events of a growing log, and
    an answer about the run that is true.  Under it a watch shows a prefix of the
    log, each event once, and ends well only when the run did not fail. *)

From S2P Require Import Prelude GoStrings Json Types Fs Codec Wire Url Http HttpStream Process Sdk Terminal RelayCtl.

(** ** Numbers are read back *)
Lemma digit_digit_of c d : digit c = Some d → digit_of c = Some d ∧ (code c =? 95)%nat = false ∧ (d < 10)%N.
Proof.
  destruct c as [b0 b1 b2 b3 b4 b5 b6 b7].
  destruct b0, b1, b2, b3, b4, b5, b6, b7; vm_compute; intros [= <-]; by repeat split.
Qed.
Lemma digits_value_le acc s m : digits_value acc s = Some m → (acc ≤ m)%N.
Proof.
  revert acc. induction s as [|c s IH]; intros acc; cbn; [intros [= ->]; lia|].
  destruct (digit c) as [d|]; [|done]. cbn. intros Hm%IH. lia.
Qed.
Lemma read_uint_digits acc s m : digits_value acc s = Some m → (m ≤ max_uint64)%N → read_uint 10 acc s = inl m.
Proof.
  revert acc. induction s as [|c s IH]; intros acc; cbn [digits_value read_uint]; [by intros [= ->]|].
  destruct (digit c) as [d|] eqn:Hd; [|done]. cbn. intros Hm Hle. destruct (digit_digit_of c d Hd) as (-> & -> & Hlt).
  rewrite (proj2 (N.leb_gt _ _)) by lia. pose proof (digits_value_le _ _ _ Hm). rewrite (proj2 (N.ltb_ge _ _)) by lia.
  by apply IH.
Qed.
Lemma pretty_leads n : (0 < n)%N → ∃ c t, pretty n = String c t ∧ code c ≠ 48.
Proof.
  intros Hn. unfold pretty, pretty_N. destruct (decide (n = 0)%N) as [->|_]; [lia|]. generalize "". revert Hn.
  induction (N.lt_wf_0 n) as [n _ IH]. intros Hn s. rewrite pretty_N_go_step by lia.
  destruct (decide (n / 10 = 0)%N) as [E|E].
  - rewrite E, pretty_N_go_0. eexists _, _. split; [done|]. apply N.div_small_iff in E; [|lia].
    rewrite N.mod_small by done. assert (Hc : n ∈ [1;2;3;4;5;6;7;8;9]%N) by (rewrite !elem_of_cons; lia).
    repeat (apply elem_of_cons in Hc as [->|Hc]; [by vm_compute|]). by apply elem_of_nil in Hc.
  - apply IH; [apply N.div_lt; lia|by apply N.neq_0_lt_0].
Qed.
Lemma ParseUint_pretty n : (n ≤ max_uint64)%N → ParseUint (pretty n) = inl n.
Proof.
  intros Hle. destruct (decide (n = 0)%N) as [->|Hn]; [reflexivity|].
  destruct (pretty_leads n) as (c & t & He & Hc); [lia|]. unfold ParseUint.
  pose proof (digits_pretty n) as Hd. rewrite He in *. rewrite bool_decide_eq_false_2 by done.
  unfold number_base. rewrite (proj2 (Nat.eqb_neq _ _) Hc). rewrite (read_uint_digits _ _ _ Hd Hle).
  pose proof (digits_free (byte_of 95) 0 _ n eq_refl Hd) as Hf. unfold free_of in Hf. by rewrite Hf.
Qed.
Lemma int_value_pretty (z : Z) : int64 z = true → int_value (pretty z) = Ok z.
Proof.
  unfold int64. rewrite andb_true_iff, Z.leb_le, Z.ltb_lt. intros [Hlo Hhi]. unfold int_value.
  assert (Hpos : ∀ n : N, (Z.of_N n < 2 ^ 63)%Z → ParseInt (pretty n) = inl (Z.of_N n)).
  { intros n Hn. pose proof (ParseUint_pretty n) as Hp. unfold max_uint64 in Hp.
    destruct (decide (n = 0)%N) as [->|Hne]; [reflexivity|].
    destruct (pretty_leads n) as (c & t & He & Hc); [lia|]. unfold ParseInt. pose proof (digits_pretty n) as Hd.
    rewrite He in *. cbn in Hd. destruct (digit c) as [d|] eqn:Hdig; [|done].
    assert (Hs : code c ≠ 43 ∧ code c ≠ 45).
    { split; intros E; unfold digit in Hdig; revert Hdig; unfold code in E; rewrite <- (Ascii.ascii_nat_embedding c), E; by vm_compute. }
    rewrite !(proj2 (Nat.eqb_neq _ _)) by apply Hs. rewrite Hp by lia. unfold signed.
    by rewrite (proj2 (N.leb_gt _ _)) by lia. }
  destruct z as [|p|p].
  - reflexivity.
  - change (pretty (Z.pos p)) with (pretty (N.pos p)). rewrite Hpos by lia. done.
  - change (pretty (Z.neg p)) with (String minus (pretty (N.pos p))). unfold ParseInt.
    change (code minus =? 43)%nat with false. change (code minus =? 45)%nat with true. cbn iota.
    rewrite ParseUint_pretty by (unfold max_uint64; lia). unfold signed. by rewrite (proj2 (N.ltb_ge _ _)) by lia.
Qed.

(** ** Grants and labels *)
Definition free (c : Ascii.ascii) (s : string) : Prop := has_char c s = false.
Lemma Split_cons sep a b : free sep a → Split (a +:+ String sep b) sep = a :: Split b sep.
Proof. intros Ha. unfold Split. by rewrite split_segment. Qed.
Lemma Split_Joined sep l : l ≠ [] → Forall (free sep) l → Split (Join l (String sep "")) sep = l.
Proof.
  intros Hne Hl. induction Hl as [|x l Hx Hl IH]; [done|]. destruct l as [|y l].
  - cbn. unfold Split. by rewrite split_last.
  - change (Join (x :: y :: l) (String sep "")) with (x +:+ String sep (Join (y :: l) (String sep ""))).
    rewrite Split_cons by done. by rewrite IH.
Qed.
Lemma SplitN_cons sep n a b : free sep a → SplitN sep (S (S n)) (a +:+ String sep b) = a :: SplitN sep (S n) b.
Proof. intros Ha. cbn [SplitN]. by rewrite Cut_plain. Qed.

Definition grant_text (g : CapabilityGrant) : string :=
  (gr_Name g +:+ "@" +:+ gr_Version g) +:+ ":" +:+ gr_Effect g +:+ ":" +:+ Join (gr_Resources g) ",".
Definition plain_grant (g : CapabilityGrant) : Prop :=
  gr_Name g ≠ "" ∧ free at_sign (gr_Name g) ∧ free colon (gr_Name g) ∧
  gr_Version g ≠ "" ∧ free colon (gr_Version g) ∧ gr_Effect g ≠ "" ∧ free colon (gr_Effect g) ∧
  Forall (λ r, r ≠ "" ∧ TrimSpace r = r ∧ free comma r) (gr_Resources g).
Lemma trimmed_same l : Forall (λ r, r ≠ "" ∧ TrimSpace r = r ∧ free comma r) l →
  List.filter (λ s, negb (s =s "")) (map TrimSpace l) = l.
Proof.
  induction 1 as [|r l (Hne & Ht & _) _ IH]; [done|]. cbn. rewrite Ht, bool_decide_eq_false_2 by done. cbn. by rewrite IH.
Qed.

Section lines.
Context `{Host} `{TimeParser} `{Encoder} `{JsonParser} `{Faults} `{Environment} `{Zone} {X : Type}.

Lemma parseGrant_text g : plain_grant g → parseGrant (grant_text g) = Ok g.
Proof.
  destruct g as [name version effect resources]. intros (Hn & Hna & Hnc & Hv & Hvc & He & Hec & Hr).
  unfold grant_text, parseGrant. cbn [gr_Name gr_Version gr_Effect gr_Resources] in *.
  set (tail := Join resources ",").
  assert (Hid : free colon (name +:+ "@" +:+ version)).
  { unfold free in *. by rewrite !has_char_app, Hnc, Hvc. }
  assert (Hparts : SplitN colon 3 ((name +:+ "@" +:+ version) +:+ ":" +:+ effect +:+ ":" +:+ tail) =
                   [name +:+ "@" +:+ version; effect; tail]).
  { transitivity ((name +:+ "@" +:+ version) :: SplitN colon 2 (effect +:+ ":" +:+ tail)); [exact (SplitN_cons colon 1 _ _ Hid)|].
    f_equal. exact (SplitN_cons colon 0 _ _ Hec). }
  rewrite Hparts. cbn [nth].
  assert (Hident : SplitN at_sign 2 (name +:+ "@" +:+ version) = [name; version]) by exact (SplitN_cons at_sign 0 _ _ Hna).
  rewrite Hident. rewrite !bool_decide_eq_false_2 by done. cbn [orb].
  assert (Hres : (if tail =s "" then [] else trimmed_resources tail) = resources).
  { destruct resources as [|r resources]; [done|]. rewrite bool_decide_eq_false_2.
    - unfold trimmed_resources, tail. change "," with (String comma ""). rewrite Split_Joined; [by apply trimmed_same|done|].
      eapply Forall_impl; [exact Hr|]. by intros ? (_ & _ & ?).
    - apply Forall_cons in Hr as [(Hne & _) _]. unfold tail. destruct r; [done|]. by destruct resources. }
  by rewrite Hres.
Qed.

Definition label_text (kv : string * string) : string := kv.1 +:+ "=" +:+ kv.2.
Definition plain_label (kv : string * string) : Prop := kv.1 ≠ "" ∧ free equals kv.1.
Lemma keyValues_text kv v : plain_label kv → keyValues_Set (label_text kv) v = Ok (<[kv.1 := kv.2]> v).
Proof.
  destruct kv as [k x]. intros [Hne Hf]. unfold keyValues_Set, label_text. cbn [fst snd] in *.
  assert (Hs : SplitN equals 2 (k +:+ "=" +:+ x) = [k; x]) by exact (SplitN_cons equals 0 _ _ Hf).
  rewrite Hs. by rewrite bool_decide_eq_false_2.
Qed.

(** ** The command line of a submission *)
Definition bool_text (b : bool) : string := if b then "true" else "false".
Definition plain_assignments (f : submitFlags) : list (string * string) :=
  [("agent", sf_agent f); ("provider", sf_provider f); ("runtime-id", sf_runtimeID f); ("model", sf_model f);
   ("runtime-version", sf_runtimeVersion f); ("session", sf_session f); ("prompt", sf_prompt f);
   ("prompt-file", sf_promptFile f); ("idempotency", sf_idempotency f); ("source-kind", sf_sourceKind f);
   ("source-id", sf_sourceID f); ("principal-type", sf_principalType f); ("principal-id", sf_principalID f);
   ("watch", bool_text (sf_watch f)); ("json", bool_text (sf_json f)); ("max-attempts", pretty (sf_maxAttempts f));
   ("retry-backoff", sf_retryBackoff f); ("timeout", sf_timeout f); ("workspace-kind", ws_Kind (sf_workspace f));
   ("workspace-source", ws_Source (sf_workspace f)); ("workspace-ref", ws_Ref (sf_workspace f));
   ("workspace-subdir", ws_Subdir (sf_workspace f)); ("workspace-ephemeral", bool_text (ws_Ephemeral (sf_workspace f)))].
Definition label_assignment (kv : string * string) : string * string := ("label", label_text kv).
Definition submit_assignments (f : submitFlags) : list (string * string) :=
  plain_assignments f ++ map (pair "grant") (sf_grants f) ++ map label_assignment (map_to_list (sf_labels f)).
Definition submit_args (f : submitFlags) : list string := map assignment (submit_assignments f).

Lemma assign_all_app {V} (flags : list (Flag V)) a b v :
  assign_all flags (a ++ b) v = res_bind (assign_all flags a v) (assign_all flags b).
Proof.
  revert v. induction a as [|nv a IH]; intros v; [done|]. cbn. destruct (formal flags nv.1); [|done].
  destruct (assign _ nv v); [|done]. apply IH.
Qed.
Lemma bool_value_text b : bool_value (bool_text b) = Ok b.
Proof. by destruct b. Qed.
(** One flag at a time. *)
Section steps.
Context {V : Type} (flags : list (Flag V)) (name : string) (rest : list (string * string)) (v : V).
Lemma assign_string store text :
  formal flags name = Some (string_flag name store) → assign_all flags ((name, text) :: rest) v = assign_all flags rest (store text v).
Proof. intros Hf. cbn [assign_all fst]. by rewrite Hf. Qed.
Lemma assign_bool store b :
  formal flags name = Some (bool_flag name store) → assign_all flags ((name, bool_text b) :: rest) v = assign_all flags rest (store b v).
Proof. intros Hf. cbn [assign_all fst]. rewrite Hf. by destruct b. Qed.
Lemma assign_int store z :
  formal flags name = Some (int_flag name store) → int64 z = true →
  assign_all flags ((name, pretty z) :: rest) v = assign_all flags rest (store z v).
Proof.
  intros Hf Hz. cbn [assign_all fst]. rewrite Hf. unfold assign, set_value. cbn [fl_Switch fl_Set int_flag flag_var fst snd].
  by rewrite int_value_pretty.
Qed.
End steps.
Lemma assign_plain f : int64 (sf_maxAttempts f) = true →
  assign_all submit_flags (plain_assignments f) submit_defaults = Ok (f <| sf_grants := [] |> <| sf_labels := ∅ |>).
Proof.
  intros Hz. unfold plain_assignments.
  repeat first [erewrite assign_bool by reflexivity|erewrite assign_int by (done || reflexivity)|erewrite assign_string by reflexivity].
  by destruct f as [? ? ? ? ? ? ? ? ? ? ? ? ? ? ? ? ? ? [] ? ?].
Qed.
Lemma assign_grants grants v :
  assign_all submit_flags (map (pair "grant") grants) v = Ok (v <| sf_grants := sf_grants v ++ grants |>).
Proof.
  revert v. induction grants as [|g grants IH]; intros v; cbn [map assign_all].
  - rewrite app_nil_r. by destruct v.
  - etransitivity; [exact (IH (v <| sf_grants := sf_grants v ++ [g] |>))|]. destruct v. cbn. by rewrite <- app_assoc.
Qed.
Definition add_label (m : gmap string string) (kv : string * string) : gmap string string := <[kv.1 := kv.2]> m.
Lemma assign_labels kvs v : Forall plain_label kvs →
  assign_all submit_flags (map label_assignment kvs) v = Ok (v <| sf_labels := foldl add_label (sf_labels v) kvs |>).
Proof.
  intros Hk. revert v. induction Hk as [|kv kvs Hkv _ IH]; intros v; cbn [map assign_all]; [by destruct v|].
  assert (Hs : assign (V := submitFlags) (mkFlag "label" false
      (λ s v, res_bind (keyValues_Set s (sf_labels v)) (λ labels, Ok (v <| sf_labels := labels |>))))
      (label_assignment kv) v = Ok (v <| sf_labels := add_label (sf_labels v) kv |>)).
  { unfold assign. cbn [fl_Switch]. unfold set_value. cbn [fl_Set label_assignment fst snd].
    by rewrite keyValues_text. }
  etransitivity; [exact (f_equal (λ r, res_bind r (assign_all submit_flags (map label_assignment kvs))) Hs)|].
  cbn [res_bind]. rewrite IH. by destruct v.
Qed.
Lemma add_labels_all (m : gmap string string) : foldl add_label ∅ (map_to_list m) = m.
Proof.
  assert (Hf : ∀ l, foldl add_label ∅ l = list_to_map (reverse l)).
  { intros l. rewrite <- (reverse_involutive l) at 1. generalize (reverse l). clear l. intros l.
    induction l as [|kv l IH]; [done|]. rewrite reverse_cons, foldl_app, IH. by destruct kv. }
  rewrite Hf. etransitivity; [|apply list_to_map_to_list]. symmetry. apply list_to_map_proper.
  - apply NoDup_fst_map_to_list.
  - by rewrite reverse_Permutation.
Qed.
Lemma submit_formal nv f : nv ∈ submit_assignments f → plain_name nv.1 = true ∧ is_Some (formal submit_flags nv.1).
Proof.
  assert (Hn : nv.1 ∈ map fst (plain_assignments f) ++ ["grant"; "label"] → plain_name nv.1 = true ∧ is_Some (formal submit_flags nv.1)).
  { cbn [map plain_assignments fst app]. generalize nv.1. intros name Hin.
    repeat (apply elem_of_cons in Hin as [->|Hin]; [split; [reflexivity|by eexists]|]). by apply elem_of_nil in Hin. }
  unfold submit_assignments. rewrite !elem_of_app. intros Hin. apply Hn. rewrite elem_of_app.
  destruct Hin as [Hin|[Hin|Hin]].
  - left. apply list_elem_of_fmap. by exists nv.
  - apply list_elem_of_fmap in Hin as (g & -> & _). right. left.
  - apply list_elem_of_fmap in Hin as (kv & -> & _). right. right. left.
Qed.

(** What the flags say is what was written. *)
Definition expressible (f : submitFlags) : Prop :=
  int64 (sf_maxAttempts f) = true ∧ Forall plain_label (map_to_list (sf_labels f)).
Lemma Parse_submit f : expressible f → Parse submit_flags (submit_args f) submit_defaults = Ok (f, []).
Proof.
  intros [Hz Hl]. unfold submit_args. rewrite <- (app_nil_r (map assignment _)).
  rewrite Parse_assignments; [|by apply Forall_forall; intros nv; apply submit_formal|done].
  unfold submit_assignments. rewrite !assign_all_app, assign_plain by done. cbn [res_bind].
  rewrite assign_all_app, assign_grants. cbn [res_bind]. rewrite assign_labels by done. cbn [res_bind].
  do 2 f_equal. destruct f. cbn. by rewrite add_labels_all.
Qed.
Lemma parse_grants grants : Forall plain_grant grants → res_map parseGrant (map grant_text grants) = Ok grants.
Proof.
  induction 1 as [|g grants Hg _ IH]; [done|]. cbn. by rewrite parseGrant_text, IH.
Qed.

(** C24: A run is submitted as its command line says.  For any flags, with labels whose
    names are not empty and hold no equals sign, a number of attempts that is an
    [int] and grants written in the form of their usage, the command line made of
    them submits one request, of exactly these values, whatever texts they are
    (texts that begin with a dash or hold an equals sign included), and what
    follows depends on the answer only. *)
Theorem submit_command (client : Client (Term X)) ctx_err rounds f grants (w : World (Term X)) :
  expressible f → sf_grants f = map grant_text grants → Forall plain_grant grants →
  sf_promptFile f = "" → TrimSpace (sf_prompt f) ≠ "" → sf_idempotency f ≠ "" →
  runSubmit client ctx_err rounds (submit_args f) w =
  (sdk_Submit client (submit_request f (sf_prompt f) (sf_idempotency f) grants) ≫= announce client ctx_err rounds f) w.
Proof.
  intros Hf Hg Hplain Hfile Hprompt Hkey. unfold runSubmit. rewrite Parse_submit by done.
  unfold lift_res, mbind at 1, M_bind at 1. cbn [is_empty negb]. unfold submit_prompt. rewrite Hfile.
  rewrite andb_false_r. rewrite Hg, parse_grants by done.
  unfold mbind, M_bind, mret, M_ret. rewrite bool_decide_eq_true_2 by done.
  by rewrite !bool_decide_eq_false_2 by done.
Qed.

(** ** Downloads *)
Abbreviation files w := (tm_files (w_st w)).
(** A download never overwrites a file.  When the artifact is open, only the file
    named may change: if it exists it stays what it is and the command fails; if
    not, it holds the artifact after a success. *)
Theorem download_keeps_files (client : Client (Term X)) artifactID path (w : World (Term X)) :
  let '(r, w') := download client artifactID path w in
  match sdk_OpenArtifact client artifactID w with
  | (Err err, w1) => r = Err err ∧ w' = w1
  | (Ok content, w1) =>
      (∀ p, p ≠ path → files w' !! p = files w1 !! p) ∧
      match files w1 !! path with
      | Some old => files w' !! path = Some old ∧ r ≠ Ok ()
      | None => r = Ok () → files w' !! path = Some content
      end
  end.
Proof.
  unfold download, mbind at 1, M_bind at 1. destruct (sdk_OpenArtifact client artifactID w) as [[content|err] w1]; [|done].
  unfold create_new, syscall, os_WriteFile, on_disk, try, lift_res, mbind, M_bind, host, gets, modify, raise, mret, M_ret.
  cbn [w_tick w_st]. destruct (fault_at (w_tick w1)) as [e|]; [cbn; split; [done|]; by destruct (files w1 !! path)|]. cbn [w_tick w_st tm_files].
  destruct (files w1 !! path) as [old|] eqn:Hold; [done|]. cbn [w_tick w_st tm_files].
  destruct (fault_at (w_tick w1 + 1)) as [e|]; cbn [w_tick w_st tm_files].
  - destruct (fault_at (w_tick w1 + 1 + 1)) as [e'|]; cbn [w_tick w_st tm_files];
      (split; [|done]; intros p Hp; by rewrite lookup_partial_alter_ne, lookup_insert_ne).
  - destruct (fault_at (w_tick w1 + 1 + 1)) as [e'|]; cbn [w_tick w_st tm_files];
      (split; [intros p Hp; by rewrite !lookup_insert_ne|]; by rewrite ?lookup_insert_eq).
Qed.

(** ** The doctor *)
(** A call that the command made returned this. *)
Definition returned {S A} (m : M S A) (a : A) : Prop := ∃ w w', m w = (Ok a, w').
Lemma bind_ok {S A B} (m : M S A) (k : A → M S B) b w w' :
  (m ≫= k) w = (Ok b, w') → ∃ a w1, returned m a ∧ k a w1 = (Ok b, w').
Proof.
  unfold mbind, M_bind. destruct (m w) as [[a|e] w1] eqn:Hm; [|done]. intros Hk. exists a, w1. split; [by exists w, w1|done].
Qed.
Lemma step_returned {A} name (m : M (Term X) A) a : returned (step_of name m) a → returned m a.
Proof. intros (w & w' & Hm). exists w, w'. unfold step_of in Hm. by destruct (m w) as [[?|?] ?]. Qed.

Lemma candidate_eligible f nodes node runtime :
  (node, runtime) ∈ candidates f nodes → node ∈ nodes ∧ node_eligible node = true ∧
  runtime ∈ reg_Runtimes (node_Registration node) ∧ runtime_eligible f runtime = true.
Proof.
  unfold candidates. rewrite <- flat_map_concat_map, list_elem_of_In, in_flat_map. intros (n & Hn & Hin).
  destruct (node_eligible n) eqn:He; [|done]. apply in_map_iff in Hin as (r & [= <- <-] & [Hr Hf]%filter_In).
  by rewrite !list_elem_of_In.
Qed.

(** The doctor gives no clean bill of health for nothing.  It ends without an
    error only when the server answered that it is healthy and speaks the same
    protocol, and listed a node that is online, speaks it too and has a runtime
    that is not unhealthy and is the one asked for; with [--execute], only when the
    run it then submitted for exactly this runtime was watched to an end that is
    no failure and has an artifact. *)
Theorem doctor_verdict (cn : Connection (Term X)) probe_err rounds args (w w' : World (Term X)) :
  doctor cn probe_err rounds args w = (Ok (), w') →
  ∃ f info nodes node runtime,
    Parse doctor_flags args doctor_defaults = Ok (f, []) ∧ (0 < df_timeout f)%Z ∧
    returned (cn_Health cn) () ∧ returned (cn_BuildInfo cn) info ∧ bi_ProtocolVersion info = ProtocolVersion ∧
    returned (sdk_Nodes (cn_Client cn)) nodes ∧ node ∈ nodes ∧ node_State node = NodeOnline ∧
    reg_ProtocolVersion (node_Registration node) = ProtocolVersion ∧
    runtime ∈ reg_Runtimes (node_Registration node) ∧ rt_State runtime ≠ "unhealthy" ∧
    (df_provider f = "" ∨ rt_Provider runtime = df_provider f) ∧ (df_runtimeID f = "" ∨ rt_ID runtime = df_runtimeID f) ∧
    (df_execute f = true → ∃ now queued artifacts,
       let request := probe_request f runtime now in
       rr_ID (req_Runtime request) = rt_ID runtime ∧ rr_Provider (req_Runtime request) = rt_Provider runtime ∧
       returned (sdk_Submit (cn_Client cn) request) queued ∧
       returned (watchRun (cn_Client cn) probe_err rounds (run_ID queued)) () ∧
       returned (sdk_Artifacts (cn_Client cn) (run_ID queued)) artifacts ∧ artifacts ≠ []).
Proof.
  unfold doctor. intros Hd. apply bind_ok in Hd as ([f operands] & w1 & (? & ? & Hparse) & Hd).
  injection Hparse as Hparse _. destruct operands as [|]; [|done]. cbn [is_empty negb] in Hd.
  destruct (df_timeout f <=? 0)%Z eqn:Ht; [done|]. apply Z.leb_gt in Ht.
  apply bind_ok in Hd as (u1 & w2 & Hhealth%step_returned & Hd). apply bind_ok in Hd as (u2 & w3 & _ & Hd).
  apply bind_ok in Hd as (info & w4 & Hinfo%step_returned & Hd). apply bind_ok in Hd as (u3 & w5 & _ & Hd).
  destruct (bi_ProtocolVersion info =s ProtocolVersion) eqn:Hp; [|done]. apply bool_decide_eq_true in Hp. cbn [negb] in Hd.
  apply bind_ok in Hd as (nodes & w6 & Hnodes%step_returned & Hd). apply bind_ok in Hd as (u4 & w7 & _ & Hd).
  destruct (candidates f nodes) as [|[node runtime] rest] eqn:Hcand; [done|].
  apply bind_ok in Hd as (u5 & w8 & _ & Hd). apply bind_ok in Hd as (u6 & w9 & _ & Hd).
  destruct (candidate_eligible f nodes node runtime) as (Hin & Hne & Hrin & Hre); [rewrite Hcand; by left|].
  unfold node_eligible in Hne. rewrite andb_true_iff, !bool_decide_eq_true in Hne. destruct Hne as [Hon Hnp].
  unfold runtime_eligible in Hre. rewrite negb_true_iff, !orb_false_iff, !andb_false_iff, !negb_false_iff, bool_decide_eq_false,
    !bool_decide_eq_true in Hre. destruct Hre as [[Hst Hprov] Hrid]. destruct u1.
  exists f, info, nodes, node, runtime. split_and!; try done.
  intros Hex. rewrite Hex in Hd. unfold execution_probe in Hd. apply bind_ok in Hd as (u7 & w10 & _ & Hd).
  apply bind_ok in Hd as (now & w11 & _ & Hd). apply bind_ok in Hd as (queued & w12 & Hsub%step_returned & Hd).
  apply bind_ok in Hd as ([] & w13 & Hwatch%step_returned & Hd). apply bind_ok in Hd as (artifacts & w14 & Hart%step_returned & Hd).
  exists now, queued, artifacts. split_and!; [done| |done..|by destruct artifacts].
  cbn. destruct Hprov as [->|<-]; [done|]. by case_bool_decide.
Qed.
End lines.

(** ** Watching *)
Section watch.
Context `{Host} `{TimeParser} `{Encoder} `{JsonParser} `{Faults} `{Environment} `{Zone} {X : Type}.

Definition env_of (w : World (Term X)) : World X := mkWorld (w_tick w) (tm_env (w_st w)).
Definition shown_lines (events : list Event) : string := foldr String.append "" (map event_line events).
Lemma shown_lines_app a b : shown_lines (a ++ b) = shown_lines a +:+ shown_lines b.
Proof. unfold shown_lines. induction a as [|e a IH]; [done|]. cbn. by rewrite IH, str_app_assoc. Qed.

(** Only [events] were printed, and nothing else of the terminal changed. *)
Definition printed_events (events : list Event) (t t' : Term X) : Prop :=
  tm_out t' = tm_out t +:+ shown_lines events ∧ tm_files t' = tm_files t ∧
  tm_last t' = default (tm_last t) (ev_Sequence <$> last events).

Class Watched (client : Client (Term X)) (id : string) := {
  wt_ok : World X → Prop;
  wt_log : World X → list Event;
  wt_run : Run → World X → Prop;
  wt_steady : Prop;
  wt_ended : World X → Prop;
  wt_tick w : wt_ok w → wt_ok (mkWorld (w_tick w + 1) (w_st w)) ∧
              wt_log (mkWorld (w_tick w + 1) (w_st w)) = wt_log w ∧
              (wt_ended w → wt_ended (mkWorld (w_tick w + 1) (w_st w)));
  wt_run_tick r w : wt_run r w → wt_run r (mkWorld (w_tick w + 1) (w_st w));
  wt_numbered w i e : wt_ok w → wt_log w !! i = Some e → ev_Sequence e = Z.of_nat (S i);
  wt_stream w after : wt_ok (env_of w) → (0 ≤ after ≤ Z.of_nat (length (wt_log (env_of w))))%Z →
    let '(r, w') := sdk_StreamEvents client id after print_event w in
    wt_ok (env_of w') ∧ wt_log (env_of w) `prefix_of` wt_log (env_of w') ∧
    ∃ got, got `prefix_of` drop (Z.to_nat after) (wt_log (env_of w')) ∧ printed_events got (w_st w) (w_st w') ∧
      (wt_steady → wt_ended (env_of w) → wt_ended (env_of w') ∧ got = drop (Z.to_nat after) (wt_log (env_of w')));
  wt_answer w : wt_ok (env_of w) →
    let '(r, w') := sdk_Run client id w in
    wt_ok (env_of w') ∧ wt_log (env_of w) `prefix_of` wt_log (env_of w') ∧ printed_events [] (w_st w) (w_st w') ∧
    (∀ run, r = Ok run → wt_run run (env_of w')) ∧
    (wt_steady → wt_ended (env_of w) →
       wt_log (env_of w') = wt_log (env_of w) ∧ ∃ run, r = Ok run ∧ terminalStatus (run_Status run) = true)
}.
End watch.

Section shows.
Context `{Host} `{TimeParser} `{Encoder} `{JsonParser} `{Faults} `{Environment} `{Zone} {X : Type}.
Context (client : Client (Term X)) (ctx_err : nat → option Error) (id : string) {Wt : Watched client id}.
Abbreviation logs w := (wt_log (env_of w)).

(** So far: the lines shown since the output was [out] are those of the log up to [tm_last]. *)
Definition following (out : string) (files : FS) (w : World (Term X)) : Prop :=
  wt_ok (env_of w) ∧ (0 ≤ tm_last (w_st w) ≤ Z.of_nat (length (logs w)))%Z ∧
  tm_out (w_st w) = out +:+ shown_lines (take (Z.to_nat (tm_last (w_st w))) (logs w)) ∧ tm_files (w_st w) = files.

Lemma following_tick out files w : following out files w → following out files (mkWorld (w_tick w + 1) (w_st w)).
Proof.
  intros (Hok & Hl & Ho & Hf). destruct (wt_tick (env_of w) Hok) as (Hok' & He & _).
  change (mkWorld _ _) with (env_of (mkWorld (w_tick w + 1) (w_st w))) in He, Hok'.
  unfold following. by rewrite He.
Qed.

Lemma last_take_numbered w n :
  wt_ok (env_of w) → n ≤ length (logs w) → default 0%Z (ev_Sequence <$> last (take n (logs w))) = Z.of_nat n.
Proof.
  intros Hok Hn. destruct n as [|n]; [by rewrite take_0|]. destruct (lookup_lt_is_Some_2 (logs w) n) as [e He]; [lia|].
  rewrite (take_S_r _ _ _ He), last_snoc. cbn. by rewrite (wt_numbered _ _ _ Hok He).
Qed.

(** A stream goes on where the last one stopped. *)
Lemma following_stream out files w :
  following out files w →
  let '(r, w') := sdk_StreamEvents client id (tm_last (w_st w)) print_event w in
  following out files w' ∧ logs w `prefix_of` logs w' ∧
  (wt_steady → wt_ended (env_of w) → wt_ended (env_of w') ∧ tm_last (w_st w') = Z.of_nat (length (logs w'))).
Proof.
  intros (Hok & Hl & Ho & Hf). pose proof (wt_stream w _ Hok Hl) as Hs.
  destruct (sdk_StreamEvents _ _ _ _ w) as [r w']. destruct Hs as (Hok' & Hp & got & Hgot & (Hout & Hfiles & Hlast) & Hend).
  set (n := Z.to_nat (tm_last (w_st w))) in *.
  assert (Hn : n ≤ length (logs w)) by lia.
  assert (Htake : take n (logs w) = take n (logs w')) by (destruct Hp as [l ->]; by rewrite take_app_le).
  assert (Hlen : length (logs w) ≤ length (logs w')) by by apply prefix_length.
  assert (Hsnd : take (n + length got) (logs w') = take n (logs w') ++ got).
  { destruct Hgot as [l Hl']. rewrite <- (take_drop n (logs w')) at 1. rewrite Hl'.
    rewrite take_app, length_take_le, take_take, Nat.min_r by lia.
    replace (n + length got - n) with (length got) by lia. by rewrite take_app_length. }
  assert (Hbound : n + length got ≤ length (logs w')).
  { apply prefix_length in Hgot. rewrite length_drop in Hgot. lia. }
  assert (Hnew : tm_last (w_st w') = Z.of_nat (n + length got)).
  { rewrite <- (last_take_numbered w') by done. rewrite Hsnd, last_app, Hlast.
    destruct (last got) as [e|] eqn:Hg; [done|]. apply last_None in Hg as ->. cbn.
    rewrite last_take_numbered by (done || lia). lia. }
  split_and!; [|done|].
  - unfold following. rewrite Hnew, Nat2Z.id. split_and!; [done|lia|lia| |by rewrite Hfiles].
    by rewrite Hout, Ho, Htake, Hsnd, shown_lines_app, str_app_assoc.
  - intros Hst He. destruct (Hend Hst He) as [He' Hall]. split; [done|]. rewrite Hnew, Hall, length_drop. lia.
Qed.

Definition report (run : Run) : string := nl +:+ run_table run.
Definition failure_of (run : Run) : Error := errors_New ("run failed: " +:+ run_Error run).

(** The log so far, then the table of the run, which is over. *)
Definition closed (out : string) (files : FS) (run : Run) (w : World (Term X)) : Prop :=
  wt_ok (env_of w) ∧ (0 ≤ tm_last (w_st w) ≤ Z.of_nat (length (logs w)))%Z ∧
  tm_out (w_st w) = out +:+ shown_lines (take (Z.to_nat (tm_last (w_st w))) (logs w)) +:+ report run ∧
  tm_files (w_st w) = files ∧ wt_run run (env_of w) ∧ terminalStatus (run_Status run) = true.

Lemma following_close out files w run :
  following out files w → wt_run run (env_of w) → terminalStatus (run_Status run) = true →
  closed out files run (Fprint (report run) w).2.
Proof. intros (Hok & Hl & Ho & Hf) Hr Ht. unfold closed. cbn. rewrite Ho, !str_app_assoc. done. Qed.

Lemma following_answer out files w :
  following out files w →
  let '(r, w') := sdk_Run client id w in
  following out files w' ∧ logs w `prefix_of` logs w' ∧ tm_last (w_st w') = tm_last (w_st w) ∧
  (∀ run, r = Ok run → wt_run run (env_of w')) ∧
  (wt_steady → wt_ended (env_of w) → logs w' = logs w ∧ ∃ run, r = Ok run ∧ terminalStatus (run_Status run) = true).
Proof.
  intros (Hok & Hl & Ho & Hf). pose proof (wt_answer w Hok) as Ha. destruct (sdk_Run _ _ w) as [r w'].
  destruct Ha as (Hok' & Hp & (Hout & Hfiles & Hlast) & Hrun & Hend). cbn in Hout, Hlast.
  rewrite str_app_nil_r in Hout. split_and!; try done. pose proof (prefix_length _ _ Hp) as Hlen.
  unfold following. rewrite Hlast, Hout, Hfiles, Ho. split_and!; [done|lia|lia| |done].
  destruct Hp as [l ->]. by rewrite take_app_le by lia.
Qed.

(** One round. *)
Definition round_done (out : string) (files : FS) (r : Res bool) (w' : World (Term X)) : Prop :=
  match r with
  | Ok false => following out files w'
  | Ok true => ∃ run, closed out files run w' ∧ run_Status run ≠ RunFailed
  | Err err => following out files w' ∨
               ∃ run, closed out files run w' ∧ run_Status run = RunFailed ∧ err = failure_of run
  end.
Lemma round_spec out files w :
  following out files w →
  let '(r, w') := watch_round client ctx_err id w in
  logs w `prefix_of` logs w' ∧ round_done out files r w' ∧
  (wt_steady → wt_ended (env_of w) → (∀ n, ctx_err n = None) →
     r ≠ Ok false ∧ tm_last (w_st w') = Z.of_nat (length (logs w')) ∧ ∃ run, closed out files run w').
Proof.
  intros Hf. unfold watch_round, gets, mbind, M_bind, try. pose proof (following_stream out files w Hf) as Hs.
  destruct (sdk_StreamEvents _ _ _ _ w) as [streamErr w1]. destruct Hs as (Hf1 & Hp1 & Hend1).
  unfold host. set (w2 := mkWorld (w_tick w1 + 1) (w_st w1)). pose proof (following_tick out files w1 Hf1) as Hf2. fold w2 in Hf2.
  destruct (wt_tick (env_of w1) (proj1 Hf1)) as (_ & Hlog2 & Hend2).
  change (mkWorld (w_tick (env_of w1) + 1) (w_st (env_of w1))) with (env_of w2) in Hlog2, Hend2.
  destruct (ctx_err (w_tick w1)) as [err|] eqn:Hctx.
  { split_and!; [by rewrite Hlog2|by left|]. intros _ _ Hn. by rewrite Hn in Hctx. }
  pose proof (following_answer out files w2 Hf2) as Ha. destruct (sdk_Run _ _ w2) as [r w3].
  destruct Ha as (Hf3 & Hp3 & Hl3 & Hrun & Hend3). rewrite Hlog2 in Hp3, Hend3. pose proof (transitivity Hp1 Hp3) as Hp.
  assert (Hsteady : wt_steady → wt_ended (env_of w) →
    tm_last (w_st w3) = Z.of_nat (length (logs w3)) ∧ ∃ run, r = Ok run ∧ terminalStatus (run_Status run) = true).
  { intros Hs He. destruct (Hend1 Hs He) as [He1 Hlast]. destruct (Hend3 Hs (Hend2 He1)) as [Hlogs Hr].
    split; [|done]. rewrite Hl3, Hlogs. exact Hlast. }
  destruct r as [run|err].
  - destruct (terminalStatus (run_Status run)) eqn:Ht.
    + pose proof (following_close out files w3 run Hf3 (Hrun run eq_refl) Ht) as Hc. fold (report run).
      change (Fprint (report run) w3) with (Ok (), (Fprint (report run) w3).2). cbn iota beta.
      set (w4 := (Fprint (report run) w3).2) in *.
      assert (Hfin : wt_steady → wt_ended (env_of w) →
                tm_last (w_st w4) = Z.of_nat (length (logs w4)) ∧ ∃ run, closed out files run w4).
      { intros Hs He. destruct (Hsteady Hs He) as [Hl _]. split; [exact Hl|by exists run]. }
      destruct (decide (run_Status run = RunFailed)) as [Hfail|Hfail].
      * rewrite bool_decide_eq_true_2 by done. split_and!; [done|right; by exists run|].
        intros Hs He _. split; [done|]. by apply Hfin.
      * rewrite bool_decide_eq_false_2 by done. split_and!; [done|by exists run|].
        intros Hs He _. split; [done|]. by apply Hfin.
    + assert (Hno : wt_steady → wt_ended (env_of w) → False).
      { intros Hs He. destruct (Hsteady Hs He) as (_ & run' & [= <-] & Ht'). congruence. }
      destruct streamErr as [[]|err]; [|destruct (errors_Is err ErrNotFound)]; (split_and!; [done|by try left|]);
        intros Hs He; by destruct (Hno Hs He).
  - split_and!; [done|by left|]. intros Hs He. destruct (Hsteady Hs He) as (_ & run' & [=] & _).
Qed.

Definition loop_done (out : string) (files : FS) (r : Res ()) (w' : World (Term X)) : Prop :=
  match r with
  | Ok _ => ∃ run, closed out files run w' ∧ run_Status run ≠ RunFailed
  | Err err => following out files w' ∨
               ∃ run, closed out files run w' ∧ run_Status run = RunFailed ∧ err = failure_of run
  end.
Lemma loop_spec out files rounds w :
  following out files w →
  let '(r, w') := watch_loop client ctx_err rounds id w in
  logs w `prefix_of` logs w' ∧ loop_done out files r w' ∧
  (wt_steady → wt_ended (env_of w) → (∀ n, ctx_err n = None) → 0 < rounds →
     tm_last (w_st w') = Z.of_nat (length (logs w')) ∧ ∃ run, closed out files run w').
Proof.
  revert w. induction rounds as [|rounds IH]; intros w Hf; cbn [watch_loop].
  { split_and!; [done|by left|lia]. }
  unfold mbind at 1, M_bind at 1. pose proof (round_spec out files w Hf) as Hr.
  destruct (watch_round client ctx_err id w) as [[[|]|err] w1]; destruct Hr as (Hp & Hd & Hs); cbn [round_done] in Hd.
  - split_and!; [done..|]. intros St En Cx _. by apply Hs.
  - pose proof (following_tick out files w1 Hd) as Hf2. destruct (wt_tick (env_of w1) (proj1 Hd)) as (_ & Hlog & _).
    unfold mbind, M_bind, host. change (mkWorld _ _) with (env_of (mkWorld (w_tick w1 + 1) (w_st w1))) in Hlog.
    assert (Hno : wt_steady → wt_ended (env_of w) → (∀ n, ctx_err n = None) → False).
    { intros St En Cx. by destruct (Hs St En Cx) as [? _]. }
    destruct (ctx_err (w_tick w1)).
    + split_and!; [by rewrite Hlog|by left|]. intros St En Cx. by destruct (Hno St En Cx).
    + specialize (IH _ Hf2). destruct (watch_loop _ _ _ _ _) as [r w']. destruct IH as (Hp' & Hd' & _).
      split_and!; [by etrans; [exact Hp|]; rewrite <- Hlog|done|]. intros St En Cx. by destruct (Hno St En Cx).
  - split_and!; [done..|]. intros St En Cx _. by apply Hs.
Qed.

(** What is on the terminal at the end. *)
Definition told (out : string) (w' : World (Term X)) (events : list Event) (tail : string) : Prop :=
  tm_out (w_st w') = out +:+ shown_lines events +:+ tail.

(** A watch prints each event of the run's log once and in order, without a gap,
    across all interruptions of the stream, and touches no file.  It ends well
    only when the run succeeded or was cancelled, and then with the table of this
    run; when the run failed it says so and returns an error with its message; any
    other error leaves the lines alone.  If the run has ended, nothing is
    interrupted and the context lasts, the watch shows the whole log and the
    table. *)
Lemma watch_spec rounds w :
  wt_ok (env_of w) →
  let '(r, w') := watchRun client ctx_err rounds id w in
  logs w `prefix_of` logs w' ∧ tm_files (w_st w') = tm_files (w_st w) ∧
  ∃ n tail, told (tm_out (w_st w)) w' (take n (logs w')) tail ∧
    match r with
    | Ok _ => ∃ run, wt_run run (env_of w') ∧ run_Status run ∈ [RunSucceeded; RunCancelled] ∧ tail = report run
    | Err err => tail = "" ∨
                 ∃ run, wt_run run (env_of w') ∧ run_Status run = RunFailed ∧ tail = report run ∧ err = failure_of run
    end ∧
    (wt_steady → wt_ended (env_of w) → (∀ m, ctx_err m = None) → 0 < rounds →
       n = length (logs w') ∧ ∃ run, tail = report run ∧ wt_run run (env_of w')).
Proof.
  intros Hok. unfold watchRun. unfold mbind, M_bind, set_last, modify. cbn [w_tick w_st].
  set (w0 := mkWorld _ _). assert (Hf : following (tm_out (w_st w)) (tm_files (w_st w)) w0).
  { split_and!; [exact Hok|cbn; lia|cbn; lia| |done]. cbn. by rewrite str_app_nil_r. }
  pose proof (loop_spec _ _ rounds w0 Hf) as Hl. change (logs w0) with (logs w) in Hl. change (env_of w0) with (env_of w) in Hl.
  destruct (watch_loop client ctx_err rounds id w0) as [r w']. destruct Hl as (Hp & Hd & Hs).
  set (n := Z.to_nat (tm_last (w_st w'))).
  assert (Hfollow : following (tm_out (w_st w)) (tm_files (w_st w)) w' →
            told (tm_out (w_st w)) w' (take n (logs w')) "" ∧ tm_files (w_st w') = tm_files (w_st w)).
  { intros (_ & _ & Ho & ->). split; [|done]. unfold told. by rewrite Ho, str_app_nil_r. }
  assert (Hclosed : ∀ run, closed (tm_out (w_st w)) (tm_files (w_st w)) run w' →
            told (tm_out (w_st w)) w' (take n (logs w')) (report run) ∧ tm_files (w_st w') = tm_files (w_st w) ∧
            wt_run run (env_of w') ∧ terminalStatus (run_Status run) = true).
  { by intros run (_ & _ & Ho & -> & ? & ?). }
  destruct r as [[]|err]; cbn [loop_done] in Hd.
  - destruct Hd as (run & (Ht & Hfiles & Hrun & Hterm)%Hclosed & Hne). split_and!; [done..|].
    exists n, (report run). split_and!; [done| |].
    + exists run. split_and!; [done| |done]. unfold terminalStatus in Hterm. rewrite !orb_true_iff, !bool_decide_eq_true in Hterm.
      destruct Hterm as [[->|?]| ->]; [set_solver|done|set_solver].
    + intros St En Cx Rd. destruct (Hs St En Cx Rd) as [Hlast _]. split; [lia|by exists run].
  - destruct Hd as [Hd|(run & Hc & Hfail & ->)].
    + destruct (Hfollow Hd) as [Ht Hfiles]. split_and!; [done..|]. exists n, "". split_and!; [done|by left|].
      intros St En Cx Rd. exfalso. destruct (Hs St En Cx Rd) as (_ & run & Hc). destruct (Hclosed run Hc) as [Ht' _].
      unfold told in Ht, Ht'. rewrite Ht in Ht'. apply (f_equal String.length) in Ht'. rewrite !str_length_app in Ht'.
      unfold report in Ht'. rewrite str_length_app in Ht'. cbn in Ht'. lia.
    + destruct (Hclosed run Hc) as (Ht & Hfiles & Hrun & _). split_and!; [done..|]. exists n, (report run).
      split_and!; [done|right; by exists run|]. intros St En Cx Rd. destruct (Hs St En Cx Rd) as [Hlast _].
      split; [lia|by exists run].
Qed.
End shows.
