(* ===== verification/RelayCtlHttp.v ===== *)
(** * RelayCtlHttp: the workbench against the server

    The client of relayctl is the HTTP client over a connection that may be lost
    before a request or break while an answer is read.  Against the server over the
    in-memory storage it is a client as [Watched] wants it, whatever others do.  At
    the end relayctl on concrete data: a watch of a finished run, a submission and
    the doctor with a client that answers at once, and what goes wrong when a
    stream breaks at the end. *)

From S2P Require Import Prelude GoStrings Json Types Codec Wire WireProps Url Matching Event Demo Memory MemoryEffect MemoryInv MemorySystem Scenario Service ServiceProps Fs NodeDemo Process Http Stream Handler HttpClient HttpServed HttpProps HttpErrors HttpStream HttpDemo Sdk Terminal RelayCtl RelayCtlProps RuntimeDemo.

(** The n-th moment: the connection is lost, or the answer breaks off after so many bytes. *)
Class Line := { lost_at : nat → option Error; cut_at : nat → option nat }.

Definition on_env {X A} (m : M X A) : M (Term X) A := λ w,
  let '(r, w') := m (mkWorld (w_tick w) (tm_env (w_st w))) in
  (r, mkWorld (w_tick w') (mkTerm (tm_out (w_st w)) (tm_files (w_st w)) (tm_last (w_st w)) (w_st w'))).

Section connection.
Context `{Host} `{TimeParser} `{Encoder} `{JsonParser} `{Line} {X : Type} `{Transport X} (token : string).

(** What comes of an answer when the connection breaks after [n] bytes of its body. *)
Definition came (cut : option nat) (response : HttpResponse) : HttpResponse :=
  match cut with
  | Some n => mkAnswer (rs_Status response) (rs_Header response) (rs_SetCookie response) (str_take n (rs_Body response))
                (Some (errors_New "unexpected EOF"))
  | None => response
  end.
#[local] Instance over_line : Transport (Term X) := λ r,
  lost ← host lost_at;
  match lost with
  | Some err => raise err
  | None =>
      response ← on_env (Do r);
      cut ← host cut_at;
      mret (came cut response)
  end.

Definition http_backend : Backend (Term X) :=
  mkBackend _ (c_Submit token) (c_GetRun token) (c_CancelRun token) (c_ListRuns token) (c_SessionRuns token)
    (c_Attempts token) (c_Events token) (c_StreamEvents token) (c_Artifacts token) (c_OpenArtifact token)
    (c_Interactions token) (c_ResolveInteraction token) (c_Nodes token).
Definition http_client : Client (Term X) := New _ http_backend.

(** A call that is no stream fails, or does and answers what it does over an unbroken connection. *)
Definition same_screen (t t' : Term X) : Prop :=
  tm_out t' = tm_out t ∧ tm_files t' = tm_files t ∧ tm_last t' = tm_last t.
Definition finish {A} (c : Codec A) (path : string) (response : HttpResponse) : Res A :=
  match delivered "GET" path response with
  | Ok (Some body) => decode_response c body
  | Ok None => Ok (init c)
  | Err err => Err err
  end.
Definition get_request (path : string) : HttpRequest := authorize token (request "GET" path ∅ None).
Lemma do_out_Do {Y A} `{Transport Y} (c : Codec A) path (w : World Y) :
  do_out token c "GET" path ∅ None w =
  match Do (get_request path) w with
  | (Ok response, w') => (finish c path response, w')
  | (Err err, w') => (Err err, w')
  end.
Proof.
  unfold do_out, exchange, mbind, M_bind. fold (get_request path). destruct (Do (get_request path) w) as [[response|err] w']; [|done].
  unfold finish, delivered. destruct (_ =s _); [by destruct (Contains _ _)|]. destruct (read_body response); [|done]. cbn [res_bind]. by destruct (negb _).
Qed.

Lemma limited_take n s :
  (body_limit ≤ Z.of_nat (String.length (str_take n s)))%Z → limited (str_take n s) = limited s.
Proof.
  rewrite str_length_take. intros Hn. destruct (decide (String.length s ≤ n)) as [?|?]; [by rewrite str_take_ge|].
  unfold limited, fits_body. rewrite str_length_take, (proj2 (Z.leb_gt (Z.of_nat (String.length s)) _)) by lia.
  destruct (_ <=? _)%Z eqn:E; [|apply str_take_take; lia].
  apply Z.leb_le in E. f_equal. unfold body_limit in *. lia.
Qed.
(** Either the break is behind the limit of the reader, or it is an error. *)
Lemma read_came cut response :
  read_body (came cut response) = read_body response ∨
  (∃ n, cut = Some n) ∧ ∃ err, read_body (came cut response) = Err err.
Proof.
  destruct cut as [n|]; [|by left]. unfold read_body at 1 3. cbn [came rs_Broken rs_Body].
  destruct (_ <? body_limit)%Z eqn:E; [right; by split; eexists|left]. apply Z.ltb_ge in E.
  assert (Hlen : (body_limit ≤ Z.of_nat (String.length (rs_Body response)))%Z).
  { rewrite str_length_take in E. lia. }
  unfold read_body. rewrite (limited_take _ _ E). destruct (rs_Broken response); [|done].
  by rewrite (proj2 (Z.ltb_ge _ _) Hlen).
Qed.
Lemma finish_came {A} (c : Codec A) path cut response :
  finish c path (came cut response) = finish c path response ∨
  (∃ n, cut = Some n) ∧ ∃ err, finish c path (came cut response) = Err err.
Proof.
  unfold finish, delivered. assert (Hst : rs_Status (came cut response) = rs_Status response) by by destruct cut.
  rewrite Hst. destruct (_ =s _); [by left|].
  assert (Hsuc : success (came cut response) = success response) by (unfold success; by rewrite Hst). rewrite Hsuc.
  destruct (read_came cut response) as [->|[Hcut [err ->]]].
  - left. destruct (read_body response); [|done]. cbn [res_bind]. unfold response_error, Status. by rewrite Hst.
  - right. split; [done|]. by eexists.
Qed.

Lemma do_out_line {A} (c : Codec A) path (w : World (Term X)) :
  let env1 := mkWorld (w_tick w + 1) (tm_env (w_st w)) in
  let '(r, w') := do_out token c "GET" path ∅ None w in
  let '(r1, w1) := do_out token c "GET" path ∅ None env1 in
  same_screen (w_st w) (w_st w') ∧
  ((∃ err, r = Err err ∧ lost_at (w_tick w) = Some err ∧ env_of w' = env1) ∨
   (env_of w' = w1 ∧ r = r1) ∨
   (env_of w' = mkWorld (w_tick w1 + 1) (w_st w1) ∧ (r = r1 ∨ (∃ n, cut_at (w_tick w1) = Some n) ∧ ∃ err, r = Err err))).
Proof.
  intros env1. rewrite (do_out_Do (Y := X)), (do_out_Do (Y := Term X)).
  unfold Do at 1, over_line, host, mbind, M_bind, on_env, raise, mret, M_ret.
  destruct (lost_at (w_tick w)) as [err|]; cbn [w_tick w_st]; fold env1;
    (destruct (Do (get_request path) env1) as [[response|err1] [t1 s1]]; cbn [w_tick w_st]);
    [split; [done|left; by exists err]..| |split; [done|right; by left]].
  split; [done|]. right; right. split; [done|]. apply finish_came.
Qed.

(** The stream over the connection. *)
Definition back (w : World (Term X)) (w1 : World X) : World (Term X) :=
  mkWorld (w_tick w1) (mkTerm (tm_out (w_st w)) (tm_files (w_st w)) (tm_last (w_st w)) (w_st w1)).
Definition read_stream (after : Z) (handle : Event → M (Term X) ()) (response : HttpResponse) : M (Term X) () :=
  if negb (success response) then
    body ← lift_res (read_body response);
    if rs_Status response =s http_StatusNotFound
    then raise (wrapf ErrNotFound (TrimSpace body))
    else raise (opaque_error response)
  else scan_events handle (rs_Broken response) (scan_lines (rs_Body response)) after "" false.

Lemma stream_line id after handle (w : World (Term X)) :
  c_StreamEvents token id after handle w =
  match lost_at (w_tick w) with
  | Some err => (Err err, mkWorld (w_tick w + 1) (w_st w))
  | None =>
      match Do (stream_request token id after) (mkWorld (w_tick w + 1) (tm_env (w_st w))) with
      | (Err err, w1) => (Err err, back w w1)
      | (Ok response, w1) =>
          read_stream after handle (came (cut_at (w_tick w1)) response) (back w (mkWorld (w_tick w1 + 1) (w_st w1)))
      end
  end.
Proof.
  unfold c_StreamEvents, mbind at 1, M_bind at 1, Do at 1, over_line, host, mbind, M_bind, on_env.
  destruct (lost_at (w_tick w)); [done|]. cbn [w_tick w_st].
  destruct (Do (stream_request token id after) _) as [[response|err] w1]; [|done].
  done.
Qed.
End connection.

(** ** Printing instead of recording *)
Section printing.
Context `{Host} `{TimeParser} `{Encoder} `{JsonParser} `{Zone} {X : Type}.

Definition print_one (t : Term X) (e : Event) : Term X :=
  mkTerm (tm_out t +:+ event_line e) (tm_files t) (ev_Sequence e) (tm_env t).
Definition print_all (events : list Event) (t : Term X) : Term X := foldl print_one t events.

Lemma print_all_events events t : printed_events events t (print_all events t) ∧ tm_env (print_all events t) = tm_env t.
Proof.
  revert t. induction events as [|e events IH]; intros t; [by repeat split; rewrite ?str_app_nil_r|].
  cbn [print_all foldl]. fold (print_all events (print_one t e)). destruct (IH (print_one t e)) as [(Ho & Hf & Hl) He].
  split; [|exact He]. split_and!; [|exact Hf|].
  - rewrite Ho. cbn. by rewrite str_app_assoc.
  - rewrite Hl, last_cons. by destruct (last events).
Qed.

Lemma scan_printed broken lines : ∀ after data terminal, ∃ res got,
  (∀ w : World (list Event), scan_events record_event broken lines after data terminal w = (res, mkWorld (w_tick w) (w_st w ++ got))) ∧
  (∀ w : World (Term X), scan_events print_event broken lines after data terminal w = (res, mkWorld (w_tick w) (print_all got (w_st w)))).
Proof.
  assert (Hnone : ∀ res : Res (), ∃ res' got,
    (∀ w : World (list Event), (res, w) = (res', mkWorld (w_tick w) (w_st w ++ got))) ∧
    (∀ w : World (Term X), (res, w) = (res', mkWorld (w_tick w) (print_all got (w_st w))))).
  { intros res. exists res, []. split; intros [t x]; cbn; by rewrite ?app_nil_r. }
  induction lines as [|line lines IH]; intros after data terminal; cbn [scan_events].
  { destruct broken; [apply Hnone|]. destruct terminal; apply Hnone. }
  destruct (line_limit <=? _)%Z; [apply Hnone|]. destruct (line =s ""); [|by destruct (HasPrefix line "data:")].
  destruct (data =s ""); [done|]. destruct (res_bind _ _) as [event|err]; [|apply Hnone].
  destruct (ev_Sequence event <=? after)%Z; [done|].
  destruct (IH (ev_Sequence event) "" (terminal || bool_decide (ev_Type event ∈ ["run.succeeded"; "run.failed"; "run.cancelled"])))
    as (res & got & Hr & Hp).
  exists res, (event :: got). split; intros w.
  - unfold mbind, M_bind, record_event, modify. rewrite Hr. cbn. by rewrite <- app_assoc.
  - unfold mbind at 1, M_bind at 1. change (print_event event w) with (Ok (), mkWorld (w_tick w) (print_one (w_st w) event)).
    cbn iota beta. by rewrite Hp.
Qed.
End printing.

(** ** The client of the server *)
Section served.
Context `{HostLaws} `{TimeParser} `{!TimeLaws} `{Encoder} `{!LineText} `{Semver} `{JsonParser} `{!ParserLaws}
  `{Waiting} `{Peers Svc} `{Line} `{Zone} (server : Server) (token : string) (ctx : Ctx) (id : string).
#[local] Instance server_line : Transport Svc := server_transport server.
Abbreviation client := (http_client token : Client (Term Svc)).

(** The events of the run fit into the reader's buffer, the run into an answer. *)
Definition small (s : Svc) : Prop :=
  Forall frame_fits (map_get (ms_events (sv_storage s)) id) ∧
  ∀ r, ms_runs (sv_storage s) !! id = Some r → answer_fits wire_Run (Ok r).
Definition keeps_small : relation Svc := λ s s', small s → small s'.
#[local] Instance keeps_small_preorder : PreOrder keeps_small.
Proof. split; [by intros s Hs|]. intros s1 s2 s3 H12 H23 Hs. by apply H23, H12. Qed.

Context (Hpeers : ∀ n, respects keeps_small (peers_at n)).

Lemma GetRun_stays (w : World Svc) : (GetRun ctx id w).2 = w.
Proof.
  unfold GetRun, mbind, M_bind, lift_res, mret, M_ret. rewrite on_storage_GetRun. destruct (ms_runs _ !! id); [|done].
  by destruct (authorizeRunScope ctx _).
Qed.
Lemma GetRun_small : respects keeps_small (GetRun ctx id).
Proof. intros w. by rewrite GetRun_stays. Qed.
Lemma EventsAfter_small n : respects keeps_small (EventsAfter ctx id n).
Proof.
  unfold EventsAfter. apply respects_bind; [apply _|apply GetRun_small|]. intros r w.
  assert (Hr : reads (Memory.EventsAfter id n)).
  { unfold Memory.EventsAfter. apply reads_bind; [apply reads_gets|]. intros [run|]; [|apply reads_raise].
    apply reads_bind; [apply reads_gets|]. intros es. apply reads_ret. }
  destruct (Hr (storage_of w)) as [_ He]. intros Hs. unfold on_storage. cbn [st_EventsAfter memory_storage].
  change (mkWorld (w_tick w) (sv_storage (w_st w))) with (storage_of w).
  destruct (Memory.EventsAfter id n (storage_of w)) as [res w']. cbn in He |- *. unfold small. cbn. by rewrite He.
Qed.

#[local] Hint Resolve GetRun_small EventsAfter_small Hpeers : relay.
(** Through binds and branches. *)
Ltac stays_small := repeat first
  [ solve [eauto with relay typeclass_instances] | apply (respects_bind keeps_small); [|intros ?]
  | apply (respects_try keeps_small) | match goal with |- respects _ (match ?x with _ => _ end) => destruct x end
  | match goal with |- respects _ (if ?x then _ else _) => destruct x end
  | match goal with |- respects _ (let '(_, _) := ?x in _) => destruct x end ].

Lemma serve_small {A} (m : M Svc A) : respects keeps_small m → respects keeps_small (serve m).
Proof. intros Hm. unfold serve. stays_small. Qed.
Lemma write_small t s : respects keeps_small (S := Svc) (write t s).
Proof. unfold write. stays_small. Qed.
#[local] Hint Resolve serve_small write_small : relay.
Lemma writeEvents_small values : ∀ s, respects keeps_small (S := Svc) (writeEvents values s).
Proof. induction values as [|e values IH]; intros s; cbn [writeEvents]; stays_small. Qed.
#[local] Hint Resolve writeEvents_small : relay.
Lemma stream_loop_small fuel : ∀ s, respects keeps_small (stream_loop fuel ctx id s).
Proof. induction fuel as [|fuel IH]; intros s; cbn [stream_loop]; stays_small. Qed.
#[local] Hint Resolve stream_loop_small : relay.
Lemma streamEvents_small r : respects keeps_small (streamEvents (srv_Rounds server) id ctx r).
Proof. unfold streamEvents. stays_small. Qed.

Context (Ho : orderly) (Hc : credentials (srv_Auth server) token ctx) (Hm : may_call ctx false None) (Hid : plain_id id).

(** Every moment of the watch. *)
Definition http_ok (w : World Svc) : Prop := visible ctx id w ∧ small (w_st w).
Definition http_run (run : Run) (w : World Svc) : Prop :=
  ∃ r, ms_runs (sv_storage (w_st w)) !! id = Some r ∧ run = sent_Run r.
Definition http_steady : Prop :=
  unbroken ∧ 0 < srv_Rounds server ∧ (∀ n, lost_at n = None) ∧ (∀ n, cut_at n = None).

Lemma http_ok_later w w' : http_ok w → later w w' → small (w_st w') → http_ok w'.
Proof. intros [Hv _] Hl Hs. split; [by eapply later_visible|done]. Qed.
Lemma http_ok_tick w k : http_ok w → http_ok (mkWorld (w_tick w + k) (w_st w)).
Proof. intros Hok. apply (http_ok_later w); [done| |apply Hok]. apply later_tick, Hok. Qed.
Lemma http_numbered w i e : http_ok w → log w id !! i = Some e → ev_Sequence e = Z.of_nat (S i).
Proof. intros [[Hi _] _] He. destruct (inv_events _ Hi id _ _ He) as [-> _]. lia. Qed.
Lemma http_cursor w after : http_ok w → (0 ≤ after ≤ Z.of_nat (length (log w id)))%Z → int64 after = true.
Proof.
  intros Hok Ha. destruct (decide (after = 0)%Z) as [->|Hne]; [reflexivity|].
  destruct (lookup_lt_is_Some_2 (log w id) (Z.to_nat after - 1)) as [e He]; [lia|].
  pose proof (http_numbered _ _ _ Hok He) as Hn. destruct Hok as [_ [Hs _]].
  pose proof (Forall_lookup_1 _ _ _ _ Hs He) as [Hf _]. cbn in Hf. repeat (apply andb_true_iff in Hf as [? Hf]).
  replace after with (ev_Sequence e) by lia. done.
Qed.

(** What the answer of the server becomes on the screen. *)
Lemma printed_text broken chunks cut rest after (w : World (Term Svc)) :
  text chunks = cut +:+ rest → Forall frame_fits (sent chunks) →
  (∀ i e, sent chunks !! i = Some e → ev_Sequence e = (after + 1 + Z.of_nat i)%Z) →
  ∃ res got, got `prefix_of` sent chunks ∧ (rest = "" → got = sent chunks) ∧
    scan_events print_event broken (scan_lines cut) after "" false w = (res, mkWorld (w_tick w) (print_all got (w_st w))).
Proof.
  intros Ht Hf Hn. destruct (scan_text broken chunks cut rest after false (mkWorld 0 []) Ht Hf Hn) as (got & Hp & Hall & Hs).
  destruct (scan_printed (X := Svc) broken (scan_lines cut) after "" false) as (res & got' & Hr & Hpr).
  rewrite Hr in Hs. injection Hs as -> ->. exists (outcome broken (false || existsb is_end got)), got. by split_and!.
Qed.

Lemma http_stream (w : World (Term Svc)) after :
  http_ok (env_of w) → (0 ≤ after ≤ Z.of_nat (length (log (env_of w) id)))%Z →
  let '(r, w') := sdk_StreamEvents client id after print_event w in
  http_ok (env_of w') ∧ log (env_of w) id `prefix_of` log (env_of w') id ∧
  ∃ got, got `prefix_of` drop (Z.to_nat after) (log (env_of w') id) ∧ printed_events got (w_st w) (w_st w') ∧
    (http_steady → ended id (env_of w) → ended id (env_of w') ∧ got = drop (Z.to_nat after) (log (env_of w') id)).
Proof.
  intros Hok Ha. unfold sdk_StreamEvents. cbn [backend http_client bk_StreamEvents http_backend].
  rewrite stream_line. set (env1 := mkWorld (w_tick w + 1) (tm_env (w_st w))).
  assert (Hok1 : http_ok env1) by apply (http_ok_tick (env_of w)), Hok.
  destruct (lost_at (w_tick w)) as [err|] eqn:Hlost.
  { split_and!; [exact Hok1|done|]. exists []. split_and!; [apply prefix_nil|..].
    - by repeat split; rewrite ?str_app_nil_r.
    - intros (_ & _ & Hno & _). by rewrite Hno in Hlost. }
  pose proof (http_cursor env1 after Hok1 Ha) as Hint.
  destruct (stream_reached server token ctx id after env1 Hc Hm Hid (proj1 Ha) Hint) as [Hserve Hafter].
  destruct (stream_answer Ho ctx id after (proj1 Ha) (srv_Rounds server) _ env1 (proj1 Hok1) Hafter) as (w1 & chunks & Hans & Hl & Hp & Hend).
  pose proof (streamEvents_small (stream_request token id after) env1 (proj2 Hok1)) as Hsmall.
  rewrite Hans in Hsmall. cbn [snd] in Hsmall.
  pose proof (http_ok_later env1 w1 Hok1 Hl Hsmall) as Hok2. pose proof (http_ok_tick w1 1 Hok2) as Hok3.
  unfold Do, server_line, server_transport. rewrite Hserve, Hans. cbn [w_tick w_st].
  assert (Hcut : ∃ cut rest broken, text chunks = cut +:+ rest ∧ (cut_at (w_tick w1) = None → rest = "") ∧
    came (cut_at (w_tick w1)) (mkHttpResponse http_StatusOK stream_header None (text chunks)) =
    mkAnswer http_StatusOK stream_header None cut broken).
  { destruct (cut_at (w_tick w1)) as [n|].
    - exists (str_take n (text chunks)), (str_drop n (text chunks)), (Some (errors_New "unexpected EOF")). by rewrite str_take_drop.
    - exists (text chunks), "", None. by rewrite str_app_nil_r. }
  destruct Hcut as (cut & rest & broken & Htext & Hwhole & ->). unfold read_stream. change (negb (success _)) with false. cbn iota.
  cbn [rs_Body rs_Broken]. destruct (printed_text broken chunks cut rest after (back w (mkWorld (w_tick w1 + 1) (w_st w1)))) as (res & got & Hgot & Hall & ->).
  { done. }
  { destruct Hok2 as [_ [Hf _]]. destruct Hp as [l Hp]. apply (Forall_drop _ (Z.to_nat after)) in Hf.
    unfold log in Hp. rewrite Hp in Hf. by apply Forall_app in Hf as [? _]. }
  { intros i e He. destruct Hp as [l Hp]. assert (Hlog : log w1 id !! (Z.to_nat after + i)%nat = Some e).
    { rewrite <- lookup_drop, Hp. by apply lookup_app_l_Some. }
    rewrite (http_numbered _ _ _ Hok2 Hlog). lia. }
  set (b := back w _). destruct (print_all_events got (w_st b)) as [Hpr He].
  assert (Henv : env_of (mkWorld (w_tick b) (print_all got (w_st b))) = mkWorld (w_tick w1 + 1) (w_st w1)).
  { unfold env_of. cbn [w_st w_tick]. by rewrite He. }
  rewrite Henv.
  split_and!; [exact Hok3|exact (later_log _ _ id Hl)|]. exists got. split_and!; [by etrans|exact Hpr|].
  intros (Hu & Hr & _ & Hno) Hended. split; [by apply (ended_later id env1 w1)|].
  rewrite (Hall (Hwhole (Hno _))). by apply Hend.
Qed.

Lemma http_answer (w : World (Term Svc)) :
  http_ok (env_of w) →
  let '(r, w') := sdk_Run client id w in
  http_ok (env_of w') ∧ log (env_of w) id `prefix_of` log (env_of w') id ∧ printed_events [] (w_st w) (w_st w') ∧
  (∀ run, r = Ok run → http_run run (env_of w')) ∧
  (http_steady → ended id (env_of w) →
     log (env_of w') id = log (env_of w) id ∧ ∃ run, r = Ok run ∧ terminalStatus (run_Status run) = true).
Proof.
  intros Hok. set (env1 := mkWorld (w_tick w + 1) (tm_env (w_st w))).
  assert (Hok1 : http_ok env1) by apply (http_ok_tick (env_of w)), Hok.
  destruct (visible_GetRun ctx id env1 (proj1 Hok1)) as (run & Hget & Hrun).
  assert (Hremote : remote server token (CallGetRun id) env1 = (Ok (sent_Run run), env1)).
  { pose proof (served_remotely server token ctx Hc (CallGetRun id) env1 Hm Hid) as Hs. cbn [carried direct] in Hs.
    rewrite Hget in Hs. specialize (Hs (proj2 (proj2 Hok1) run Hrun)).
    destruct (remote server token (CallGetRun id) env1) as [[r'|e] w2]; destruct Hs as [-> Hs]; [|done].
    by rewrite Hs. }
  pose proof (do_out_line (X := Svc) token wire_Run (run_path id) w) as Hline.
  unfold sdk_Run. cbn [backend http_client bk_GetRun http_backend]. unfold c_GetRun. cbn zeta in Hline. fold env1 in Hline.
  cbn [remote] in Hremote. unfold c_GetRun in Hremote.
  change (do_out token wire_Run "GET" (run_path id) ∅ None env1 = (Ok (sent_Run run), env1)) in Hremote.
  rewrite Hremote in Hline. destruct (do_out token wire_Run "GET" (run_path id) ∅ None w) as [r w'].
  destruct Hline as ((Hout & Hfiles & Hlast) & Hcases).
  assert (Hpr : printed_events [] (w_st w) (w_st w')) by by repeat split; rewrite ?str_app_nil_r.
  assert (Henv : ∃ k, env_of w' = mkWorld (w_tick w + k) (tm_env (w_st w)) ∧ http_ok (env_of w')).
  { destruct Hcases as [(err & _ & _ & ->)|[[-> _]|[-> _]]].
    - exists 1. by split.
    - exists 1. by split.
    - exists (1 + 1). split; [|by apply http_ok_tick]. cbn. f_equal. lia. }
  destruct Henv as (k & Henv & Hok'). assert (Hlog : log (env_of w') id = log (env_of w) id) by by rewrite Henv.
  split_and!; [done|by rewrite Hlog|done| |].
  - intros run' ->. destruct Hcases as [(? & [=] & _)|[[_ [= ->]]|[_ [[= ->]|[_ (? & [=])]]]]];
      exists run; by rewrite Henv.
  - intros (_ & _ & Hlost & Hcut) (run' & Hrun' & Ht). split; [done|]. exists (sent_Run run).
    assert (run' = run) as -> by (cbn in Hrun, Hrun'; congruence).
    destruct Hcases as [(? & _ & Hl & _)|[[_ ->]|[_ [->|[(n & Hn) _]]]]]; [by rewrite Hlost in Hl|split; [done|]..|by rewrite Hcut in Hn];
      rewrite <- streamTerminal_phase in Ht; by destruct run.
Qed.

#[export] Instance http_watched : Watched client id := {|
  wt_ok := http_ok; wt_log w := log w id; wt_run := http_run; wt_steady := http_steady; wt_ended := ended id;
  wt_tick w Hok := conj (http_ok_tick w 1 Hok) (conj eq_refl (λ He, He));
  wt_run_tick r w Hr := Hr; wt_numbered := http_numbered; wt_stream := http_stream; wt_answer := http_answer |}.

Context `{Faults} `{Environment}.

(** C23: Watching a run over HTTP shows its log.  However often the connection is lost
    or breaks while others use the service, the lines on the terminal are those of
    a prefix of the run's log, each event once and in order, and no file is
    touched.  The watch ends well only when the stored run succeeded or was
    cancelled, and then with the table of this run; when it failed the watch shows
    the same table and fails with the message of the run; any other error comes
    after lines of the log only.  When the run has ended and nothing breaks, it is
    the whole log.  (The events and the run fit into what the client reads; the
    others keep it so.) *)
Theorem watch_over_http ctx_err rounds (w : World (Term Svc)) :
  visible ctx id (env_of w) → small (tm_env (w_st w)) →
  let '(r, w') := watchRun client ctx_err rounds id w in
  let events := log (env_of w') id in
  log (env_of w) id `prefix_of` events ∧ tm_files (w_st w') = tm_files (w_st w) ∧
  ∃ n tail, tm_out (w_st w') = tm_out (w_st w) +:+ shown_lines (take n events) +:+ tail ∧
    match r with
    | Ok _ => ∃ run, http_run run (env_of w') ∧ run_Status run ∈ [RunSucceeded; RunCancelled] ∧ tail = nl +:+ run_table run
    | Err err => tail = "" ∨
                 ∃ run, http_run run (env_of w') ∧ run_Status run = RunFailed ∧ tail = nl +:+ run_table run ∧
                        err = errors_New ("run failed: " +:+ run_Error run)
    end ∧
    (http_steady → ended id (env_of w) → (∀ m, ctx_err m = None) → 0 < rounds →
       n = length events ∧ ∃ run, tail = nl +:+ run_table run ∧ http_run run (env_of w')).
Proof. intros Hv Hs. exact (watch_spec client ctx_err id rounds w (conj Hv Hs)). Qed.
End served.

(** ** On concrete data *)
#[local] Instance utc : Zone := {| clock_text t := pretty t; date_text t := pretty t |}.
#[local] Instance quiet_peers : Peers Svc := λ _, mret ().
#[local] Instance good_line : Line := {| lost_at _ := None; cut_at _ := None |}.
Definition terminal {X} (w : World X) : World (Term X) := mkWorld (w_tick w) (mkTerm "" ∅ 0 (w_st w)).
Lemma env_of_terminal {X} (w : World X) : env_of (terminal w) = w.
Proof. by destruct w. Qed.
Definition finished : World (Term Svc) := terminal (behind succeeded_world).
Definition no_end (_ : nat) : option Error := None.

Abbreviation watch_on line :=
  (watchRun (http_client (H3 := line) (H4 := server_line demo_server) "host-token" : Client (Term Svc)) no_end 3 the_run finished).

Lemma quiet_orderly : orderly.
Proof. intros n w. exists []. split; [constructor|]. by destruct w as [t [s b]]. Qed.
Lemma quiet_small n : respects (keeps_small the_run) (peers_at (X := Svc) n).
Proof. by intros w Hs. Qed.
(** [small] is decidable. *)
Definition is_small (s : Svc) : bool :=
  forallb (λ e, fits wire_Event e && (Z.of_nat (String.length (frame e)) <? line_limit)%Z)
    (map_get (ms_events (sv_storage s)) the_run) &&
  match ms_runs (sv_storage s) !! the_run with
  | Some r => fits wire_Run r && fits_body (json_text (enc wire_Run r) +:+ nl)
  | None => true
  end.
Lemma is_small_spec s : is_small s = true → small the_run s.
Proof.
  unfold is_small. rewrite andb_true_iff, forallb_forall. intros [He Hr]. split.
  - apply Forall_forall. intros e Hin%list_elem_of_In. specialize (He e Hin).
    apply andb_true_iff in He as [Hf Hl%Z.ltb_lt]. exact (conj Hf Hl).
  - intros r Hrun. rewrite Hrun in Hr. apply andb_true_iff in Hr as [Hf Hb]. exact (conj Hf Hb).
Qed.
Lemma finished_small : small the_run (tm_env (w_st finished)).
Proof. apply is_small_spec. vm_compute. reflexivity. Qed.

(** The finished run is shown whole. *)
Lemma watch_over_http_witness :
  let '(r, w') := watch_on good_line in
  let events := log (env_of w') the_run in
  log (env_of finished) the_run `prefix_of` events ∧ tm_files (w_st w') = tm_files (w_st finished) ∧
  ∃ n tail, tm_out (w_st w') = tm_out (w_st finished) +:+ shown_lines (take n events) +:+ tail ∧
    match r with
    | Ok _ => ∃ run, http_run the_run run (env_of w') ∧ run_Status run ∈ [RunSucceeded; RunCancelled] ∧ tail = nl +:+ run_table run
    | Err err => tail = "" ∨
                 ∃ run, http_run the_run run (env_of w') ∧ run_Status run = RunFailed ∧ tail = nl +:+ run_table run ∧
                        err = errors_New ("run failed: " +:+ run_Error run)
    end ∧
    (http_steady demo_server → ended the_run (env_of finished) → (∀ m, no_end m = None) → 0 < 3 →
       n = length events ∧ ∃ run, tail = nl +:+ run_table run ∧ http_run the_run run (env_of w')).
Proof.
  assert (Hv : visible (Some host_scope) the_run (env_of finished)).
  { unfold finished. rewrite env_of_terminal. split; [rewrite storage_of_behind; apply reachable_inv; demo_reach|].
    exists (run_in succeeded_world the_run). split; [by vm_compute|]. right. split; right; by vm_compute. }
  assert (Hm : may_call (Some host_scope) false None) by by split.
  assert (Hid : plain_id the_run) by by vm_compute.
  pose proof (watch_over_http demo_server "host-token" (Some host_scope) the_run quiet_small quiet_orderly host_credentials
            Hm Hid no_end 3 finished Hv finished_small) as Hw.
  exact Hw.
Defined.
Example watched_whole : length (Split (tm_out (w_st (watch_on good_line).2)) newline) = 7 + 1 + 6 + 1.
Proof. vm_compute. reflexivity. Qed.

(** The stream of the last round breaks after one event; the run is over by then,
    so the watch ends without the other six, and without an error. *)
Definition breaking_line : Line := {| lost_at _ := None; cut_at t := if (t =? 38)%nat then Some 2000 else None |}.
Example watch_loses_the_rest :
  let '(r, w') := watch_on breaking_line in
  (r, length (Split (tm_out (w_st w')) newline)) = (Ok (), 1 + 1 + 6 + 1).
Proof. vm_compute. reflexivity. Qed.

(** ** A client that answers at once *)
Definition idle_run : Run :=
  mkRun "run-1" "" "" "" "relayctl" "" (mkRuntimeRequirement "" "codex" "" "" ∅) (mkSource "" "" "" None) RunSucceeded
    zero (Some (mkResult "done" None [])) "" 0 None None None None "" None.
(** The environment is the requests submitted. *)
Definition remember (q : Request) : M (Term (list Request)) Run :=
  modify (λ t, mkTerm (tm_out t) (tm_files t) (tm_last t) (tm_env t ++ [q])) ;; mret idle_run.
Definition idle_node : Node := mkNode demo_registration 0 0 NodeOnline.
Definition idle_client : Client (Term (list Request)) :=
  New _ (mkBackend _ remember (λ _, mret idle_run) (λ _ _, mret idle_run) (λ _, mret []) (λ _ _, mret []) (λ _, mret [])
           (λ _, mret []) (λ _ _ _, mret ()) (λ _, mret [zero]) (λ _, mret "content") (λ _, mret [])
           (λ _ _, raise (sentinel ErrNotFound)) (mret [idle_node])).
Definition idle_terminal : World (Term (list Request)) := terminal (mkWorld 0 []).

Definition demo_flags : submitFlags :=
  submit_defaults <| sf_prompt := "--help = read it" |> <| sf_idempotency := "k-1" |> <| sf_watch := false |>
    <| sf_maxAttempts := (-3)%Z |> <| sf_labels := {["zone" := "a=b"; "gpu" := ""]} |>
    <| sf_grants := ["issue.read@1:read:MUL-42,a:b"] |>.
Definition demo_grant : CapabilityGrant := mkGrant "issue.read" "1" "read" ["MUL-42"; "a:b"].
Lemma submit_command_witness :
  runSubmit idle_client no_end 3 (submit_args demo_flags) idle_terminal =
  (sdk_Submit idle_client (submit_request demo_flags "--help = read it" "k-1" [demo_grant]) ≫=
     announce idle_client no_end 3 demo_flags) idle_terminal.
Proof.
  apply (submit_command idle_client no_end 3 demo_flags [demo_grant]).
  - split; [reflexivity|]. unfold plain_label, free. apply (bool_decide_unpack _). vm_compute. exact I.
  - reflexivity.
  - repeat constructor; try done; by vm_compute.
  - reflexivity.
  - by vm_compute.
  - by vm_compute.
Defined.

(** [--json] without [--watch=false] is refused after the run was submitted, and
    its identity is not shown. *)
Example json_refused_late :
  let '(r, w') := runSubmit idle_client no_end 3 ["--json"; "--prompt"; "hello"] idle_terminal in
  (r, tm_out (w_st w'), length (tm_env (w_st w'))) = (Err (errors_New "--json requires --watch=false"), "", 1).
Proof. vm_compute. reflexivity. Qed.

(** ** The doctor *)
Definition idle_connection : Connection (Term (list Request)) :=
  mkConnection idle_client (mret ()) (mret (mkBuildInfo "0.1" "1")).
Definition doctor_args : list string := ["--execute"; "-provider=codex"; "--timeout"; "90s"].
Definition doctored : World (Term (list Request)) := (doctor idle_connection no_end 3 doctor_args idle_terminal).2.
Lemma doctor_verdict_witness :
  ∃ f info nodes node runtime,
    Parse doctor_flags doctor_args doctor_defaults = Ok (f, []) ∧ (0 < df_timeout f)%Z ∧
    returned (cn_Health idle_connection) () ∧ returned (cn_BuildInfo idle_connection) info ∧
    bi_ProtocolVersion info = ProtocolVersion ∧
    returned (sdk_Nodes idle_client) nodes ∧ node ∈ nodes ∧ node_State node = NodeOnline ∧
    reg_ProtocolVersion (node_Registration node) = ProtocolVersion ∧
    runtime ∈ reg_Runtimes (node_Registration node) ∧ rt_State runtime ≠ "unhealthy" ∧
    (df_provider f = "" ∨ rt_Provider runtime = df_provider f) ∧ (df_runtimeID f = "" ∨ rt_ID runtime = df_runtimeID f) ∧
    (df_execute f = true → ∃ now queued artifacts,
       let request := probe_request f runtime now in
       rr_ID (req_Runtime request) = rt_ID runtime ∧ rr_Provider (req_Runtime request) = rt_Provider runtime ∧
       returned (sdk_Submit idle_client request) queued ∧
       returned (watchRun idle_client no_end 3 (run_ID queued)) () ∧
       returned (sdk_Artifacts idle_client (run_ID queued)) artifacts ∧ artifacts ≠ []).
Proof. apply (doctor_verdict idle_connection no_end 3 doctor_args idle_terminal doctored). vm_compute. reflexivity. Defined.
(** The probe asks for the runtime it found. *)
Example probed_runtime :
  map (λ q, (rr_ID (req_Runtime q), req_Timeout q)) (tm_env (w_st doctored)) = [("rt", "1m30s")].
Proof. vm_compute. reflexivity. Qed.

(** ** The command line *)
Definition connect (server token : string) : Connection (Term (list Request)) := idle_connection.
Definition relayctl (args : list string) : Res () * string :=
  let '(r, w') := RelayCtl.run connect "dev" no_end no_end 3 args idle_terminal in (r, tm_out (w_st w')).
Example runtime_listed :
  relayctl ["--server=http://relay"; "runtimes"] =
  (Ok (), "NODE  STATE   NODE VERSION  PROTOCOL  RUNTIME  INSTANCE  RUNTIME VERSION  LOAD  CAPABILITIES  LAST SEEN" +:+ nl +:+
          "node  online  0.1           1         codex    rt        1.0.0            0/1   -             -" +:+ nl).
Proof. vm_compute. reflexivity. Qed.
Example downloaded :
  (relayctl ["artifact"; "download"; "a-1"; "out.txt"], (relayctl ["artifact"; "download"; "a-1"]).1) =
  ((Ok (), ""), Err (errors_New "usage: relayctl artifact download <artifact-id> <output-file>")).
Proof. vm_compute. reflexivity. Qed.
