(* ===== verification/S3Blob.v ===== *)
(** * S3Blob: artifacts in an object store (controlplane/s3_blob.go)

    The client library and the service behind it are an interface
    ([ObjectStore]); [ObjectLaws] is what its documentation says of the three
    calls.  [s3_blobs_refine] relates the store to the one in memory, with the
    places where a caller can tell them apart; [s3_artifacts_kept] is what the
    service makes of it. *)

From S2P Require Import Prelude GoStrings Json Types Fs Demo Matching Memory MemorySystem Scenario Service ServiceProps Artifacts.

Record S3BlobOptions := mkS3Options {
  s3_Endpoint : string; s3_AccessKey : string; s3_SecretKey : string; s3_SessionToken : string;
  s3_Bucket : string; s3_Prefix : string; s3_Region : string; s3_Secure : bool }.

(** The client: its construction may fail; then put, get with stat, and remove. *)
Class ObjectStore (X : Type) := {
  minio_New : S3BlobOptions → option Error;
  PutObject : string → string → Reader → M X Z;
  GetObject : string → string → M X string;
  RemoveObject : string → string → M X ()
}.

Module S3BlobStore.
Record Store := mkStore { bucket : string; prefix : string }.

(** [strings.Trim(prefix, "/")] *)
Definition trim_slashes (s : string) : string :=
  TrimRightByte slash (strip (λ a, bool_decide (a = slash)) (λ _ _, false) (λ _ _ _, false) s).
Section store.
Context {X : Type} `{ObjectStore X}.
Definition NewS3BlobStore (options : S3BlobOptions) : Res Store :=
  if (s3_Endpoint options =s "") || (s3_Bucket options =s "")
  then Err (errors_New "relay blob: S3 endpoint and bucket are required")
  else match minio_New options with
       | Some err => Err err
       | None => Ok (mkStore (s3_Bucket options) (trim_slashes (s3_Prefix options)))
       end.
Context (s : Store).
Definition key (k : string) : string := if prefix s =s "" then k else prefix s +:+ "/" +:+ k.
Definition Put (k : string) (reader : Reader) : M X Z := PutObject (bucket s) (key k) reader.
Definition Open (k : string) : M X string := GetObject (bucket s) (key k).
Definition Delete (k : string) : M X () := RemoveObject (bucket s) (key k).
End store.
End S3BlobStore.

Definition s3_blobs `{ObjectStore X} (s : S3BlobStore.Store) : BlobStore X := {|
  blob_Put := S3BlobStore.Put s; blob_Open := S3BlobStore.Open s; blob_Delete := S3BlobStore.Delete s |}.

(** ** The contract *)
(** The objects of the service, by bucket and name.  A call touches no other
    object; a put that succeeds has stored what was read, whole; a get gives what
    is stored; a removal that succeeds has removed.  A put or a removal that fails
    may have happened or not.  The errors of the library are none of the control
    plane's. *)
Class ObjectLaws (X : Type) `{ObjectStore X} := {
  objects : X → gmap (string * string) string;
  put_law b k reader w :
    let '(r, w') := PutObject b k reader w in
    w_tick w ≤ w_tick w' ∧ (∀ o, o ≠ (b, k) → objects (w_st w') !! o = objects (w_st w) !! o) ∧
    ∀ n, r = Ok n → ∃ content, reader = Ok content ∧ n = Z.of_nat (String.length content) ∧
                               objects (w_st w') !! (b, k) = Some content;
  get_law b k w :
    let '(r, w') := GetObject b k w in
    w_tick w ≤ w_tick w' ∧ objects (w_st w') = objects (w_st w) ∧
    match r with
    | Ok content => objects (w_st w) !! (b, k) = Some content
    | Err err => errors_Is err ErrNotFound = false
    end;
  remove_law b k w :
    let '(r, w') := RemoveObject b k w in
    w_tick w ≤ w_tick w' ∧ (∀ o, o ≠ (b, k) → objects (w_st w') !! o = objects (w_st w) !! o) ∧
    (r = Ok () → objects (w_st w') !! (b, k) = None)
}.

Section refinement.
Context {X : Type} `{ObjectLaws X} (s : S3BlobStore.Store).
Import S3BlobStore.

(** The objects below the prefix are the blobs of an in-memory store. *)
Definition kept (x : X) (blobs : MemoryBlobStore.State) : Prop := ∀ k, objects x !! (bucket s, key s k) = blobs !! k.

Lemma s3_key_inj k k' : key s k = key s k' → k = k'.
Proof.
  unfold key. destruct (prefix s =s ""); [done|]. intros He. apply (f_equal (str_drop (String.length (prefix s)))) in He.
  rewrite !str_drop_app in He. by injection He.
Qed.
Lemma s3_key_ne k k' : k' ≠ k → (bucket s, key s k') ≠ (bucket s, key s k).
Proof. intros Hne [= He]. by apply Hne, s3_key_inj. Qed.

(** After a call that touches only the object of [k], the blobs but the one under
    [k] are as they were. *)
Lemma kept_but k (w w' : World X) blobs :
  kept (w_st w) blobs → (∀ o, o ≠ (bucket s, key s k) → objects (w_st w') !! o = objects (w_st w) !! o) →
  kept (w_st w') (partial_alter (λ _, objects (w_st w') !! (bucket s, key s k)) k blobs).
Proof.
  intros Hk Ho k'. destruct (decide (k = k')) as [<-|Hne]; [by rewrite lookup_partial_alter_eq|].
  rewrite lookup_partial_alter_ne by done. rewrite Ho by (by apply s3_key_ne). apply Hk.
Qed.

(** An [S3BlobStore] stores what the store in memory stores.  Under any key, an
    upload or a removal that succeeds has the effect and the answer of the one in
    memory, and what is opened is what is stored.  Three things differ: a call that
    fails may have happened, the removal of a blob that is not there succeeds, and
    opening one fails with an error that callers do not recognise as
    [ErrNotFound]. *)
Theorem s3_blobs_refine k reader (w : World X) (blobs : MemoryBlobStore.State) :
  kept (w_st w) blobs →
  (let '(r, w') := Put s k reader w in
   match r with
   | Ok n => let '(r', m) := MemoryBlobStore.Put k reader (mkWorld 0 blobs) in r' = Ok n ∧ kept (w_st w') (w_st m)
   | Err _ => ∃ now, kept (w_st w') (partial_alter (λ _, now) k blobs)
   end) ∧
  (let '(r, w') := Open s k w in
   kept (w_st w') blobs ∧
   match r with
   | Ok content => (MemoryBlobStore.Open k (mkWorld 0 blobs)).1 = Ok content
   | Err err => errors_Is err ErrNotFound = false
   end) ∧
  (let '(r, w') := Delete s k w in
   match r with
   | Ok _ => kept (w_st w') (delete k blobs) ∧ (is_Some (blobs !! k) → (MemoryBlobStore.Delete k (mkWorld 0 blobs)).1 = Ok ())
   | Err _ => ∃ now, kept (w_st w') (partial_alter (λ _, now) k blobs)
   end).
Proof.
  intros Hk. split_and!.
  - unfold Put. pose proof (put_law (bucket s) (key s k) reader w) as Hp. destruct (PutObject _ _ _ w) as [r w'].
    destruct Hp as (_ & Ho & Hs). pose proof (kept_but k w w' blobs Hk Ho) as Hb. destruct r as [n|err]; [|by eexists].
    destruct (Hs n eq_refl) as (content & -> & -> & Hc). rewrite Hc in Hb. by cbn.
  - unfold Open. pose proof (get_law (bucket s) (key s k) w) as Hg. destruct (GetObject _ _ w) as [[content|err] w'];
      destruct Hg as (_ & Ho & Hg); (split; [intros k'; by rewrite Ho|]); [|done].
    rewrite Hk in Hg. unfold MemoryBlobStore.Open, gets, mbind, M_bind. cbn. by rewrite Hg.
  - unfold Delete. pose proof (remove_law (bucket s) (key s k) w) as Hr. destruct (RemoveObject _ _ w) as [r w'].
    destruct Hr as (_ & Ho & Hs). pose proof (kept_but k w w' blobs Hk Ho) as Hb. destruct r as [[]|err]; [|by eexists].
    rewrite (Hs eq_refl) in Hb. split; [exact Hb|]. intros [content Hc].
    unfold MemoryBlobStore.Delete, gets, mbind, M_bind. cbn. by rewrite Hc.
Qed.

(** ** Artifacts in the store *)
#[local] Existing Instance s3_blobs.
#[export, program] Instance s3_blob_laws : @BlobLaws X (s3_blobs s) := {|
  stored x k := objects x !! (bucket s, key s k) |}.
Next Obligation.
  intros k reader w. cbn. unfold Put. pose proof (put_law (bucket s) (key s k) reader w) as Hp.
  destruct (PutObject _ _ _ w) as [r w']. destruct Hp as (Ht & Ho & Hs). split_and!; [done| |exact Hs].
  intros j Hj. by apply Ho, s3_key_ne.
Qed.
Next Obligation.
  intros k w. cbn. unfold Open. pose proof (get_law (bucket s) (key s k) w) as Hg.
  destruct (GetObject _ _ w) as [r w']. destruct Hg as (Ht & Ho & Hs). split_and!; [done|by intros j; rewrite Ho|].
  by intros content ->.
Qed.
Next Obligation.
  intros k w. cbn. unfold Delete. pose proof (remove_law (bucket s) (key s k) w) as Hr.
  destruct (RemoveObject _ _ w) as [r w']. destruct Hr as (Ht & Ho & _). split; [done|]. intros j Hj. by apply Ho, s3_key_ne.
Qed.

Section service.
Context `{HostLaws} `{Encoder} `{Semver}.
#[local] Instance in_bucket : BlobStore X := s3_blobs s.
Abbreviation Svc3 := (World (ServiceState MemoryStorage X)).

(** C32: an artifact that the service over an object store has acknowledged is what
    was uploaded, and stays so.  Whatever else the bucket holds, whatever calls
    came before and come after - uploads that break off, that the control plane
    refuses and takes back, or whose answers are lost - the object below the prefix
    holds exactly the bytes that were read, whose length and digest the entry
    states; a download gives this entry and these bytes, or fails because the run
    is hidden from the caller or the object store fails to read. *)
Theorem s3_artifacts_kept (a : Assignment) (artifact new : Artifact) (reader : Reader) (w w1 : Svc3)
    (ops : list SvcOp) (ctx : Ctx) :
  svc_reachable w → Forall svc_ok ops → UploadArtifact a artifact reader w = (Ok new, w1) →
  let w2 := svc_play ops w1 in
  ∃ content, reader = Ok content ∧ art_RunID new = asg_RunID a ∧
    art_Size new = Z.of_nat (String.length content) ∧ art_SHA256 new = sha256_hex content ∧
    objects (sv_blobs (w_st w2)) !! (bucket s, key s (art_ID new)) = Some content ∧
    match (OpenArtifact ctx (art_ID new) w2).1 with
    | Ok (metadata, got) => metadata = new ∧ got = content
    | Err err => (GetRun ctx (asg_RunID a) w2).1 = Err err ∨ (on_blobs (Open s (art_ID new)) w2).1 = Err err
    end.
Proof. intros Hw Hok Hup. exact (upload_kept a artifact reader w new w1 ops ctx Hw Hok Hup). Qed.
End service.
End refinement.

(** ** A bucket behind a bad connection

    The answer to every removal is lost, and the answer to the upload of one
    content; both have happened. *)
Abbreviation Bucket := (gmap (string * string) string).
Definition bucket_missing : Error := errors_New "The specified key does not exist.".
Definition answer_lost : Error := errors_New "connection reset by peer".
#[local] Instance bucket_store : ObjectStore Bucket := {|
  minio_New _ := None;
  PutObject b k reader :=
    content ← lift_res reader; modify (<[(b, k) := content]>) ;;
    if content =s "lost" then raise answer_lost else mret (Z.of_nat (String.length content));
  GetObject b k := v ← gets (λ x : Bucket, x !! (b, k));
                   match v with Some content => mret content | None => raise bucket_missing end;
  RemoveObject b k := modify (delete (b, k)) ;; raise answer_lost |}.
#[local, program] Instance bucket_laws : ObjectLaws Bucket := {| objects x := x |}.
Next Obligation.
  intros b k [content|err] [t x]; [|by split_and!]. cbn. unfold modify, mbind, M_bind. cbn.
  assert (Ho : ∀ o, o ≠ (b, k) → <[(b, k) := content]> x !! o = x !! o) by (intros; by apply lookup_insert_ne).
  case_bool_decide; cbn; (split_and!; [lia|done|]); [done|]. intros n [= <-]. exists content. by rewrite lookup_insert_eq.
Qed.
Next Obligation.
  intros b k [t x]. cbn. unfold gets, mbind, M_bind. cbn. by destruct (x !! (b, k)) eqn:E; cbn; (split_and!; [lia|..]).
Qed.
Next Obligation.
  intros b k [t x]. cbn. unfold modify, mbind, M_bind. cbn. split_and!; [lia| |done]. intros o Ho. by apply lookup_delete_ne.
Qed.

Definition demo_bucket : World Bucket := mkWorld 0 {[("relay", "artifacts/a-1") := "content"]}.
Definition demo_s3 : S3BlobStore.Store := S3BlobStore.mkStore "relay" "artifacts".
Lemma s3_blobs_refine_witness :
  let blobs : MemoryBlobStore.State := {["a-1" := "content"]} in
  let '(r, w') := S3BlobStore.Open demo_s3 "a-1" demo_bucket in
  r = Ok "content" ∧ kept demo_s3 (w_st w') blobs ∧ (S3BlobStore.Open demo_s3 "a-2" w').1 = Err bucket_missing.
Proof.
  intros blobs. split; [reflexivity|]. split; [|reflexivity].
  refine (proj1 (proj1 (proj2 (s3_blobs_refine demo_s3 "a-1" (Ok "") demo_bucket blobs _)))).
  intros k. unfold blobs, demo_bucket, objects, bucket_laws. cbn [w_st]. destruct (decide (k = "a-1")) as [->|Hne]; [reflexivity|].
  rewrite !lookup_singleton_ne; [done|congruence|]. intros [= He]. by apply Hne.
Defined.

(** A running attempt uploads; an earlier upload and a later one lose their
    answers, a third is made under a wrong lease. *)
#[local] Instance demo_blobs : BlobStore Bucket := s3_blobs demo_s3.
Definition over_bucket : World (ServiceState MemoryStorage Bucket) :=
  svc_play [SvStorage (OpRegisterNode demo_registration); SvStorage (OpSubmit (demo_request "k" ""));
            SvStorage (OpClaim "node" 60); SvStorage (OpStart the_lease); SvUpload the_lease zero (Ok "lost")]
    (mkWorld 0 (mkService NewMemoryStorage {[("relay", "other") := "of somebody else"]})).
Definition its_upload := UploadArtifact the_lease zero (Ok "hello") over_bucket.
Definition its_entry : Artifact := ok_of zero its_upload.1.
Definition its_later : list SvcOp :=
  [SvUpload the_lease zero (Ok "lost"); SvUpload (the_lease <| asg_LeaseToken := "guess" |>) zero (Ok "forged");
   SvStorage (OpComplete the_lease demo_result); SvOpen None (art_ID its_entry)].
Lemma s3_artifacts_kept_witness :
  let w2 := svc_play its_later its_upload.2 in
  (OpenArtifact None (art_ID its_entry) w2).1 = Ok (its_entry, "hello") ∧
  objects (sv_blobs (w_st w2)) !! ("relay", "artifacts/" +:+ art_ID its_entry) = Some "hello".
Proof.
  intros w2. destruct (s3_artifacts_kept demo_s3 the_lease zero its_entry (Ok "hello") over_bucket its_upload.2 its_later None)
    as (content & [= <-] & _ & _ & _ & Hb & _).
  - eexists _, _, _. split; [|reflexivity]. by repeat constructor.
  - by repeat constructor.
  - vm_compute. reflexivity.
  - split; [vm_compute; reflexivity|exact Hb].
Defined.
Example options_read :
  S3BlobStore.NewS3BlobStore (mkS3Options "s3" "" "" "" "relay" "//artifacts/" "" true) = Ok demo_s3.
Proof. reflexivity. Qed.
