(* ===== verification/ServerMain.v ===== *)
(** * ServerMain: the process of the control plane (cmd/relay-server)

    From flags and environment the process chooses its blob store and storage, its
    tokens and the interval of its reconciliation, and serves.  [log.Fatal] is an
    error; the database is opened by a library ([open_postgres]). *)

From S2P Require Import Prelude GoStrings Json Types Matching Event Demo Memory Service Fs Instructions Outbox NodeDemo Codec Wire Http Workspace WorkspaceProps Process FileBlob RuntimeDemo Terminal RelayCtl S3Blob.

Record serverFlags := mkServerFlags {
  vf_listen : string; vf_leaseTTL : Z; vf_nodeTimeout : Z; vf_reconcileInterval : Z; vf_databaseURL : string;
  vf_memory : bool; vf_artifactRoot : string; vf_artifactBackend : string; vf_hostToken : string;
  vf_nodeToken : string; vf_tenantID : string; vf_projectID : string; vf_showVersion : bool }.
#[export] Instance eta_serverFlags : Eta serverFlags := λ f,
  mkServerFlags (vf_listen f) (vf_leaseTTL f) (vf_nodeTimeout f) (vf_reconcileInterval f) (vf_databaseURL f)
    (vf_memory f) (vf_artifactRoot f) (vf_artifactBackend f) (vf_hostToken f) (vf_nodeToken f) (vf_tenantID f)
    (vf_projectID f) (vf_showVersion f).
Definition server_flags `{Host} : list (Flag serverFlags) :=
  [string_flag "listen" (λ s f, f <| vf_listen := s |>); duration_flag "lease-ttl" (λ d f, f <| vf_leaseTTL := d |>);
   duration_flag "node-timeout" (λ d f, f <| vf_nodeTimeout := d |>);
   duration_flag "reconcile-interval" (λ d f, f <| vf_reconcileInterval := d |>);
   string_flag "database-url" (λ s f, f <| vf_databaseURL := s |>); bool_flag "memory" (λ b f, f <| vf_memory := b |>);
   string_flag "artifact-root" (λ s f, f <| vf_artifactRoot := s |>);
   string_flag "artifact-backend" (λ s f, f <| vf_artifactBackend := s |>);
   string_flag "host-token" (λ s f, f <| vf_hostToken := s |>); string_flag "node-token" (λ s f, f <| vf_nodeToken := s |>);
   string_flag "tenant" (λ s f, f <| vf_tenantID := s |>); string_flag "project" (λ s f, f <| vf_projectID := s |>);
   bool_flag "version" (λ b f, f <| vf_showVersion := b |>)].

Section environment.
Context `{Environment}.
Definition envOr (name fallback : string) : string :=
  let value := Getenv name in if negb (value =s "") then value else fallback.
Definition defaultListenAddress : string :=
  if negb (Getenv "RELAY_LISTEN" =s "") then Getenv "RELAY_LISTEN"
  else if negb (Getenv "PORT" =s "") then ":" +:+ Getenv "PORT"
  else ":8787".
Definition server_defaults : serverFlags :=
  mkServerFlags defaultListenAddress (30 * second) (15 * second) (2 * second) (Getenv "RELAY_DATABASE_URL") false
    (envOr "RELAY_ARTIFACT_ROOT" "./.relay/artifacts") (envOr "RELAY_ARTIFACT_BACKEND" "file")
    (Getenv "RELAY_HOST_TOKEN") (Getenv "RELAY_NODE_TOKEN") (envOr "RELAY_TENANT_ID" "default")
    (envOr "RELAY_PROJECT_ID" "default") false.
Definition s3_options : S3BlobOptions :=
  mkS3Options (Getenv "RELAY_S3_ENDPOINT") (Getenv "RELAY_S3_ACCESS_KEY") (Getenv "RELAY_S3_SECRET_KEY")
    (Getenv "RELAY_S3_SESSION_TOKEN") (Getenv "RELAY_S3_BUCKET") (Getenv "RELAY_S3_PREFIX") (Getenv "RELAY_S3_REGION")
    (negb (Getenv "RELAY_S3_SECURE" =s "false")).
End environment.

(** What the process serves: no URL is the storage in memory. *)
Inductive Blobs := FileBlobs (root : string) | S3Blobs (store : S3BlobStore.Store).
Record Plan := mkPlan {
  pl_Listen : string; pl_Blobs : Blobs; pl_Database : option string; pl_Options : Options;
  pl_Interval : Z; pl_Auth : option Authenticator }.
Inductive Outcome := Printed (line : string) | Serves (plan : Plan).

Section start.
Context `{Host} `{Machine} `{Faults} `{Environment} {X : Type} `{ObjectStore X}.
Context (open_postgres : string → option Error) (Version : string).

Definition choose_blobs (f : serverFlags) : M FS Blobs :=
  if vf_artifactBackend f =s "s3" then
    match S3BlobStore.NewS3BlobStore s3_options with Ok store => mret (S3Blobs store) | Err err => raise err end
  else if vf_artifactBackend f =s "file" then
    root ← FileBlobStore.NewFileBlobStore (vf_artifactRoot f); mret (FileBlobs root)
  else raise (errors_New ("unsupported artifact backend " +:+ fmt_quote (vf_artifactBackend f))).
Definition choose_storage (f : serverFlags) : Res (option string) :=
  if vf_memory f then Ok None
  else match open_postgres (vf_databaseURL f) with Some err => Err err | None => Ok (Some (vf_databaseURL f)) end.
Definition host_access (f : serverFlags) : AccessScope := mkScope AccessHost "" (vf_tenantID f) (vf_projectID f).
Definition node_access : AccessScope := mkScope AccessNode "" "" "".
Definition choose_auth (f : serverFlags) : Res (option Authenticator) :=
  if negb (vf_hostToken f =s "") || negb (vf_nodeToken f =s "") then
    if (vf_hostToken f =s "") || (vf_nodeToken f =s "")
    then Err (errors_New "host-token and node-token must both be configured")
    else Ok (Some (Authenticate [mkToken (vf_hostToken f) (host_access f); mkToken (vf_nodeToken f) node_access]))
  else Ok None.

Definition main (args : list string) : M FS Outcome :=
  parsed ← lift_res (Parse server_flags args server_defaults);
  let f := (parsed : serverFlags * list string).1 in
  if vf_showVersion f then mret (Printed (VersionLine Version "relay-server"))
  else
    blobs ← choose_blobs f;
    database ← lift_res (choose_storage f);
    if (vf_reconcileInterval f <=? 0)%Z then raise (errors_New "reconcile interval must be positive")
    else
      auth ← lift_res (choose_auth f);
      mret (Serves (mkPlan (vf_listen f) blobs database (mkOptions (vf_leaseTTL f) (vf_nodeTimeout f))
                      (vf_reconcileInterval f) auth)).
End start.

(** ** The reconciliation loop: one round per tick; an error is logged *)
Section reconcile.
Context `{Host} {S B : Type} `{Storage S}.
Definition reconcile_tick : M (ServiceState S B) () := try (Reconcile 100) ;; mret ().
End reconcile.

(** ** What is started *)
Section started.
Context `{Host} `{Machine} `{Faults} `{Environment} {X : Type} `{ObjectStore X} (open_postgres : string → option Error) (Version : string).

(** C25: A server that is started knows who calls it.  Whatever its flags and
    environment: either no token is configured and nobody is asked for one, or both
    are, and then the host's token gives access to the configured tenant and
    project, the node's token to the node operations unless it is the same text,
    and no other text to anything.  Its reconciliation runs at a positive interval,
    its storage and blob store are those chosen, the database opened before. *)
Theorem server_guarded args plan (w w' : World FS) :
  main open_postgres Version args w = (Ok (Serves plan), w') →
  ∃ f operands, Parse server_flags args server_defaults = Ok (f, operands) ∧ vf_showVersion f = false ∧
    pl_Listen plan = vf_listen f ∧ (0 < pl_Interval plan)%Z ∧
    pl_Database plan = (if vf_memory f then None else Some (vf_databaseURL f)) ∧
    (∀ url, pl_Database plan = Some url → open_postgres url = None) ∧
    match pl_Blobs plan with
    | S3Blobs store => vf_artifactBackend f = "s3" ∧ S3BlobStore.NewS3BlobStore s3_options = Ok store
    | FileBlobs root => vf_artifactBackend f = "file"
    end ∧
    match pl_Auth plan with
    | None => vf_hostToken f = "" ∧ vf_nodeToken f = ""
    | Some authenticator =>
        vf_hostToken f ≠ "" ∧ vf_nodeToken f ≠ "" ∧
        ∀ token scope, authenticator token = Some scope ↔
          (token = vf_hostToken f ∧ scope = host_access f) ∨
          (token = vf_nodeToken f ∧ token ≠ vf_hostToken f ∧ scope = node_access)
    end.
Proof.
  unfold main, mbind at 1, M_bind at 1, lift_res at 1. intros Hm. destruct (Parse _ args _) as [[f operands]|err]; [|done].
  cbn [fst] in Hm. destruct (vf_showVersion f) eqn:Hv; [done|]. unfold mbind at 1, M_bind at 1 in Hm.
  destruct (choose_blobs f w) as [[blobs|err] w1] eqn:Hb; [|done].
  unfold mbind at 1, M_bind at 1, lift_res at 1 in Hm. destruct (choose_storage open_postgres f) as [database|err] eqn:Hd; [|done].
  destruct (Z.leb_spec (vf_reconcileInterval f) 0) as [|Hi]; [done|].
  unfold mbind, M_bind, lift_res in Hm. destruct (choose_auth f) as [auth|err] eqn:Ha; [|done]. injection Hm as <- _.
  exists f, operands. cbn [pl_Listen pl_Interval pl_Database pl_Blobs pl_Auth].
  assert (Hdb : database = (if vf_memory f then None else Some (vf_databaseURL f)) ∧
                ∀ url, database = Some url → open_postgres url = None).
  { unfold choose_storage in Hd. destruct (vf_memory f); [by injection Hd as <-|].
    destruct (open_postgres (vf_databaseURL f)) eqn:Ho; [done|]. injection Hd as <-. split; [done|]. by intros ? [= <-]. }
  split_and!; try done; try apply Hdb.
  - unfold choose_blobs in Hb. destruct (vf_artifactBackend f =s "s3") eqn:Hs.
    + apply bool_decide_eq_true in Hs. destruct (S3BlobStore.NewS3BlobStore s3_options) eqn:Hn; [|done]. by injection Hb as <- _.
    + destruct (vf_artifactBackend f =s "file") eqn:Hf; [|done]. apply bool_decide_eq_true in Hf.
      unfold mbind, M_bind in Hb. destruct (FileBlobStore.NewFileBlobStore _ w) as [[root|err] w2]; [|done]. by injection Hb as <- _.
  - unfold choose_auth in Ha. destruct (negb _ || negb _) eqn:Hc.
    + destruct (_ || _) eqn:Hboth in Ha; [done|]. injection Ha as <-. rewrite orb_false_iff, !bool_decide_eq_false in Hboth.
      destruct Hboth as [Hh Hn]. split_and!; [done..|]. intros token scope. cbn [Authenticate tok_Value tok_Scope].
      destruct (decide (token = vf_hostToken f)) as [->|Hne].
      * rewrite bool_decide_eq_true_2 by done. split; [intros Hs; simplify_eq; by left|]. by intros [[_ ->]|(_ & ? & _)].
      * rewrite (bool_decide_eq_false_2 _ Hne). destruct (decide (token = vf_nodeToken f)) as [Ht|Ht].
        -- rewrite bool_decide_eq_true_2 by done. split; [intros Hs; simplify_eq; by right|]. by intros [[? _]|(_ & _ & ->)].
        -- rewrite bool_decide_eq_false_2 by done. split; [done|]. by intros [[? _]|(? & _)].
    + injection Ha as <-. rewrite orb_false_iff, !negb_false_iff, !bool_decide_eq_true in Hc. done.
Qed.
End started.

(** ** A server with tokens *)
#[local] Instance no_objects : ObjectStore () := {|
  minio_New _ := None; PutObject _ _ _ := raise (errors_New "offline"); GetObject _ _ := raise (errors_New "offline");
  RemoveObject _ _ := raise (errors_New "offline") |}.
Definition no_database (_ : string) : option Error := Some (errors_New "connection refused").
Definition server_main (args : list string) : Res Outcome := (main no_database "dev" args (mkWorld 0 ∅)).1.
Definition guarded_args : list string :=
  ["-memory"; "--host-token"; "h"; "-node-token=n"; "--artifact-root=blobs"; "--lease-ttl"; "10s"].
Definition guarded_plan : Plan :=
  match server_main guarded_args with
  | Ok (Serves plan) => plan
  | _ => mkPlan "" (FileBlobs "") None (mkOptions 0 0) 0 None
  end.
Example guarded_options :
  (pl_Listen guarded_plan, pl_Blobs guarded_plan, pl_Options guarded_plan) =
  (":8787", FileBlobs "/home/relay/blobs", mkOptions 10000000000 15000000000).
Proof. vm_compute. reflexivity. Qed.

Lemma server_guarded_witness :
  ∃ f operands, Parse server_flags guarded_args server_defaults = Ok (f, operands) ∧ vf_showVersion f = false ∧
    pl_Listen guarded_plan = vf_listen f ∧ (0 < pl_Interval guarded_plan)%Z ∧
    pl_Database guarded_plan = (if vf_memory f then None else Some (vf_databaseURL f)) ∧
    (∀ url, pl_Database guarded_plan = Some url → no_database url = None) ∧
    match pl_Blobs guarded_plan with
    | S3Blobs store => vf_artifactBackend f = "s3" ∧ S3BlobStore.NewS3BlobStore s3_options = Ok store
    | FileBlobs root => vf_artifactBackend f = "file"
    end ∧
    match pl_Auth guarded_plan with
    | None => vf_hostToken f = "" ∧ vf_nodeToken f = ""
    | Some authenticator =>
        vf_hostToken f ≠ "" ∧ vf_nodeToken f ≠ "" ∧
        ∀ token scope, authenticator token = Some scope ↔
          (token = vf_hostToken f ∧ scope = host_access f) ∨
          (token = vf_nodeToken f ∧ token ≠ vf_hostToken f ∧ scope = node_access)
    end.
Proof.
  apply (server_guarded no_database "dev" guarded_args guarded_plan (mkWorld 0 ∅)
           (main no_database "dev" guarded_args (mkWorld 0 ∅)).2). vm_compute. reflexivity.
Defined.

(** One text for both tokens is accepted, and is the host's. *)
Example equal_tokens :
  match server_main ["-memory"; "-host-token=t"; "-node-token=t"] with
  | Ok (Serves plan) => match pl_Auth plan with Some a => sc_Kind <$> a "t" | None => None end
  | _ => None
  end = Some AccessHost.
Proof. vm_compute. reflexivity. Qed.
(** One token alone is refused, and so is a database that does not answer. *)
Example half_guarded :
  (server_main ["-memory"; "-host-token=t"], server_main ["--database-url=postgres://db"]) =
  (Err (errors_New "host-token and node-token must both be configured"), Err (errors_New "connection refused")).
Proof. vm_compute. reflexivity. Qed.
