(* ===== verification/Examples.v ===== *)
(** * Examples: the whole system in one process

    examples/multica and the smoke tests cmd/relay-codex-smoke,
    relay-trae-smoke and relay-codex-capability-smoke start a service, serve it
    over HTTP, connect a worker and a host to it and watch one run;
    examples/capability-cli is a command that answers capability calls.  A
    program is a function of its machine that ends with what it prints, or with
    the error [log.Fatal] reports. *)

From S2P Require Import Prelude GoStrings Json Types Url Binding BindingProps Workspace Process Http ToolBridge Codex AppServer Models NodeMain Terminal Matching Event Lifecycle Memory Demo Scenario Service Fs Capability Instructions Outbox NodeDemo Codec Wire WireProps Stream Handler HttpClient HttpServed HttpProps HttpDemo Worker Sdk.

Abbreviation Svc := (ServiceState MemoryStorage MemoryBlobStore.State).
Abbreviation MN := (M (NodeState Svc)).

(** ** The connection *)
Section connection.
Context `{Host} `{TimeParser} `{Encoder} `{Semver} `{JsonParser} `{Waiting} `{Peers Svc} (server : Server).

(** [httpapi.NewClient(server.URL)], as a node and as a host use it; without a token. *)
Definition transport : ControlPlane Svc := {|
  cp_RegisterNode registration := remote server "" (CallRegisterNode registration);
  cp_Claim nodeID := remote server "" (CallClaim nodeID);
  cp_Start a := remote server "" (CallStart a);
  cp_Renew a := remote server "" (CallRenew a);
  cp_AppendEvent runID attemptID lease eventType data eventIDs :=
    remote server "" (CallAppendEvent runID attemptID lease eventType data eventIDs);
  cp_Complete a result := remote server "" (CallComplete a result);
  cp_Fail a cause := remote server "" (CallFail a cause);
  cp_AcknowledgeCancellation a := remote server "" (CallAcknowledgeCancellation a);
  cp_UploadArtifact a artifact content := remote server "" (CallUploadArtifact a artifact content);
  cp_ReserveCapability a key hash request := remote server "" (CallReserveCapability a key hash request);
  cp_FinishCapability a reservation result cause := remote server "" (CallFinishCapability a reservation result cause);
  cp_CreateInteraction a request := remote server "" (CallCreateInteraction a request);
  cp_GetInteraction a id := remote server "" (CallGetInteraction a id) |}.
Definition host_client : Client Svc :=
  let over : Transport Svc := server_transport server in
  New _ (mkBackend _ (λ request, remote server "" (CallSubmit request)) (λ id, remote server "" (CallGetRun id))
    (λ id request, remote server "" (CallCancelRun id request)) (λ limit, remote server "" (CallListRuns limit))
    (λ session limit, remote server "" (CallSessionRuns session limit)) (λ id, remote server "" (CallAttempts id))
    (λ id, remote server "" (CallEvents id)) (c_StreamEvents "") (λ id, remote server "" (CallArtifacts id)) (c_OpenArtifact "")
    (λ id, remote server "" (CallInteractions id)) (λ id response, remote server "" (CallResolveInteraction id response))
    (remote server "" CallNodes)).
End connection.

(** ** A business application and its capability *)
Definition sorted_object (members : list (string * Json)) : Json := JObj (obj_members (obj_map members)).

Section business.
Context `{Host} `{TimeParser} `{Encoder} `{JsonParser}.

(** The handler of [multicaAPI]; [Decode] reads the first value of the body. *)
Definition multicaAPI : Web FS := λ _ _ body,
  match res_bind (parse_first body) (Unmarshal wire_CapabilityRequest false) with
  | Err err => mret (mkReply 400 "400 Bad Request" (err_msg err +:+ nl) None)
  | Ok request =>
      mret (mkReply 200 "200 OK"
        (json_text (sorted_object [("output", sorted_object
          [("id", JStr (cr_Resource request)); ("title", JStr "Run agents on a reusable machine fleet");
           ("served_by", JStr "Multica HTTP capability")])]) +:+ nl) None)
  end.

(** examples/capability-cli *)
Definition exit_1 : Error := errors_New "exit status 1".
Definition cli_fail (message : string) : Child := Prints (json_text (sorted_object [("error", JStr message)])) (Exits [] (Some exit_1)).
Definition cli_response (request : CapabilityRequest) : Json :=
  sorted_object [("output", sorted_object
    [("id", JStr (cr_Resource request)); ("title", JStr "Fix flaky scheduler"); ("source", JStr "user-cli")])].
Definition capability_cli : Child :=
  Reads (λ stdin,
    match res_bind (parse_first stdin) (Unmarshal wire_CapabilityRequest false) with
    | Err err => cli_fail ("decode request: " +:+ err_msg err)
    | Ok request =>
        if negb (cr_Name request =s "issue.read") || negb (cr_Version request =s "1")
        then cli_fail ("unsupported capability " +:+ cr_Name request +:+ "@" +:+ cr_Version request)
        else if cr_Resource request =s "" then cli_fail "resource is required"
        else Prints (json_text (cli_response request)) (Exits [] None)
    end).
End business.

(** ** What the programs share *)
Section programs.
Context `{Host} `{TimeParser} `{Encoder} `{Semver} `{JsonParser} `{Waiting} `{Peers Svc} `{Faults} `{Durations} `{RecordCodec}
  `{Floats} `{Environment} `{Pipes} (build : string) (keeper : nat → option Error).

(** [controlplane.New] behind [httpapi.NewHandler]; no stream is read here. *)
Definition local_server (leaseTTL : Z) : Server := mkServer (NewWithOptions (mkOptions leaseTTL 0)) None build 0.
(** [os.MkdirTemp("", pattern)]: a directory of its own among the temporary ones. *)
Definition os_MkdirTemp (pattern : string) : M FS string :=
  syscall ;; random ← host temp_at; mret (filepath_Join [os_TempDir; pattern +:+ random]).
Definition one_executor (provider : string) (executor : Execution → Work) (wanted : string) : option (Execution → Work) :=
  if wanted =s provider then Some executor else None.
Definition runtime_of (provider version state : string) : Runtime := mkRuntime "" provider version state "" "" [] [] None.
Definition println (doc : Json) : string := json_indent "" doc +:+ nl.

(** ** examples/multica *)
Definition demoExecutor_Execute (workRoot : string) (execution : Execution) : Work :=
  let workDir := filepath_Join [workRoot; ex_RunID execution] in
  Files (MaterializeInstructions workDir "mock" (ex_Instructions execution)) (λ path,
    match path with
    | Err err => Return (Err err)
    | Ok path =>
        Invoke (mkCall "issue.read" "1" "read-primary-issue" (src_ExternalID (ex_Source execution)) None) (λ issue,
          match issue with
          | Err err => Return (Err err)
          | Ok issue =>
              let output := sorted_object [("issue", default JNull (cres_Output issue));
                                           ("prompt", JStr (ci_Prompt (ex_Instructions execution)))] in
              Return (Ok (mkResult "Compatible Relay node completed the distributed run" (Some output)
                [mkArtifact "" "" "instruction_file" path (filepath_Base path) "" 0 ""]))
          end)
    end).

Definition demoRequest : Request :=
  let fragment := λ id title content, mkFragment id "1" title content in
  zero <| req_AgentID := "engineering-agent" |> <| req_IdempotencyKey := "distributed-demo-1" |>
       <| req_Runtime := mkRuntimeRequirement "" "mock" "" "" {["pool" := "engineering"]} |>
       <| req_Source := mkSource "multica.issue" "MUL-42" "" None |>
       <| req_Input := mkInput "task" "1" "Read the issue and propose the smallest implementation slice." None |>
       <| req_Instructions := mkBundle
            [fragment "runtime" "Runtime contract" "Return a durable result before exiting."]
            [fragment "host" "Multica contract" "Use granted capabilities for live business data."] [] []
            [fragment "turn" "Current focus" "Validate multi-machine scheduling."] |>
       <| req_Capabilities := [mkGrant "issue.read" "1" "read" ["MUL-42"]] |>
       <| req_Principal := mkPrincipal "user" "demo-user" "demo-user" |>.

Definition registered (registry : Registry FS) (descriptor : Descriptor) (provider : Provider FS) : Res (Registry FS) :=
  match Binding.Register registry descriptor (Some provider) with
  | (registry, Ok _) => Ok registry
  | (_, Err err) => Err err
  end.
Definition fleet_node (id os provider workRoot : string) (registry : Registry FS) : Worker :=
  mkWorker (mkRegistration id "" ProtocolVersion (<["os" := os]> {["pool" := "engineering"]}) [runtime_of provider "1" ""] [] 2)
    true (Some (bindings_of registry (elements (dom registry))))
    (Some (one_executor provider (demoExecutor_Execute workRoot))) None None None.

Definition multica_main : MN string :=
  workRoot ← on_files (os_MkdirTemp "relay-fleet-demo-");
  let server := local_server (30 * second) in
  let plane := transport server in
  let host := host_client server in
  let web : Web FS := multicaAPI in
  registry ← lift_res (registered NewRegistry (mkDescriptor "issue.read" "1" "http") (http_Invoke (mkHTTPProvider "http://multica" "")));
  let compatible := fleet_node "node-macos-codex" "darwin" "mock" workRoot registry in
  let incompatible := fleet_node "node-linux-claude" "linux" "claude" workRoot NewRegistry in
  Worker.Register compatible ;;
  Worker.Register incompatible ;;
  queued ← on_cp (sdk_Submit host demoRequest);
  selected ← try (RunOnce incompatible keeper);
  let refused := match selected with Err err => errors_Is err ErrNoAssignment | Ok _ => false end in
  if negb refused
  then raise (errors_New ("scheduler selected incompatible node: " +:+ match selected with Err err => err_msg err | Ok _ => "<nil>" end))
  else
    RunOnce compatible keeper ;;
    completed ← on_cp (sdk_Run host (run_ID queued));
    events ← on_cp (sdk_Events host (run_ID queued));
    nodes ← on_cp (sdk_Nodes host);
    mret (println (JObj [("run", enc wire_Run completed); ("events", enc (slice wire_Event) events);
                         ("nodes", enc (slice wire_Node) nodes); ("work_root", JStr workRoot)])).

(** ** The smoke tests *)
Definition smoke_worker (id : string) (runtime : Runtime) (registry : Registry FS) (executor : Execution → Work) : Worker :=
  mkWorker (mkRegistration id "" ProtocolVersion ∅ [runtime] [] 1) true (Some (bindings_of registry (elements (dom registry))))
    (Some (one_executor (rt_Provider runtime) executor)) None None None.
(** The steps the three tests share: from the registration to what the host reads. *)
Definition smoke (worker : Worker) (request : Request) : MN (Run * list Event) :=
  let server := local_server (60 * second) in
  let plane := transport server in
  let host := host_client server in
  Worker.Register worker ;;
  queued ← on_cp (sdk_Submit host request);
  RunOnce worker keeper ;;
  completed ← on_cp (sdk_Run host (run_ID queued));
  events ← on_cp (sdk_Events host (run_ID queued));
  mret (completed, events).
Definition smoke_request (key provider prompt : string) : Request :=
  zero <| req_AgentID := "smoke-test" |> <| req_IdempotencyKey := key |>
       <| req_Runtime := mkRuntimeRequirement "" provider "" "" ∅ |> <| req_Input := mkInput "task" "1" prompt None |>
       <| req_Instructions := mkBundle
            [mkFragment "smoke" "1" "Smoke test" "Follow the prompt exactly and finish immediately."] [] [] [] [] |>.
Definition smoke_config (binary sandbox workRoot : string) : Config :=
  zero_Config <| cf_Binary := binary |> <| cf_Sandbox := sandbox |> <| cf_WorkRoot := workRoot |> <| cf_Ephemeral := true |>.

Definition codex_smoke_main (versions : Versions) : MN string :=
  version ← lift_res (codex_ProbeVersion versions "codex");
  workRoot ← on_files (os_MkdirTemp "relay-codex-smoke-");
  let worker := smoke_worker "local-codex-smoke" (runtime_of "codex" version "") NewRegistry
                  (codex_Execute [] (smoke_config "codex" "read-only" workRoot)) in
  read ← smoke worker (smoke_request "codex-smoke-1" "codex"
    "This is a Relay runtime connectivity test. Do not modify files and do not run shell commands. Reply with exactly: RELAY_CODEX_OK");
  let '(completed, events) := (read : Run * list Event) in
  mret (println (JObj [("codex_version", JStr version); ("run", enc wire_Run completed);
                       ("event_count", JNum (pretty (length events))); ("work_root", JStr workRoot)])).

Definition trae_smoke_main (versions : Versions) : MN string :=
  version ← lift_res (trae_ProbeVersion versions "traex");
  workRoot ← on_files (os_MkdirTemp "relay-trae-smoke-");
  let worker := smoke_worker "local-trae-smoke" (runtime_of "trae" version "healthy") NewRegistry
                  (trae_Execute [] ((smoke_config "traex" "read-only" workRoot) <| cf_Protocol := "app-server" |>)) in
  read ← smoke worker (smoke_request "trae-smoke-1" "trae"
    "This is a Relay runtime connectivity test. Do not modify files and do not run shell commands. Reply with exactly: RELAY_TRAE_OK");
  let '(completed, events) := (read : Run * list Event) in
  if negb (existsb (λ event, ev_Type event =s "assistant.message.delta") events)
  then raise (errors_New "Trae app-server did not emit assistant.message.delta")
  else mret (println (JObj [("trae_version", JStr version); ("run", enc wire_Run completed);
                            ("event_count", JNum (pretty (length events))); ("work_root", JStr workRoot)])).

(** [stat]: whether a file is a directory, and its permission bits; the flags are parsed. *)
Definition mustAbs (path : string) : Res string :=
  if IsAbs path then Ok (Clean path) else res_bind working_dir (λ wd, Ok (filepath_Join [wd; path])).
Definition requireExecutable (stat : string → Res (bool * Z)) (path : string) : Res () :=
  match stat path with
  | Err err => Err (wrap_text ("required executable " +:+ path +:+ ": ") err)
  | Ok (dir, mode) =>
      if dir || (Z.land mode 73 =s 0)%Z
      then Err (errors_New ("required executable " +:+ path +:+ " is not executable")) else Ok ()
  end.
Definition contains (values : list string) (target : string) : bool := existsb (λ value, value =s target) values.
Definition issue_read_request : Request :=
  zero <| req_AgentID := "capability-smoke-test" |> <| req_IdempotencyKey := "codex-capability-smoke-1" |>
       <| req_Runtime := mkRuntimeRequirement "" "codex" "" "" ∅ |>
       <| req_Input := mkInput "task" "1" "Use relay-tool to call the granted issue.read capability for resource MUL-42. Read the title from the returned JSON; do not guess it or inspect unrelated files. Reply with RELAY_CODEX_CAPABILITY_OK: followed by that title." None |>
       <| req_Capabilities := [mkGrant "issue.read" "1" "read" ["MUL-42"]] |>.

(** The messages of the two last failures leave out the value they print. *)
Definition capability_smoke_main (stat : string → Res (bool * Z)) (versions : Versions) (toolDirFlag bindingFlag : string) : MN string :=
  toolDir ← lift_res (mustAbs toolDirFlag);
  bindingCommand ← lift_res (mustAbs bindingFlag);
  lift_res (requireExecutable stat (filepath_Join [toolDir; "relay-tool"])) ;;
  lift_res (requireExecutable stat bindingCommand) ;;
  version ← lift_res (codex_ProbeVersion versions "codex");
  workRoot ← on_files (os_MkdirTemp "relay-codex-capability-smoke-");
  registry ← lift_res (registered NewRegistry (mkDescriptor "issue.read" "1" "exec") (exec_Invoke (mkExec bindingCommand [] ∅ false 0) []));
  let worker := smoke_worker "local-codex-capability-smoke" (runtime_of "codex" version "") registry
                  (codex_Execute [] ((smoke_config "codex" "workspace-write" workRoot) <| cf_ToolDir := toolDir |>)) in
  read ← smoke worker issue_read_request;
  let '(completed, events) := (read : Run * list Event) in
  let summary := match run_Result completed with Some result => Some (res_Summary result) | None => None end in
  if negb (bool_decide (TrimSpace <$> summary = Some "RELAY_CODEX_CAPABILITY_OK: Fix flaky scheduler"))
  then raise (errors_New "unexpected Codex result: ")
  else
    let eventTypes := map ev_Type events in
    if negb (contains eventTypes "capability.succeeded")
    then raise (errors_New "capability was not invoked; events: ")
    else mret (println (JObj [("codex_version", JStr version); ("run_id", JStr (run_ID completed)); ("status", JStr (RunStatus_text (run_Status completed)));
           ("summary", JStr (default "" summary)); ("events", JArr (map JStr eventTypes)); ("work_root", JStr workRoot)])).
End programs.

(** ** The command answers *)
(** A call of a binding whose command is the example's: reads of [issue.read@1] with
    a resource get its answer; any other call fails, and the failure has nothing of
    the message that the command wrote: the binding looks at the exit status first. *)
Theorem cli_answers `{Host} `{TimeParser} `{TimeLaws} `{Encoder} `{JsonParser} `{ParserLaws} `{Environment}
    (config : Exec) (order : list string) (request : CapabilityRequest) (w : World FS) :
  let said line := Z.of_nat (String.length line + 1) in
  let limit := if (xc_MaxOutputBytes config <=? 0)%Z then binding_limit else xc_MaxOutputBytes config in
  xc_Command config ≠ "" →
  spawn (mkCommand (xc_Command config) (xc_Args config) "" (request_text request) (exec_env config order)) = Ok capability_cli →
  (said (json_text (cli_response request)) <= limit)%Z →
  exec_Invoke config order request w =
    (if bool_decide (cr_Name request = "issue.read" ∧ cr_Version request = "1" ∧ cr_Resource request ≠ "")
     then Ok (Some (sorted_object [("id", JStr (cr_Resource request)); ("title", JStr "Fix flaky scheduler"); ("source", JStr "user-cli")]))
     else Err (exec_failed exit_1 ""), w).
Proof.
  intros said limit Hc Hs Hl. unfold exec_Invoke. rewrite bool_decide_eq_false_2 by done. rewrite Hs.
  unfold capability_cli. cbn [run_child from_option id].
  assert (res_bind (parse_first (request_text request)) (Unmarshal wire_CapabilityRequest false) = Ok request) as ->.
  { unfold request_text. rewrite parse_first_text. cbn [res_bind]. rewrite lawful_Unmarshal; [|exact CapabilityRequest_lawful|done].
    f_equal. exact (CapabilityRequest_received request). }
  assert (Hfail : ∀ message, run_child None (cli_fail message) w = (Ok ([json_text (sorted_object [("error", JStr message)]) +:+ nl], [], Some exit_1), w))
    by done.
  destruct (decide (cr_Name request = "issue.read")) as [Hn|Hn]; [rewrite (bool_decide_eq_true_2 _ Hn)|rewrite (bool_decide_eq_false_2 _ Hn)];
    cbn [negb orb]; [destruct (decide (cr_Version request = "1")) as [Hv|Hv];
      [rewrite (bool_decide_eq_true_2 _ Hv)|rewrite (bool_decide_eq_false_2 _ Hv)]; cbn [negb orb];
      [destruct (decide (cr_Resource request = "")) as [Hr|Hr];
        [rewrite (bool_decide_eq_true_2 _ Hr)|rewrite (bool_decide_eq_false_2 _ Hr)]|]|].
  2: { rewrite bool_decide_eq_true_2 by done. cbn [run_child]. unfold mbind, M_bind, mret, M_ret. fold limit. cbn [limited_copy].
       rewrite str_length_app. change (String.length nl) with 1.
       destruct (Z.ltb_spec limit (Z.of_nat (String.length (json_text (cli_response request)) + 1))) as [Hlt|_]; [unfold said in Hl; lia|].
       cbn [first_failure].
       rewrite str_app_nil_r. unfold open_envelope. rewrite parse_all_line. unfold res_bind, cli_response. reflexivity. }
  all: rewrite bool_decide_eq_false_2 by naive_solver; unfold mbind at 1, M_bind at 1; rewrite Hfail; fold limit;
    by destruct (limited_copy output_overflow limit [_]).
Qed.

(** ** A machine for the programs *)
(** Documents as text: a byte of a string after a one, and a zero at its end. *)
Fixpoint put_string (s : string) : string :=
  match s with EmptyString => "0" | String c s => "1" +:+ String c (put_string s) end.
Fixpoint get_string (s : string) : option (string * string) :=
  match s with
  | String d rest =>
      if String d "" =s "0" then Some ("", rest)
      else match rest with
           | String c rest => match get_string rest with Some (a, rest) => Some (String c a, rest) | None => None end
           | EmptyString => None
           end
  | EmptyString => None
  end.
Fixpoint compact (j : Json) : string :=
  match j with
  | JNull => "n"
  | JBool b => if b then "t" else "f"
  | JNum s => "#" +:+ put_string s
  | JStr s => "$" +:+ put_string s
  | JArr l => "[" +:+ foldr (λ j rest, "," +:+ compact j +:+ rest) "]" l
  | JObj l => "{" +:+ foldr (λ kv rest, "," +:+ put_string kv.1 +:+ compact kv.2 +:+ rest) "}" l
  end.
(** A document, or what is left of the elements of one. *)
Fixpoint get_json (n : nat) (s : string) : option (Json * string) :=
  match n, s with
  | S n, String c s =>
      let k := String c "" in
      if k =s "n" then Some (JNull, s) else if k =s "t" then Some (JBool true, s) else if k =s "f" then Some (JBool false, s)
      else if k =s "#" then '(a, s) ← get_string s; Some (JNum a, s)
      else if k =s "$" then '(a, s) ← get_string s; Some (JStr a, s)
      else if k =s "[" then '(l, s) ← get_items n s; Some (JArr l, s)
      else '(l, s) ← get_members n s; Some (JObj l, s)
  | _, _ => None
  end
with get_items (n : nat) (s : string) : option (list Json * string) :=
  match n, s with
  | S n, String c s =>
      if String c "" =s "]" then Some ([], s)
      else '(j, s) ← get_json n s; '(l, s) ← get_items n s; Some (j :: l, s)
  | _, _ => None
  end
with get_members (n : nat) (s : string) : option (list (string * Json) * string) :=
  match n, s with
  | S n, String c s =>
      if String c "" =s "}" then Some ([], s)
      else '(k, s) ← get_string s; '(j, s) ← get_json n s; '(l, s) ← get_members n s; Some ((k, j) :: l, s)
  | _, _ => None
  end.

Lemma get_put_string a s : get_string (put_string a +:+ s) = Some (a, s).
Proof.
  induction a as [|c a IH]; [reflexivity|].
  change (match get_string (put_string a +:+ s) with Some (x, rest) => Some (String c x, rest) | None => None end = Some (String c a, s)).
  by rewrite IH.
Qed.

Fixpoint height (j : Json) : nat :=
  match j with
  | JArr l => foldr (λ j n, S (height j + n)) 2 l
  | JObj l => foldr (λ kv n, S (height kv.2 + n)) 2 l
  | _ => 1
  end.
Lemma get_compact : ∀ j n s, height j ≤ n → get_json n (compact j +:+ s) = Some (j, s).
Proof.
  fix IH 1. intros [|[]|x|x|l|l] n s Hn; (destruct n as [|n]; [first [cbn in Hn; lia|destruct l; cbn in Hn; lia]|]); try reflexivity.
  - change (('(a, s) ← get_string (put_string x +:+ s); Some (JNum a, s)) = Some (JNum x, s)). by rewrite get_put_string.
  - change (('(a, s) ← get_string (put_string x +:+ s); Some (JStr a, s)) = Some (JStr x, s)). by rewrite get_put_string.
  - cbn [compact]. rewrite str_app_assoc. set (text := foldr _ _ l).
    change (('(l, s) ← get_items n (text +:+ s); Some (JArr l, s)) = Some (JArr l, s)).
    assert (Hi : get_items n (text +:+ s) = Some (l, s)); [|by rewrite Hi].
    cbn [height] in Hn. assert (Hm : foldr (λ j n, S (height j + n)) 1 l ≤ n).
    { clear -Hn. enough (foldr (λ j n, S (height j + n)) 2 l = S (foldr (λ j n, S (height j + n)) 1 l)) by lia.
      clear Hn. induction l as [|j l IHl]; [done|]. cbn [foldr]. rewrite IHl. lia. }
    clear Hn. unfold text. clear text. revert n Hm. induction l as [|j l IHl]; intros n Hn; cbn [foldr] in *.
    + destruct n as [|n]; [lia|]. reflexivity.
    + destruct n as [|n]; [lia|]. set (rest := foldr (λ j rest, "," +:+ compact j +:+ rest) "]" l) in *. rewrite !str_app_assoc.
      change (('(j, s) ← get_json n (compact j +:+ (rest +:+ s)); '(l, s) ← get_items n s; Some (j :: l, s)) = Some (j :: l, s)).
      rewrite IH by lia. cbn. by rewrite IHl by lia.
  - cbn [compact]. rewrite str_app_assoc. set (text := foldr _ _ l).
    change (('(l, s) ← get_members n (text +:+ s); Some (JObj l, s)) = Some (JObj l, s)).
    assert (Hi : get_members n (text +:+ s) = Some (l, s)); [|by rewrite Hi].
    cbn [height] in Hn. assert (Hm : foldr (λ kv n, S (height kv.2 + n)) 1 l ≤ n).
    { clear -Hn. enough (foldr (λ kv n, S (height kv.2 + n)) 2 l = S (foldr (λ kv n, S (height kv.2 + n)) 1 l)) by lia.
      clear Hn. induction l as [|j l IHl]; [done|]. cbn [foldr]. rewrite IHl. lia. }
    clear Hn. unfold text. clear text. revert n Hm. induction l as [|[k j] l IHl]; intros n Hn; cbn [foldr fst snd] in *.
    + destruct n as [|n]; [lia|]. reflexivity.
    + destruct n as [|n]; [lia|]. set (rest := foldr (λ (kv : string * Json) rest, "," +:+ put_string kv.1 +:+ compact kv.2 +:+ rest) "}" l) in *. rewrite !str_app_assoc.
      change (('(k, s) ← get_string (put_string k +:+ (compact j +:+ (rest +:+ s))); '(j, s) ← get_json n s; '(l, s) ← get_members n s;
              Some ((k, j) :: l, s)) = Some ((k, j) :: l, s)).
      rewrite get_put_string. cbn. rewrite IH by lia. cbn. by rewrite IHl by lia.
Qed.
Lemma height_length : ∀ j, height j ≤ String.length (compact j).
Proof.
  fix IH 1. intros [|[]|x|x|l|l]; [cbn; lia|cbn; lia|cbn; lia|cbn [compact]; rewrite str_length_app; cbn; lia|cbn [compact]; rewrite str_length_app; cbn; lia|idtac|idtac];
    cbn [height compact]; rewrite str_length_app; change (String.length "[") with 1; change (String.length "{") with 1.
  - induction l as [|j l IHl]; [cbn; lia|]. cbn [foldr]. rewrite !str_length_app. pose proof (IH j). change (String.length ",") with 1. lia.
  - induction l as [|[k j] l IHl]; [cbn; lia|]. cbn [foldr fst snd]. rewrite !str_length_app. pose proof (IH j). change (String.length ",") with 1. lia.
Qed.

#[local] Instance compact_encoder : Encoder := compact.
Definition read_compact (s : string) : Res (Json * string) :=
  match get_json (String.length s) s with Some r => Ok r | None => Err (errors_New "invalid character") end.
#[local] Instance compact_parser : JsonParser := {|
  parse_first s := res_bind (read_compact s) (λ r, Ok r.1);
  parse_all s := res_bind (read_compact s) (λ r, if TrimSpace r.2 =s "" then Ok r.1 else Err (errors_New "invalid character after top-level value")) |}.
Lemma read_compact_text j s : read_compact (compact j +:+ s) = Ok (j, s).
Proof. unfold read_compact. rewrite get_compact; [done|]. rewrite str_length_app. pose proof (height_length j). lia. Qed.
Lemma read_compact_whole j : read_compact (json_text j) = Ok (j, "").
Proof. rewrite <- (str_app_nil_r (json_text j)). exact (read_compact_text j ""). Qed.
#[local] Instance compact_laws : ParserLaws.
Proof.
  constructor; intros j; cbn [parse_first parse_all compact_parser]; [by rewrite read_compact_whole..|].
  change (json_text j) with (compact j). by rewrite (read_compact_text j nl).
Qed.
#[local] Instance compact_injective : EncoderLaws.
Proof.
  intros a b Hab. pose proof (read_compact_text a "") as Ha. change (compact a) with (json_text a) in Ha. rewrite Hab in Ha.
  change (json_text b) with (compact b) in Ha. rewrite read_compact_text in Ha. by injection Ha.
Qed.

(** An agent that asks for the issue and answers with its title; the other answers at once. *)
Definition title_in (r : Res CapabilityResult) : string :=
  match r with
  | Ok result => match cres_Output result with
                 | Some (JObj l) => match obj_map l !! "title" with Some (JStr title) => title | _ => "" end
                 | _ => ""
                 end
  | Err err => err_msg err
  end.
Definition last_message (command : Command) (message : string) (k : Child) : Child :=
  Touches (os_WriteFile (filepath_Join [cm_Dir command; ".relay"; "codex-last-message.txt"]) message ;; mret "")
    (Prints (json_text (JObj [("type", JStr "item.completed"); ("item", JObj [("type", JStr "agent_message"); ("text", JStr message)])])) k).
Definition codex_child (command : Command) : Child :=
  if Contains (cm_Stdin command) "relay-tool" then
    Calls (mkCall "issue.read" "1" "read-1" "MUL-42" None)
      (λ issue, last_message command ("RELAY_CODEX_CAPABILITY_OK: " +:+ title_in issue +:+ nl) (Exits [] None))
  else last_message command "RELAY_CODEX_OK" (Exits [] None).
Definition says_line (members : list (string * Json)) : string := json_text (JObj members).
Definition trae_child : Child :=
  Reads (λ _, Prints (says_line [("id", JNum "1"); ("result", JObj [])])
    (Reads (λ _, Reads (λ _,
      Prints (says_line [("id", JNum "2"); ("result", JObj [("thread", JObj [("id", JStr "t1")])])])
        (Reads (λ _, Prints (says_line [("id", JNum "3")])
          (Prints (says_line [("method", JStr "item/agentMessage/delta"); ("params", JObj [("delta", JStr "RELAY_TRAE_OK")])])
            (Prints (says_line [("method", JStr "turn/completed"); ("params", JObj [("turn", JObj [("status", JStr "completed")])])])
              (Exits [] None))))))))).
#[local] Instance laptop : Environment := {|
  LookupEnv name := if name =s "PATH" then Some "/bin" else None;
  os_Environ := ["PATH=/bin"];
  LookPath _ := true;
  working_dir := Ok "/src";
  os_TempDir := "/tmp";
  spawn command :=
    if cm_Binary command =s "codex" then Ok (codex_child command)
    else if cm_Binary command =s "traex" then Ok trae_child
    else if cm_Binary command =s "/src/bin/relay-example-capability" then Ok capability_cli
    else Err (errors_New "executable file not found") |}.
#[local] Instance no_floats : Floats := Some.
#[local] Instance open_pipes : Pipes := {| write_fault _ := None; wait_error := Some (errors_New "signal: terminated"); context_error := None; stderr_seen := "" |}.
#[local] Instance no_peers : Peers Svc := λ _, mret ().
Definition laptop_versions : Versions := λ binary, (binary +:+ " 1.2.3", None).
Definition laptop_files : string → Res (bool * Z) := λ path, Ok (false, 493%Z).

(** The programs start with an empty service and no files. *)
Definition blank : World (NodeState Svc) := mkWorld 0 (mkNodeState ∅ (mkService NewMemoryStorage ∅)).
Definition outcome (program : MN string) : list (RunStatus * option string) * list string * Res string :=
  let '(r, w) := program blank in
  let storage := sv_storage (nd_cp (w_st w)) in
  (map (λ run, (run_Status run.2, res_Summary <$> run_Result run.2)) (map_to_list (ms_runs storage)),
   map ev_Type (concat (map snd (map_to_list (ms_events storage)))), res_bind r (λ _, Ok "")).

(** The whole system, with every layer between the host and the agent.  In
    examples/multica the request of the host reaches the compatible node over HTTP,
    is refused by the other, and comes back as the result of an agent that asked
    the application for the issue.  The smoke tests pass: with agents that answer
    over either protocol of the runtimes, and with one that makes its call through
    the tool bridge, the binding and the example's command. *)
Theorem programs_run :
  let created := ["run.created"; "attempt.queued"; "attempt.leased"; "attempt.started"; "run.started"] in
  let called := ["capability.started"; "capability.recorded"; "capability.succeeded"] in
  let done := ["attempt.succeeded"; "run.succeeded"] in
  let none := λ _ : nat, None : option Error in
  outcome (multica_main "dev" none) =
    ([(RunSucceeded, Some "Compatible Relay node completed the distributed run")],
     created ++ called ++ ["artifact.created"] ++ done, Ok "") ∧
  outcome (codex_smoke_main "dev" none laptop_versions) =
    ([(RunSucceeded, Some "RELAY_CODEX_OK")],
     created ++ ["runtime.codex.started"; "runtime.codex.item.completed"; "assistant.message.completed"; "runtime.codex.completed";
                 "artifact.created"; "artifact.created"] ++ done, Ok "") ∧
  outcome (trae_smoke_main "dev" none laptop_versions) =
    ([(RunSucceeded, Some "RELAY_TRAE_OK")],
     created ++ ["runtime.trae.started"; "runtime.trae.item.agentMessage.delta"; "assistant.message.delta";
                 "runtime.trae.turn.completed"; "runtime.trae.completed"; "artifact.created"; "artifact.created"] ++ done, Ok "") ∧
  outcome (capability_smoke_main "dev" none laptop_files laptop_versions "./bin" "./bin/relay-example-capability") =
    ([(RunSucceeded, Some "RELAY_CODEX_CAPABILITY_OK: Fix flaky scheduler")],
     created ++ ["runtime.codex.started"] ++ called ++
     ["runtime.codex.item.completed"; "assistant.message.completed"; "runtime.codex.completed"; "artifact.created"; "artifact.created"] ++
     done, Ok "").
Proof. split_and!; vm_compute; reflexivity. Qed.
(** Without the executable bit the test does not start. *)
Example not_executable :
  (capability_smoke_main "dev" (λ _, None) (λ _, Ok (false, 420%Z)) laptop_versions "./bin" "./bin/relay-example-capability" blank).1 =
  Err (errors_New "required executable /src/bin/relay-tool is not executable").
Proof. vm_compute. reflexivity. Qed.
