(* ===== verification/Migrations.v ===== *)
(** * Migrations: the schema under the PostgreSQL storage

    [Open] and [Migrate] of controlplane/postgres/store.go and the scripts of
    controlplane/postgres/migrations.  A script is a list of the statements it
    has; the schema keeps of a column whether it may be null and whether it has
    a default, and of a table its unique constraints under the names that
    PostgreSQL gives them.  Rows are in Postgres; what a script may find in them
    shows only as the failure of a statement ([Server]).  Migrations of several
    processes do not overlap (the advisory lock of the transaction), so a
    history is a sequence of calls of [Open]. *)

From S2P Require Import Prelude GoStrings Json Types Event Outbox Postgres PostgresProps Codec.

(** ** Schemas and scripts *)
Record Column := mkColumn { cl_NotNull : bool; cl_Default : bool }.
Record Table := mkTable { tb_columns : gmap string Column; tb_unique : gmap string (list string) }.
Abbreviation Schema := (gmap string Table).

(** The statements of the migrations; creating skips what is there, except for constraints. *)
Inductive Statement :=
  | CreateTable (table : string) (columns : list (string * Column)) (uniques : list (string * list string))
  | AddColumn (table name : string) (column : Column)
  | SetNotNull (table name : string)
  | DropConstraint (table name : string)
  | AddConstraint (table name : string) (columns : list string)
  | CreateIndex (table : string) (columns : list string)
  | UpdateRows (table : string) (columns : list string).

Definition undefined (what name : string) : Error := errors_New (what +:+ " " +:+ name +:+ " does not exist").
Definition has_columns (t : Table) (columns : list string) : bool := forallb (λ c, bool_decide (is_Some (tb_columns t !! c))) columns.

Definition on_table (name : string) (f : Table → Res Table) (s : Schema) : Res Schema :=
  match s !! name with
  | None => Err (undefined "relation" name)
  | Some t => match f t with Ok t => Ok (<[name := t]> s) | Err e => Err e end
  end.
Definition run_statement (s : Schema) (d : Statement) : Res Schema :=
  match d with
  | CreateTable name columns uniques =>
      match s !! name with Some _ => Ok s | None => Ok (<[name := mkTable (list_to_map columns) (list_to_map uniques)]> s) end
  | AddColumn table name column => on_table table (λ t,
      match tb_columns t !! name with
      | Some _ => Ok t
      | None => Ok (mkTable (<[name := column]> (tb_columns t)) (tb_unique t))
      end) s
  | SetNotNull table name => on_table table (λ t,
      match tb_columns t !! name with
      | None => Err (undefined "column" name)
      | Some c => Ok (mkTable (<[name := mkColumn true (cl_Default c)]> (tb_columns t)) (tb_unique t))
      end) s
  | DropConstraint table name => on_table table (λ t, Ok (mkTable (tb_columns t) (delete name (tb_unique t)))) s
  | AddConstraint table name columns => on_table table (λ t,
      match tb_unique t !! name with
      | Some _ => Err (errors_New ("relation " +:+ name +:+ " already exists"))
      | None => if has_columns t columns then Ok (mkTable (tb_columns t) (<[name := columns]> (tb_unique t)))
                else Err (undefined "column" name)
      end) s
  | CreateIndex table columns | UpdateRows table columns => on_table table (λ t,
      if has_columns t columns then Ok t else Err (undefined "column" table)) s
  end.
Definition run_script (s : Schema) (script : list Statement) : Res Schema :=
  foldl (λ r d, match r with Ok s => run_statement s d | Err e => Err e end) (Ok s) script.

(** ** Migrate *)
(** What [migrations] embeds. *)
Record DirEntry := mkDirEntry { de_Name : string; de_IsDir : bool; de_Script : list Statement }.

(** The ledger relay_schema_migrations, once it is there, beside the schema of the other tables. *)
Record Database := mkDatabase { db_ledger : option (list string); db_schema : Schema }.
Definition empty_database : Database := mkDatabase None ∅.
Abbreviation MS := (M Database).

Definition by_name (a b : DirEntry) : Prop := String.le (de_Name a) (de_Name b).
#[export] Instance by_name_dec a b : Decision (by_name a b) := _.

Section migrate.
Context `{Server}.

Definition failing {A} (text : string) (m : MS A) : MS A :=
  r ← try m; match r with Ok a => mret a | Err err => raise (wrap_text text err) end.

Definition create_ledger (d : Database) : Database := mkDatabase (Some (default [] (db_ledger d))) (db_schema d).
Definition applied (name : string) (d : Database) : bool := bool_decide (name ∈ default [] (db_ledger d)).
Definition exec_script (script : list Statement) : MS () :=
  statement ;; d ← gets id; s ← lift_res (run_script (db_schema d) script); modify (λ d, mkDatabase (db_ledger d) s).
Definition insert_name (name : string) : MS () :=
  taken ← query (applied name);
  if (taken : bool) then raise duplicate_key
  else modify (λ d, mkDatabase (Some (default [] (db_ledger d) ++ [name])) (db_schema d)).

Definition migrate_entry (entry : DirEntry) : MS () :=
  if de_IsDir entry then mret ()
  else
    done ← query (applied (de_Name entry));
    if (done : bool) then mret ()
    else failing ("relay postgres: migration " +:+ de_Name entry +:+ ": ") (exec_script (de_Script entry)) ;;
         insert_name (de_Name entry).
Definition Migrate (entries : list DirEntry) : MS () :=
  transaction (λ _,
    failing "relay postgres: acquire migration lock: " statement ;;
    failing "relay postgres: create migration ledger: " (exec create_ledger) ;;
    for_each migrate_entry (merge_sort by_name entries)).

(** Of the store that [Open] returns only the database matters; a pool can fail
    to be made and its first connection can. *)
Definition Open (entries : list DirEntry) (databaseURL : string) : MS () :=
  if databaseURL =s "" then raise (errors_New "relay postgres: database URL is required")
  else
    failing "relay postgres: open: " statement ;;
    failing "relay postgres: ping: " statement ;;
    Migrate entries.
End migrate.

(** ** The scripts *)
Definition required : Column := mkColumn true false.
Definition defaulted : Column := mkColumn true true.
Definition nullable : Column := mkColumn false false.
Definition keyed (table : string) (columns : list (string * Column)) (uniques : list (string * list string)) : Statement :=
  CreateTable table (("id", required) :: columns) ((table +:+ "_pkey", ["id"]) :: uniques).

Definition initial_sql : list Statement := [
  keyed "relay_nodes"
    [("labels", defaulted); ("runtimes", defaulted); ("capabilities", defaulted); ("capacity", required); ("last_seen", required)] [];
  keyed "relay_runs"
    [("agent_id", required); ("idempotency_key", required); ("runtime", required); ("source", required); ("request", required);
     ("status", required); ("result", nullable); ("error", defaulted); ("created_at", required); ("started_at", nullable);
     ("completed_at", nullable)] [("relay_runs_idempotency_key_key", ["idempotency_key"])];
  keyed "relay_attempts"
    [("run_id", required); ("number", required); ("node_id", defaulted); ("lease_token", defaulted); ("lease_expires_at", nullable);
     ("status", required); ("started_at", nullable); ("completed_at", nullable)] [("relay_attempts_run_id_key", ["run_id"])];
  keyed "relay_events"
    [("run_id", required); ("attempt_id", required); ("sequence", required); ("type", required); ("data", nullable);
     ("created_at", required)] [("relay_events_run_id_sequence_key", ["run_id"; "sequence"])];
  CreateIndex "relay_runs" ["created_at"; "id"; "status"];
  CreateIndex "relay_attempts" ["node_id"; "status"]].
Definition attempt_recovery_sql : list Statement := [
  AddColumn "relay_runs" "current_attempt_id" nullable;
  UpdateRows "relay_runs" ["current_attempt_id"; "id"];
  SetNotNull "relay_runs" "current_attempt_id";
  DropConstraint "relay_attempts" "relay_attempts_run_id_key";
  AddColumn "relay_attempts" "available_at" defaulted;
  CreateIndex "relay_attempts" ["run_id"; "number"];
  CreateIndex "relay_attempts" ["lease_expires_at"; "status"]].
Definition run_cancellation_sql : list Statement := [
  AddColumn "relay_runs" "deadline_at" nullable;
  AddColumn "relay_runs" "cancel_requested_at" nullable;
  AddColumn "relay_runs" "cancel_reason" defaulted;
  AddColumn "relay_runs" "cancel_requested_by" defaulted;
  AddColumn "relay_runs" "cancelled_at" nullable;
  CreateIndex "relay_runs" ["deadline_at"; "status"]].
Definition artifacts_sql : list Statement := [
  keyed "relay_artifacts"
    [("run_id", required); ("attempt_id", required); ("type", required); ("ref", required); ("name", defaulted);
     ("content_type", defaulted); ("size", required); ("sha256", required); ("created_at", defaulted)] []].
Definition capability_calls_sql : list Statement := [
  keyed "relay_capability_calls"
    [("run_id", required); ("attempt_id", required); ("idempotency_key", required); ("request_hash", required);
     ("request", required); ("status", required); ("result", nullable); ("error", defaulted); ("created_at", defaulted);
     ("completed_at", nullable)] [("relay_capability_calls_run_id_idempotency_key_key", ["run_id"; "idempotency_key"])]].
Definition tenant_project_sql : list Statement := [
  AddColumn "relay_runs" "tenant_id" defaulted;
  AddColumn "relay_runs" "project_id" defaulted;
  DropConstraint "relay_runs" "relay_runs_idempotency_key_key";
  AddConstraint "relay_runs" "relay_runs_scope_idempotency_key" ["tenant_id"; "project_id"; "idempotency_key"]].
Definition interactions_sql : list Statement := [
  AddColumn "relay_runs" "session_id" defaulted;
  keyed "relay_interactions"
    [("run_id", required); ("attempt_id", required); ("kind", required); ("state", required); ("prompt", required);
     ("data", nullable); ("response", nullable); ("created_at", defaulted); ("resolved_at", nullable)] []].
Definition node_versions_sql : list Statement := [
  AddColumn "relay_nodes" "version" defaulted;
  AddColumn "relay_nodes" "protocol_version" defaulted].

Definition migrations : list DirEntry := [
  mkDirEntry "001_initial.sql" false initial_sql;
  mkDirEntry "002_attempt_recovery.sql" false attempt_recovery_sql;
  mkDirEntry "003_run_cancellation.sql" false run_cancellation_sql;
  mkDirEntry "004_artifacts.sql" false artifacts_sql;
  mkDirEntry "005_capability_calls.sql" false capability_calls_sql;
  mkDirEntry "006_tenant_project.sql" false tenant_project_sql;
  mkDirEntry "007_interactions.sql" false interactions_sql;
  mkDirEntry "008_node_versions.sql" false node_versions_sql].

(** ** What the store asks of the schema *)
(** A statement of the store: the columns it gives a new row, those it names
    otherwise, and the columns of its [ON CONFLICT]. *)
Record Use := mkUse { us_table : string; us_inserts : option (list string); us_names : list string; us_conflict : option (list string) }.
Definition inserts (table : string) (columns : list string) (conflict : option (list string)) : Use := mkUse table (Some columns) [] conflict.
Definition names (table : string) (columns : list string) : Use := mkUse table None columns None.

Definition insert_node : Use :=
  inserts "relay_nodes" ["id"; "version"; "protocol_version"; "labels"; "runtimes"; "capabilities"; "capacity"; "last_seen"] (Some ["id"]).
Definition insert_run : Use :=
  inserts "relay_runs"
    ["id"; "tenant_id"; "project_id"; "session_id"; "agent_id"; "idempotency_key"; "runtime"; "source"; "request"; "status";
     "created_at"; "current_attempt_id"; "deadline_at"] (Some ["tenant_id"; "project_id"; "idempotency_key"]).
Definition insert_first_attempt : Use := inserts "relay_attempts" ["id"; "run_id"; "number"; "status"] None.
Definition insert_next_attempt : Use := inserts "relay_attempts" ["id"; "run_id"; "number"; "status"; "available_at"] None.
Definition insert_event : Use :=
  inserts "relay_events" ["id"; "run_id"; "attempt_id"; "sequence"; "type"; "data"; "created_at"] None.
Definition insert_artifact : Use :=
  inserts "relay_artifacts" ["id"; "run_id"; "attempt_id"; "type"; "ref"; "name"; "content_type"; "size"; "sha256"] None.
Definition insert_call : Use :=
  inserts "relay_capability_calls" ["id"; "run_id"; "attempt_id"; "idempotency_key"; "request_hash"; "request"; "status"]
    (Some ["run_id"; "idempotency_key"]).
Definition insert_interaction : Use :=
  inserts "relay_interactions" ["id"; "run_id"; "attempt_id"; "kind"; "state"; "prompt"; "data"; "created_at"] None.
Definition select_run : Use :=
  names "relay_runs"
    ["id"; "tenant_id"; "project_id"; "session_id"; "agent_id"; "idempotency_key"; "runtime"; "source"; "status"; "result"; "error";
     "created_at"; "started_at"; "completed_at"; "deadline_at"; "cancel_requested_at"; "cancel_reason"; "cancelled_at";
     "current_attempt_id"].
Definition request_cancellation : Use :=
  names "relay_runs" ["status"; "cancel_requested_at"; "cancel_reason"; "cancel_requested_by"; "id"].
Definition select_node : Use :=
  names "relay_nodes" ["id"; "version"; "protocol_version"; "labels"; "runtimes"; "capabilities"; "capacity"; "last_seen"].
Definition select_attempts : Use :=
  names "relay_attempts"
    ["id"; "number"; "node_id"; "lease_token"; "lease_expires_at"; "available_at"; "status"; "started_at"; "completed_at"; "run_id"].
Definition select_events : Use := names "relay_events" ["id"; "run_id"; "attempt_id"; "sequence"; "type"; "data"; "created_at"].
Definition select_artifacts : Use :=
  names "relay_artifacts" ["id"; "type"; "ref"; "name"; "content_type"; "size"; "sha256"; "run_id"; "created_at"].
Definition select_call : Use :=
  names "relay_capability_calls" ["id"; "request_hash"; "status"; "result"; "error"; "run_id"; "idempotency_key"].
Definition finish_call : Use := names "relay_capability_calls" ["status"; "result"; "error"; "completed_at"; "id"; "run_id"].
Definition select_interactions : Use :=
  names "relay_interactions"
    ["id"; "run_id"; "attempt_id"; "kind"; "state"; "prompt"; "data"; "response"; "created_at"; "resolved_at"].
Definition store_uses : list Use :=
  [insert_node; insert_run; insert_first_attempt; insert_next_attempt; insert_event; insert_artifact; insert_call; insert_interaction;
   select_run; request_cancellation; select_node; select_attempts; select_events; select_artifacts; select_call; finish_call;
   select_interactions].

(** PostgreSQL accepts the statement: the columns exist, a new row lacks none that
    must not be null, and a conflict is one of a unique constraint. *)
Definition accepts (s : Schema) (u : Use) : bool :=
  match s !! us_table u with
  | None => false
  | Some t =>
      has_columns t (us_names u) && has_columns t (default [] (us_inserts u)) &&
      match us_inserts u with
      | None => true
      | Some columns => forallb (λ kc, negb (cl_NotNull kc.2) || cl_Default kc.2 || bool_decide (kc.1 ∈ columns)) (map_to_list (tb_columns t))
      end &&
      match us_conflict u with
      | None => true
      | Some columns => existsb (λ kc, kc.2 =s columns) (map_to_list (tb_unique t))
      end
  end.

(** ** What a history of migrations leaves *)
(** The schema that the scripts of [l] make, one after the other. *)
Definition schema_of (l : list DirEntry) : Res Schema :=
  foldl (λ r e, match r with Ok s => run_script s (de_Script e) | Err e => Err e end) (Ok ∅) l.
Definition names_of (l : list DirEntry) : list string := map de_Name l.
Definition migrated (d : Database) (l : list DirEntry) : Prop :=
  default [] (db_ledger d) = names_of l ∧ schema_of l = Ok (db_schema d).
(** What a version brings that the database lacks, in the order of the names. *)
Definition lacking (l entries : list DirEntry) : list DirEntry :=
  List.filter (λ e, negb (de_IsDir e) && negb (bool_decide (de_Name e ∈ names_of l))) (merge_sort by_name entries).

(** ** One call *)
Lemma schema_of_app l l' : schema_of (l ++ l') = foldl (λ r e, match r with Ok s => run_script s (de_Script e) | Err e => Err e end) (schema_of l) l'.
Proof. apply foldl_app. Qed.
Lemma schema_of_err l err : foldl (λ r e, match r with Ok s => run_script s (de_Script e) | Err e => Err e end) (Err err) l = Err err.
Proof. by induction l. Qed.
Lemma names_app l l' : names_of (l ++ l') = names_of l ++ names_of l'.
Proof. apply map_app. Qed.

Definition absent (l : list DirEntry) (e : DirEntry) : bool := negb (de_IsDir e) && negb (bool_decide (de_Name e ∈ names_of l)).
Lemma absent_snoc l e es :
  de_Name e ∉ names_of es → List.filter (absent (l ++ [e])) es = List.filter (absent l) es.
Proof.
  intros Hn. apply List.filter_ext_in. intros x Hx. unfold absent. f_equal. f_equal. apply bool_decide_ext.
  rewrite names_app, elem_of_app. split; [|by left]. intros [?|Hin]; [done|]. apply list_elem_of_singleton in Hin.
  destruct Hn. rewrite <- Hin. apply list_elem_of_In, in_map. done.
Qed.

Section history.
Context `{Server}.

(** A statement or a commit of the server failed. *)
Definition faulty : Prop := ∃ n, is_Some (db_fault_at n) ∨ is_Some (db_commit_at n).

(** [m] ends in a state with [P], or with an error for which there is a reason. *)
Definition ends {A} (bad : Prop) (P : A → Database → Prop) (m : MS A) (w : World Database) : Prop :=
  wp m (λ r w', match r with Ok a => P a (w_st w') | Err _ => faulty ∨ bad end) w.

Lemma ends_bind {A B} bad (Q : A → Database → Prop) (P : B → Database → Prop) (m : MS A) (k : A → MS B) w :
  ends bad Q m w → (∀ a w', Q a (w_st w') → ends bad P (k a) w') → ends bad P (m ≫= k) w.
Proof. intros Hm Hk. unfold ends in Hm. apply wp_bind. eapply wp_mono; [exact Hm|]. intros [a|e] w'; [apply Hk|done]. Qed.
Lemma ends_statement bad w : ends bad (λ _ d, d = w_st w) statement w.
Proof.
  unfold ends, statement, wp, host, mbind, M_bind. cbn. destruct (db_fault_at (w_tick w)) as [e|] eqn:Hf; [|done].
  left. exists (w_tick w). left. by rewrite Hf.
Qed.
Lemma ends_failing {A} bad (P : A → Database → Prop) text m w : ends bad P m w → ends bad P (failing text m) w.
Proof.
  unfold ends. intros Hm. unfold failing. apply wp_bind, wp_try. eapply wp_mono; [exact Hm|].
  intros [a|e] w' Hp; [by apply wp_ret|by apply wp_raise].
Qed.
Lemma ends_query {A} bad (f : Database → A) w : ends bad (λ a d, d = w_st w ∧ a = f d) (query f) w.
Proof. eapply ends_bind; [apply ends_statement|]. intros a w' Hd. apply wp_gets. rewrite Hd. done. Qed.
Lemma ends_exec bad (f : Database → Database) w : ends bad (λ _ d, d = f (w_st w)) (exec f) w.
Proof. eapply ends_bind; [apply ends_statement|]. intros a w' Hd. apply wp_modify. cbn. by rewrite Hd. Qed.
Lemma ends_mono {A} bad (P Q : A → Database → Prop) m w : (∀ a d, P a d → Q a d) → ends bad P m w → ends bad Q m w.
Proof. unfold ends. intros HPQ Hm. eapply wp_mono; [exact Hm|]. intros [a|e] w'; [apply HPQ|done]. Qed.

(** A transaction leaves the state it found or the one its body made. *)
Lemma wp_whole {A} bad (P : A → Database → Prop) (body : Z → MS A) w :
  (∀ now w0, w_st w0 = w_st w → ends bad P (body now) w0) →
  wp (transaction body) (λ r w', match r with
    | Ok a => P a (w_st w')
    | Err _ => (faulty ∨ bad) ∧ (w_st w' = w_st w ∨ ∃ a, P a (w_st w'))
    end) w.
Proof.
  intros Hbody. unfold wp, transaction, statement, mbind, M_bind, host, mret, M_ret, raise. cbn [w_tick w_st].
  destruct (db_fault_at (w_tick w)) as [e|] eqn:Hf; cbn.
  { split; [left; exists (w_tick w); left; by rewrite Hf|by left]. }
  set (w0 := mkWorld (w_tick w + 1 + 1) (w_st w)). pose proof (Hbody (db_now_at (w_tick w + 1)) w0 eq_refl) as Hb.
  unfold ends, wp in Hb. destruct (body _ w0) as [[a|e] w1]; cbn in *; [|by split; [|left]].
  destruct (db_commit_at (w_tick w1)) as [[e taken]|] eqn:Hc; cbn; [|exact Hb].
  split; [left; exists (w_tick w1); right; by rewrite Hc|]. destruct taken; [right; by exists a|by left].
Qed.

(** ** Migrating *)
Lemma ends_entry l e w :
  migrated (w_st w) l →
  ends (is_ok (schema_of (l ++ List.filter (absent l) [e])) = false) (λ _ d, migrated d (l ++ List.filter (absent l) [e])) (migrate_entry e) w.
Proof.
  intros [Hl Hr]. unfold migrate_entry. cbn [List.filter]. unfold absent. destruct (de_IsDir e) eqn:Hdir; cbn [negb andb].
  { apply wp_ret. by rewrite app_nil_r. }
  eapply ends_bind; [apply ends_query|]. cbv beta. intros taken w1 [Hw1 ->]. unfold applied. rewrite Hw1, Hl.
  case_bool_decide as Hin; cbn [negb].
  { apply wp_ret. rewrite app_nil_r, Hw1. by split. }
  eapply (ends_bind _ (λ _ d, db_ledger d = db_ledger (w_st w) ∧ schema_of (l ++ [e]) = Ok (db_schema d))).
  { apply ends_failing. unfold exec_script. eapply ends_bind; [apply ends_statement|]. cbv beta. intros _ w2 Hw2.
    unfold ends. apply wp_bind, wp_gets, wp_bind, wp_lift_res. rewrite schema_of_app, Hr. cbn [foldl]. rewrite Hw2, Hw1. unfold id.
    destruct (run_script (db_schema (w_st w)) (de_Script e)) as [s|err]; [|by right].
    apply wp_modify. cbn. by rewrite Hw2, Hw1. }
  cbv beta. intros _ w2 [Hled Hrep]. unfold insert_name. eapply ends_bind; [apply ends_query|]. cbv beta. intros taken w3 [Hw3 ->].
  unfold applied. rewrite Hw3, Hled, Hl, bool_decide_eq_false_2 by done.
  apply wp_modify. rewrite Hw3. split; cbn; [|exact Hrep]. by rewrite Hled, Hl, names_app.
Qed.

Lemma ends_entries l es w :
  migrated (w_st w) l → NoDup (names_of es) →
  ends (is_ok (schema_of (l ++ List.filter (absent l) es)) = false) (λ _ d, migrated d (l ++ List.filter (absent l) es))
    (for_each migrate_entry es) w.
Proof.
  revert l w. induction es as [|e es IH]; intros l w Hm Hnd.
  { apply wp_ret. cbn. by rewrite app_nil_r. }
  cbn [for_each]. apply NoDup_cons in Hnd as [Hn Hnd].
  assert (Hs : List.filter (absent l) (e :: es) = List.filter (absent l) [e] ++ List.filter (absent (l ++ List.filter (absent l) [e])) es).
  { cbn [List.filter]. destruct (absent l e); [by rewrite absent_snoc|by rewrite app_nil_r]. }
  rewrite Hs, app_assoc. set (l1 := l ++ List.filter (absent l) [e]).
  eapply (ends_bind _ (λ _ d, migrated d l1)); [|cbv beta; intros _ w1 Hm1; by apply IH].
  pose proof (ends_entry l e w Hm) as He. unfold ends in He. eapply wp_mono; [exact He|]. intros [[]|err] w1; [done|]. intros [?|Hbad]; [by left|right].
  fold l1 in Hbad. rewrite schema_of_app. destruct (schema_of l1); [done|]. by rewrite schema_of_err.
Qed.

Lemma wp_Migrate l entries w :
  migrated (w_st w) l → NoDup (names_of entries) →
  wp (Migrate entries) (λ r w', match r with
    | Ok _ => migrated (w_st w') (l ++ lacking l entries)
    | Err _ => (faulty ∨ is_ok (schema_of (l ++ lacking l entries)) = false) ∧
               (w_st w' = w_st w ∨ migrated (w_st w') (l ++ lacking l entries))
    end) w.
Proof.
  intros Hm Hnd. eapply wp_mono.
  - apply (wp_whole (is_ok (schema_of (l ++ lacking l entries)) = false)
             (λ _ d, migrated d (l ++ lacking l entries))).
    intros now w0 Hw0. eapply ends_bind; [apply ends_failing, ends_statement|]. cbv beta. intros _ w1 Hw1.
    eapply ends_bind; [apply ends_failing, ends_exec|]. cbv beta. intros _ w2 Hw2. apply ends_entries.
    + rewrite Hw2, Hw1, Hw0. destruct Hm as [Hl Hr]. by split.
    + unfold names_of in *. by rewrite merge_sort_Permutation.
  - intros [[]|err] w'; [done|]. intros [Hbad [Hsame|[_ Hdone]]]; auto.
Qed.
End history.

(** ** Histories *)
(** Processes that open the database one after the other, each with the files it embeds and its URL. *)
Definition serve `{Server} (opens : list (list DirEntry * string)) (w : World Database) : World Database :=
  foldl (λ w o, (Open o.1 o.2 w).2) w opens.

Section histories.
Context `{Server}.

Lemma wp_reach text w :
  wp (failing text statement) (λ r w', w_st w' = w_st w ∧ match r with Ok _ => True | Err _ => faulty end) w.
Proof.
  unfold failing, statement, wp, host, try, mbind, M_bind. cbn. destruct (db_fault_at (w_tick w)) as [e|] eqn:Hf; [|done].
  split; [done|]. exists (w_tick w). left. by rewrite Hf.
Qed.
Lemma wp_Open l entries url w :
  migrated (w_st w) l → NoDup (names_of entries) →
  wp (Open entries url) (λ r w', match r with
    | Ok _ => migrated (w_st w') (l ++ lacking l entries)
    | Err _ => (url = "" ∨ faulty ∨ is_ok (schema_of (l ++ lacking l entries)) = false) ∧
               (w_st w' = w_st w ∨ migrated (w_st w') (l ++ lacking l entries))
    end) w.
Proof.
  intros Hm Hnd. unfold Open. case_bool_decide as Hurl; [apply wp_raise; auto|].
  apply wp_bind. eapply wp_mono; [apply wp_reach|]. intros [[]|err] w1 [Hw1 Hf]; [|auto].
  apply wp_bind. eapply wp_mono; [apply wp_reach|]. intros [[]|err] w2 [Hw2 Hf']; [|rewrite Hw2, Hw1; auto].
  rewrite <- Hw1, <- Hw2 in Hm |- *. eapply wp_mono; [by apply wp_Migrate|].
  intros [[]|err] w3; [done|]. intros [? ?]. auto.
Qed.
Lemma Open_moves l entries url w :
  migrated (w_st w) l → NoDup (names_of entries) →
  migrated (w_st (Open entries url w).2) l ∨ migrated (w_st (Open entries url w).2) (l ++ lacking l entries).
Proof.
  intros Hm Hnd. pose proof (wp_Open l entries url w Hm Hnd) as Ho. unfold wp in Ho.
  destruct (Open entries url w) as [[[]|err] w']; cbn in *; [by right|]. destruct Ho as [_ [->|Hd]]; auto.
Qed.

Lemma lacking_elem l entries e :
  e ∈ lacking l entries ↔ e ∈ entries ∧ de_IsDir e = false ∧ de_Name e ∉ names_of l.
Proof.
  unfold lacking. rewrite list_elem_of_In, filter_In, <- list_elem_of_In, merge_sort_Permutation, andb_true_iff, !negb_true_iff, bool_decide_eq_false.
  done.
Qed.
Lemma NoDup_lacking l entries : NoDup (names_of l) → NoDup (names_of entries) → NoDup (names_of (l ++ lacking l entries)).
Proof.
  intros Hl He. rewrite names_app. apply NoDup_app. split_and!; [done| |].
  - intros n Hn Hin. apply list_elem_of_In, in_map_iff in Hin as (e & <- & Hin).
    apply list_elem_of_In, lacking_elem in Hin. tauto.
  - assert (Hs : NoDup (names_of (merge_sort by_name entries))) by (unfold names_of in *; by rewrite merge_sort_Permutation).
    unfold lacking. induction (merge_sort by_name entries) as [|e es IH]; cbn; [constructor|].
    apply NoDup_cons in Hs as [Hn Hs]. destruct (_ && _); [|by apply IH]. apply NoDup_cons. split; [|by apply IH].
    intros Hin. apply Hn. apply list_elem_of_In, in_map_iff in Hin as (x & <- & Hin). apply filter_In in Hin as [Hin _].
    by apply list_elem_of_In, in_map.
Qed.
#[local] Instance by_name_total : Total by_name.
Proof. intros a b. unfold by_name. apply total, _. Qed.
Lemma lacking_in_order l entries : Sorted String.le (names_of (lacking l entries)).
Proof.
  assert (Hs : StronglySorted by_name (merge_sort by_name entries)).
  { apply Sorted_StronglySorted; [intros a b c; unfold by_name; apply transitivity|]. apply Sorted_merge_sort, _. }
  apply StronglySorted_Sorted. unfold lacking. induction Hs as [|e es Hs IH Hf]; cbn; [constructor|].
  destruct (_ && _); [|exact IH]. constructor; [exact IH|]. apply Forall_forall. intros n Hn.
  apply list_elem_of_In, in_map_iff in Hn as (x & <- & Hx). apply filter_In in Hx as [Hx _].
  rewrite Forall_forall in Hf. by apply Hf, list_elem_of_In.
Qed.

(** The scripts that ran, of some version each. *)
Definition ran (opens : list (list DirEntry * string)) (d : Database) (l : list DirEntry) : Prop :=
  migrated d l ∧ NoDup (names_of l) ∧ ∀ e, e ∈ l → de_IsDir e = false ∧ ∃ o, o ∈ opens ∧ e ∈ o.1.
Lemma serve_ran opens w :
  w_st w = empty_database → Forall (λ o, NoDup (names_of o.1)) opens → ∃ l, ran opens (w_st (serve opens w)) l.
Proof.
  intros Hw. induction opens as [|[files url] opens IH] using rev_ind; intros Hnd.
  { exists []. unfold ran, serve. cbn. rewrite Hw. split_and!; [done|constructor|by intros e ?%elem_of_nil]. }
  apply Forall_app in Hnd as [Hnd [Hf _]%Forall_cons]. destruct (IH Hnd) as (l & Hm & Hl & Ho).
  unfold serve. rewrite foldl_app. cbn. fold (serve opens w).
  destruct (Open_moves l files url (serve opens w) Hm Hf) as [Hd|Hd]; [exists l|exists (l ++ lacking l files)]; (split; [exact Hd|]).
  - split; [exact Hl|]. intros e He. destruct (Ho e He) as (Hdir & o & Hin & Hino). split; [done|]. exists o. split; [set_solver|done].
  - split; [by apply NoDup_lacking|]. intros e [He|He]%elem_of_app.
    + destruct (Ho e He) as (Hdir & o & Hin & Hino). split; [done|]. exists o. split; [set_solver|done].
    + apply lacking_elem in He as (Hin & Hdir & _). split; [done|]. exists (files, url). split; [set_solver|done].
Qed.

(** C20: every migration runs at most once, whole, and in the order of its version.
    Whatever processes have opened a database before, of whatever versions and
    with whatever failures of statements, commits and connections: the schema is
    what the scripts listed in the ledger make, each name listed once.  Another
    [Open] that succeeds has run exactly what its version brings and the ledger
    lacked, in the order of the names, so that the ledger lists all of it; one
    that fails has changed nothing, or everything when only the answer to its
    commit was lost. *)
Theorem migrations_once opens files url (w : World Database) :
  w_st w = empty_database → Forall (λ o, NoDup (names_of o.1)) opens → NoDup (names_of files) →
  let w1 := serve opens w in
  let '(r, w2) := Open files url w1 in
  ∃ l, ran opens (w_st w1) l ∧ Sorted String.le (names_of (lacking l files)) ∧
    match r with
    | Ok _ => migrated (w_st w2) (l ++ lacking l files) ∧
              ∀ e, e ∈ files → de_IsDir e = false → de_Name e ∈ names_of (l ++ lacking l files)
    | Err _ => w_st w2 = w_st w1 ∨ migrated (w_st w2) (l ++ lacking l files)
    end.
Proof.
  intros Hw Hnd Hf w1. destruct (serve_ran opens w Hw Hnd) as (l & Hran). fold w1 in Hran.
  pose proof (wp_Open l files url w1 (proj1 Hran) Hf) as Ho. unfold wp in Ho.
  destruct (Open files url w1) as [r w2]. exists l. split; [exact Hran|]. split; [apply lacking_in_order|].
  destruct r as [[]|err]; cbn in Ho; [|by destruct Ho]. split; [exact Ho|]. intros e He Hdir. rewrite names_app, elem_of_app.
  destruct (decide (de_Name e ∈ names_of l)) as [Hin|Hin]; [by left|right].
  apply list_elem_of_In, in_map, list_elem_of_In, lacking_elem. done.
Qed.
End histories.

(** ** The schema of this version *)
Definition current_schema : Schema := match schema_of migrations with Ok s => s | Err _ => ∅ end.
(** The versions up to this one embed the first [k] files. *)
Definition version (url : string) (k : nat) : list DirEntry * string := (take k migrations, url).

Lemma version_lacks j k : take j migrations ++ lacking (take j migrations) (take k migrations) = take (Nat.max j k) migrations.
Proof.
  revert k. do 9 (destruct j as [|j]; [intros k; do 9 (destruct k as [|k]; [vm_compute; reflexivity|]); vm_compute; reflexivity|]).
  intros k. do 9 (destruct k as [|k]; [vm_compute; reflexivity|]). vm_compute. reflexivity.
Qed.
Lemma version_runs k : is_ok (schema_of (take k migrations)) = true.
Proof. do 9 (destruct k as [|k]; [vm_compute; reflexivity|]). vm_compute. reflexivity. Qed.
Lemma version_names k : NoDup (names_of (take k migrations)).
Proof.
  unfold names_of. rewrite <- firstn_map. eapply sublist_NoDup; [|apply sublist_take].
  apply (bool_decide_unpack _). vm_compute. exact I.
Qed.

Section versions.
Context `{Server}.

Lemma serve_version url ks j w :
  migrated (w_st w) (take j migrations) →
  ∃ j', j ≤ j' ∧ migrated (w_st (serve (map (version url) ks) w)) (take j' migrations).
Proof.
  revert j w. induction ks as [|k ks IH]; intros j w Hm; [by exists j|].
  cbn [map serve foldl version fst snd]. fold (serve (map (version url) ks) (Open (take k migrations) url w).2).
  assert (∃ j', j ≤ j' ∧ migrated (w_st (Open (take k migrations) url w).2) (take j' migrations)) as (j' & Hj & Hm').
  { destruct (Open_moves _ (take k migrations) url w Hm (version_names k)) as [Hd|Hd]; [by exists j|].
    rewrite version_lacks in Hd. exists (Nat.max j k). split; [lia|exact Hd]. }
  destruct (IH j' _ Hm') as (j2 & Hj2 & Hm2). exists j2. split; [lia|exact Hm2].
Qed.
Lemma migrated_all j d :
  8 ≤ j → migrated d (take j migrations) → db_ledger d = Some (names_of migrations) ∧ db_schema d = current_schema.
Proof.
  intros Hj [Hl Hr]. rewrite firstn_all2 in Hl, Hr by exact Hj. split.
  - destruct (db_ledger d) as [listed|]; [f_equal; exact Hl|]. discriminate Hl.
  - unfold current_schema. by rewrite Hr.
Qed.

(** C21: the database of this version.  Versions up to this one have opened an empty
    database in any order and any number of times, with any failures.  [Open]
    succeeds unless the server fails (no script does); and when it has succeeded
    once, the ledger lists the eight files and the schema is the current one,
    whatever older or equal versions open it afterwards.  This schema accepts the
    statements of the store: the columns exist, no new row lacks a column that
    must not be null, and each [ON CONFLICT] names a unique constraint. *)
Theorem schema_current url ks ks' (w : World Database) :
  w_st w = empty_database →
  let '(r, w1) := Open migrations url (serve (map (version url) ks) w) in
  (url ≠ "" → (∀ n, db_fault_at n = None ∧ db_commit_at n = None) → r = Ok ()) ∧
  (r = Ok () → let d := w_st (serve (map (version url) ks') w1) in
     db_ledger d = Some (names_of migrations) ∧ db_schema d = current_schema ∧
     Forall (λ u, accepts (db_schema d) u = true) store_uses).
Proof.
  intros Hw. assert (H0 : migrated (w_st w) (take 0 migrations)) by (rewrite Hw; by split).
  destruct (serve_version url ks 0 w H0) as (j & _ & Hj).
  pose proof (wp_Open _ (take 8 migrations) url _ Hj (version_names 8)) as Ho. unfold wp in Ho. rewrite version_lacks in Ho.
  change (take 8 migrations) with migrations in Ho.
  destruct (Open migrations url _) as [r w1]. cbn [fst snd] in Ho. split.
  - intros Hurl Hfine. destruct r as [[]|err]; [done|]. exfalso. destruct Ho as [[Hu|[[n Hn]|Hbad]] _]; [done| |].
    + destruct (Hfine n) as [Hf Hc]. rewrite Hf, Hc in Hn. by destruct Hn as [[? ?]|[? ?]].
    + by rewrite version_runs in Hbad.
  - intros ->. destruct (serve_version url ks' _ w1 Ho) as (j' & Hj' & Hd).
    destruct (migrated_all j' _ ltac:(lia) Hd) as [Hl Hs]. split_and!; [exact Hl|exact Hs|]. rewrite Hs.
    apply Forall_forall. intros u Hu. assert (Ha : forallb (accepts current_schema) store_uses = true) by (vm_compute; reflexivity).
    rewrite forallb_forall in Ha. by apply Ha, list_elem_of_In.
Qed.
End versions.

(** An old process, one that loses the answer to its commit, and a new one. *)
#[local] Instance shaky_server : Server := {|
  db_now_at n := Z.of_nat n; db_fault_at n := if n =? 2 then Some (errors_New "connection reset") else None;
  db_commit_at n := if n =? 40 then Some (errors_New "connection reset", true) else None; db_locked_at _ _ := false;
  timestamptz t := t; jsonb j := j |}.
Definition demo_url : string := "postgres://relay".
Definition fresh_database : World Database := mkWorld 0 empty_database.
Example demo_ledgers : map (λ ks, length (default [] (db_ledger (w_st (serve (map (version demo_url) ks) fresh_database)))))
  [[3]; [3; 3]; [3; 3; 8]; [3; 3; 8; 2]] = [0; 3; 8; 8].
Proof. vm_compute. reflexivity. Qed.
Lemma migrations_once_witness :
  let opens := map (version demo_url) [3; 3; 8] in
  let w1 := serve opens fresh_database in
  let '(r, w2) := Open (mkDirEntry "old" true [] :: migrations) demo_url w1 in
  ∃ l, ran opens (w_st w1) l ∧ Sorted String.le (names_of (lacking l (mkDirEntry "old" true [] :: migrations))) ∧
    match r with
    | Ok _ => migrated (w_st w2) (l ++ lacking l (mkDirEntry "old" true [] :: migrations)) ∧
              ∀ e, e ∈ mkDirEntry "old" true [] :: migrations → de_IsDir e = false →
                   de_Name e ∈ names_of (l ++ lacking l (mkDirEntry "old" true [] :: migrations))
    | Err _ => w_st w2 = w_st w1 ∨ migrated (w_st w2) (l ++ lacking l (mkDirEntry "old" true [] :: migrations))
    end.
Proof.
  apply (migrations_once (map (version demo_url) [3; 3; 8]) (mkDirEntry "old" true [] :: migrations) demo_url fresh_database eq_refl).
  - apply Forall_map, Forall_forall. intros k _. apply version_names.
  - apply (bool_decide_unpack _). vm_compute. exact I.
Defined.
Lemma schema_current_witness :
  let '(r, w1) := Open migrations demo_url (serve (map (version demo_url) [3; 3; 5]) fresh_database) in
  (demo_url ≠ "" → (∀ n, db_fault_at n = None ∧ db_commit_at n = None) → r = Ok ()) ∧
  (r = Ok () → let d := w_st (serve (map (version demo_url) [2]) w1) in
     db_ledger d = Some (names_of migrations) ∧ db_schema d = current_schema ∧
     Forall (λ u, accepts (db_schema d) u = true) store_uses).
Proof. pose proof (schema_current demo_url [3; 3; 5] [2] fresh_database eq_refl) as Hcurrent. exact Hcurrent. Defined.
