(* ===== verification/Leases.v ===== *)
(** * Leases: whose events a log holds

    Every event of a log is named by the control plane itself or, by
    [EventIdentity], after the lease it was appended under.  [carries] reads off a
    log what one lease has reported; calls of others only add events that are not
    its own ([lives]). *)

From S2P Require Import Prelude GoStrings Json Types Matching Event Lifecycle Memory MemoryEffect MemoryInv MemoryOps MemoryRuns MemoryRecover MemorySystem MemoryCalls Codec.

(** ** The events of the control plane itself *)
Definition own_name (e : Event) : Prop := ∃ t, ev_ID e = "event_" +:+ t.
(** Logs grow, by events with names of the control plane only. *)
Definition quiet : relation MemoryStorage := λ s s',
  ∀ id, ∃ extra, map_get (ms_events s') id = map_get (ms_events s) id ++ extra ∧ Forall own_name extra.

#[export] Instance quiet_preorder : PreOrder quiet.
Proof.
  split.
  - intros s id. exists []. by rewrite app_nil_r.
  - intros s1 s2 s3 H1 H2 id. destruct (H1 id) as (x1 & E1 & F1). destruct (H2 id) as (x2 & E2 & F2).
    exists (x1 ++ x2). rewrite E2, E1, app_assoc. split; [done|by apply Forall_app].
Qed.

Section quiet.
Context `{Host} `{Encoder} `{Semver}.
Abbreviation quietly m := (respects quiet m).

Lemma quiet_modify f : (∀ s, ms_events (f s) = ms_events s) → quietly (modify f).
Proof. intros Hf w id. exists []. cbn. by rewrite Hf, app_nil_r. Qed.
Lemma quiet_bind {A B} (m : MM A) (k : A → MM B) : quietly m → (∀ a, quietly (k a)) → quietly (m ≫= k).
Proof. apply respects_bind, _. Qed.
Lemma quiet_for_each {A} (body : A → MM ()) xs : (∀ x, quietly (body x)) → quietly (for_each body xs).
Proof. intros Hb. induction xs as [|x xs IH]; [apply respects_ret, _|]. by apply quiet_bind. Qed.

(** Through binds and branches. *)
Ltac quietly := intros;
  repeat first
    [ solve [eauto with relay]
    | apply quiet_bind; [|intros ?]
    | apply quiet_for_each; intros ?
    | apply respects_try; [apply _|]
    | solve [first [apply respects_ret, _ | apply respects_raise, _ | apply respects_lift_res, _ | apply respects_gets, _ | apply respects_host, _]]
    | solve [apply quiet_modify; intros []; done]
    | match goal with |- respects _ (match ?x with _ => _ end) => destruct x end ].

Lemma quiet_time : quietly time_now.
Proof. apply respects_host, _. Qed.
Lemma quiet_id p : quietly (newControlPlaneID p).
Proof. apply respects_host, _. Qed.
Lemma quiet_range {V} (f : MemoryStorage → gmap string V) : quietly (range_map f).
Proof. unfold range_map. quietly. Qed.
Lemma quiet_find_run id : quietly (find_run id).
Proof. apply respects_gets, _. Qed.
Lemma quiet_find_node id : quietly (find_node id).
Proof. apply respects_gets, _. Qed.
Lemma quiet_put_run r : quietly (put_run r).
Proof. by apply quiet_modify. Qed.
Lemma quiet_put_node id n : quietly (put_node id n).
Proof. by apply quiet_modify. Qed.
#[local] Hint Resolve quiet_time quiet_id quiet_range quiet_find_run quiet_find_node quiet_put_run quiet_put_node : relay.
Lemma quiet_run_at id : quietly (run_at id).
Proof. unfold run_at. quietly. Qed.
Lemma quiet_appendEvent r ty v : quietly (appendEvent r ty v).
Proof.
  intros w id. unfold appendEvent, newControlPlaneID, host, time_now, appendEvent_as, modify, mbind, M_bind. cbn.
  destruct (decide (id = run_ID r)) as [->|Hne].
  - eexists. unfold map_get at 1. rewrite lookup_insert_eq. split; [done|]. constructor; [|constructor]. by eexists.
  - exists []. unfold map_get. by rewrite lookup_insert_ne, app_nil_r.
Qed.
Lemma quiet_releaseNode id : quietly (releaseNode id).
Proof. unfold releaseNode. quietly. Qed.
#[local] Hint Resolve quiet_run_at quiet_appendEvent quiet_releaseNode : relay.
Lemma quiet_requeueExpired r now : quietly (requeueExpired r now).
Proof. unfold requeueExpired. quietly. Qed.
Lemma quiet_finalize r now : quietly (finalizeCancellation r now).
Proof. unfold finalizeCancellation. quietly. Qed.
#[local] Hint Resolve quiet_requeueExpired quiet_finalize : relay.
Lemma quiet_cancelRunLocked r c now : quietly (cancelRunLocked r c now).
Proof. unfold cancelRunLocked. quietly. Qed.
Lemma quiet_authorize id a l : quietly (Memory.authorize id a l).
Proof. unfold Memory.authorize. quietly. Qed.
#[local] Hint Resolve quiet_cancelRunLocked quiet_authorize : relay.
Lemma quiet_assignment a : quietly (authorize_assignment a).
Proof. apply quiet_authorize. Qed.
Lemma quiet_lease_over r : quietly (lease_over r).
Proof. unfold lease_over. quietly. Qed.
#[local] Hint Resolve quiet_assignment quiet_lease_over : relay.
Lemma quiet_claim_sweep now id : quietly (claim_sweep now id).
Proof. unfold claim_sweep. quietly. Qed.
Lemma quiet_grant_lease n ttl now r q : quietly (grant_lease n ttl now r q).
Proof. unfold grant_lease. quietly. Qed.
#[local] Hint Resolve quiet_claim_sweep quiet_grant_lease : relay.
Lemma quiet_claim_scan n ttl now ids : quietly (claim_scan n ttl now ids).
Proof. induction ids as [|id ids IH]; cbn [claim_scan]; quietly. Qed.
#[local] Hint Resolve quiet_claim_scan : relay.
Lemma quiet_retry_attempt r q now : quietly (retry_attempt r q now).
Proof. unfold retry_attempt. quietly. Qed.
#[local] Hint Resolve quiet_retry_attempt : relay.
Lemma quiet_lose_attempt r now : quietly (lose_attempt r now).
Proof. unfold lose_attempt. quietly. Qed.
#[local] Hint Resolve quiet_lose_attempt : relay.
Lemma quiet_deadlines now limit ids : ∀ n, quietly (reconcile_deadlines now limit n ids).
Proof. induction ids as [|id ids IH]; intros n; cbn [reconcile_deadlines]; unfold reconcile_deadline; quietly. Qed.
Lemma quiet_attempts now limit ids : ∀ n, quietly (reconcile_attempts now limit n ids).
Proof. induction ids as [|id ids IH]; intros n; cbn [reconcile_attempts]; unfold reconcile_attempt; quietly. Qed.
#[local] Hint Resolve quiet_deadlines quiet_attempts : relay.

(** Every call but [AppendEvent]. *)
Definition appends (op : Op) : bool := match op with OpAppendEvent _ _ _ _ _ _ => true | _ => false end.
Lemma quiet_exec op : appends op = false → quietly (exec op).
Proof.
  destruct op; intros [=]; cbn [exec];
    unfold RegisterNode, Heartbeat, Nodes, Submit, Claim, Renew, Reconcile, CancelRun, AcknowledgeCancellation, Start,
      Complete, Fail, GetRun, EventsAfter, AddArtifact, Artifacts, Artifact_, ReserveCapability, FinishCapability,
      ListRuns, Attempts, CreateInteraction, GetInteraction, Interactions, ResolveInteraction; quietly.
Qed.
End quiet.

(** ** Names of producer events *)
Definition nul_char : Ascii.ascii := Ascii.ascii_of_nat 0.
Definition plain_text (s : string) : Prop := has_char nul_char s = false.

(** Random bytes are hex digits, and no two texts have one digest. *)
Class IDLaws `{Host} : Prop := {
  rand_text : ∀ n, plain_text (rand_at n);
  digest_inj :: Inj (=) (=) sha256_hex
}.

Lemma nul_split a a' b b' :
  plain_text a → plain_text a' → a +:+ nul +:+ b = a' +:+ nul +:+ b' → a = a' ∧ b = b'.
Proof.
  unfold plain_text. revert a'. induction a as [|c a IH]; intros [|c' a'] Ha Ha' He.
  - cbn in He. by injection He.
  - cbn in He. injection He as <- _. discriminate Ha'.
  - cbn in He. injection He as -> _. discriminate Ha.
  - cbn in He, Ha, Ha'. apply orb_false_iff in Ha as [_ Ha], Ha' as [_ Ha']. injection He as <- He.
    by destruct (IH a' Ha Ha' He) as [-> ->].
Qed.

Section names.
Context `{IDLaws} `{Encoder}.

Lemma identity_split att lease att' lease' id ids :
  plain_text att → plain_text lease → plain_text att' → plain_text lease' → id ≠ "" →
  EventIdentity att lease [id] = EventIdentity att' lease' ids → att = att' ∧ lease = lease' ∧ head ids = Some id.
Proof.
  intros Ha Hl Ha' Hl' Hid He. unfold EventIdentity in He. rewrite bool_decide_eq_false_2 in He by done.
  destruct ids as [|id' ids]; [done|]. case_bool_decide; [done|].
  apply (inj (String.append "producer_")), (inj sha256_hex) in He.
  apply nul_split in He as [-> He]; [|done..]. by apply nul_split in He as [-> ->].
Qed.
Lemma issued_plain prefix lo hi id : plain_text prefix → issued prefix lo hi id → plain_text id.
Proof.
  intros Hp (n & _ & ->). unfold plain_text. rewrite !has_char_app, Hp. apply rand_text.
Qed.
Lemma own_not_producer e att lease ids : own_name e → EventIdentity att lease ids ≠ "" → ev_ID e ≠ EventIdentity att lease ids.
Proof.
  intros [t Ht] Hne He. rewrite Ht in He. unfold EventIdentity in *. destruct ids as [|id ids]; [done|]. by case_bool_decide.
Qed.
End names.

(** ** What a call does to the logs *)
Definition log (w : World MemoryStorage) (id : string) : list Event := map_get (ms_events (w_st w)) id.

Section append.
Context `{HostLaws} `{!IDLaws} `{Encoder} `{Semver}.

(** The answers of [AppendEvent] and what they mean for the logs. *)
Definition append_answer (id att lease ty : string) (v : Any) (ids : list string) (r : Res ()) (w w' : World MemoryStorage) : Prop :=
  let name := EventIdentity att lease ids in
  match r with
  | Err _ => quiet (w_st w) (w_st w')
  | Ok _ =>
      plain_text att ∧ plain_text lease ∧ issued "lease" 0 (w_tick w') lease ∧
      ((name = "" ∧ quiet (w_st w) (w_st w')) ∨
       (name ≠ "" ∧ w_st w' = w_st w ∧ ∃ e, e ∈ log w id ∧ ev_ID e = name) ∨
       (name ≠ "" ∧ (∀ e, e ∈ log w id → ev_ID e ≠ name) ∧ ∃ e, log w' id = log w id ++ [e] ∧
          (∀ j, j ≠ id → log w' j = log w j) ∧ ev_ID e = name ∧ ev_Type e = ty ∧ ev_Data e = event_data v))
  end.

Lemma lease_known w id r att lease :
  inv w → ms_runs (w_st w) !! id = Some r → lease_matches r att lease = true →
  plain_text att ∧ plain_text lease ∧ issued "lease" 0 (w_tick w) lease.
Proof.
  intros Hi Hr Hl. apply lease_matches_spec in Hl as (<- & Hne & <-). destruct (inv_runs _ Hi _ _ Hr) as [_ Hok].
  destruct (ok_token _ _ Hok) as [Hx|Hx]; [by rewrite Hx in Hne|].
  split_and!; [by apply (issued_plain "attempt" 0 (w_tick w)), (ok_attempt _ _ Hok)|by apply (issued_plain "lease" 0 (w_tick w))|done].
Qed.

Lemma append_answers w id att lease ty v ids :
  inv w → wp (Memory.AppendEvent id att lease ty v ids) (λ r w', stays w w' ∧ append_answer id att lease ty v ids r w w') w.
Proof.
  intros Hi. pose proof (AppendEvent_keeps id att lease ty v ids w Hi) as Hk. unfold wp in *.
  destruct (Memory.AppendEvent id att lease ty v ids w) as [res w'] eqn:Ha. split; [exact Hk|].
  pose proof (wp_authorize w id att lease Hi) as Hau. pose proof (quiet_authorize id att lease w) as Hq.
  unfold Memory.AppendEvent, mbind at 1, M_bind at 1 in Ha. unfold wp in Hau.
  destruct (Memory.authorize id att lease w) as [[r|err] w1]; [|by injection Ha as <- <-].
  destruct Hau as (Hs1 & Hr & Hid & Hl & Hst & _). cbn [snd fst] in *.
  destruct (negb (att_Status (run_Attempt r) =s AttemptRunning)); [by injection Ha as <- <-|].
  pose proof (lease_known w1 (run_ID r) r att lease (stays_inv _ _ Hs1) Hr Hl) as (Hpa & Hpl & Hiss).
  assert (Hlog : ∀ j, log w1 j = log w j) by (intros j; unfold log; by rewrite Hst).
  unfold gets, mbind at 1, M_bind at 1 in Ha. set (name := EventIdentity att lease ids) in *.
  destruct (name =s "") eqn:Hn.
  - apply bool_decide_eq_true in Hn. destruct (marshal v) as [j|err]; [|by injection Ha as <- <-].
    unfold newControlPlaneID, time_now, host, appendEvent_as, modify, mbind, M_bind in Ha. cbn in Ha.
    injection Ha as <- <-. unfold append_answer. fold name. cbn [w_tick w_st]. split_and!; [done..| |].
    + eapply issued_mono; [exact Hiss|lia|lia].
    + left. split; [done|]. etrans; [exact Hq|]. intros k. destruct (decide (k = run_ID r)) as [->|Hne].
      * eexists. unfold map_get at 1. cbn. rewrite lookup_insert_eq. split; [done|]. constructor; [by eexists|constructor].
      * exists []. unfold map_get at 1. cbn. by rewrite lookup_insert_ne, app_nil_r.
  - apply bool_decide_eq_false in Hn. change (map_get (ms_events (w_st w1)) id) with (log w1 id) in Ha. rewrite Hlog in Ha.
    destruct (List.find _ (log w id)) as [e|] eqn:Hf.
    + apply find_some in Hf as [Hin He%bool_decide_eq_true]. unfold lift_res in Ha. injection Ha as <- <-.
      unfold append_answer. fold name. destruct (SameEvent _ _ _ _) as [[]|err]; [|exact Hq].
      split_and!; [done..|]. right. left. split_and!; [done..|]. exists e. by rewrite list_elem_of_In.
    + destruct (marshal v) as [j|err]; [|by injection Ha as <- <-].
      unfold newControlPlaneID, time_now, host, appendEvent_as, modify, mbind, M_bind in Ha. cbn in Ha.
      injection Ha as <- <-. unfold append_answer. fold name. cbn [w_tick w_st]. split_and!; [done..| |].
      * eapply issued_mono; [exact Hiss|lia|lia].
      * right. right. split_and!; [done| |].
        -- intros e Hin He. apply list_elem_of_In in Hin. pose proof (find_none _ _ Hf e Hin) as Hx.
           by apply bool_decide_eq_false in Hx.
        -- eexists. unfold log at 1. cbn. rewrite Hid. unfold map_get at 1. rewrite lookup_insert_eq.
           split; [by rewrite <- (Hlog id)|]. split_and!; [|done..]. intros k Hne. unfold log at 1. cbn.
           unfold map_get at 1. rewrite lookup_insert_ne by done. apply Hlog.
Qed.
End append.

(** ** The events of one lease *)
Section lease.
Context `{HostLaws} `{!IDLaws} `{Encoder} `{Semver}.

(** The name of the k-th event an execution produces. *)
Definition event_name (a : Assignment) (k : nat) : string :=
  EventIdentity (asg_AttemptID a) (asg_LeaseToken a) [pretty (Z.of_nat k)].
Definition foreign (a : Assignment) (e : Event) : Prop := ∀ k, ev_ID e ≠ event_name a k.
Definition reports (said : string * Any) (e : Event) : Prop :=
  ev_Type e = said.1 ∧ ∃ j, marshal said.2 = Ok j ∧ ev_Data e = Some j.

(** A log that has, among events of others, exactly these from the k-th on, in order. *)
Inductive carries (a : Assignment) : nat → list (string * Any) → list Event → Prop :=
  | carries_nil k : carries a k [] []
  | carries_foreign k e said es : foreign a e → carries a k said es → carries a k said (e :: es)
  | carries_said k e p said es :
      ev_ID e = event_name a k → reports p e → carries a (S k) said es → carries a k (p :: said) (e :: es).

Definition sworn (a : Assignment) : Prop := plain_text (asg_AttemptID a) ∧ plain_text (asg_LeaseToken a).

Lemma pretty_Z_not_empty (z : Z) : pretty z ≠ "".
Proof. destruct z as [|p|p]; [done|exact (pretty_N_nonempty (Npos p))|done]. Qed.
Lemma event_name_not_empty a k : event_name a k ≠ "".
Proof. apply identity_not_empty, pretty_Z_not_empty. Qed.
Lemma event_name_inj a k k' : sworn a → event_name a k = event_name a k' → k = k'.
Proof.
  intros [Ha Hl] He. destruct (identity_split _ _ _ _ _ _ Ha Hl Ha Hl (pretty_Z_not_empty _) He) as (_ & _ & He').
  injection He' as He'. apply (inj pretty) in He'. lia.
Qed.
Lemma own_foreign a e : own_name e → foreign a e.
Proof. intros He k. by apply own_not_producer, event_name_not_empty. Qed.

Lemma carries_snoc_foreign a k said es extra : carries a k said es → Forall (foreign a) extra → carries a k said (es ++ extra).
Proof.
  induction 1 as [k|k e said es He _ IH|k e p said es Hn Hp _ IH]; intros Hx; cbn.
  - induction Hx; by constructor.
  - constructor; [done|by apply IH].
  - constructor; [done..|by apply IH].
Qed.
Lemma carries_snoc_said a k said es e p :
  carries a k said es → ev_ID e = event_name a (k + length said) → reports p e → carries a k (said ++ [p]) (es ++ [e]).
Proof.
  induction 1 as [k|k e' said es He' _ IH|k e' p' said es Hn' Hp' _ IH]; intros Hn Hp; cbn [length app] in *.
  - rewrite Nat.add_0_r in Hn. constructor; [done..|constructor].
  - constructor; [done|by apply IH].
  - constructor; [done..|]. apply IH; [|done]. rewrite Hn. f_equal. lia.
Qed.
Lemma carries_names a k said es e :
  carries a k said es → e ∈ es → foreign a e ∨ ∃ i, i < length said ∧ ev_ID e = event_name a (k + i).
Proof.
  induction 1 as [k|k e' said es He' _ IH|k e' p' said es Hn' Hp' _ IH]; intros Hin.
  - by apply elem_of_nil in Hin.
  - apply elem_of_cons in Hin as [->|Hin]; [by left|]. by apply IH.
  - apply elem_of_cons in Hin as [->|Hin].
    + right. exists 0. rewrite Nat.add_0_r. cbn [length]. split; [lia|done].
    + destruct (IH Hin) as [?|(i & Hi & He)]; [by left|]. right. exists (S i). cbn [length]. split; [lia|].
      rewrite He. f_equal. lia.
Qed.
Lemma carries_next a said es e : sworn a → carries a 1 said es → e ∈ es → ev_ID e ≠ event_name a (S (length said)).
Proof.
  intros Ha Hc Hin He. destruct (carries_names a 1 said es e Hc Hin) as [Hf|(i & Hi & Hn)]; [exact (Hf _ He)|].
  rewrite Hn in He. apply event_name_inj in He; [lia|done].
Qed.
End lease.

(** ** Others *)
Section others.
Context `{HostLaws} `{!IDLaws} `{Encoder} `{Semver}.

(** Every event is named by the control plane or by the holder of a lease. *)
Definition named (w : World MemoryStorage) : Prop := ∀ id e, e ∈ log w id →
  own_name e ∨ ∃ att lease ids, ev_ID e = EventIdentity att lease ids ∧ plain_text att ∧ plain_text lease ∧
                                issued "lease" 0 (w_tick w) lease.
Definition sound (w : World MemoryStorage) : Prop := inv w ∧ named w.

(** [op] does not append events under the lease of [a]. *)
Definition aside (a : Assignment) (op : Op) : Prop :=
  match op with OpAppendEvent _ _ lease _ _ _ => lease ≠ asg_LeaseToken a | _ => True end.
(** What happens while others are at work: the log of the run of [a] grows by events that are none of this execution's. *)
Definition lives (a : Assignment) (w w' : World MemoryStorage) : Prop :=
  sound w → sound w' ∧ evolves w w' ∧
  ∃ extra, log w' (asg_RunID a) = log w (asg_RunID a) ++ extra ∧ Forall (foreign a) extra.

#[export] Instance lives_preorder a : PreOrder (lives a).
Proof.
  split.
  - intros w Hw. split_and!; [done|apply evolves_refl|]. exists []. by rewrite app_nil_r.
  - intros w1 w2 w3 H12 H23 Hw1. destruct (H12 Hw1) as (Hw2 & E12 & x1 & L1 & F1).
    destruct (H23 Hw2) as (Hw3 & E23 & x2 & L2 & F2). split_and!; [done|by eapply evolves_trans|].
    exists (x1 ++ x2). rewrite L2, L1, app_assoc. split; [done|by apply Forall_app].
Qed.
Lemma named_mono w w' : named w → w_tick w ≤ w_tick w' → (∀ id e, e ∈ log w' id → e ∈ log w id ∨ own_name e) → named w'.
Proof.
  intros Hn Ht Hl id e He. destruct (Hl id e He) as [Hin|Ho]; [|by left]. destruct (Hn id e Hin) as [Ho|Hx]; [by left|].
  right. destruct Hx as (att & lease & ids & Hid & Ha & Hp & Hi). exists att, lease, ids. split_and!; [done..|].
  by eapply issued_mono; [exact Hi|lia|].
Qed.
#[export] Instance lives_ticking a : Ticking (lives a).
Proof.
  intros w k [Hi Hn]. destruct (stays_tick w k Hi) as (Hi' & He & _). split_and!; [split; [done|]|done|].
  - eapply named_mono; [exact Hn|cbn; lia|]. by left.
  - exists []. by rewrite app_nil_r.
Qed.

Lemma quiet_in w w' id e : quiet (w_st w) (w_st w') → e ∈ log w' id → e ∈ log w id ∨ own_name e.
Proof.
  intros Hq. destruct (Hq id) as (extra & Hl & Hf). unfold log. rewrite Hl, elem_of_app.
  intros [?|Hin]; [by left|right]. rewrite Forall_forall in Hf. by apply Hf.
Qed.
Lemma quiet_lives a w w' :
  (sound w → inv w' ∧ evolves w w') → quiet (w_st w) (w_st w') → lives a w w'.
Proof.
  intros Hw Hq Hs. destruct (Hw Hs) as [Hi He]. split_and!; [split; [done|]|done|].
  - eapply named_mono; [apply Hs|apply (evo_tick _ _ He)|]. intros id e. by apply quiet_in.
  - destruct (Hq (asg_RunID a)) as (extra & Hl & Hf). exists extra. split; [exact Hl|].
    eapply Forall_impl; [exact Hf|]. apply own_foreign.
Qed.

(** What an accepted event leaves: the log as it was, or with this event. *)
Lemma append_sound w id att lease ty v ids :
  sound w → let '(r, w') := Memory.AppendEvent id att lease ty v ids w in
  sound w' ∧ evolves w w' ∧ append_answer id att lease ty v ids r w w'.
Proof.
  intros [Hi Hn]. pose proof (append_answers w id att lease ty v ids Hi) as Ha. unfold wp in Ha.
  destruct (Memory.AppendEvent id att lease ty v ids w) as [r w']. destruct Ha as [(Hi' & He & _) Ha]. cbn [fst snd] in *.
  split_and!; [split; [done|]|done..]. pose proof (evo_tick _ _ He) as Ht.
  assert (Hquiet : quiet (w_st w) (w_st w') → named w').
  { intros Hq. eapply named_mono; [exact Hn|done|]. intros k e. by apply quiet_in. }
  assert (Hold : ∀ k e, e ∈ log w k → own_name e ∨ ∃ att lease ids, ev_ID e = EventIdentity att lease ids ∧
            plain_text att ∧ plain_text lease ∧ issued "lease" 0 (w_tick w') lease).
  { intros k e Hin. destruct (Hn k e Hin) as [?|(x & y & z & ? & ? & ? & Hx)]; [by left|]. right. exists x, y, z.
    split_and!; [done..|]. by eapply issued_mono; [exact Hx|lia|]. }
  destruct r as [[]|err]; [|by apply Hquiet]. destruct Ha as (Hpa & Hpl & Hiss & [[_ Hq]|[(_ & Hst & _)|Hnew]]).
  - by apply Hquiet.
  - apply Hquiet. rewrite Hst. reflexivity.
  - destruct Hnew as (Hne & _ & e & Hl & Ho & Hid & _). intros k e' Hin. destruct (decide (k = id)) as [->|Hk].
    + rewrite Hl, elem_of_app, list_elem_of_singleton in Hin. destruct Hin as [Hin| ->].
      * by apply (Hold id).
      * right. by exists att, lease, ids.
    + rewrite Ho in Hin by done. by apply (Hold k).
Qed.

Lemma quiet_extends a w w' : quiet (w_st w) (w_st w') →
  ∃ extra, log w' (asg_RunID a) = log w (asg_RunID a) ++ extra ∧ Forall (foreign a) extra.
Proof.
  intros Hq. destruct (Hq (asg_RunID a)) as (extra & Hl & Hf). exists extra. split; [exact Hl|].
  eapply Forall_impl; [exact Hf|]. apply own_foreign.
Qed.
Lemma same_extends a w w' : log w' (asg_RunID a) = log w (asg_RunID a) →
  ∃ extra, log w' (asg_RunID a) = log w (asg_RunID a) ++ extra ∧ Forall (foreign a) extra.
Proof. intros ->. exists []. by rewrite app_nil_r. Qed.

Lemma after_sound op w : op_ok op → sound w → sound (after op w) ∧ evolves w (after op w).
Proof.
  intros Hok Hs. destruct (appends op) eqn:Ha.
  - destruct op; try discriminate Ha. pose proof (append_sound w runID attemptID lease eventType data eventIDs Hs) as Hx.
    unfold after, exec. by destruct (Memory.AppendEvent _ _ _ _ _ _ w) as [r w']; destruct Hx as (? & ? & _).
  - destruct (quiet_lives (mkAssignment "" "" "" 0 zero) w (after op w)) as (? & ? & _); [|apply (quiet_exec op Ha)|done|done].
    intros [Hi _]. by apply after_inv.
Qed.
Lemma after_lives a op w : sworn a → op_ok op → aside a op → lives a w (after op w).
Proof.
  intros Hsw Hok Has Hs. destruct (after_sound op w Hok Hs) as [Hs' He]. split_and!; [done..|].
  destruct (appends op) eqn:Ha; [|apply quiet_extends, (quiet_exec op Ha)].
  destruct op; try discriminate Ha. pose proof (append_sound w runID attemptID lease eventType data eventIDs Hs) as Hx.
  unfold after, exec. destruct (Memory.AppendEvent _ _ _ _ _ _ w) as [r w']. destruct Hx as (_ & _ & Hx). cbn [snd].
  destruct r as [[]|err]; [|by apply quiet_extends]. destruct Hx as (Hpa & Hpl & _ & [[_ Hq]|[(_ & Hst & _)|Hnew]]).
  - by apply quiet_extends.
  - apply same_extends. unfold log. by rewrite Hst.
  - destruct Hnew as (_ & _ & e & Hl & Ho & Hid & _). destruct (decide (asg_RunID a = runID)) as [<-|Hne].
    + exists [e]. split; [exact Hl|]. constructor; [|constructor]. intros k Hk. rewrite Hk in Hid.
      destruct Hsw as [Hsa Hsl]. unfold event_name in Hid.
      apply identity_split in Hid as (_ & Hlease & _); [|done..|apply pretty_Z_not_empty]. by apply Has.
    + by apply same_extends, Ho.
Qed.
Lemma play_lives a ops : sworn a → ops_ok ops → Forall (aside a) ops → ∀ w, lives a w (play ops w).
Proof.
  intros Hsw. induction ops as [|op ops IH]; intros Hok Has w; [unfold play; cbn; reflexivity|].
  apply Forall_cons in Hok as [Hop Hok], Has as [Ha Has]. etrans; [by apply (after_lives a op)|]. by apply IH.
Qed.
Lemma play_sound ops : ops_ok ops → ∀ w, sound w → sound (play ops w) ∧ evolves w (play ops w).
Proof.
  induction ops as [|op ops IH]; intros Hok w Hs; [split; [done|apply evolves_refl]|].
  apply Forall_cons in Hok as [Hop Hok]. destruct (after_sound op w Hop Hs) as [Hs1 E1].
  destruct (IH Hok _ Hs1) as [Hs2 E2]. split; [done|]. by eapply evolves_trans.
Qed.
Lemma reachable_sound w : reachable w → sound w.
Proof.
  intros (t & ops & Hok & ->). apply play_sound; [done|]. split; [apply inv_empty|].
  intros id e Hin. unfold log in Hin. cbn in Hin. unfold map_get in Hin. rewrite lookup_empty in Hin. by apply elem_of_nil in Hin.
Qed.
End others.
