(* ===== verification/Delivered.v ===== *)
(** * Delivered: an execution reaches the log of its run

    A worker is connected to the service over the in-memory storage by a [Link]
    that may lose requests and answers, while others call the service.  Through the
    retries of the delivery and the names of the events, everything an execution
    reports ends up in the log once and in order ([success_delivered]).  The
    service is called directly here; over HTTP a call does the same
    (HttpErrors.http_transparent). *)

From S2P Require Import Prelude GoStrings Json Types Url Binding Workspace Process Http ToolBridge CommandRuntime Codex AppServer RuntimeProps Models NodeMain NodeMainProps Matching Event Lifecycle Memory MemoryEffect MemoryInv MemoryOps MemoryRuns MemoryRecover MemorySystem MemoryCalls Demo Scenario Service ServiceProps Fs Capability Instructions Outbox NodeDemo OutboxProps Codec Stream HttpStream Worker WorkerProps Runs HttpDemo RuntimeDemo Leases.

(** ** The node's connection to the service *)
(** At the n-th moment: what others call meanwhile, whether the request is lost, whether the answer is. *)
Class Link := { crowd_at : nat → list Op; request_lost : nat → option Error; answer_lost : nat → option Error }.

(** What a capability call may add to the log. *)
Abbreviation call_events := (Forall (λ p : string * Any, call_event p.1)).
Abbreviation Svc := (ServiceState MemoryStorage MemoryBlobStore.State).

Section link.
Context `{Host} `{Encoder} `{Semver} `{Link} (service : Options).

Definition meanwhile (ops : list Op) : M Svc () := λ w,
  let w' := play ops (storage_of w) in
  (Ok (), mkWorld (w_tick w') (mkService (w_st w') (sv_blobs (w_st w)))).
Definition over_link {A} (m : M Svc A) : M Svc A :=
  ops ← host crowd_at;
  meanwhile ops ;;
  lost ← host request_lost;
  match lost with
  | Some err => raise err
  | None =>
      r ← try m;
      lost ← host answer_lost;
      match lost with Some err => raise err | None => lift_res r end
  end.

#[export] Instance linked : ControlPlane Svc := {|
  cp_RegisterNode registration := over_link (Service.RegisterNode registration);
  cp_Claim node := over_link (Service.Claim service node);
  cp_Start a := over_link (Service.Start a);
  cp_Renew a := over_link (Service.Renew service a);
  cp_AppendEvent run attempt token kind data ids := over_link (Service.AppendEvent run attempt token kind data ids);
  cp_Complete a result := over_link (Service.Complete a result);
  cp_Fail a cause := over_link (Service.Fail a cause);
  cp_AcknowledgeCancellation a := over_link (Service.AcknowledgeCancellation a);
  cp_UploadArtifact a artifact content := over_link (Service.UploadArtifact a artifact (Ok content));
  cp_ReserveCapability a key hash request := over_link (Service.ReserveCapability a key hash request);
  cp_FinishCapability a reservation result cause := over_link (Service.FinishCapability a reservation result cause);
  cp_CreateInteraction a request := over_link (Service.CreateInteraction a request);
  cp_GetInteraction a id := over_link (Service.GetInteraction a id)
|}.
End link.

(** ** Every call of the node but an event of the execution *)
Section steps.
Context `{HostLaws} `{!IDLaws} `{Encoder} `{Semver} `{Link} (service : Options).
Hypothesis crowd_ok : ∀ n, ops_ok (crowd_at n).

(** Only the execution of [a] appends under its lease. *)
Definition alone (a : Assignment) : Prop := sworn a ∧ ∀ n, Forall (aside a) (crowd_at n).

Definition lives_at (a : Assignment) : relation (World Svc) := λ w w', lives a (storage_of w) (storage_of w').
#[export] Instance lives_at_preorder a : PreOrder (lives_at a).
Proof. split; [intros w|intros w1 w2 w3]; unfold lives_at; [reflexivity|apply transitivity]. Qed.
#[export] Instance lives_at_ticking a : Ticking (lives_at a).
Proof. intros w k. apply (ticking (storage_of w)). Qed.

Context (a : Assignment) (Halone : alone a).
Abbreviation alive m := (steps (lives_at a) m).

Lemma alive_on_storage {A} op (m : M MemoryStorage A) :
  op_ok op → aside a op → (∀ w, (exec op w).2 = (m w).2) → alive (on_storage m).
Proof.
  intros Hok Has Hm w. unfold lives_at, storage_of, on_storage. pose proof (after_lives a op (storage_of w) (proj1 Halone) Hok Has) as Hl.
  unfold after in Hl. rewrite Hm in Hl. unfold storage_of in Hl. destruct (m _) as [r w']. by destruct w'.
Qed.
Lemma alive_on_blobs {A} (m : M MemoryBlobStore.State A) : (∀ w, w_tick (m w).2 = w_tick w) → alive (on_blobs m).
Proof.
  intros Hm w. unfold lives_at, storage_of, on_blobs. specialize (Hm (mkWorld (w_tick w) (sv_blobs (w_st w)))).
  destruct (m _) as [r w']. cbn in *. rewrite Hm. reflexivity.
Qed.
Lemma alive_meanwhile n : alive (meanwhile (crowd_at n)).
Proof.
  intros w. unfold lives_at. pose proof (play_lives a (crowd_at n) (proj1 Halone) (crowd_ok n) (proj2 Halone n) (storage_of w)) as Hl.
  unfold meanwhile. cbn. destruct (play _ _). exact Hl.
Qed.
Lemma alive_over_link {A} (m : M Svc A) : alive m → alive (over_link m).
Proof.
  intros Hm. unfold over_link. apply steps_host_bind; [apply _..|]. intros n.
  apply steps_bind; [apply _|apply alive_meanwhile|]. intros _.
  apply steps_bind; [apply _|apply steps_host, _|]. intros [err|]; [apply steps_raise, _|].
  apply steps_bind; [apply _|by apply steps_try|]. intros r.
  apply steps_bind; [apply _|apply steps_host, _|]. intros [err|]; [apply steps_raise, _|apply steps_lift_res, _].
Qed.

(** The world after a call that ends in [mret ()] is the world after the call. *)
Lemma then_ret {S A} (m : M S A) w : ((m ;; mret ()) w).2 = (m w).2.
Proof. unfold mbind, M_bind. by destruct (m w) as [[?|?] ?]. Qed.
Ltac stored_call op := apply (alive_on_storage op); [done|done|intros ?; first [apply then_ret|done]].

Lemma alive_UploadArtifact b artifact content : alive (Service.UploadArtifact b artifact (Ok content)).
Proof.
  unfold Service.UploadArtifact. apply steps_bind; [apply _|apply steps_host, _|]. intros id.
  apply steps_bind; [apply _|by apply alive_on_blobs|]. intros size. cbv zeta.
  apply steps_bind; [apply _|apply steps_try|].
  { eapply (alive_on_storage (OpAddArtifact b _)); [done|done|intros ?; reflexivity]. }
  intros [[]|err]; [apply steps_ret, _|]. apply steps_bind; [apply _|apply steps_try, alive_on_blobs|].
  - intros w. cbn. unfold MemoryBlobStore.Delete, gets, mbind, M_bind. cbn. by destruct (w_st w !! id).
  - intros _. apply steps_raise, _.
Qed.

Lemma alive_cp_Claim node : alive (cp_Claim (ControlPlane := linked service) node).
Proof. apply alive_over_link. stored_call (OpClaim node (opt_LeaseTTL service)). Qed.
Lemma alive_cp_Start b : alive (cp_Start (ControlPlane := linked service) b).
Proof. apply alive_over_link. stored_call (OpStart b). Qed.
Lemma alive_cp_Complete b r : alive (cp_Complete (ControlPlane := linked service) b r).
Proof. apply alive_over_link. stored_call (OpComplete b r). Qed.
Lemma alive_cp_Fail b c : alive (cp_Fail (ControlPlane := linked service) b c).
Proof. apply alive_over_link. stored_call (OpFail b c). Qed.
Lemma alive_cp_Acknowledge b : alive (cp_AcknowledgeCancellation (ControlPlane := linked service) b).
Proof. apply alive_over_link. stored_call (OpAcknowledgeCancellation b). Qed.
Lemma alive_cp_Upload b artifact content : alive (cp_UploadArtifact (ControlPlane := linked service) b artifact content).
Proof. apply alive_over_link, alive_UploadArtifact. Qed.
Lemma alive_cp_Reserve b key hash request : alive (cp_ReserveCapability (ControlPlane := linked service) b key hash request).
Proof. apply alive_over_link. stored_call (OpReserveCapability b key hash request). Qed.
Lemma alive_cp_Finish b rsv r c : alive (cp_FinishCapability (ControlPlane := linked service) b rsv r c).
Proof. apply alive_over_link. stored_call (OpFinishCapability b rsv r c). Qed.
Lemma alive_cp_Create b request : alive (cp_CreateInteraction (ControlPlane := linked service) b request).
Proof.
  apply alive_over_link. unfold Service.CreateInteraction. destruct (_ && _); [apply steps_raise, _|].
  stored_call (OpCreateInteraction b request).
Qed.
Lemma alive_cp_Get b id : alive (cp_GetInteraction (ControlPlane := linked service) b id).
Proof. apply alive_over_link. stored_call (OpGetInteraction b id). Qed.
Lemma alive_poll b polls : ∀ id, alive (poll (H3 := linked service) polls b id).
Proof.
  induction polls as [|polls IH]; intros id; cbn [poll]; [apply steps_raise, _|].
  apply steps_bind; [apply _|apply alive_cp_Get|]. intros value. case_bool_decide; [apply steps_ret, _|apply IH].
Qed.
Lemma alive_Request polls b request : alive (Request_ (H3 := linked service) polls b request).
Proof. unfold Request_. apply steps_bind; [apply _|apply alive_cp_Create|]. intros value. apply alive_poll. Qed.
End steps.

(** ** An event of the execution *)
Section event.
Context `{HostLaws} `{!IDLaws} `{Encoder} `{Semver} `{Durations} `{Link} (service : Options).
Hypothesis crowd_ok : ∀ n, ops_ok (crowd_at n).
Context (a : Assignment) (Halone : alone a).

Definition run_log (w : World Svc) : list Event := log (storage_of w) (asg_RunID a).

Lemma carries_last k said p es :
  carries a k (said ++ [p]) es → ∃ e, e ∈ es ∧ ev_ID e = event_name a (k + length said).
Proof.
  intros Hc. remember (said ++ [p]) as all eqn:Hall. revert said Hall.
  induction Hc as [k|k e all es He _ IH|k e p' all es Hn Hp _ IH]; intros said Hall.
  - by destruct said.
  - destruct (IH said Hall) as (e' & Hin & He'). exists e'. split; [by right|done].
  - destruct said as [|p0 said]; cbn [app length] in *; injection Hall as -> ->.
    + exists e. rewrite Nat.add_0_r. split; [by left|done].
    + destruct (IH said eq_refl) as (e' & Hin & He'). exists e'. split; [by right|]. rewrite He'. f_equal. lia.
Qed.

(** Before and after the event [p] is recorded behind [said]. *)
Definition underway (w0 : World MemoryStorage) (said : list (string * Any)) (p : string * Any) (w : World Svc) : Prop :=
  sound (storage_of w) ∧ evolves w0 (storage_of w) ∧ (carries a 1 said (run_log w) ∨ carries a 1 (said ++ [p]) (run_log w)).
Definition recorded (said : list (string * Any)) (p : string * Any) (w : World Svc) : Prop := carries a 1 (said ++ [p]) (run_log w).

Lemma lives_carries said w w' : sound w → lives a w w' →
  carries a 1 said (log w (asg_RunID a)) → carries a 1 said (log w' (asg_RunID a)).
Proof. intros Hs Hl Hc. destruct (Hl Hs) as (_ & _ & extra & -> & Hf). by apply carries_snoc_foreign. Qed.
Lemma lives_underway w0 said p w w' : lives_at a w w' → underway w0 said p w → underway w0 said p w'.
Proof.
  intros Hl (Hs & He & Hc). destruct (Hl Hs) as (Hs' & He' & _). split_and!; [done|by eapply evolves_trans|].
  destruct Hc as [Hc|Hc]; [left|right]; exact (lives_carries _ _ _ Hs Hl Hc).
Qed.
Lemma lives_recorded said p w w' : sound (storage_of w) → lives_at a w w' → recorded said p w → recorded said p w'.
Proof. intros Hs Hl Hc. exact (lives_carries _ _ _ Hs Hl Hc). Qed.

Lemma append_recorded w0 said ty data j w :
  marshal data = Ok j → underway w0 said (ty, data) w →
  let '(r, w') := Service.AppendEvent (asg_RunID a) (asg_AttemptID a) (asg_LeaseToken a) ty (AnyJson j)
                    [pretty (Z.of_nat (S (length said)))] w in
  underway w0 said (ty, data) w' ∧ (is_ok r = true → recorded said (ty, data) w').
Proof.
  intros Hj (Hs & He & Hc). unfold Service.AppendEvent, on_storage. fold (storage_of w).
  pose proof (append_sound (storage_of w) (asg_RunID a) (asg_AttemptID a) (asg_LeaseToken a) ty (AnyJson j)
                [pretty (Z.of_nat (S (length said)))] Hs) as Ha.
  change (st_AppendEvent (asg_RunID a)) with (Memory.AppendEvent (asg_RunID a)).
  destruct (Memory.AppendEvent _ _ _ _ _ _ _) as [r [t s]]. destruct Ha as (Hs' & He' & Ha).
  cbn [w_tick w_st]. set (w' := mkWorld _ _).
  assert (Hquiet : quiet (w_st (storage_of w)) s → underway w0 said (ty, data) w').
  { intros Hq. destruct (quiet_extends a (storage_of w) (mkWorld t s) Hq) as (extra & Hl & Hf).
    split_and!; [done|by eapply evolves_trans|]. unfold run_log, storage_of. cbn. rewrite Hl.
    destruct Hc as [Hc|Hc]; [left|right]; by apply carries_snoc_foreign. }
  destruct r as [[]|err]; [|by split; [apply Hquiet|]]. destruct Ha as (_ & _ & _ & [[Hn _]|[(_ & Hst & e & Hin & Hid)|Hnew]]).
  - exfalso. exact (event_name_not_empty a (S (length said)) Hn).
  - cbn [w_st] in Hst. assert (Hr : recorded said (ty, data) w').
    { destruct Hc as [Hc|Hc]; [by destruct (carries_next a said _ e (proj1 Halone) Hc Hin)|].
      unfold recorded, run_log, storage_of, log. cbn. by rewrite Hst. }
    split; [|done]. split_and!; [done|by eapply evolves_trans|by right].
  - destruct Hnew as (_ & Hno & e & Hl & _ & Hid & Hty & Hdata). assert (Hr : recorded said (ty, data) w').
    { destruct Hc as [Hc|Hc]; [|destruct (carries_last _ _ _ _ Hc) as (e' & Hin & He''); by destruct (Hno e' Hin)].
      unfold recorded, run_log, storage_of. cbn. rewrite Hl. apply carries_snoc_said; [exact Hc|exact Hid|].
      split; [done|]. exists j. split; [done|]. by rewrite Hdata. }
    split; [|done]. split_and!; [done|by eapply evolves_trans|by right].
Qed.
End event.

(** ** Its delivery *)
(** [m] keeps [I], and leaves [P] when it succeeds. *)
Definition holds {S A} (I P : World S → Prop) (m : M S A) : Prop :=
  ∀ w, I w → let '(r, w') := m w in I w' ∧ (is_ok r = true → P w').

Section holds.
Context {S : Type} (I P : World S → Prop).
Hypothesis I_tick : ∀ w k, I w → I (mkWorld (w_tick w + k) (w_st w)).
Hypothesis P_tick : ∀ w k, P w → P (mkWorld (w_tick w + k) (w_st w)).

Lemma holds_retry `{Durations} n text limit elapsed delay (call : M S ()) :
  holds I P call → holds I P (retry n text limit elapsed delay call).
Proof.
  intros Hc. revert elapsed delay. induction n as [|n IH]; intros elapsed delay w Hi; [by split|].
  cbn [retry]. unfold try, host, mbind, M_bind. pose proof (Hc w Hi) as Hcall. destruct (call w) as [r w1].
  destruct Hcall as [Hi1 Hp1]. pose proof (I_tick w1 1 Hi1) as Hi2. destruct r as [[]|err].
  - split; [done|]. intros _. apply P_tick. by apply Hp1.
  - destruct (staleEvent err); [by split|]. destruct (ctx_done_at (w_tick w1)); [by split|].
    destruct (_ <=? _)%Z; [by split|]. by apply IH.
Qed.
(** A step before, after which only [I] is known; and one behind that keeps both. *)
Lemma holds_after {A B} (m : M S A) (k : A → M S B) :
  (∀ w, I w → I (m w).2) → (∀ a, holds I P (k a)) → holds I P (m ≫= k).
Proof.
  intros Hm Hk w Hi. unfold mbind, M_bind. specialize (Hm w Hi). destruct (m w) as [[a|e] w1]; [by apply Hk|by split].
Qed.
Lemma holds_then {A B} (m : M S A) (k : A → M S B) :
  holds I P m → (∀ a w, I w → P w → I (k a w).2 ∧ P (k a w).2) → holds I P (m ≫= k).
Proof.
  intros Hm Hk w Hi. unfold mbind, M_bind. specialize (Hm w Hi). destruct (m w) as [[a|e] w1]; [|by split; [apply Hm|]].
  destruct Hm as [Hi1 Hp1]. destruct (Hk a w1 Hi1 (Hp1 eq_refl)) as [Hi2 Hp2]. destruct (k a w1) as [r w2]. by split.
Qed.
Lemma holds_raise {A} e : holds I P (raise (A := A) e).
Proof. intros w Hi. by split. Qed.
End holds.

Section delivery.
Context `{HostLaws} `{!IDLaws} `{Encoder} `{Semver} `{Faults} `{Durations} `{Link} (service : Options) `{RecordCodec}.
Hypothesis crowd_ok : ∀ n, ops_ok (crowd_at n).
Context (a : Assignment) (Halone : alone a).
#[local] Instance the_link : ControlPlane Svc := linked service.
Abbreviation Node := (NodeState Svc).

Definition cp_of (w : World Node) : World Svc := mkWorld (w_tick w) (nd_cp (w_st w)).
Definition stored (w : World Node) : World MemoryStorage := storage_of (cp_of w).

(** Work on the files of the node. *)
Definition aside_of_cp : relation (World Node) := λ w w', w_tick w ≤ w_tick w' ∧ nd_cp (w_st w') = nd_cp (w_st w).
#[export] Instance aside_of_cp_preorder : PreOrder aside_of_cp.
Proof. split; [by intros w|]. intros w1 w2 w3 [T1 E1] [T2 E2]. split; [lia|congruence]. Qed.
Lemma on_files_aside {A} (m : M FS A) : steps aside_of_cp (on_files m).
Proof. intros w. unfold on_files. destruct (m _) as [r w']. split; cbn; [lia|done]. Qed.
Lemma save_aside o id kind data : steps aside_of_cp (save (X := Svc) o a id kind data).
Proof.
  unfold save. apply steps_bind; [apply _|apply steps_lift_res, _|]. intros payload.
  destruct (longer _ _); [apply steps_raise, _|]. destruct (longer _ _); [apply steps_raise, _|].
  apply steps_bind; [apply _|apply on_files_aside|]. intros _.
  apply steps_bind; [apply _|apply on_files_aside|]. intros names.
  apply steps_bind; [apply _|apply on_files_aside|]. intros used.
  destruct (_ <? used)%Z; [apply steps_raise, _|].
  apply steps_bind; [apply _|apply steps_try, on_files_aside|]. intros [[]|err]; [apply steps_raise, _|].
  destruct (errors_Is _ _); [apply on_files_aside|apply steps_raise, _].
Qed.
Lemma aside_ticks w w' : aside_of_cp w w' → ∃ k, cp_of w' = mkWorld (w_tick (cp_of w) + k) (w_st (cp_of w)).
Proof. intros [Ht He]. exists (w_tick w' - w_tick w). unfold cp_of. cbn. rewrite He. f_equal. lia. Qed.

Section sending.
Context (w0 : World MemoryStorage) (said : list (string * Any)) (ty : string) (data : Any).
Definition sending (w : World Node) : Prop := underway a w0 said (ty, data) (cp_of w).
Definition arrived (w : World Node) : Prop := recorded a said (ty, data) (cp_of w) ∧ sound (stored w).

Lemma sending_aside w w' : aside_of_cp w w' → sending w → sending w'.
Proof.
  intros (k & Hk)%aside_ticks Hs. unfold sending in *. rewrite Hk. eapply lives_underway; [|exact Hs]. apply (ticking (cp_of w)).
Qed.
Lemma arrived_aside w w' : aside_of_cp w w' → arrived w → arrived w'.
Proof.
  intros (k & Hk)%aside_ticks [Hr Hs]. unfold arrived, stored in *. rewrite Hk.
  pose proof (ticking (R := lives_at a) (cp_of w) k) as Hl. split; [by eapply lives_recorded|]. apply (Hl Hs).
Qed.
Lemma aside_tick (w : World Node) k : aside_of_cp w (mkWorld (w_tick w + k) (w_st w)).
Proof. split; cbn; [lia|done]. Qed.

Definition this_id : string := pretty (Z.of_nat (Datatypes.S (length said))).

Lemma call_holds j : marshal data = Ok j →
  holds sending arrived (on_cp (cp_AppendEvent (asg_RunID a) (asg_AttemptID a) (asg_LeaseToken a) ty (AnyJson j) [this_id])).
Proof.
  intros Hj w Hs. unfold on_cp, sending, arrived, stored, cp_of in *. cbn [cp_AppendEvent the_link linked].
  set (v := mkWorld (w_tick w) (nd_cp (w_st w))) in *.
  pose proof (alive_meanwhile crowd_ok a Halone) as Hcrowd.
  unfold over_link, host, try, raise, lift_res, mbind, M_bind.
  set (v1 := mkWorld (w_tick v + 1) (w_st v)). specialize (Hcrowd (w_tick v) v1).
  assert (Hs1 : underway a w0 said (ty, data) v1) by (eapply lives_underway; [apply (ticking v 1)|exact Hs]).
  pose proof (lives_underway a w0 said (ty, data) _ _ Hcrowd Hs1) as Hs2. destruct (meanwhile _ v1) as [r0 v2] eqn:Hm.
  assert (r0 = Ok ()) as -> by (unfold meanwhile in Hm; by injection Hm as <- <-). cbn [snd] in Hs2.
  set (v3 := mkWorld (w_tick v2 + 1) (w_st v2)).
  assert (Hs3 : underway a w0 said (ty, data) v3) by (eapply lives_underway; [apply (ticking v2 1)|exact Hs2]).
  destruct (request_lost (w_tick v2)); [by split; [exact Hs3|]|].
  pose proof (append_recorded a Halone w0 said ty data j v3 Hj Hs3) as Ha.
  destruct (Service.AppendEvent _ _ _ _ _ _ v3) as [r v4]. destruct Ha as [Hs4 Hr4].
  set (v5 := mkWorld (w_tick v4 + 1) (w_st v4)). pose proof (ticking (R := lives_at a) v4 1) as Hl. fold v5 in Hl.
  pose proof (lives_underway a w0 said (ty, data) _ _ Hl Hs4) as Hs5.
  destruct (answer_lost (w_tick v4)); cbn [w_tick w_st nd_cp]; [by split; [exact Hs5|]|].
  split; [exact Hs5|]. intros Hok. split; [|apply Hs5]. eapply lives_recorded; [apply Hs4|exact Hl|by apply Hr4].
Qed.

Lemma deliverEvent_holds data' j : marshal data' = Ok j → marshal data = Ok j → holds sending arrived (deliverEvent a this_id ty data').
Proof.
  intros Hj' Hj w Hs. unfold deliverEvent. rewrite Hj'. cbn [lift_res]. unfold lift_res, mbind, M_bind.
  destruct (longer _ _); [by split|]. revert w Hs. apply holds_retry.
  - intros w k. by apply sending_aside, aside_tick.
  - intros w k. by apply arrived_aside, aside_tick.
  - by apply call_holds.
Qed.
Lemma deliver_holds o : holds sending arrived (deliver o a this_id ty data).
Proof.
  unfold deliver. destruct (marshal data) as [j|err] eqn:Hj; [|intros w Hs; by split].
  intros w Hs. unfold lift_res, mbind at 1, M_bind at 1. revert w Hs.
  apply holds_after; [intros w; apply sending_aside, save_aside|]. intros path.
  apply holds_then; [by apply (deliverEvent_holds _ j)|]. intros _ w Hs Hr.
  pose proof (on_files_aside (os_Remove path ;; syncDir) w) as Hx. split; [exact (sending_aside _ _ Hx Hs)|exact (arrived_aside _ _ Hx Hr)].
Qed.
Lemma deliverEvent_plain : holds sending arrived (deliverEvent a this_id ty data).
Proof.
  destruct (marshal data) as [j|err] eqn:Hj; [by apply (deliverEvent_holds _ j)|].
  intros w Hs. unfold deliverEvent. rewrite Hj. by split.
Qed.
End sending.

(** ** Its executor *)
Abbreviation Exec := (Emitting (X := Svc)).

Definition node_of (w : World Exec) : World Node := mkWorld (w_tick w) (xe_node (w_st w)).
(** Up to now the execution has produced [said], all of it delivered unless an error is noted. *)
Definition telling (w0 : World MemoryStorage) (said : list (string * Any)) (w : World Exec) : Prop :=
  sound (stored (node_of w)) ∧ evolves w0 (stored (node_of w)) ∧
  (xe_eventErr (w_st w) = None → xe_sequence (w_st w) = Z.of_nat (length said) ∧
                                 carries a 1 said (log (stored (node_of w)) (asg_RunID a))).
Definition tells (l : list (string * Any)) (w w' : World Exec) : Prop := ∀ w0 said, telling w0 said w → telling w0 (said ++ l) w'.
Definition talks (w w' : World Exec) : Prop := ∃ l, call_events l ∧ tells l w w'.

Lemma tells_trans l1 l2 w1 w2 w3 : tells l1 w1 w2 → tells l2 w2 w3 → tells (l1 ++ l2) w1 w3.
Proof. intros H1' H2' w0 said Ht. rewrite app_assoc. by apply H2', H1'. Qed.
Lemma tells_refl w : tells [] w w.
Proof. intros w0 said. by rewrite app_nil_r. Qed.
#[export] Instance talks_preorder : PreOrder talks.
Proof.
  split; [intros w; exists []; split; [done|apply tells_refl]|]. intros w1 w2 w3 (l1 & C1 & T1) (l2 & C2 & T2).
  exists (l1 ++ l2). split; [by apply Forall_app|by eapply tells_trans].
Qed.

(** The calls of the node beside its events. *)
Definition at_node : relation (World Node) := λ w w', lives a (stored w) (stored w').
#[export] Instance at_node_preorder : PreOrder at_node.
Proof. split; [intros w|intros w1 w2 w3]; unfold at_node; [reflexivity|apply transitivity]. Qed.
#[export] Instance at_node_ticking : Ticking at_node.
Proof. intros w k. apply (ticking (stored w)). Qed.
Lemma at_node_cp {A} (m : M Svc A) : steps (lives_at a) m → steps at_node (on_cp m).
Proof. intros Hm w. unfold on_cp, at_node, stored. specialize (Hm (cp_of w)). unfold cp_of in *. by destruct (m _) as [r [t x]]. Qed.
Lemma at_node_aside w w' : aside_of_cp w w' → at_node w w'.
Proof. intros (k & Hk)%aside_ticks. unfold at_node, stored. rewrite Hk. apply (ticking (storage_of (cp_of w))). Qed.
Lemma at_node_files {A} (m : M FS A) : steps at_node (on_files m).
Proof. intros w. apply at_node_aside, on_files_aside. Qed.

Lemma silent {A} (m : M Node A) : steps at_node m → ∀ w, tells [] w (on_node m w).2.
Proof.
  intros Hm w w0 said (Hs & He & Hc). rewrite app_nil_r. unfold on_node. specialize (Hm (node_of w)).
  unfold node_of in *. destruct (m _) as [r [t x]]. unfold at_node in Hm. cbn [w_tick w_st xe_node snd] in *. 
  destruct (Hm Hs) as (Hs' & He' & _). split_and!; [done|by eapply evolves_trans|]. cbn. intros Herr.
  destruct (Hc Herr) as [Hq Hcar]. split; [done|]. exact (lives_carries a said _ _ Hs Hm Hcar).
Qed.
Lemma silent_talks {A} (m : M Node A) : steps at_node m → steps talks (on_node m).
Proof. intros Hm w. exists []. split; [done|by apply silent]. Qed.

Lemma emit_tells wk ty data w : tells [(ty, data)] w (emit wk a ty data w).2.
Proof.
  intros w0 said (Hs & He & Hc). unfold emit, gets, modify, try, mbind, M_bind. cbn [w_st].
  destruct (xe_eventErr (w_st w)) as [err|] eqn:Herr.
  - unfold id. rewrite Herr. split_and!; [done|done|]. cbn. by rewrite Herr.
  - destruct (Hc eq_refl) as [Hq Hcar]. unfold id. rewrite Herr.
    set (s1 := mkEmitting _ _ _). set (w1 := mkWorld (w_tick w) s1).
    assert (Hsend : sending w0 said ty data (node_of w1)) by (split_and!; [done|done|by left]).
    assert (Hid : pretty (xe_sequence (w_st w) + 1)%Z = this_id said) by (unfold this_id; rewrite Hq; f_equal; lia).
    rewrite Hid. unfold on_node.
    set (m := match wk_Outbox wk with
              | Some o => deliver o a (this_id said) ty data
              | None => deliverEvent a (this_id said) ty data
              end).
    assert (Hd : holds (sending w0 said ty data) (arrived said ty data) m).
    { unfold m. destruct (wk_Outbox wk); [by apply deliver_holds|by apply deliverEvent_plain]. }
    specialize (Hd (node_of w1) Hsend). clearbody m. unfold node_of in Hd at 1. cbn [w_tick w_st w1 s1 xe_node] in *.
    destruct (m _) as [r [t x]].
    destruct Hd as [(Hs' & He' & _) Hok]. destruct r as [[]|err]; cbn; split_and!; try done.
    intros _. destruct (Hok eq_refl) as [Hr _]. split; [|exact Hr]. rewrite length_app, Hq. cbn. lia.
Qed.

#[export] Instance talks_ticking : Ticking talks.
Proof.
  intros w k. exists []. split; [done|]. intros w0 said (Hs & He & Hc). rewrite app_nil_r.
  pose proof (ticking (R := lives a) (stored (node_of w)) k) as Hl. destruct (Hl Hs) as (Hs' & He' & _).
  split_and!; [done|by eapply evolves_trans|]. intros Herr. destruct (Hc Herr) as [Hq Hcar]. done.
Qed.
Lemma invoker_talks wk : callbacks_step talks (invoker wk a).1.
Proof.
  constructor; simpl.
  - intros provider r. destruct (wk_Bindings wk) as [bindings|]; [|done]. intros [= <-]. apply silent_talks, at_node_files.
  - intros ty data Hty w. exists [(ty, data)]. split; [by apply Forall_singleton|apply emit_tells].
  - intros reserve key hash r [= <-]. exact (silent_talks _ (at_node_cp _ (alive_cp_Reserve service crowd_ok a Halone a key hash r))).
  - intros finish rsv r cause [= <-]. exact (silent_talks _ (at_node_cp _ (alive_cp_Finish service crowd_ok a Halone a rsv r cause))).
Qed.

(** The execution an executor is given. *)
Definition assigned (a : Assignment) (compiled : CompiledInstructions) (dir : string) : Execution :=
  mkExecution (asg_RunID a) (asg_AttemptID a) (req_AgentID (asg_Request a)) (req_Runtime (asg_Request a))
    (req_Source (asg_Request a)) (req_Input (asg_Request a)) (req_Context (asg_Request a)) compiled dir.
(** What the acts of an executor add to the log: its events, and those of its capability calls where it made them. *)
Inductive tale : list Act → list (string * Any) → Prop :=
  | tale_nil : tale [] []
  | tale_emitted ty data acts l : tale acts l → tale (Emitted ty data :: acts) ((ty, data) :: l)
  | tale_invoked call r events acts l : call_events events → tale acts l → tale (Invoked call r :: acts) (events ++ l)
  | tale_asked request r acts l : tale acts l → tale (Asked request r :: acts) l
  | tale_filed r acts l : tale acts l → tale (Filed r :: acts) l.

Abbreviation Called := (gmap string capabilityCallState * Exec)%type.
Definition exec_of (w : World Called) : World Exec := mkWorld (w_tick w) (w_st w).2.
Lemma on_env_tells {A} (m : M Exec A) l (w : World Called) :
  tells l (exec_of w) (m (exec_of w)).2 → tells l (exec_of w) (exec_of (on_env m w).2).
Proof. unfold on_env, exec_of. by destruct (m _) as [r [t x]]. Qed.
Lemma emit_ok wk ty data w : (emit wk a ty data w).1 = Ok ().
Proof.
  unfold emit, gets, modify, try, mbind, M_bind. cbn. destruct (xe_eventErr _); [done|].
  destruct (on_node _ _) as [[[]|err] w1]; done.
Qed.
Lemma try_bind {S A B} (m : M S A) (k : Res A → M S B) w : (try m ≫= k) w = k (m w).1 (m w).2.
Proof. unfold try, mbind, M_bind. by destruct (m w). Qed.

(** The acts of a run and what they add to the log. *)
Definition told (b : Work) (r : Res Result) (w w' : World Exec) : Prop := ∃ acts l,
  runs b acts r ∧ tells l w w' ∧ tale acts l.
Lemma told_silent b b' r act w1 w2 w3 :
  (∀ acts, runs b' acts r → runs b (act :: acts) r) → (∀ acts l, tale acts l → tale (act :: acts) l) →
  tells [] w1 w2 → told b' r w2 w3 → told b r w1 w3.
Proof.
  intros Hruns Hact Ht (acts & l & Hr & Hl & Hs). exists (act :: acts), l.
  split_and!; [by apply Hruns|exact (tells_trans [] _ _ _ _ Ht Hl)|by apply Hact].
Qed.

Lemma behave_tells wk inv b : callbacks_step talks inv → ∀ w,
  told b (behave wk inv a b w).1 (exec_of w) (exec_of (behave wk inv a b w).2).
Proof.
  intros Hcb. induction b as [r|ty data k IH|call k IH|request polls k IH|m k IH]; intros w; cbn [behave].
  - exists [], []. split_and!; [constructor|apply tells_refl|constructor].
  - unfold mbind, M_bind. pose proof (on_env_tells (emit wk a ty data) [(ty, data)] w (emit_tells wk ty data _)) as Ht.
    pose proof (emit_ok wk ty data (exec_of w)) as Hok. unfold on_env in *. fold (exec_of w) in *.
    destruct (emit wk a ty data (exec_of w)) as [r [t x]]. cbn in Hok. subst r. set (w1 := mkWorld _ _) in *.
    destruct (IH w1) as (acts & l & Hr & Hl & Htale). exists (Emitted ty data :: acts), ((ty, data) :: l).
    split_and!; [by constructor|exact (tells_trans _ _ _ _ _ Ht Hl)|by constructor].
  - rewrite try_bind. destruct (Call_steps talks inv call Hcb w) as (l0 & Hl0 & Ht).
    destruct (IH (Call inv call w).1 (Call inv call w).2) as (acts & l & Hr & Hl & Htale).
    exists (Invoked call (Call inv call w).1 :: acts), (l0 ++ l).
    split_and!; [by constructor|exact (tells_trans _ _ _ _ _ Ht Hl)|by constructor].
  - rewrite try_bind. eapply (told_silent _ _ _ (Asked request _)); [by constructor|by constructor| |apply IH].
    apply on_env_tells, silent, at_node_cp, (alive_Request service crowd_ok a Halone).
  - rewrite try_bind. eapply (told_silent _ _ _ (Filed _)); [by constructor|by constructor| |apply IH].
    apply on_env_tells, silent, at_node_files.
Qed.

Lemma execute_tells wk b w0 w :
  sound (stored w) → evolves w0 (stored w) → carries a 1 [] (log (stored w) (asg_RunID a)) →
  let '(r, w') := execute_work wk a b w in
  sound (stored w') ∧ evolves w0 (stored w') ∧ ∃ executed, r = Ok executed ∧ ∀ result, executed = Ok result →
    ∃ acts said, runs b acts (Ok result) ∧ tale acts said ∧ carries a 1 said (log (stored w') (asg_RunID a)).
Proof.
  intros Hs He Hc. unfold execute_work. pose proof (invoker_talks wk) as Hcb. destruct (invoker wk a) as [inv calls].
  cbn [fst] in Hcb. set (start := mkWorld (w_tick w) (calls, mkEmitting (w_st w) None 0)).
  destruct (behave_tells wk inv b Hcb start) as (acts & l & Hr & Hl & Htale).
  destruct (behave wk inv a b start) as [r w1]. cbn [fst snd] in *.
  destruct (Hl w0 []) as (Hs' & He' & Hc'); [by split_and!|]. split_and!; [exact Hs'|exact He'|].
  eexists. split; [done|]. intros result Hjoin. unfold join_execution in Hjoin.
  change (xe_eventErr (w_st (exec_of w1))) with (xe_eventErr (w_st w1).2) in Hc'.
  destruct (xe_eventErr (w_st w1).2) as [err|]; [by destruct r|]. assert (r = Ok result) as -> by by destruct r. exists acts, l.
  split_and!; [done..|]. exact (proj2 (Hc' eq_refl)).
Qed.

(** ** The reports of the node *)
Lemma at_node_retry n text limit elapsed delay (call : M Node ()) :
  steps at_node call → steps at_node (retry n text limit elapsed delay call).
Proof.
  intros Hc. revert elapsed delay. induction n as [|n IH]; intros elapsed delay; cbn [retry]; [apply steps_raise, _|].
  apply steps_bind; [apply _|by apply steps_try|]. intros r.
  apply steps_bind; [apply _|apply steps_host, _|]. intros [spent ended].
  destruct r as [[]|err]; [apply steps_ret, _|]. destruct (staleEvent err); [apply steps_raise, _|].
  destruct ended; [apply steps_raise, _|]. destruct (_ <=? _)%Z; [apply steps_raise, _|apply IH].
Qed.
Lemma at_node_fail b cause : steps at_node (on_cp (cp_Fail b cause)).
Proof. apply at_node_cp, (alive_cp_Fail service crowd_ok a Halone). Qed.
Lemma at_node_fail_early {A} b cause : steps at_node (fail_early (A := A) b cause).
Proof. unfold fail_early. apply steps_bind; [apply _|apply steps_try, at_node_fail|]. intros _. apply steps_raise, _. Qed.
Lemma at_node_prepare wk b : steps at_node (prepare_workspace wk b).
Proof.
  unfold prepare_workspace. cbv zeta. case_bool_decide; [apply steps_ret, _|].
  destruct (wk_Workspaces wk) as [prepare|]; [|apply at_node_fail_early].
  apply steps_bind; [apply _|apply steps_try, at_node_files|]. intros [prepared|err]; [apply steps_ret, _|apply at_node_fail_early].
Qed.
Lemma at_node_upload b artifacts : steps at_node (upload_all b artifacts).
Proof.
  induction artifacts as [|artifact artifacts IH]; cbn [upload_all]; [apply steps_ret, _|]. case_bool_decide.
  - apply steps_bind; [apply _|exact IH|]. intros rest. apply steps_ret, _.
  - apply steps_bind; [apply _|apply at_node_files|]. intros content.
    apply steps_bind; [apply _|apply at_node_cp, (alive_cp_Upload service crowd_ok a Halone)|]. intros uploaded.
    apply steps_bind; [apply _|exact IH|]. intros rest. apply steps_ret, _.
Qed.
Lemma fail_early_fails {A} b cause w : ∃ e, (fail_early (A := A) b cause w).1 = Err e.
Proof. unfold fail_early. rewrite try_bind. by eexists. Qed.

(** The answer of a call is that of the service, at a moment between others. *)
Lemma over_link_ok {A} (m : M Svc A) w x w' : over_link m w = (Ok x, w') → ∃ n v1 v2,
  v1 = mkWorld (w_tick (meanwhile (crowd_at n) (mkWorld (w_tick w + 1) (w_st w))).2 + 1)
         (w_st (meanwhile (crowd_at n) (mkWorld (w_tick w + 1) (w_st w))).2) ∧
  m v1 = (Ok x, v2) ∧ w' = mkWorld (w_tick v2 + 1) (w_st v2).
Proof.
  unfold over_link, host, try, raise, lift_res, mbind, M_bind. cbn [w_tick w_st].
  set (v := mkWorld _ _). destruct (meanwhile (crowd_at (w_tick w)) v) as [r0 v0] eqn:Hm.
  assert (r0 = Ok ()) as -> by (unfold meanwhile in Hm; by injection Hm as <- <-).
  destruct (request_lost (w_tick v0)); [done|]. destruct (m _) as [r v2] eqn:Hr. destruct (answer_lost (w_tick v2)); [done|].
  intros [= -> <-]. exists (w_tick w). fold v. rewrite Hm. cbn [snd]. by eexists _, v2.
Qed.

(** The run is stored as succeeded, with this result. *)
Definition finished (result : Result) (w : World Node) : Prop := ∃ r old,
  ms_runs (w_st (stored w)) !! asg_RunID a = Some r ∧ run_Status r = RunSucceeded ∧ run_Result r = Some old ∧
  SameValue (AnyResult old) (AnyResult result) = true ∧ att_LeaseToken (run_Attempt r) = asg_LeaseToken a.
Definition carrying (w0 : World MemoryStorage) (said : list (string * Any)) (w : World Node) : Prop :=
  sound (stored w) ∧ evolves w0 (stored w) ∧ carries a 1 said (log (stored w) (asg_RunID a)).
Lemma carrying_on w0 said w w' : at_node w w' → carrying w0 said w → carrying w0 said w'.
Proof.
  intros Hl (Hs & He & Hc). destruct (Hl Hs) as (Hs' & He' & _). split_and!; [done|by eapply evolves_trans|].
  exact (lives_carries a said _ _ Hs Hl Hc).
Qed.

Lemma complete_holds w0 said result :
  holds (carrying w0 said) (finished result) (retryFinalReport (on_cp (cp_Complete a result))).
Proof.
  unfold retryFinalReport. apply holds_retry.
  - intros w k. apply carrying_on, at_node_aside, aside_tick.
  - intros w k. by destruct w.
  - intros w Hi. pose proof (at_node_cp _ (alive_cp_Complete service crowd_ok a Halone a result) w) as Hl.
    pose proof (carrying_on w0 said _ _ Hl Hi) as Hi'. unfold on_cp in *. fold (cp_of w) in *.
    destruct (cp_Complete a result (cp_of w)) as [r w1] eqn:Hc. split; [exact Hi'|].
    destruct r as [[]|err]; [|done]. intros _. cbn [cp_Complete the_link linked] in Hc.
    apply over_link_ok in Hc as (n & v1 & v2 & Hv1 & Hm & ->). unfold Service.Complete, on_storage in Hm.
    assert (Hs1 : sound (storage_of v1)).
    { pose proof (alive_meanwhile crowd_ok a Halone n (mkWorld (w_tick (cp_of w) + 1) (w_st (cp_of w)))) as Hx.
      destruct Hi as (Hs & _). destruct (ticking (R := lives_at a) (cp_of w) 1 Hs) as (Hs' & _).
      destruct (Hx Hs') as (Hs2 & _). rewrite Hv1. by destruct (ticking (R := lives_at a) _ 1 Hs2) as (? & _). }
    pose proof (completed (storage_of v1) a result (proj1 Hs1)) as Hdone.
    change (st_Complete a result) with (Memory.Complete a result) in Hm. fold (storage_of v1) in Hm.
    destruct (Memory.Complete a result (storage_of v1)) as [r2 v3]. injection Hm as -> <-.
    destruct (Hdone eq_refl) as (r & old & Hr & Hph & Hres & Hsame & Hlease). exists r, old.
    apply lease_matches_spec in Hlease as (_ & _ & Hlease). injection Hph as Hst _.
    split_and!; [exact Hr|done|done| |done]. destruct Hsame as [->|?]; [apply SameValue_refl|done].
Qed.

Lemma acknowledge_cancelled reported w run w' : acknowledge a reported w = (Ok run, w') → run_Status run = RunCancelled.
Proof.
  unfold acknowledge. rewrite try_bind. destruct (on_cp _ w) as [[[]|err] w1]; cbn [fst snd].
  - by intros [= <- _].
  - destruct (negb _); [done|]. by intros [= <- _].
Qed.
Lemma failRun_cancelled keeper cause w run w' : failRun a keeper cause w = (Ok run, w') → run_Status run = RunCancelled.
Proof.
  unfold failRun. rewrite try_bind. unfold host, mbind at 1, M_bind at 1. destruct (_ || _); [apply acknowledge_cancelled|].
  by destruct (is_ok _).
Qed.

(** What a success of an execution means. *)
Definition delivered (b : Work) (said : list (string * Any)) (result : Result) (artifacts : list Artifact) (run : Run) (w : World Node) : Prop :=
  let reported := mkResult (res_Summary result) (res_Output result) artifacts in
  ∃ acts, runs b acts (Ok result) ∧ tale acts said ∧ carries a 1 said (log (stored w) (asg_RunID a)) ∧
    run = succeededRun a reported ∧ finished reported w.

Lemma started_delivers wk keeper b w0 w run w' :
  carrying w0 [] w → run_started wk keeper a b w = (Ok run, w') → run_Status run = RunSucceeded →
  ∃ said result artifacts, delivered b said result artifacts run w' ∧ sound (stored w') ∧ evolves w0 (stored w').
Proof.
  intros (Hs & He & Hc) Hrun Hst. unfold run_started, mbind at 1, M_bind at 1 in Hrun.
  pose proof (execute_tells wk b w0 w Hs He Hc) as Hx. destruct (execute_work wk a b w) as [r w1].
  destruct Hx as (Hs1 & He1 & executed & -> & Hex). destruct executed as [result|cause].
  2: { apply failRun_cancelled in Hrun. congruence. }
  destruct (Hex result eq_refl) as (acts & said & Hacts & Htale & Hcar). rewrite try_bind in Hrun.
  pose proof (carrying_on w0 said _ _ (at_node_upload a (res_Artifacts result) w1) (conj Hs1 (conj He1 Hcar))) as Hi.
  destruct (upload_all a (res_Artifacts result) w1) as [[artifacts|cause] w2]; cbn [fst snd] in *.
  2: { apply failRun_cancelled in Hrun. congruence. }
  unfold completeRun in Hrun. rewrite try_bind in Hrun.
  pose proof (complete_holds w0 said (mkResult (res_Summary result) (res_Output result) artifacts) w2 Hi) as Hd.
  destruct (retryFinalReport _ w2) as [r w3]. destruct Hd as [Hi3 Hfin]. cbn [fst snd] in *.
  unfold host, mbind at 1, M_bind at 1 in Hrun. cbn [w_tick w_st] in Hrun.
  destruct (_ || _); [apply acknowledge_cancelled in Hrun; congruence|].
  destruct r as [[]|err]; [|done]. injection Hrun as <- <-.
  pose proof (carrying_on w0 said _ _ (at_node_aside _ _ (aside_tick w3 1)) Hi3) as (Hs4 & He4 & Hc4).
  exists said, result, artifacts. split_and!; [|done..]. exists acts. split_and!; [done..|]. exact (Hfin eq_refl).
Qed.

Lemma prepared_delivers wk keeper executor dir w0 w run w' :
  carrying w0 [] w → run_prepared wk keeper a executor dir w = (Ok run, w') → run_Status run = RunSucceeded →
  ∃ compiled said result artifacts, node_compile wk a = Ok compiled ∧
    delivered (executor (assigned a compiled dir)) said result artifacts run w' ∧ sound (stored w') ∧ evolves w0 (stored w').
Proof.
  intros Hi Hrun Hst. unfold run_prepared in Hrun. destruct (node_compile wk a) as [compiled|err].
  2: { destruct (fail_early_fails (A := Run) a err w) as [e He]. rewrite Hrun in He. done. }
  rewrite try_bind in Hrun. pose proof (at_node_cp _ (alive_cp_Start service crowd_ok a Halone a) w) as Hl.
  change (cp_Start (ControlPlane := linked service) a) with (cp_Start (ControlPlane := the_link) a) in Hl.
  pose proof (carrying_on w0 [] _ _ Hl Hi) as Hi1. destruct (on_cp (cp_Start a) w) as [[[]|err] w1]; cbn [fst snd] in *.
  - destruct (started_delivers _ _ _ _ _ _ _ Hi1 Hrun Hst) as (said & result & artifacts & Hd). by exists compiled, said, result, artifacts.
  - destruct (errors_Is err ErrRunCancelled); [|done]. unfold mbind, M_bind in Hrun.
    destruct (on_cp _ w1) as [[[]|err'] w2]; [|done]. injection Hrun as <- _. done.
Qed.
End delivery.

(** ** From the claim to the end *)
Section properties.
Context `{HostLaws} `{!IDLaws} `{Encoder} `{Semver} `{Faults} `{Durations} `{Link} (service : Options) `{RecordCodec}.
Hypothesis crowd_ok : ∀ n, ops_ok (crowd_at n).
#[local] Hint Extern 0 (ControlPlane Svc) => exact (the_link service) : typeclass_instances.

Lemma sound_tick w k : sound w → sound (mkWorld (w_tick w + k) (w_st w)).
Proof. intros Hs. by destruct (ticking (R := lives (mkAssignment "" "" "" 0 zero)) w k Hs). Qed.
Lemma foreign_carries a es : Forall (foreign a) es → carries a 1 [] es.
Proof. induction 1; by constructor. Qed.

(** A new lease has no events yet. *)
Lemma claimed_fresh node w a w' :
  sound (storage_of w) → over_link (Service.Claim service node) w = (Ok a, w') →
  sound (storage_of w') ∧ sworn a ∧ carries a 1 [] (run_log a w') ∧
  ms_requests (w_st (storage_of w')) !! asg_RunID a = Some (asg_Request a).
Proof.
  intros Hs Hc. apply over_link_ok in Hc as (n & v1 & v2 & Hv1 & Hm & ->).
  assert (Hs1 : sound (storage_of v1)).
  { rewrite Hv1. apply (sound_tick (storage_of (meanwhile _ _).2)). apply (sound_tick _ 1) in Hs.
    destruct (play_sound (crowd_at n) (crowd_ok n) (storage_of (mkWorld (w_tick w + 1) (w_st w))) Hs) as [Hp _].
    unfold meanwhile, storage_of in *. cbn in *. by destruct (play _ _). }
  unfold Service.Claim, on_storage in Hm. fold (storage_of v1) in Hm.
  change (st_Claim node (opt_LeaseTTL service)) with (Memory.Claim node (opt_LeaseTTL service)) in Hm.
  pose proof (wp_Claim (storage_of v1) node (opt_LeaseTTL service) (proj1 Hs1)) as Hclaim. unfold wp in Hclaim.
  pose proof (quiet_exec (OpClaim node (opt_LeaseTTL service)) eq_refl (storage_of v1)) as Hq. cbn [exec] in Hq.
  rewrite then_ret in Hq. destruct (Memory.Claim node _ (storage_of v1)) as [r v3]. injection Hm as -> <-.
  destruct Hclaim as ((Hi3 & He3 & _) & now & Hcl). cbn [fst snd] in *.
  assert (Hs3 : sound v3).
  { split; [done|]. eapply named_mono; [apply Hs1|apply (evo_tick _ _ He3)|]. intros id e. by apply quiet_in. }
  destruct (cl_run _ _ _ _ _ _ Hcl) as (r & Hr & _ & _ & _ & Hatt & _). pose proof (cl_fresh _ _ _ _ _ _ Hcl) as Hfresh.
  destruct (inv_runs _ Hi3 _ _ Hr) as [_ Hok].
  assert (Hsw : sworn a).
  { split; [rewrite <- Hatt; by apply (issued_plain "attempt" 0 (w_tick v3)), (ok_attempt _ _ Hok)|].
    by eapply (issued_plain "lease"); [|exact Hfresh]. }
  split_and!; [exact (sound_tick v3 1 Hs3)|done| |exact (cl_request _ _ _ _ _ _ Hcl)].
  apply foreign_carries, Forall_forall. intros e Hin k Hk. change (e ∈ log v3 (asg_RunID a)) in Hin.
  destruct (quiet_in _ _ _ _ Hq Hin) as [Hold|Hown]; [|by apply (own_foreign a e Hown k)].
  destruct (proj2 Hs1 _ e Hold) as [Hown|(att & lease & ids & Hid & Hpa & Hpl & Hiss)]; [by apply (own_foreign a e Hown k)|].
  rewrite Hk in Hid. destruct Hsw as [Hsa Hsl]. unfold event_name in Hid.
  destruct (identity_split _ _ _ _ _ _ Hsa Hsl Hpa Hpl (pretty_Z_not_empty _) Hid) as (_ & Hlease & _).
  by apply (issued_disjoint "lease" 0 (w_tick (storage_of v1)) (w_tick v3) lease (asg_LeaseToken a)).
Qed.

(** A success, from the claim to the report. *)
Lemma run_delivered (wk : Worker) keeper (w w' : World (NodeState Svc)) run :
  reachable (stored w) →
  (∀ a w1, on_cp (cp_Claim (reg_ID (wk_Registration wk))) w = (Ok a, w1) → ∀ n, Forall (aside a) (crowd_at n)) →
  RunOnce wk keeper w = (Ok run, w') → run_Status run = RunSucceeded →
  ∃ a executors executor compiled dir said result artifacts,
    wk_Executors wk = Some executors ∧ executors (rr_Provider (req_Runtime (asg_Request a))) = Some executor ∧
    ms_requests (w_st (stored w')) !! asg_RunID a = Some (asg_Request a) ∧ node_compile wk a = Ok compiled ∧
    delivered a (executor (assigned a compiled dir)) said result artifacts run w'.
Proof.
  intros Hreach Hsecret Hrun Hst. apply reachable_sound in Hreach. unfold RunOnce in Hrun.
  destruct (wk_ControlPlane wk); [|done]. destruct (wk_Executors wk) as [executors|]; [|done].
  unfold mbind at 1, M_bind at 1 in Hrun. destruct (on_cp (cp_Claim _) w) as [[a|err] w1] eqn:Hclaim; [|done].
  specialize (Hsecret a w1 eq_refl). unfold on_cp in Hclaim. fold (cp_of w) in Hclaim.
  destruct (cp_Claim _ (cp_of w)) as [[a'|err] v1] eqn:Hc; [|done]. injection Hclaim as -> <-.
  destruct (claimed_fresh _ _ _ _ Hreach Hc) as (Hs1 & Hsw & Hcar & Hreq). pose proof (conj Hsw Hsecret : alone a) as Halone.
  cbv zeta in Hrun. destruct (executors _) as [executor|] eqn:Hex.
  2: { unfold fail_early in Hrun. rewrite try_bind in Hrun. done. }
  set (w1 := mkWorld (w_tick v1) _) in *. assert (Hv1 : cp_of w1 = v1) by (unfold w1, cp_of; by destruct v1).
  assert (Hi1 : carrying a (stored w1) [] w1).
  { split_and!; [|apply evolves_refl|]; unfold stored; rewrite Hv1; [exact Hs1|exact Hcar]. }
  unfold mbind at 1, M_bind at 1 in Hrun.
  pose proof (carrying_on a _ [] _ _ (at_node_prepare service crowd_ok a Halone wk a w1) Hi1) as Hi2.
  destruct (prepare_workspace wk a w1) as [[[dir cleanup]|err] w2]; [|done]. cbn [fst snd] in *.
  rewrite try_bind in Hrun. destruct (run_prepared wk keeper a executor dir w2) as [r w3] eqn:Hprep. cbn [fst snd] in Hrun.
  rewrite try_bind in Hrun. pose proof (on_files_aside cleanup w3) as [_ Hcp]. destruct (on_files cleanup w3) as [r' w4].
  cbn [fst snd] in *. unfold lift_res in Hrun. injection Hrun as -> <-.
  destruct (prepared_delivers service crowd_ok a Halone _ _ _ _ _ _ _ _ Hi2 Hprep Hst) as
    (compiled & said & result & artifacts & Hcomp & Hd & _ & He3).
  exists a, executors, executor, compiled, dir, said, result, artifacts. split_and!; [done|done| |done|].
  - unfold stored, cp_of, storage_of. cbn. rewrite Hcp. apply (lookup_weaken _ _ _ _ Hreq).
    etrans; [|exact (evo_requests _ _ He3)]. unfold stored. by rewrite Hv1.
  - unfold delivered, finished, stored, cp_of, storage_of, log in *. cbn in *. by rewrite Hcp.
Qed.

(** C6: a success is delivered whole.  A worker reaches its control plane over a
    connection that loses any requests and answers, while others use the service
    in any way but under the token of the worker's lease; it may keep an outbox and
    its disk may fail.  When [RunOnce] returns a run as succeeded, then its executor
    had returned the result, for the request as it was submitted; the run is stored
    as succeeded with this result; and the log of the run shows what the execution
    reported (the executor's events and the capability calls): each event once, in
    order, under the names 1, 2, 3, ... of this lease, between the events of the
    control plane, and no other event under a name of the lease. *)
Theorem success_delivered (wk : Worker) keeper (w w' : World (NodeState Svc)) run :
  reachable (stored w) →
  (∀ a w1, on_cp (cp_Claim (reg_ID (wk_Registration wk))) w = (Ok a, w1) → ∀ n, Forall (aside a) (crowd_at n)) →
  RunOnce wk keeper w = (Ok run, w') → run_Status run = RunSucceeded →
  ∃ a executors executor compiled dir said result artifacts,
    wk_Executors wk = Some executors ∧ executors (rr_Provider (req_Runtime (asg_Request a))) = Some executor ∧
    ms_requests (w_st (stored w')) !! asg_RunID a = Some (asg_Request a) ∧ node_compile wk a = Ok compiled ∧
    delivered a (executor (assigned a compiled dir)) said result artifacts run w'.
Proof. apply run_delivered. Qed.
End properties.

(** ** What a runtime says *)
Lemma same_summary `{Host} `{EncoderLaws} r r' : SameValue (AnyResult r) (AnyResult r') = true → res_Summary r = res_Summary r'.
Proof.
  pose (summary := λ j, match j with JObj l => obj_map l !! "summary" | _ => None end).
  assert (Hl : ∀ r, summary (canon (json_Result r)) = Some (JStr (res_Summary r))).
  { intros [text output artifacts]. unfold summary, json_Result. cbn [canon]. rewrite obj_map_members.
    by destruct output, artifacts. }
  intros Heq%SameValue_true. apply (f_equal summary) in Heq. rewrite !Hl in Heq. by injection Heq.
Qed.

(** What the agent said in the events of a log. *)
Definition words (said : list (string * Any)) : string := spoken (map (λ p, Emitted p.1 p.2) said).
Lemma words_calls events : call_events events → words events = "".
Proof.
  unfold words. induction 1 as [|[ty data] events Hty _ IH]; [done|]. cbn [map spoken]. rewrite IH, str_app_nil_r. cbn in *.
  destruct data as [|[]|]; try done. destruct l as [|[member []] []]; try done.
  repeat (apply elem_of_cons in Hty as [->|Hty]; [done|]). by apply elem_of_nil in Hty.
Qed.
Lemma words_tale acts l : tale acts l → words l = spoken acts.
Proof.
  unfold words. induction 1 as [|ty data acts l _ IH|call r events acts l Hev _ IH|request r acts l _ IH|r acts l _ IH]; cbn [map spoken];
    [done|by rewrite IH| |done|done].
  rewrite map_app, spoken_app, IH. by fold (words events); rewrite (words_calls events Hev).
Qed.

Section spoken.
Context `{HostLaws} `{!IDLaws} `{EncoderLaws} `{Semver} `{Faults} `{Durations} `{Link} `{RecordCodec}
  `{TimeParser} `{JsonParser} `{Floats} `{Environment} `{Pipes} (service : Options)
  (range : gmap string string → list string) (address : string).
Hypothesis crowd_ok : ∀ n, ops_ok (crowd_at n).
#[local] Hint Extern 0 (ControlPlane Svc) => exact (the_link service) : typeclass_instances.

(** A runtime of the node's file that speaks the protocol of app servers. *)
Definition app_server (item : runtimeConfig) : Prop := isCodex item || isTrae item = true ∧ rc_Protocol item = "app-server".

Lemma fork_spoken order config execution fork acts result :
  cf_Protocol config = "app-server" → runs (ExecuteFork order config execution fork) acts (Ok result) →
  spoken acts ≠ "" ∧ res_Summary result = TrimSpace (spoken acts).
Proof.
  intros Hp. unfold ExecuteFork. cbv zeta.
  destruct (rr_Model (ex_Runtime execution) =s ""); cbn [cf_Protocol]; change (cf_Protocol (config <| cf_Model := _ |>)) with (cf_Protocol config);
    rewrite Hp; intros (_ & _ & Hs)%turn_success; exact Hs.
Qed.
Lemma executor_spoken item execution acts result :
  app_server item → runs (executor_of range address item execution) acts (Ok result) →
  spoken acts ≠ "" ∧ res_Summary result = TrimSpace (spoken acts).
Proof.
  intros [Hk Hp]. unfold executor_of. destruct (isCodex item); [by apply fork_spoken|]. cbn in Hk. rewrite Hk.
  unfold trae_Execute. cbv zeta. destruct (_ && _ && _); [by inversion 1|]. apply fork_spoken.
  by destruct (_ =s _); destruct (_ =s _).
Qed.
Lemma executors_of_inv items provider executor :
  executors_of range address items !! provider = Some executor → ∃ item, item ∈ items ∧ executor = executor_of range address item.
Proof.
  unfold executors_of. induction items as [|item items IH] using rev_ind; [done|]. rewrite foldl_app. simpl.
  intros [[_ <-]|[_ Hl]]%lookup_insert_Some; [exists item; split; [set_solver|done]|].
  destruct (IH Hl) as (i & Hi & ->). exists i. split; [set_solver|done].
Qed.

(** C7: what the log says is what the result says.  A node whose runtimes are app
    servers of codex or trae is connected as in [success_delivered].  When it
    returns a run as succeeded, then the summary of the stored result is the text
    of the messages that its agent spoke, as the events of the lease in the log of
    the run have them: a host that follows the events over a lossy connection has
    read what a host reads that waits for the result. *)
Theorem summary_as_spoken (items : list runtimeConfig) (wk : Worker) keeper (w w' : World (NodeState Svc)) run :
  wk_Executors wk = Some (λ provider, executors_of range address items !! provider) →
  (∀ item, item ∈ items → app_server item) →
  reachable (stored w) →
  (∀ a w1, on_cp (cp_Claim (reg_ID (wk_Registration wk))) w = (Ok a, w1) → ∀ n, Forall (aside a) (crowd_at n)) →
  RunOnce wk keeper w = (Ok run, w') → run_Status run = RunSucceeded →
  ∃ a said r result,
    ms_runs (w_st (stored w')) !! run_ID run = Some r ∧ run_Status r = RunSucceeded ∧ run_Result r = Some result ∧
    run_ID run = asg_RunID a ∧ att_LeaseToken (run_Attempt r) = asg_LeaseToken a ∧ carries a 1 said (log (stored w') (run_ID run)) ∧
    words said ≠ "" ∧ res_Summary result = TrimSpace (words said).
Proof.
  intros Hex Hitems Hreach Hsecret Hrun Hst.
  destruct (run_delivered service crowd_ok wk keeper w w' run Hreach Hsecret Hrun Hst) as
    (a & executors & executor & compiled & dir & said & result & artifacts & Hwk & Hp & _ & _ & acts & Hr & Ht & Hc & -> & r & old & Hold & Hs & Hres & Hsame & Hlease).
  rewrite Hex in Hwk. injection Hwk as <-. apply executors_of_inv in Hp as (item & Hin & ->).
  apply executor_spoken in Hr as [Hne Hsum]; [|by apply Hitems]. apply same_summary in Hsame.
  exists a, said, r, old. rewrite (words_tale _ _ Ht), Hsame. by split_and!.
Qed.
End spoken.

(** ** A lossy connection *)
#[export] Instance demo_ids : IDLaws.
Proof.
  constructor; [|intros x y He; exact He]. intros n.
  exact (digits_free nul_char 0 (pretty (N.of_nat n)) (N.of_nat n) eq_refl (digits_pretty (N.of_nat n))).
Qed.

Definition progress : list (string * Any) := [("progress", AnyJson (JStr "half")); ("progress", AnyJson (JStr "all"))].
Definition teller : Work := foldr (λ said k, Emit said.1 said.2 k) (Return (Ok demo_result)) progress.
Definition lossy_worker : Worker :=
  mkWorker demo_registration true None (Some (λ provider, if provider =s "codex" then Some (λ _, teller) else None)) None None
    (Some (mkOutbox "/outbox" 100000)).
(** The answer to the first event is lost, later a request; another submits a run, and one guesses a token. *)
#[local] Instance lossy_link : Link := {|
  crowd_at n := if (n =? 38)%nat then [OpSubmit (demo_request "other" ""); OpNodes]
                else [OpAppendEvent the_run "attempt_3" "lease_9" "noise" AnyNil ["1"]];
  request_lost n := if (n =? 65)%nat then Some unavailable else None;
  answer_lost n := if (n =? 43)%nat then Some unavailable else None |}.
Definition lossy_world : World (NodeState Svc) := mkWorld (w_tick queued) (mkNodeState ∅ (mkService (w_st queued) ∅)).
Definition lossy_options : Options := mkOptions 1000 1000.
#[local] Hint Extern 0 (ControlPlane Svc) => exact (the_link lossy_options) : typeclass_instances.
Definition lossy : Res Run * World (NodeState Svc) := RunOnce lossy_worker (λ _, None) lossy_world.
Definition lossy_run : Run := ok_of no_run lossy.1.

Example lossy_lease : (asg_LeaseToken <$> match (on_cp (cp_Claim "node") lossy_world).1 with Ok a => Some a | Err _ => None end) = Some "lease_13".
Proof. vm_compute. reflexivity. Qed.
Example lossy_log : map ev_Type (log (stored lossy.2) the_run) =
  ["run.created"; "attempt.queued"; "attempt.leased"; "attempt.started"; "run.started"; "progress"; "progress";
   "attempt.succeeded"; "run.succeeded"].
Proof. vm_compute. reflexivity. Qed.
Lemma lossy_reachable : reachable (stored lossy_world).
Proof.
  assert (stored lossy_world = queued) as ->.
  { unfold stored, cp_of, storage_of, lossy_world. cbn [w_tick w_st nd_cp sv_storage]. by destruct queued. }
  demo_reach.
Qed.
Lemma lossy_ops n : ops_ok (crowd_at n).
Proof. unfold crowd_at, lossy_link. destruct (n =? 38)%nat; repeat constructor. Qed.
Lemma lossy_secret a w1 : on_cp (cp_Claim "node") lossy_world = (Ok a, w1) → ∀ n, Forall (aside a) (crowd_at n).
Proof.
  intros Hc n. pose proof lossy_lease as Hl. rewrite Hc in Hl. injection Hl as Ht.
  unfold crowd_at, lossy_link. destruct (n =? 38)%nat; repeat constructor. cbn. by rewrite Ht.
Qed.
Lemma success_delivered_witness :
  ∃ a executors executor compiled dir said result artifacts,
    wk_Executors lossy_worker = Some executors ∧ executors (rr_Provider (req_Runtime (asg_Request a))) = Some executor ∧
    ms_requests (w_st (stored lossy.2)) !! asg_RunID a = Some (asg_Request a) ∧ node_compile lossy_worker a = Ok compiled ∧
    delivered a (executor (assigned a compiled dir)) said result artifacts lossy_run lossy.2.
Proof.
  apply (success_delivered lossy_options) with (keeper := λ _, None) (w := lossy_world).
  - exact lossy_ops.
  - exact lossy_reachable.
  - exact lossy_secret.
  - vm_compute. reflexivity.
  - vm_compute. reflexivity.
Defined.

(** The worker of a node with one app server, over the same connection. *)
Definition app_runtime : runtimeConfig :=
  zero_runtimeConfig <| rc_Provider := "codex" |> <| rc_Protocol := "app-server" |> <| rc_WorkRoot := "/w" |>.
Definition speaking_worker : Worker :=
  mkWorker demo_registration true None (Some (λ provider, executors_of (λ _, []) "127.0.0.1:4000" [app_runtime] !! provider))
    None None (Some (mkOutbox "/outbox" 100000)).
Definition spoke : Res Run * World (NodeState Svc) := RunOnce speaking_worker (λ _, None) lossy_world.
Definition spoke_run : Run := ok_of no_run spoke.1.

Example spoke_log : filter (λ ty, HasPrefix ty "assistant." = true) (map ev_Type (log (stored spoke.2) the_run)) =
  ["assistant.message.delta"; "assistant.message.delta"].
Proof. vm_compute. reflexivity. Qed.
Lemma summary_as_spoken_witness :
  ∃ a said r result,
    ms_runs (w_st (stored spoke.2)) !! run_ID spoke_run = Some r ∧ run_Status r = RunSucceeded ∧ run_Result r = Some result ∧
    run_ID spoke_run = asg_RunID a ∧ att_LeaseToken (run_Attempt r) = asg_LeaseToken a ∧ carries a 1 said (log (stored spoke.2) (run_ID spoke_run)) ∧
    words said ≠ "" ∧ res_Summary result = TrimSpace (words said).
Proof.
  apply (summary_as_spoken lossy_options (λ _, []) "127.0.0.1:4000") with
    (items := [app_runtime]) (wk := speaking_worker) (keeper := λ _, None) (w := lossy_world).
  - exact lossy_ops.
  - reflexivity.
  - intros item ->%list_elem_of_singleton. by split.
  - exact lossy_reachable.
  - exact lossy_secret.
  - vm_compute. reflexivity.
  - vm_compute. reflexivity.
Defined.
